(* ===== verification/_CoqProject ===== *)
-Q . S2P
Prelude.v
Effects.v
Partial.v
Zcbor.v
ZcborProps.v
ZcborRound.v
ZcborEncode.v
SerialFrame.v
SerialFrameProps.v
SerialAdapter.v
SerialAdapterProps.v
SerialLibDemo.v
FlashMap.v
SimFlash.v
AnyFlash.v
Uf2.v
Uf2Tags.v
Uf2Route.v
Uf2Process.v
Uf2Transfer.v
GhostFat.v
GhostFatProps.v
Uf2Disk.v
Uf2DiskProps.v
BootConfig.v
Trailer.v
TrailerProps.v
SwapState.v
SwapStateProps.v
Area.v
AreaProps.v
Image.v
ImageProps.v
Tlv.v
TlvProps.v
LoaderState.v
Sectors.v
Validate.v
ValidateProps.v
SwapMisc.v
BootLoop.v
MultiImage.v
Serial.v
SerialImages.v
SerialUpload.v
DirectXip.v
SerialConsole.v
SerialSession.v
SerialProps.v
RamLoad.v
SwapOffset.v
SwapHeaders.v
SwapMove.v
SwapScratch.v
FlashKeeps.v
SwapScratchProps.v
AlgoKeeps.v
SecureBoot.v
XipProps.v
DependencyProps.v
XipSecure.v
RamLoadProps.v
LoaderProps.v
SwapOffsetProps.v
SwapHeaderProps.v
Journal.v
SwapTrailer.v
SwapRecover.v
SwapMoveProps.v
SwapMoveRecover.v
BootDemo.v
SwapDemo.v
MoveDemo.v
LoopDemo.v
ModeDemo.v
ValidateDemo.v
XipDemo.v
SerialDemo.v
