(* ===== verification/Prelude.v ===== *)
(** * Adaboot: a verification library

    Adaboot is a fork of the MCUboot boot loader.  The sources under src/ fall
    into four layers.

    - bootutil (src/boot/bootutil): slots with an image, its TLV records and a
      trailer at the end; the trailers of a slot pair decide which swap the next
      boot performs, and the application requests upgrades by writing them.
    - UF2 (src/boot/boot_uf2, src/boot/zephyr/uf2_disk.c): a USB disk on which
      the host sees a small FAT volume; UF2 blocks written to it are routed to
      flash regions, and CURRENT.UF2 reads a region back.
    - serial recovery (src/boot/boot_serial, src/boot/zcbor,
      src/boot/zephyr/serial_adapter.c): a client on a serial line lists, uploads and
      selects images.  Interrupts collect lines, lines make packets, packets hold CBOR
      messages, and messages call the functions of bootutil on the slots.
    - platform code: flash drivers, start-up, USB, ports.

    ** Conventions

    Machine integers are [Z]; 32-bit arithmetic is written [⊕], [⊖], [⊗] (reduced
    modulo [2^32]), 8- and 16-bit truncation [u8], [u16].  Buffers are lists of
    bytes with [slice] and [splice].  Code with effects lives in the monad [M W]
    of Effects.v over a world [W]; an execution returns, is cut by a reset,
    aborts in an assertion, accesses memory out of bounds, or exceeds a loop
    bound.  [wp c Q C w] says that [c] started in [w] returns in [Q] or is reset
    in [C], and excludes the other outcomes, so each triple includes
    termination.  Loops carry fuel computed from their own bounds (the size of
    the area, the length of the section, the number of sectors); the triples show
    that it suffices.  Code outside src/ is a class: [FlashMap] (the flash driver,
    with the laws [FlashMapOk]), [Zephyr] (device queries), [BootConfig] (build
    options); for serial recovery [SerialLib] (checksum and base64, with the laws
    [SerialLibOk]), [Uart] (the line and the clock, [UartOk]), [SysSlist] (linked lists,
    [SysSlistOk]), [Peruser] (commands of the application) and the options
    [ZcborConfig], [FrameConfig], [SerialConfig], [ConsoleConfig], [AdapterConfig].  The
    laws are implemented by the simulator of the repository or by concrete functions,
    and all theorems with hypotheses are applied there to concrete contents.  The loops
    of the CBOR decoder have the bytes left of the message as fuel; the console loop of
    serial recovery, which need not end, takes its number of rounds as an argument.

    ** Files

    - Prelude.v: integers, alignment macros (bootutil_macros.h), buffers,
      little-endian encodings, tactics.
    - Effects.v: the monad, loops, [wp] and its rules.  Partial.v: what a computation
      that returns has done, for code run on contents nothing is known of.
    - FlashMap.v: flash_map_backend.h as a class with laws: contents of an area
      are cells with a "still erased" flag, sectors, write alignment, resets.
    - SimFlash.v: the simulated device (sim/simflash/src/lib.rs) and
      flash map (sim/mcuboot-sys/csupport/run.c), proved to satisfy the laws.
    - AnyFlash.v: the flash of which only the types of its contents are known, for
      statements about arbitrary contents; the simulator is one.
    - Zcbor.v: the CBOR library (zcbor_decode.c, zcbor_encode.c, zcbor_common.c,
      zcbor_bulk.c), as far as the loader calls it.  ZcborProps.v: the decoder ends and
      stays in the message on any bytes.  ZcborRound.v: the encoding of RFC 8949, and what
      the decoder makes of an item and of a map with known keys.  ZcborEncode.v: the
      encoders write that encoding; a map that is encoded is read back, and the decoder
      is safe on any bytes.
    - SerialFrame.v, SerialFrameProps.v: packets in lines of base64 (boot_serial.c,
      boot_serial_priv.h); a message that is sent is received.
    - SerialAdapter.v, SerialAdapterProps.v: the console (serial_adapter.c): the handler of
      interrupts and the reader share buffers through two queues; they implement a queue
      of lines, or a stream of bytes for the raw protocol, for any order of interrupts and
      reads, and lose nothing while the loader keeps up.
    - SerialLibDemo.v: CRC-16, base64 and a small console, with the laws asked for.
    - Uf2.v: boot_uf2.c and boot_uf2.h.  Uf2Tags.v: the extension-tag scan stays in
      the block and returns the first matching record.  Uf2Route.v: routing of a
      block equals a reference.  Uf2Process.v: one block, with the contract
      [Uf2Flash] of the flash callbacks; a wrapped payload size reads out of
      bounds.  Uf2Transfer.v: a whole file in any order, with repetitions and
      foreign blocks, ends up in flash and is reported complete exactly then.
    - GhostFat.v, GhostFatProps.v: ghostfat.c; boot sector, directory and
      allocation table describe the files served, CURRENT.UF2 parses back to the
      flash contents; three size defects.
    - Uf2Disk.v, Uf2DiskProps.v: uf2_disk.c; registration builds consistent tables,
      the callbacks satisfy [Uf2Flash], host writes of a file reach flash.
    - BootConfig.v: options and constants of bootutil.
    - Trailer.v, TrailerProps.v: trailer sizes and offsets, readers and writers
      (bootutil_misc.h, bootutil_misc.c, bootutil_public.c); the fields tile the
      slot end, each writer updates one field, round trips.
    - SwapState.v, SwapStateProps.v: swap tables, [boot_swap_type_multi],
      [boot_set_next] (both variants), pending and confirmed requests; the table
      scan is a decision on the trailers, requests have the intended effect also
      across resets.
    - Area.v, AreaProps.v: bootutil_area.c; an erase covers exactly the sectors
      touched, scrambling upwards covers the region, scrambling downwards on a
      device without erase misses the lowest write block.
    - Image.v, ImageProps.v: image.h, header checks, checked additions, version
      comparison.
    - Tlv.v, TlvProps.v: tlv.c; searches stay in their section on any contents and
      are complete on well-formed areas.
    - LoaderState.v, LoaderProps.v: loader state and boot status
      (bootutil_priv.h), status entries and region copy (loader.c); what a copy, an
      erase-and-copy and a status write change, and what a reset leaves.
    - Sectors.v: opening of the flash areas and the sector tables (bootutil_loader.c,
      bootutil_misc.c), and the class [SwapAlgo], the interface between the boot loop and a
      swap algorithm.
    - Validate.v: image_validate.c, bootutil_img_hash.c, bootutil_find_key.c and
      bootutil_img_security_cnt.c, with the hash function, the signature verification
      and the counter store as classes.  ValidateProps.v: the chunked hash is the digest
      of the image; on arbitrary contents an accepted image carries its digest, a
      signature by a registered key and an admissible counter; a well-formed signed
      image is accepted.
    - BootLoop.v: loader.c, from the validation of a slot to [context_boot_go], for one
      image and the upgrade modes swap and overwrite.
    - MultiImage.v: the state of several images and their dependencies (loader.c).
      DirectXip.v: the boot of several images that run from either slot, with the
      option to revert (loader.c).  XipProps.v: the search for a set of slots ends, and
      what the revert option does with a slot.  DependencyProps.v: dependencies are
      accepted exactly when they are met.  XipSecure.v: secure boot for every image.
    - Serial.v: responses and the upload of an image (boot_serial.c), area numbers
      (flash_map_extended.c).  SerialImages.v: listing images and slots and selecting an
      image.  SerialConsole.v: the other commands, the dispatch of a message, the raw
      protocol and the console loop with its time-outs.
    - SerialUpload.v: what one chunk of an upload does to the slot and to the state of the
      upload, as an invariant.  SerialSession.v: whole messages from the line to the
      response; after any requests the slot holds the image up to the offset reported,
      and a client that follows the offsets ends with the whole image.  SerialProps.v:
      messages of any bytes to the other groups are safe and leave the flash alone;
      versions are printed so that they can be read back.  SerialDemo.v: all of this on
      the simulated board.
    - RamLoad.v, RamLoadProps.v: ram_load.c; loaded images stay in their RAM and apart
      from each other, and the overlap test is exact but for adjacent images.
    - SwapMisc.v, SwapOffset.v, SwapHeaders.v: swap_misc.c and swap_offset.c, and the
      instance of [SwapAlgo].
    - SwapMove.v: swap_move.c.  SwapScratch.v: swap_scratch.c, also linked in the
      overwrite mode.  SwapScratchProps.v: the scan over the sector tables accepts equal
      slots and runs out of the tables for some unequal ones.
    - FlashKeeps.v, AlgoKeeps.v: the functions of the loader and the three swap
      algorithms keep a flash a flash and the slots in the loader state, as the class
      [SwapKeeps].  SecureBoot.v: secure boot for every algorithm of that class: an
      image that is started has been found trusted.
    - SwapHeaderProps.v: where the headers are found while a swap is under way, and the
      step in which the old one is not.
    - SwapOffsetProps.v: the progress of a swap as an invariant over the sectors,
      the status entries and everything else; the sector loop, upgrade or revert,
      preserves it at every flash operation and ends with the images exchanged.
    - Journal.v: a sequence of sector copies, each followed by a status entry, is at a
      known position after every flash operation and every reset.
    - SwapMoveProps.v, SwapMoveRecover.v: the same for swap-using-move: the progress of
      the two passes as an invariant, the position read back, survival of resets.
    - SwapTrailer.v: blanking and initialising trailers, in the order that makes
      them safe against resets.
    - SwapRecover.v: the status bytes give the position back; a requested upgrade
      survives any number of resets.
    - BootDemo.v, SwapDemo.v, MoveDemo.v, ValidateDemo.v: a simulated board with two slots
      on which the theorems on bootutil are applied, with power cuts.  XipDemo.v: a board
      with two images.
    - LoopDemo.v: whole boots of that board; the two interrupted upgrades that do not
      recover.  ModeDemo.v: boots with the other upgrade modes, cut at every flash
      operation; an image that the fast overwrite mode cannot install.

    ** Not modelled

    The boot of several images with the swap modes, of which only the dependency check
    is modelled; the boot with RAM loading, where images are validated in RAM; an empty
    primary slot filled from the secondary one (bootstrapping) and data shared with the
    image.  Image encryption, signature and hash back ends are calls into libraries
    outside the sources.  Of serial recovery: the decryption of an uploaded image, the
    single-slot variants of listing and selecting, the version text made with snprintf,
    the indicator LED, idling and the watchdog, and the start of the console over USB.
    Of the CBOR library: what the loader does not call (unordered maps, fragments of
    strings, floats, the comparing decoders).  Start-up, USB, watchdog and the other ports
    are input and output around the code above.  Logging, fault injection hardening and
    image access hooks are left out of the definitions. *)

From Stdlib Require Export ZArith Lia Bool.
From stdpp Require Export base numbers list list_numbers option.
#[global] Open Scope Z_scope.
#[global] Set Default Goal Selector "!".
#[global] Set Default Proof Using "Type".

(** [lia] on goals with [Z.div] and [Z.modulo]. *)
Ltac Zify.zify_post_hook ::= Z.to_euclidean_division_equations.

(** ** Machine integers *)

Definition u8 (z : Z) : Z := z mod 256.
Definition u16 (z : Z) : Z := z mod 65536.
Definition u32 (z : Z) : Z := z mod 4294967296.
Definition UINT32_MAX : Z := 4294967295.
Definition UINT16_MAX : Z := 65535.

Declare Scope mcu_scope.
Delimit Scope mcu_scope with mcu.
Notation "x ⊕ y" := (u32 (x + y)%Z) (at level 50, left associativity) : mcu_scope.
Notation "x ⊖ y" := (u32 (x - y)%Z) (at level 50, left associativity) : mcu_scope.
Notation "x ⊗ y" := (u32 (x * y)%Z) (at level 40, left associativity) : mcu_scope.
#[global] Open Scope mcu_scope.

Definition is_u8 (z : Z) : Prop := 0 <= z < 256.
Definition is_u16 (z : Z) : Prop := 0 <= z < 65536.
Definition is_u32 (z : Z) : Prop := 0 <= z < 4294967296.

Create HintDb mcu.
Create Rewrite HintDb zlen.

Lemma u32_small z : is_u32 z → u32 z = z.
Proof. unfold is_u32, u32. intros. apply Z.mod_small. lia. Qed.

Lemma u32_range z : is_u32 (u32 z).
Proof. unfold is_u32, u32. apply Z.mod_pos_bound. lia. Qed.

Lemma u16_small z : is_u16 z → u16 z = z.
Proof. unfold is_u16, u16. intros. apply Z.mod_small. lia. Qed.

Lemma u16_range z : is_u16 (u16 z).
Proof. unfold is_u16, u16. apply Z.mod_pos_bound. lia. Qed.

Lemma u8_small z : is_u8 z → u8 z = z.
Proof. unfold is_u8, u8. intros. apply Z.mod_small. lia. Qed.

Lemma u8_range z : is_u8 (u8 z).
Proof. unfold is_u8, u8. apply Z.mod_pos_bound. lia. Qed.

#[export] Hint Resolve u32_range u16_range u8_range : mcu.

(** [unfold_uint] exposes the modular arithmetic; [zsimp] turns the boolean
    comparisons of the code into propositions. *)
Ltac unfold_uint := unfold is_u8, is_u16, is_u32, u8, u16, u32, UINT32_MAX, UINT16_MAX in *.

Ltac zsimp :=
  repeat match goal with
  | H : (_ && _)%bool = true |- _ => apply andb_true_iff in H; destruct H
  | H : (_ || _)%bool = false |- _ => apply orb_false_iff in H; destruct H
  | H : negb _ = true |- _ => apply negb_true_iff in H
  | H : negb _ = false |- _ => apply negb_false_iff in H
  | H : (_ <? _) = true |- _ => apply Z.ltb_lt in H
  | H : (_ <? _) = false |- _ => apply Z.ltb_ge in H
  | H : (_ <=? _) = true |- _ => apply Z.leb_le in H
  | H : (_ <=? _) = false |- _ => apply Z.leb_gt in H
  | H : (_ =? _) = true |- _ => apply Z.eqb_eq in H
  | H : (_ =? _) = false |- _ => apply Z.eqb_neq in H
  end.

(** Case analysis on the next boolean test of the goal. *)
Ltac case_if H :=
  match goal with
  | |- context [if ?b then _ else _] => destruct b eqn:H; zsimp
  end.

(** [ALIGN_UP] and [ALIGN_DOWN] of bootutil_macros.h, on 32-bit operands. *)
Definition ALIGN_UP (num align : Z) : Z :=
  Z.land (u32 (num + (align - 1))) (u32 (Z.lnot (align - 1))).
Definition ALIGN_DOWN (num align : Z) : Z :=
  Z.land num (u32 (Z.lnot (align - 1))).

(** Disjoint bit fields: [|] is [+]. *)
Lemma lor_shift a b k :
  0 <= k → 0 <= a < 2 ^ k → 0 <= b → Z.lor a (b * 2 ^ k) = a + b * 2 ^ k.
Proof.
  intros Hk Ha Hb.
  assert (Hland : Z.land a (b * 2 ^ k) = 0).
  { apply Z.bits_inj'. intros n Hn. rewrite Z.land_spec, Z.bits_0.
    destruct (Z.lt_ge_cases n k) as [?|?].
    - rewrite Z.mul_pow2_bits_low by done. apply andb_false_r.
    - destruct (Z.eq_dec a 0) as [->|?]; [by rewrite Z.bits_0|].
      rewrite (Z.bits_above_log2 a n); [done|lia|].
      apply Z.log2_lt_pow2; [lia|].
      apply Z.lt_le_trans with (2 ^ k); [lia|by apply Z.pow_le_mono_r]. }
  rewrite <- Z.lxor_lor by done. by rewrite <- Z.add_nocarry_lxor.
Qed.

(** Masking with [~(2^k - 1)] rounds down to a multiple of [2^k]. *)
Lemma land_mask x k :
  is_u32 x → 0 <= k <= 32 →
  Z.land x (u32 (Z.lnot (2 ^ k - 1))) = 2 ^ k * (x / 2 ^ k).
Proof.
  intros Hx Hk. unfold is_u32 in Hx.
  assert (Hp : 0 < 2 ^ k) by (apply Z.pow_pos_nonneg; lia).
  assert (Hsplit : 2 ^ k * 2 ^ (32 - k) = 4294967296).
  { rewrite <- Z.pow_add_r by lia. replace (k + (32 - k)) with 32 by lia. reflexivity. }
  assert (Hmask : u32 (Z.lnot (2 ^ k - 1)) = Z.shiftl (Z.ones (32 - k)) k).
  { unfold u32, Z.lnot. rewrite Z.shiftl_mul_pow2, Z.ones_equiv by lia.
    replace (Z.pred (- (2 ^ k - 1))) with (- 2 ^ k) by lia.
    destruct (decide (k = 32)) as [->|Hne]; [reflexivity|].
    assert (1 < 2 ^ (32 - k)) by (apply Z.pow_gt_1; lia).
    replace (- 2 ^ k) with (4294967296 - 2 ^ k + (-1) * 4294967296) by lia.
    rewrite Z.mod_add by lia. rewrite Z.mod_small by nia. nia. }
  rewrite Hmask.
  replace (Z.land x (Z.shiftl (Z.ones (32 - k)) k))
    with (Z.shiftl (Z.land (Z.shiftr x k) (Z.ones (32 - k))) k).
  2:{ apply Z.bits_inj'. intros n Hn. rewrite Z.land_spec.
      destruct (decide (n < k)).
      - rewrite !Z.shiftl_spec_low by lia. by rewrite andb_false_r.
      - rewrite !Z.shiftl_spec by lia. rewrite Z.land_spec, Z.shiftr_spec by lia.
        by replace (n - k + k) with n by lia. }
  rewrite Z.shiftl_mul_pow2, Z.land_ones, Z.shiftr_div_pow2 by lia.
  rewrite Z.mod_small; [lia|].
  split; [apply Z.div_pos; lia|]. apply Z.div_lt_upper_bound; nia.
Qed.

Lemma ALIGN_DOWN_pow2 x k :
  is_u32 x → 0 <= k <= 32 → ALIGN_DOWN x (2 ^ k) = 2 ^ k * (x / 2 ^ k).
Proof. intros. unfold ALIGN_DOWN. by apply land_mask. Qed.

Lemma ALIGN_UP_pow2 x k :
  0 <= x → 0 <= k <= 32 → x + 2 ^ k - 1 < 4294967296 →
  ALIGN_UP x (2 ^ k) = 2 ^ k * ((x + 2 ^ k - 1) / 2 ^ k).
Proof.
  intros. assert (0 < 2 ^ k) by (apply Z.pow_pos_nonneg; lia).
  unfold ALIGN_UP. rewrite (u32_small (x + (2 ^ k - 1))) by (unfold is_u32; lia).
  rewrite land_mask by (unfold is_u32; lia). do 2 f_equal; lia.
Qed.

(** ** Byte buffers: lengths, sub-ranges and in-place updates

    A buffer is a list; offsets and lengths are [Z] as in the code.  [slice]
    reads a range, [splice] overwrites one. *)

Section Slices.
  Context {A : Type}.
  Implicit Types (l d : list A).

Definition zlen l : Z := Z.of_nat (length l).
Definition slice l (off len : Z) : list A :=
  take (Z.to_nat len) (drop (Z.to_nat off) l).
Definition splice l (off : Z) d : list A :=
  take (Z.to_nat off) l ++ d ++ drop (Z.to_nat off + length d) l.

Lemma zlen_nonneg l : 0 <= zlen l.
Proof. unfold zlen. lia. Qed.

Lemma zlen_nil : zlen [] = 0.
Proof. done. Qed.

Lemma zlen_cons x l : zlen (x :: l) = 1 + zlen l.
Proof. unfold zlen. cbn [length]. lia. Qed.

Lemma zlen_app l d : zlen (l ++ d) = zlen l + zlen d.
Proof. unfold zlen. rewrite length_app. lia. Qed.

Lemma zlen_replicate n (x : A) : zlen (replicate n x) = Z.of_nat n.
Proof. unfold zlen. by rewrite length_replicate. Qed.

Lemma zlen_slice l off len :
  0 <= off → 0 <= len → off + len <= zlen l → zlen (slice l off len) = len.
Proof.
  unfold zlen, slice. intros. rewrite length_take, length_drop. lia.
Qed.

Lemma zlen_splice l off d :
  0 <= off → off + zlen d <= zlen l → zlen (splice l off d) = zlen l.
Proof.
  unfold zlen, splice. intros. rewrite !length_app, length_take, length_drop. lia.
Qed.

Lemma lookup_slice l off len (i : nat) :
  slice l off len !! i =
    if decide (Z.of_nat i < len) then l !! (Z.to_nat off + i)%nat else None.
Proof.
  unfold slice. case_decide.
  - rewrite lookup_take_lt by lia. by rewrite lookup_drop.
  - apply lookup_ge_None_2. rewrite length_take. lia.
Qed.

Lemma lookup_splice l off d (i : nat) :
  0 <= off → off + zlen d <= zlen l →
  splice l off d !! i =
    if decide (off <= Z.of_nat i < off + zlen d)
    then d !! (i - Z.to_nat off)%nat else l !! i.
Proof.
  unfold zlen, splice. intros Ho Hl.
  assert (Htk : length (take (Z.to_nat off) l) = Z.to_nat off)
    by (rewrite length_take; lia).
  destruct (decide (Z.of_nat i < off)).
  - rewrite lookup_app_l by lia. rewrite lookup_take_lt by lia.
    case_decide; [lia|done].
  - rewrite lookup_app_r by lia. rewrite Htk.
    case_decide.
    + rewrite lookup_app_l by lia. done.
    + rewrite lookup_app_r by lia. rewrite lookup_drop. f_equal. lia.
Qed.

Lemma slice_ext l l' off len :
  (∀ i : nat, off <= Z.of_nat i < off + len → l !! i = l' !! i) →
  0 <= off → slice l off len = slice l' off len.
Proof.
  intros H Ho. apply list_eq. intros i. rewrite !lookup_slice.
  case_decide; [|done]. apply H. lia.
Qed.

Lemma slice_full l : slice l 0 (zlen l) = l.
Proof. unfold slice, zlen. rewrite Nat2Z.id. cbn. apply take_ge. lia. Qed.

Lemma slice_nil l off : slice l off 0 = [].
Proof. reflexivity. Qed.

Lemma slice_splice_eq l off d len :
  0 <= off → off + zlen d <= zlen l → len = zlen d →
  slice (splice l off d) off len = d.
Proof.
  intros Ho Hl ->. apply list_eq. intros i. rewrite lookup_slice.
  unfold zlen in *. case_decide.
  - rewrite lookup_splice by (unfold zlen; lia). unfold zlen.
    rewrite decide_True by lia. f_equal. lia.
  - symmetry. apply lookup_ge_None_2. lia.
Qed.

Lemma slice_splice_disj l off d o n :
  0 <= off → off + zlen d <= zlen l → 0 <= o →
  (o + n <= off ∨ off + zlen d <= o) →
  slice (splice l off d) o n = slice l o n.
Proof.
  intros Ho Hl Hoo Hd. apply slice_ext; [|done]. intros i Hi.
  rewrite lookup_splice by done. rewrite decide_False by lia. done.
Qed.

Lemma slice_splice_inside l off d o n :
  0 <= off → off + zlen d <= zlen l → off <= o → o + n <= off + zlen d →
  slice (splice l off d) o n = slice d (o - off) n.
Proof.
  intros Ho Hl H1 H2. apply list_eq. intros i. rewrite !lookup_slice.
  case_decide; [|done]. rewrite lookup_splice by done.
  rewrite decide_True by lia. f_equal. lia.
Qed.

Lemma slice_slice l o n o' n' :
  0 <= o → 0 <= o' → 0 <= n' → o' + n' <= n →
  slice (slice l o n) o' n' = slice l (o + o') n'.
Proof.
  intros. apply list_eq. intros i. rewrite !lookup_slice.
  case_decide; [|done]. rewrite decide_True by lia. f_equal. lia.
Qed.

Lemma slice_app_split l o a b :
  0 <= o → 0 <= a → 0 <= b →
  slice l o (a + b) = slice l o a ++ slice l (o + a) b.
Proof.
  intros. unfold slice. rewrite !Z2Nat.inj_add by lia.
  rewrite <- take_take_drop, drop_drop. done.
Qed.

Lemma slice_app_l l d o n :
  0 <= o → o + n <= zlen l → slice (l ++ d) o n = slice l o n.
Proof.
  unfold zlen. intros. apply slice_ext; [|done]. intros i Hi.
  rewrite lookup_app_l by lia. done.
Qed.

Lemma slice_app_r l d o n :
  zlen l <= o → slice (l ++ d) o n = slice d (o - zlen l) n.
Proof.
  unfold zlen. intros. apply list_eq. intros i. rewrite !lookup_slice.
  case_decide; [|done]. rewrite lookup_app_r by lia. f_equal. lia.
Qed.

Lemma slice_replicate n (x : A) off len :
  0 <= off → 0 <= len → off + len <= Z.of_nat n →
  slice (replicate n x) off len = replicate (Z.to_nat len) x.
Proof.
  intros. unfold slice. rewrite drop_replicate, take_replicate. f_equal. lia.
Qed.

Lemma splice_id l off len :
  0 <= off → 0 <= len → off + len <= zlen l →
  splice l off (slice l off len) = l.
Proof.
  intros. apply list_eq. intros i.
  rewrite lookup_splice; rewrite ?zlen_slice by lia; try lia.
  case_decide; [|done]. rewrite lookup_slice.
  rewrite decide_True by lia. f_equal. lia.
Qed.

Lemma splice_splice_same l off d d' :
  0 <= off → off + zlen d <= zlen l → zlen d' = zlen d →
  splice (splice l off d) off d' = splice l off d'.
Proof.
  intros. apply list_eq. intros i.
  rewrite lookup_splice by (rewrite ?zlen_splice by lia; lia).
  rewrite !lookup_splice by lia. repeat case_decide; auto; lia.
Qed.

(** Two adjacent updates are one. *)
Lemma splice_app l off d d' :
  0 <= off → off + zlen d + zlen d' <= zlen l →
  splice (splice l off d) (off + zlen d) d' = splice l off (d ++ d').
Proof.
  intros. pose proof (zlen_nonneg d). pose proof (zlen_nonneg d').
  apply list_eq. intros i.
  rewrite lookup_splice by (rewrite ?zlen_splice by lia; lia).
  rewrite !lookup_splice by (rewrite ?zlen_app; lia).
  rewrite zlen_app. unfold zlen in *.
  repeat case_decide; try lia; try done.
  - rewrite lookup_app_r by lia. f_equal. lia.
  - rewrite lookup_app_l by lia. done.
Qed.

Lemma splice_append l off off' d d' :
  off' = off + zlen d → 0 <= off → off + zlen d + zlen d' <= zlen l →
  splice (splice l off d) off' d' = splice l off (d ++ d').
Proof. intros ->. apply splice_app. Qed.

Lemma splice_inside l off o d e :
  0 <= off → 0 <= o → off + zlen d <= zlen l → o + zlen e <= zlen d →
  splice (splice l off d) (off + o) e = splice l off (splice d o e).
Proof.
  intros Ho Ho' Hd He. pose proof (zlen_nonneg e). apply list_eq. intros i.
  rewrite !lookup_splice by (rewrite ?zlen_splice by lia; lia). rewrite zlen_splice by lia.
  repeat case_decide; try done; try lia;
    rewrite ?lookup_splice by lia; repeat case_decide; try done; try lia; f_equal; lia.
Qed.

Lemma splice_nil l off : 0 <= off → splice l off [] = l.
Proof. intros. unfold splice. cbn. rewrite Nat.add_0_r. apply take_drop. Qed.

Lemma Forall_slice (P : A → Prop) l off len : Forall P l → Forall P (slice l off len).
Proof. intros. unfold slice. by apply Forall_take, Forall_drop. Qed.

Lemma Forall_splice (P : A → Prop) l off d : Forall P l → Forall P d → Forall P (splice l off d).
Proof. intros. unfold splice. rewrite !Forall_app. split_and!; [by apply Forall_take|done|by apply Forall_drop]. Qed.

End Slices.

Lemma zlen_fmap {A B} (f : A → B) (l : list A) : zlen (f <$> l) = zlen l.
Proof. unfold zlen. by rewrite length_fmap. Qed.

Lemma fmap_slice {A B} (f : A → B) (l : list A) off len :
  f <$> slice l off len = slice (f <$> l) off len.
Proof. unfold slice. by rewrite fmap_take, fmap_drop. Qed.

Lemma fmap_splice {A B} (f : A → B) (l : list A) off d :
  f <$> splice l off d = splice (f <$> l) off (f <$> d).
Proof. unfold splice. by rewrite !fmap_app, fmap_take, fmap_drop, length_fmap. Qed.

#[export] Hint Rewrite @zlen_app @zlen_replicate @zlen_fmap : zlen.
#[export] Hint Resolve zlen_nonneg : mcu.

(** ** Little-endian encoding of unsigned integers *)

Fixpoint le_enc (n : nat) (z : Z) : list Z :=
  match n with
  | O => []
  | S n => z mod 256 :: le_enc n (z / 256)
  end.

Fixpoint le_dec (l : list Z) : Z :=
  match l with
  | [] => 0
  | b :: l => b + 256 * le_dec l
  end.

Lemma length_le_enc n z : length (le_enc n z) = n.
Proof. revert z. induction n; intros; cbn; auto. Qed.

Lemma zlen_le_enc n z : zlen (le_enc n z) = Z.of_nat n.
Proof. unfold zlen. by rewrite length_le_enc. Qed.

Lemma le_enc_bytes n z : Forall is_u8 (le_enc n z).
Proof.
  revert z. induction n; intros; cbn; constructor; [|done].
  unfold is_u8. apply Z.mod_pos_bound. lia.
Qed.

Lemma le_dec_enc n z : le_dec (le_enc n z) = z mod 256 ^ Z.of_nat n.
Proof.
  revert z. induction n; intros z; cbn [le_enc le_dec].
  - by rewrite Z.mod_1_r.
  - rewrite IHn, Nat2Z.inj_succ, Z.pow_succ_r by lia.
    rewrite Z.rem_mul_r by (try apply Z.pow_nonzero; lia). lia.
Qed.

Lemma le_dec_enc_small n z :
  0 <= z < 256 ^ Z.of_nat n → le_dec (le_enc n z) = z.
Proof. intros. rewrite le_dec_enc. by apply Z.mod_small. Qed.

Lemma le_dec_bound l :
  Forall is_u8 l → 0 <= le_dec l < 256 ^ zlen l.
Proof.
  induction 1 as [|b l Hb _ IH]; [unfold zlen; cbn; lia|].
  unfold zlen in *. cbn [le_dec length]. rewrite Nat2Z.inj_succ, Z.pow_succ_r by lia.
  unfold is_u8 in Hb. nia.
Qed.

Lemma le_enc_dec l : Forall is_u8 l → le_enc (length l) (le_dec l) = l.
Proof.
  induction 1 as [|b l Hb _ IH]; [done|]. cbn [le_dec length le_enc].
  unfold is_u8 in Hb. f_equal.
  - rewrite (Z.mul_comm 256), Z.mod_add by lia. apply Z.mod_small. lia.
  - rewrite (Z.mul_comm 256), Z.div_add by lia.
    by rewrite Z.div_small, Z.add_0_l by lia.
Qed.

(** The conversions of the four- and two-byte fields of the image formats. *)
Lemma le_dec_enc_u32 z : is_u32 z → le_dec (le_enc 4 z) = z.
Proof. intros. apply le_dec_enc_small. unfold is_u32 in *. cbn; lia. Qed.

Lemma le_dec_enc_u16 z : is_u16 z → le_dec (le_enc 2 z) = z.
Proof. intros. apply le_dec_enc_small. unfold is_u16 in *. cbn; lia. Qed.

Lemma Forall_replicate_is_u8 n x : is_u8 x → Forall is_u8 (replicate n x).
Proof. intros. by apply Forall_replicate. Qed.

#[export] Hint Resolve le_enc_bytes Forall_replicate_is_u8 : mcu.
#[export] Hint Rewrite zlen_le_enc length_le_enc : zlen.


(** ** Table search *)

(** The index of the first element satisfying [P], or -1. *)
Definition find_index {A} (P : A → bool) (l : list A) : Z :=
  match list_find (λ x, P x = true) l with
  | Some (i, _) => Z.of_nat i
  | None => -1
  end.

Lemma find_index_Some {A} (P : A → bool) (l : list A) i :
  find_index P l = i → 0 <= i → ∃ x, l !! Z.to_nat i = Some x ∧ P x = true.
Proof.
  unfold find_index. destruct (list_find _ l) as [[k x]|] eqn:Hf; [|lia].
  intros <- _. apply list_find_Some in Hf as (Hk & HP & _). rewrite Nat2Z.id. eauto.
Qed.

Lemma find_index_range {A} (P : A → bool) (l : list A) : -1 <= find_index P l < zlen l.
Proof.
  unfold find_index, zlen. destruct (list_find _ l) as [[k x]|] eqn:Hf; [|lia].
  apply list_find_Some in Hf as (Hk & _). apply lookup_lt_Some in Hk. lia.
Qed.

Lemma find_index_cons {A} (P : A → bool) x (l : list A) :
  find_index P (x :: l) =
    if P x then 0 else if find_index P l <? 0 then -1 else find_index P l + 1.
Proof.
  unfold find_index. cbn. destruct (decide (P x = true)) as [HP|HP].
  - by rewrite HP.
  - destruct (P x); [done|]. destruct (list_find _ l) as [[k y]|]; cbn; [|done].
    rewrite (proj2 (Z.ltb_ge _ _)) by lia. lia.
Qed.

(** ** Windows of a list *)

Section Windows.
  Context {A : Type}.
  Implicit Types (l d : list A).

(** An update inside, or outside, the window a slice looks at. *)
Lemma slice_of_splice_in l base n off d :
  0 <= base → 0 <= off → off + zlen d <= n → base + n <= zlen l →
  slice (splice l (base + off) d) base n = splice (slice l base n) off d.
Proof.
  intros Hb Ho Hd Hl. pose proof (zlen_nonneg d). apply list_eq. intros i.
  rewrite lookup_slice, lookup_splice, lookup_splice by (rewrite ?zlen_slice by lia; lia).
  rewrite lookup_slice.
  repeat case_decide; try done; try lia. f_equal. lia.
Qed.

Lemma zip_splice {B C} (f : A → B → C) l (m : list B) off d (e : list B) :
  0 <= off → zlen l = zlen m → zlen d = zlen e → off + zlen d <= zlen l →
  zip_with f (splice l off d) (splice m off e) = splice (zip_with f l m) off (zip_with f d e).
Proof.
  unfold zlen, splice. intros Ho Hlm Hde Hd.
  rewrite zip_with_app by (rewrite !length_take; lia). rewrite zip_with_app by lia.
  rewrite length_zip_with, Nat.min_l by lia.
  assert (length d = length e) as <- by lia.
  by rewrite zip_with_take, zip_with_drop.
Qed.
End Windows.

(** ** Sums *)

Definition zsum (l : list Z) : Z := foldr Z.add 0 l.

Lemma zsum_app l l' : zsum (l ++ l') = zsum l + zsum l'.
Proof. unfold zsum. induction l as [|x l IH]; cbn; [done|]. rewrite IH. lia. Qed.

Lemma zsum_nonneg l : Forall (λ n, 0 < n) l → 0 <= zsum l.
Proof. induction 1 as [|x l Hx _ IH]; [done|]. unfold zsum in *. cbn. lia. Qed.
