(* ===== verification/Effects.v ===== *)
(** * Effects of the boot code

    C code that touches flash is modelled in a small monad over a world [W]:
    an execution either returns a value, is cut by a reset (power loss), stops
    in an [assert], commits an out-of-bounds access, or exceeds the iteration
    bound of a loop.  [wp] is the postcondition/crash-condition transformer the
    components reason with: it excludes the last three outcomes, so a proved
    [wp] is also a termination proof. *)

From S2P Require Import Prelude.

Inductive outcome (A : Type) : Type :=
| Ret (a : A)
| Reset
| Abort
| Fault
| Diverge.
Arguments Ret {A} a.
Arguments Reset {A}.
Arguments Abort {A}.
Arguments Fault {A}.
Arguments Diverge {A}.

Definition M (W A : Type) : Type := W → outcome A * W.

#[export] Instance M_ret W : MRet (M W) := λ A a w, (Ret a, w).
#[export] Instance M_bind W : MBind (M W) := λ A B k c w,
  match c w with
  | (Ret a, w') => k a w'
  | (Reset, w') => (Reset, w')
  | (Abort, w') => (Abort, w')
  | (Fault, w') => (Fault, w')
  | (Diverge, w') => (Diverge, w')
  end.

Definition fault {W A} : M W A := λ w, (Fault, w).
Definition abort {W A} : M W A := λ w, (Abort, w).

(** C's [assert]. *)
Definition assert {W} (b : bool) : M W unit :=
  if b then mret () else abort.

(** An array read [a[i]]: out of range is undefined behaviour. *)
Definition array_get {W A} (l : list A) (i : Z) : M W A :=
  if i <? 0 then fault else
  match l !! Z.to_nat i with
  | Some x => mret x
  | None => fault
  end.

(** An array write [a[i] = x]. *)
Definition array_set {W A} (l : list A) (i : Z) (x : A) : M W (list A) :=
  if (i <? 0) || (zlen l <=? i) then fault else mret (<[Z.to_nat i := x]> l).

(** Unsigned division: a zero divisor is undefined behaviour. *)
Definition udiv {W} (a b : Z) : M W Z :=
  if b =? 0 then fault else mret (a / b).

(** A loop: the body either continues with a new loop state or leaves the loop
    with a result.  [fuel] bounds the number of iterations. *)
Fixpoint loop {W S R} (fuel : nat) (body : S → M W (S + R)) (s : S) : M W R :=
  match fuel with
  | O => λ w, (Diverge, w)
  | Datatypes.S fuel =>
      r ← body s;
      match r with
      | inl s' => loop fuel body s'
      | inr r => mret r
      end
  end.

(** ** Weakest preconditions with a crash condition *)

Definition wp {W A} (c : M W A) (Q : A → W → Prop) (C : W → Prop) (w : W) : Prop :=
  match c w with
  | (Ret a, w') => Q a w'
  | (Reset, w') => C w'
  | _ => False
  end.

Section WP.
  Context {W : Type}.

Lemma wp_ret {A} (a : A) (Q : A → W → Prop) C w : Q a w → wp (mret a) Q C w.
Proof. done. Qed.

Lemma wp_bind {A B} (c : M W A) (k : A → M W B) Q C w :
  wp c (λ a w', wp (k a) Q C w') C w → wp (c ≫= k) Q C w.
Proof. unfold wp, mbind, M_bind. by destruct (c w) as [[] ?]. Qed.

Lemma wp_mono {A} (c : M W A) (Q Q' : A → W → Prop) (C C' : W → Prop) w :
  wp c Q C w → (∀ a w', Q a w' → Q' a w') → (∀ w', C w' → C' w') → wp c Q' C' w.
Proof. unfold wp. destruct (c w) as [[] ?]; auto. Qed.

Lemma wp_eq {A} (c c' : M W A) Q C w : c w = c' w → wp c' Q C w → wp c Q C w.
Proof. unfold wp. by intros ->. Qed.

Lemma wp_and {A} (c : M W A) (Q Q' : A → W → Prop) (C C' : W → Prop) w :
  wp c Q C w → wp c Q' C' w → wp c (λ a w', Q a w' ∧ Q' a w') (λ w', C w' ∧ C' w') w.
Proof. unfold wp. destruct (c w) as [[] ?]; auto. Qed.

Lemma wp_assert b (Q : unit → W → Prop) C w :
  b = true → Q () w → wp (assert b) Q C w.
Proof. by intros ->. Qed.

Lemma wp_array_get {A} (l : list A) i x (Q : A → W → Prop) C w :
  0 <= i → l !! Z.to_nat i = Some x → Q x w → wp (array_get l i) Q C w.
Proof.
  intros Hi Hx HQ. unfold array_get, wp.
  rewrite (proj2 (Z.ltb_ge _ _)) by lia. by rewrite Hx.
Qed.

Lemma wp_array_set {A} (l : list A) i x (Q : list A → W → Prop) C w :
  0 <= i < zlen l → Q (<[Z.to_nat i := x]> l) w → wp (array_set l i x) Q C w.
Proof.
  intros Hi HQ. unfold array_set, wp.
  rewrite (proj2 (Z.ltb_ge _ _)), (proj2 (Z.leb_gt _ _)) by lia. done.
Qed.

Lemma wp_udiv a b (Q : Z → W → Prop) C w :
  b ≠ 0 → Q (a / b) w → wp (udiv a b) Q C w.
Proof. intros Hb HQ. unfold udiv, wp. by rewrite (proj2 (Z.eqb_neq _ _)). Qed.

(** The loop rule: an invariant, a decreasing measure below the fuel. *)
Lemma wp_loop {S R} (I : S → W → Prop) (m : S → Z) (body : S → M W (S + R)) Q C fuel s w :
  (∀ s w, I s w →
     wp (body s) (λ r w', match r with
                          | inl s' => I s' w' ∧ 0 <= m s' < m s
                          | inr r => Q r w'
                          end) C w) →
  I s w → m s < Z.of_nat fuel → 0 <= m s →
  wp (loop fuel body s) Q C w.
Proof.
  intros Hbody. revert s w. induction fuel as [|fuel IH]; intros s w HI Hm Hm0; [lia|].
  cbn [loop]. apply wp_bind. eapply wp_mono; [by apply Hbody| |done].
  intros [s'|r] w'; cbn.
  - intros [HI' Hm']. apply IH; [done|lia|lia].
  - intros HQ. by apply wp_ret.
Qed.

(** A triple with an impossible crash condition pins the outcome. *)
Lemma wp_returns {A} (c : M W A) (Q : A → W → Prop) w :
  wp c Q (λ _, False) w → ∃ a w', c w = (Ret a, w') ∧ Q a w'.
Proof. unfold wp. destruct (c w) as [[] w']; [|done..]. eauto. Qed.

Lemma loop_continue {S R} fuel (body : S → M W (S + R)) s s' w w' :
  body s w = (Ret (inl s'), w') → loop (Datatypes.S fuel) body s w = loop fuel body s' w'.
Proof. intros Hb. cbn [loop]. unfold mbind, M_bind. by rewrite Hb. Qed.

Lemma loop_exit {S R} fuel (body : S → M W (S + R)) s r w w' :
  body s w = (Ret (inr r), w') → loop (Datatypes.S fuel) body s w = (Ret r, w').
Proof. intros Hb. cbn [loop]. unfold mbind, M_bind. by rewrite Hb. Qed.

Lemma bind_ret {A B} (c : M W A) (k : A → M W B) a w w' :
  c w = (Ret a, w') → (c ≫= k) w = k a w'.
Proof. intros Hc. unfold mbind, M_bind. by rewrite Hc. Qed.

Lemma array_get_ret {A} (l : list A) i x (w : W) :
  0 <= i → l !! Z.to_nat i = Some x → array_get l i w = (Ret x, w).
Proof. intros Hi Hx. unfold array_get. rewrite (proj2 (Z.ltb_ge _ _)) by lia. by rewrite Hx. Qed.

(** A loop that scans a table for the first entry satisfying [P]. *)
Lemma scan_loop {A} (P : A → bool) (step : Z → M W (Z + Z)) (pre l : list A) fuel w :
  (∀ (i : nat) x, (pre ++ l) !! i = Some x →
     step (Z.of_nat i) w =
       (Ret (if P x then inr (Z.of_nat i) else inl (Z.of_nat i + 1)), w)) →
  step (zlen (pre ++ l)) w = (Ret (inr (-1)), w) →
  (length l < fuel)%nat →
  loop fuel step (zlen pre) w =
    (Ret (if find_index P l <? 0 then -1 else zlen pre + find_index P l), w).
Proof.
  revert pre fuel. induction l as [|x l IH]; intros pre fuel Hstep Hend Hfuel;
    (destruct fuel as [|fuel]; [cbn in Hfuel; lia|]).
  - rewrite app_nil_r in Hend. by apply loop_exit.
  - specialize (Hstep (length pre) x) as Hx. rewrite find_index_cons.
    rewrite lookup_app_r, Nat.sub_diag in Hx by done. specialize (Hx eq_refl).
    destruct (P x); [rewrite Z.add_0_r; by apply loop_exit|].
    rewrite (loop_continue _ _ _ _ _ _ Hx).
    replace (Z.of_nat (length pre) + 1) with (zlen (pre ++ [x])) by (by rewrite zlen_app).
    rewrite (cons_middle x pre l), app_assoc in *.
    rewrite IH; [|done..|cbn in Hfuel; lia]. rewrite zlen_app. change (zlen [x]) with 1.
    destruct (find_index P l <? 0) eqn:Hneg; [done|]. zsimp.
    rewrite (proj2 (Z.ltb_ge _ _)) by lia. do 2 f_equal. lia.
Qed.

(** A computation that behaves as a pure function of the world. *)
Lemma wp_pure {A} (c : M W A) a w (Q : A → W → Prop) C :
  c w = (Ret a, w) → Q a w → wp c Q C w.
Proof. unfold wp. by intros ->. Qed.
End WP.

(** Runs the bind under a postcondition supplied by a lemma. *)
Ltac wp_step lem := apply wp_bind; eapply wp_mono; [eapply lem | cbn beta | cbn beta; try done].

(** Case split on the conditional at the head of a computation. *)
Ltac wp_if H :=
  match goal with
  | |- wp (if ?b then _ else _) _ _ _ => destruct b eqn:H; zsimp
  end.
