(* ===== verification/Partial.v ===== *)
(** * What a computation keeps, if it returns

    Partial correctness: [returns c Q w] says that [c], started in [w], ends in [Q]
    if it returns.  [keeps I c P] says so with an invariant [I] of the world before
    and after.  Reasoning about invariants of long code that branches a lot needs no
    more; the tactic [keep] walks over it with the hints of the database [keep]. *)

From S2P Require Import Prelude Effects.

Definition returns {W A} (c : M W A) (Q : A → W → Prop) (w : W) : Prop :=
  match c w with
  | (Ret a, w') => Q a w'
  | _ => True
  end.

Definition keeps {W A} (I : W → Prop) (c : M W A) (P : A → Prop) : Prop :=
  ∀ w, I w → returns c (λ a w', P a ∧ I w') w.

Section Returns.
  Context {W : Type}.

Lemma returns_ret {A} (a : A) (Q : A → W → Prop) w : Q a w → returns (mret a) Q w.
Proof. done. Qed.

Lemma returns_bind {A B} (c : M W A) (k : A → M W B) Q w :
  returns c (λ a w', returns (k a) Q w') w → returns (c ≫= k) Q w.
Proof. unfold returns, mbind, M_bind. by destruct (c w) as [[] ?]. Qed.

Lemma returns_bind_eq {A B} (c : M W A) (k : A → M W B) Q a w w' :
  c w = (Ret a, w') → returns (k a) Q w' → returns (c ≫= k) Q w.
Proof. intros Hc. unfold returns, mbind, M_bind. by rewrite Hc. Qed.

Lemma returns_mono {A} (c : M W A) (Q Q' : A → W → Prop) w :
  returns c Q w → (∀ a w', Q a w' → Q' a w') → returns c Q' w.
Proof. unfold returns. destruct (c w) as [[] ?]; auto. Qed.

Lemma returns_wp {A} (c : M W A) (Q : A → W → Prop) C w : wp c Q C w → returns c Q w.
Proof. unfold wp, returns. by destruct (c w) as [[] ?]. Qed.

Lemma returns_eq {A} (c : M W A) (Q : A → W → Prop) a w w' :
  returns c Q w → c w = (Ret a, w') → Q a w'.
Proof. unfold returns. intros HQ Heq. by rewrite Heq in HQ. Qed.

Section Keeps.
  Context (I : W → Prop).

Lemma keeps_ret {A} (a : A) (P : A → Prop) : P a → keeps I (mret a) P.
Proof. by intros ? w ?. Qed.

Lemma keeps_bind {A B} (c : M W A) (k : A → M W B) (P : A → Prop) (Q : B → Prop) :
  keeps I c P → (∀ a, P a → keeps I (k a) Q) → keeps I (c ≫= k) Q.
Proof.
  intros Hc Hk w Hw. apply returns_bind. eapply returns_mono; [by apply Hc|]. intros a w' [Ha Hw']. by apply Hk.
Qed.

Lemma keeps_mono {A} (c : M W A) (P Q : A → Prop) : keeps I c P → (∀ a, P a → Q a) → keeps I c Q.
Proof.
  intros Hc HPQ w Hw. eapply returns_mono; [by apply Hc|]. intros a w' [? ?]. auto.
Qed.

Lemma keeps_true {A} (c : M W A) (P : A → Prop) : keeps I c P → keeps I c (λ _, True).
Proof. intros Hc. by eapply keeps_mono. Qed.

Lemma keeps_fault {A} (P : A → Prop) : keeps I fault P.
Proof. done. Qed.

Lemma keeps_abort {A} (P : A → Prop) : keeps I abort P.
Proof. done. Qed.

Lemma keeps_assert b : keeps I (assert b) (λ _, b = true).
Proof. intros w Hw. unfold assert. by destruct b. Qed.

Lemma keeps_array_get {A} (l : list A) i : keeps I (array_get l i) (λ x, x ∈ l).
Proof.
  intros w Hw. unfold array_get, returns. destruct (i <? 0); [done|]. destruct (l !! Z.to_nat i) eqn:Hl; [|done].
  split; [|done]. by eapply list_elem_of_lookup_2.
Qed.

Lemma keeps_udiv a b : keeps I (udiv a b) (λ _, True).
Proof. intros w Hw. unfold udiv. by destruct (b =? 0). Qed.

Lemma keeps_loop {S R} fuel (body : S → M W (S + R)) s (P : S → Prop) (Q : R → Prop) :
  P s → (∀ s, P s → keeps I (body s) (λ r, match r with inl s => P s | inr r => Q r end)) →
  keeps I (loop fuel body s) Q.
Proof.
  intros Hs Hbody. revert s Hs. induction fuel as [|fuel IH]; intros s Hs; [done|]. cbn [loop].
  eapply keeps_bind; [by apply Hbody|]. intros [s'|r]; cbn; [apply IH|]. intros. by apply keeps_ret.
Qed.

Lemma keeps_loop_true {S R} fuel (body : S → M W (S + R)) s :
  (∀ s, keeps I (body s) (λ _, True)) → keeps I (loop fuel body s) (λ _, True).
Proof.
  intros Hb. apply (keeps_loop _ _ _ (λ _, True)); [done|]. intros s' _. eapply keeps_mono; [apply Hb|].
  by intros [] ?.
Qed.

Lemma keeps_and {A} (c : M W A) (P Q : A → Prop) : keeps I c P → keeps I c Q → keeps I c (λ a, P a ∧ Q a).
Proof.
  intros HP HQ w Hw. specialize (HP w Hw). specialize (HQ w Hw). unfold returns in *.
  destruct (c w) as [[] ?]; tauto.
Qed.

End Keeps.

(** A loop that goes on with [rest] when its fuel is used up.  Where [rest] does not
    matter the fuel is never used up: the loop ends by itself. *)
Fixpoint loop_or {S R} (rest : S → M W R) (fuel : nat) (body : S → M W (S + R)) (s : S) : M W R :=
  match fuel with
  | O => rest s
  | Datatypes.S fuel =>
      r ← body s;
      match r with
      | inl s' => loop_or rest fuel body s'
      | inr r => mret r
      end
  end.

Lemma loop_or_ends {S R} (rest : S → M W R) (P : S → Prop) (m : S → nat) body fuel s w :
  (∀ s, P s → keeps (λ _, True) (body s)
     (λ r, match r with inl s' => P s' ∧ (m s' < m s)%nat | inr _ => True end)) →
  P s → (m s < fuel)%nat → loop_or rest fuel body s w = loop fuel body s w.
Proof.
  intros Hbody. revert s w. induction fuel as [|fuel IH]; intros s w Hs Hm; [lia|]. cbn [loop loop_or].
  specialize (Hbody s Hs w I). unfold mbind, M_bind, returns in *. destruct (body s w) as [[[s'|r]| | | |] w']; try done.
  destruct Hbody as [[Hs' Hlt] _]. apply IH; [done|lia].
Qed.

End Returns.

Create HintDb keep discriminated.

#[export] Hint Resolve keeps_fault keeps_abort keeps_assert keeps_array_get keeps_udiv : keep.

(** A part whose result does not matter, from a hint with any condition on it. *)
Ltac keep_known := first [ solve [eauto 3 with keep nocore] | solve [eapply keeps_true; eauto 3 with keep nocore] ].

(** One step: the head of the computation. *)
Ltac keep_step :=
  cbv beta zeta;
  lazymatch goal with
  | |- keeps _ (mret _) _ => apply keeps_ret; try done
  | |- keeps _ (mbind _ _) _ => first [ eapply keeps_bind; [solve [keep_known]|intros ? ?] |
                                        apply (keeps_bind _ _ _ (λ _, True)); [|intros ? _] ]
  | |- keeps _ (if ?b then _ else _) _ => destruct b eqn:?
  | |- keeps _ (match ?x with _ => _ end) _ => first [is_var x; destruct x | destruct x eqn:?]; cbn [fst snd] in *
  | |- keeps _ (loop _ _ _) (λ _, True) => apply keeps_loop_true; intros ?
  | |- keeps _ (loop _ _ _) _ => apply (keeps_loop _ _ _ _ (λ _, True)); [done|intros ? _]
  | |- keeps _ _ (λ _, True) => keep_known
  | |- keeps _ _ _ => solve [keep_known]
  end.
Ltac keep := intros; repeat keep_step; try done.
