(* ===== verification/Zcbor.v ===== *)
(** * CBOR

    The part of the zcbor library (src/boot/zcbor) that serial recovery uses: the decoder
    of zcbor_decode.c, the encoder of zcbor_encode.c, their shared state of
    zcbor_common.c, and the decoding of a whole map of zcbor_bulk.c.  Pointers are
    offsets in a buffer; an access outside of it is a fault.  A function that returns
    false gives [None], with the state it leaves behind.  The error code kept for
    debugging is left out, sizes are those of a 32-bit machine. *)

From S2P Require Import Prelude Effects.

(** Options of the build. *)
Class ZcborConfig := { ZCBOR_CANONICAL : bool }.

Definition ZCBOR_MAJOR_TYPE_PINT : Z := 0.
Definition ZCBOR_MAJOR_TYPE_NINT : Z := 1.
Definition ZCBOR_MAJOR_TYPE_BSTR : Z := 2.
Definition ZCBOR_MAJOR_TYPE_TSTR : Z := 3.
Definition ZCBOR_MAJOR_TYPE_LIST : Z := 4.
Definition ZCBOR_MAJOR_TYPE_MAP : Z := 5.
Definition ZCBOR_MAJOR_TYPE_TAG : Z := 6.
Definition ZCBOR_MAJOR_TYPE_SIMPLE : Z := 7.

Definition ZCBOR_MAJOR_TYPE (header_byte : Z) : Z := Z.land (Z.shiftr header_byte 5) 7.
Definition ZCBOR_ADDITIONAL (header_byte : Z) : Z := Z.land header_byte 0x1F.

Definition ZCBOR_VALUE_IN_HEADER : Z := 23.
Definition ZCBOR_VALUE_IS_1_BYTE : Z := 24.
Definition ZCBOR_VALUE_IS_8_BYTES : Z := 27.
Definition ZCBOR_VALUE_IS_INDEFINITE_LENGTH : Z := 31.
Definition ZCBOR_BOOL_TO_SIMPLE : Z := 20.
Definition SIZE_MAX : Z := UINT32_MAX.
Definition ZCBOR_MAX_ELEM_COUNT : Z := SIZE_MAX.
Definition ZCBOR_LARGE_ELEM_COUNT : Z := ZCBOR_MAX_ELEM_COUNT - 15.

(** ** The state *)

(** The part that is saved in a backup. *)
Record zcbor_pos := ZPos {
  payload : Z;
  payload_bak : Z;
  elem_count : Z;
  payload_end : Z;
  indefinite_length_array : bool;
}.

(** [backup_list] holds the backups in use, the last one first. *)
Record zcbor_state := ZState {
  buffer : list Z;
  pos : zcbor_pos;
  num_backups : Z;
  backup_list : list zcbor_pos;
}.

Definition set_pos (s : zcbor_state) (p : zcbor_pos) : zcbor_state :=
  ZState (buffer s) p (num_backups s) (backup_list s).
Definition set_buffer (s : zcbor_state) (b : list Z) : zcbor_state :=
  ZState b (pos s) (num_backups s) (backup_list s).
Definition set_backup_list (s : zcbor_state) (l : list zcbor_pos) : zcbor_state :=
  ZState (buffer s) (pos s) (num_backups s) l.

Definition set_payload (p : zcbor_pos) (o : Z) : zcbor_pos :=
  ZPos o (payload_bak p) (elem_count p) (payload_end p) (indefinite_length_array p).
Definition set_elem_count (p : zcbor_pos) (n : Z) : zcbor_pos :=
  ZPos (payload p) (payload_bak p) n (payload_end p) (indefinite_length_array p).
Definition set_indefinite (p : zcbor_pos) (b : bool) : zcbor_pos :=
  ZPos (payload p) (payload_bak p) (elem_count p) (payload_end p) b.

(** The pointer moves to [o] and the place before is remembered. *)
Definition advance (p : zcbor_pos) (o : Z) : zcbor_pos :=
  ZPos o (payload p) (elem_count p) (payload_end p) (indefinite_length_array p).

Definition zcbor_new_state (b : list Z) (n_states elem_count : Z) : zcbor_state :=
  ZState b (ZPos 0 0 elem_count (zlen b) false) (n_states - 2) [].

Abbreviation ZM A := (M zcbor_state (option A)).

Definition get_pos : M zcbor_state zcbor_pos := λ s, (Ret (pos s), s).
Definition put_pos (p : zcbor_pos) : M zcbor_state unit := λ s, (Ret (), set_pos s p).

Definition ZCBOR_FAIL {A} : ZM A := mret None.
Definition ok_ {A} (a : A) : ZM A := mret (Some a).

(** [if (!c) ZCBOR_FAIL();] *)
Definition zbind {A B} (c : ZM A) (k : A → ZM B) : ZM B :=
  r ← c; match r with Some a => k a | None => ZCBOR_FAIL end.

Declare Scope zcbor_scope.
Delimit Scope zcbor_scope with zcbor.
Notation "x ←? c ; k" := (zbind c (λ x, k)) (at level 20, c at level 100, k at level 200, right associativity) : zcbor_scope.
Notation "' x ←? c ; k" := (zbind c (λ x, k)) (at level 20, x pattern, c at level 100, k at level 200, right associativity) : zcbor_scope.
#[local] Open Scope zcbor_scope.

(** [*state->payload] *)
Definition payload_byte : M zcbor_state Z := λ s, array_get (buffer s) (payload (pos s)) s.

(** [len] bytes at [off]. *)
Definition read_bytes (off len : Z) : M zcbor_state (list Z) :=
  λ s, if (0 <=? off) && (off + len <=? zlen (buffer s)) then (Ret (slice (buffer s) off len), s) else (Fault, s).

Definition write_bytes (off : Z) (d : list Z) : M zcbor_state unit :=
  λ s, if (0 <=? off) && (off + zlen d <=? zlen (buffer s)) then (Ret (), set_buffer s (splice (buffer s) off d))
       else (Fault, s).

Definition zcbor_new_backup (new_elem_count : Z) : ZM unit :=
  λ s, if num_backups s <=? zlen (backup_list s) then (Ret None, s)
       else (Ret (Some ()), ZState (buffer s) (set_elem_count (pos s) new_elem_count) (num_backups s)
                              (pos s :: backup_list s)).

(** With the flags RESTORE and CONSUME, and KEEP_PAYLOAD if [keep_payload]. *)
Definition zcbor_process_backup (keep_payload : bool) (max_elem_count : Z) : ZM unit :=
  λ s, match backup_list s with
       | [] => (Ret None, s)
       | b :: l =>
           let local_copy := pos s in
           let s := set_backup_list (set_pos s b) l in
           if max_elem_count <? elem_count local_copy then (Ret None, s)
           else (Ret (Some ()), if keep_payload then set_pos s (set_payload (pos s) (payload local_copy)) else s)
       end.

Definition zcbor_header_len (value : Z) : Z :=
  if value <=? ZCBOR_VALUE_IN_HEADER then 1
  else if value <=? 0xFF then 2
  else if value <=? 0xFFFF then 3
  else if value <=? 0xFFFFFFFF then 5 else 9.

(** ** Decoding *)

Section Decode.
  Context `{ZcborConfig}.

Definition additional_len (additional : Z) : Z :=
  if additional <=? ZCBOR_VALUE_IN_HEADER then 0
  else if additional <=? ZCBOR_VALUE_IS_8_BYTES then Z.shiftl 1 (additional - ZCBOR_VALUE_IS_1_BYTE)
  else 0xF.

Definition initial_checks : ZM unit :=
  p ← get_pos; if payload_end p <=? payload p then ZCBOR_FAIL else ok_ ().

Definition type_check (exp_major_type : Z) : ZM unit :=
  _ ←? initial_checks;
  b ← payload_byte;
  if negb (ZCBOR_MAJOR_TYPE b =? exp_major_type) then ZCBOR_FAIL else ok_ ().

(** [FAIL_RESTORE] *)
Definition FAIL_RESTORE {A} : ZM A :=
  p ← get_pos; put_pos (set_elem_count (set_payload p (payload_bak p)) (elem_count p ⊕ 1));; ZCBOR_FAIL.

Definition value_extract (result_len : Z) : ZM Z :=
  _ ←? initial_checks;
  p ← get_pos;
  if elem_count p =? 0 then ZCBOR_FAIL else
  b ← payload_byte;
  let additional := ZCBOR_ADDITIONAL b in
  let len := additional_len additional in
  if ZCBOR_VALUE_IS_8_BYTES <? additional then ZCBOR_FAIL else
  if result_len <? len then ZCBOR_FAIL else
  if payload_end p <? payload p + len + 1 then ZCBOR_FAIL else
  bytes ← read_bytes (payload p + 1) len;
  let result := if len =? 0 then additional else le_dec (rev bytes) in
  if negb (len =? 0) && ZCBOR_CANONICAL && negb (zcbor_header_len result =? len + 1) then ZCBOR_FAIL else
  put_pos (set_elem_count (advance p (payload p + len + 1)) (elem_count p ⊖ 1));;
  ok_ result.

Definition zcbor_uint_decode (result_size : Z) : ZM Z :=
  _ ←? type_check ZCBOR_MAJOR_TYPE_PINT; value_extract result_size.

Definition zcbor_uint32_decode : ZM Z := zcbor_uint_decode 4.
Definition zcbor_size_decode : ZM Z := zcbor_uint_decode 4.

(** A string is the place of its bytes and their number. *)
Record zcbor_string := ZString { str_value : Z; str_len : Z }.

Definition str_start_decode (exp_major_type : Z) : ZM zcbor_string :=
  _ ←? type_check exp_major_type;
  len ←? value_extract 4;
  p ← get_pos; ok_ (ZString (payload p) len).

Definition str_start_decode_with_overflow_check (exp_major_type : Z) : ZM zcbor_string :=
  result ←? str_start_decode exp_major_type;
  p ← get_pos;
  if payload_end p - payload p <? str_len result then FAIL_RESTORE else ok_ result.

Definition str_decode (exp_major_type : Z) : ZM zcbor_string :=
  result ←? str_start_decode_with_overflow_check exp_major_type;
  p ← get_pos; put_pos (set_payload p (payload p + str_len result));; ok_ result.

Definition zcbor_bstr_decode : ZM zcbor_string := str_decode ZCBOR_MAJOR_TYPE_BSTR.
Definition zcbor_tstr_decode : ZM zcbor_string := str_decode ZCBOR_MAJOR_TYPE_TSTR.

Definition list_map_start_decode (exp_major_type : Z) : ZM unit :=
  _ ←? type_check exp_major_type;
  b ← payload_byte;
  p ← get_pos;
  let indefinite := negb ZCBOR_CANONICAL && (ZCBOR_ADDITIONAL b =? ZCBOR_VALUE_IS_INDEFINITE_LENGTH) in
  new_elem_count ←? (if indefinite then
                       if elem_count p =? 0 then ZCBOR_FAIL else
                       put_pos (set_elem_count (advance p (payload p + 1)) (elem_count p ⊖ 1));;
                       ok_ ZCBOR_LARGE_ELEM_COUNT
                     else value_extract 4);
  r ← zcbor_new_backup new_elem_count;
  match r with
  | None => FAIL_RESTORE
  | Some _ => p ← get_pos; put_pos (set_indefinite p indefinite);; ok_ ()
  end.

Definition zcbor_map_start_decode : ZM unit :=
  _ ←? list_map_start_decode ZCBOR_MAJOR_TYPE_MAP;
  p ← get_pos;
  if indefinite_length_array p then ok_ ()
  else if ZCBOR_MAX_ELEM_COUNT / 2 <=? elem_count p then FAIL_RESTORE
  else put_pos (set_elem_count p (elem_count p ⊗ 2));; ok_ ().

Definition zcbor_array_at_end : M zcbor_state bool :=
  p ← get_pos;
  if negb ZCBOR_CANONICAL && indefinite_length_array p then
    if payload p <? payload_end p then b ← payload_byte; mret (b =? 0xFF) else mret false
  else mret (elem_count p =? 0).

Definition array_end_expect : ZM unit :=
  _ ←? initial_checks;
  b ← payload_byte;
  if negb (b =? 0xFF) then ZCBOR_FAIL else
  p ← get_pos; put_pos (set_payload p (payload p + 1));; ok_ ().

Definition list_map_end_decode : ZM unit :=
  p ← get_pos;
  if negb ZCBOR_CANONICAL && indefinite_length_array p then
    _ ←? array_end_expect;
    p ← get_pos; put_pos (set_indefinite p false);;
    zcbor_process_backup true ZCBOR_MAX_ELEM_COUNT
  else zcbor_process_backup true 0.

Definition zcbor_map_end_decode : ZM unit := list_map_end_decode.

Definition zcbor_simple_decode : ZM Z :=
  _ ←? type_check ZCBOR_MAJOR_TYPE_SIMPLE;
  b ← payload_byte;
  if 24 <? ZCBOR_ADDITIONAL b then ZCBOR_FAIL else value_extract 1.

Definition zcbor_bool_decode : ZM bool :=
  value ←? zcbor_simple_decode;
  let value := u8 (value - ZCBOR_BOOL_TO_SIMPLE) in
  if 1 <? value then FAIL_RESTORE else ok_ (negb (value =? 0)).

Definition zcbor_tag_decode : ZM Z :=
  _ ←? type_check ZCBOR_MAJOR_TYPE_TAG;
  result ←? value_extract 4;
  p ← get_pos; put_pos (set_elem_count p (elem_count p ⊕ 1));; ok_ result.

(** Bytes left; the bound of the loops below, each turn of which consumes some. *)
Definition bytes_left (p : zcbor_pos) : nat := Z.to_nat (payload_end p - payload p).

(** The tags before an item; the result is its header byte. *)
Definition skip_tags_step (b : Z) : M zcbor_state (Z + option Z) :=
  if negb (ZCBOR_MAJOR_TYPE b =? ZCBOR_MAJOR_TYPE_TAG) then mret (inr (Some b)) else
  r ← zcbor_tag_decode;
  match r with
  | None => mret (inr None)
  | Some _ =>
      p ← get_pos;
      if payload_end p <=? payload p then mret (inr None) else b ← payload_byte; mret (inl b)
  end.

Definition skip_elems_step (skip : ZM unit) (_ : unit) : M zcbor_state (unit + option unit) :=
  e ← zcbor_array_at_end;
  if e : bool then mret (inr (Some ())) else
  r ← skip; mret (match r with Some _ => inl () | None => inr None end).

(** The item with header byte [b]. *)
Definition skip_content (skip : ZM unit) (b : Z) : ZM unit :=
  let major_type := ZCBOR_MAJOR_TYPE b in
  let indefinite := negb ZCBOR_CANONICAL && (ZCBOR_ADDITIONAL b =? ZCBOR_VALUE_IS_INDEFINITE_LENGTH) &&
                    ((major_type =? ZCBOR_MAJOR_TYPE_LIST) || (major_type =? ZCBOR_MAJOR_TYPE_MAP)) in
  value ←? (if indefinite then ok_ 0 else value_extract 8);
  p ← get_pos;
  if (major_type =? ZCBOR_MAJOR_TYPE_BSTR) || (major_type =? ZCBOR_MAJOR_TYPE_TSTR) then
    if payload_end p - payload p <? value then ZCBOR_FAIL else
    put_pos (set_payload p (payload p + value));; ok_ ()
  else if (major_type =? ZCBOR_MAJOR_TYPE_MAP) || (major_type =? ZCBOR_MAJOR_TYPE_LIST) then
    if (major_type =? ZCBOR_MAJOR_TYPE_MAP) && (SIZE_MAX / 2 <? value) then ZCBOR_FAIL else
    let value := if major_type =? ZCBOR_MAJOR_TYPE_MAP then 2 * value else value in
    let value := if indefinite then ZCBOR_LARGE_ELEM_COUNT else value in
    let o := if indefinite then payload p + 1 else payload p in
    put_pos (set_indefinite (set_elem_count (set_payload p o) (u32 value)) indefinite);;
    _ ←? loop (S (bytes_left p)) (skip_elems_step skip) ();
    if indefinite then array_end_expect else ok_ ()
  else ok_ ().

(** Tags and item, on a copy of the state. *)
Definition skip_item (skip : ZM unit) : ZM unit :=
  b ← payload_byte;
  p ← get_pos;
  b ←? loop (S (bytes_left p)) skip_tags_step b;
  skip_content skip b.

(** Each level of nesting has consumed a byte. *)
Fixpoint any_skip (fuel : nat) : ZM unit :=
  match fuel with
  | O => λ s, (Diverge, s)
  | Datatypes.S fuel =>
      _ ←? initial_checks;
      p ← get_pos;
      r ← skip_item (any_skip fuel);
      copy ← get_pos;
      put_pos p;;
      match r with
      | None => ZCBOR_FAIL
      | Some _ => put_pos (set_elem_count (set_payload p (payload copy)) (elem_count p ⊖ 1));; ok_ ()
      end
  end.

Definition zcbor_any_skip : ZM unit := p ← get_pos; any_skip (S (bytes_left p)).

End Decode.

(** ** Decoding a map with known keys *)

Definition EBADMSG : Z := 77.
Definition ENOMSG : Z := 80.
Definition EADDRINUSE : Z := 112.

(** What a decoder stores. *)
Inductive zcbor_value :=
| VUint (n : Z)
| VString (s : zcbor_string)
| VBool (b : bool).

Definition as_uint (c : ZM Z) : ZM zcbor_value := (n ←? c; ok_ (VUint n))%zcbor.
Definition as_string (c : ZM zcbor_string) : ZM zcbor_value := (s ←? c; ok_ (VString s))%zcbor.
Definition as_bool (c : ZM bool) : ZM zcbor_value := (b ←? c; ok_ (VBool b))%zcbor.

(** [found] holds the value once the key has been met. *)
Record zcbor_map_decode_key_val := KeyVal {
  kv_key : list Z;
  kv_decoder : ZM zcbor_value;
  kv_found : option zcbor_value;
}.

Definition set_found (e : zcbor_map_decode_key_val) (v : zcbor_value) : zcbor_map_decode_key_val :=
  KeyVal (kv_key e) (kv_decoder e) (Some v).

(** The search for a key starts where the last one ended; [dptr] is the position in the
    table, [n] the number of entries still to be compared. *)
Fixpoint find_key (map : list zcbor_map_decode_key_val) (key : list Z) (dptr : nat) (n : nat)
  : nat * option zcbor_map_decode_key_val :=
  match n with
  | O => (dptr, None)
  | S n =>
      let dptr := if (length map <=? dptr)%nat then O else dptr in
      match map !! dptr with
      | Some e => if bool_decide (kv_key e = key) then (dptr, Some e) else find_key map key (S dptr) n
      | None => (dptr, None)
      end
  end.

Section Bulk.
  Context `{ZcborConfig}.

(** One key and its value; the loop variables are the position in the table, the table
    and the number of keys found. *)
Definition bulk_step (s : nat * list zcbor_map_decode_key_val * Z)
  : M zcbor_state (nat * list zcbor_map_decode_key_val * Z + Z * list zcbor_map_decode_key_val * Z) :=
  let '(dptr, map, matched) := s in
  let leave : M zcbor_state (_ + Z * list zcbor_map_decode_key_val * Z) :=
    (r ← zcbor_map_end_decode; mret (inr (if r is Some _ then 0 else - EBADMSG, map, matched))) in
  k ← zcbor_tstr_decode;
  match k with
  | None => leave
  | Some k =>
      key ← read_bytes (str_value k) (str_len k);
      match find_key map key dptr (length map) with
      | (dptr, None) =>
          r ← zcbor_any_skip;
          match r with Some _ => mret (inl (dptr, map, matched)) | None => leave end
      | (dptr, Some e) =>
          if kv_found e is Some _ then mret (inr (- EADDRINUSE, map, matched)) else
          r ← kv_decoder e;
          match r with
          | None => mret (inr (- ENOMSG, map, matched))
          | Some v => mret (inl (S dptr, <[dptr := set_found e v]> map, matched + 1))
          end
      end
  end.

(** Return code, the table with the values found, and their number, which is not set
    when the map cannot be opened. *)
Definition zcbor_map_decode_bulk (map : list zcbor_map_decode_key_val) (matched : Z)
  : M zcbor_state (Z * list zcbor_map_decode_key_val * Z) :=
  r ← zcbor_map_start_decode;
  match r with
  | None => mret (- EBADMSG, map, matched)
  | Some _ => p ← get_pos; loop (S (bytes_left p)) bulk_step (O, map, 0)
  end.

End Bulk.

(** ** Encoding *)

Section Encode.
  Context `{ZcborConfig}.
  #[local] Open Scope zcbor_scope.

Definition log2ceil (val : Z) : Z :=
  if val =? 1 then 0 else if val =? 2 then 1 else if val <=? 4 then 2 else 3.

Definition get_additional (len value0 : Z) : Z := if len =? 0 then value0 else 24 + log2ceil len.

Definition encode_header_byte (major_type additional : Z) : ZM unit :=
  p ← get_pos;
  if payload_end p <=? payload p then ZCBOR_FAIL else
  write_bytes (payload p) [u8 (Z.lor (Z.shiftl major_type 5) (Z.land additional 0x1F))];;
  put_pos (set_payload p (payload p + 1));; ok_ ().

(** The value is given as its little-endian bytes, of which [result_len] are written. *)
Definition value_encode_len (major_type : Z) (result : list Z) (result_len : Z) : ZM unit :=
  p ← get_pos;
  if payload_end p <? payload p + 1 + result_len then ZCBOR_FAIL else
  value0 ← array_get result 0;
  _ ←? encode_header_byte major_type (get_additional result_len value0);
  p ← get_pos;
  write_bytes (payload p) (rev (slice result 0 result_len));;
  put_pos (set_elem_count (set_payload p (payload p + result_len)) (elem_count p ⊕ 1));; ok_ ().

Definition value_encode (major_type input max_result_len : Z) : ZM unit :=
  value_encode_len major_type (le_enc (Z.to_nat max_result_len) input) (zcbor_header_len input - 1).

(** A negative number is stored with its bits flipped. *)
Definition zcbor_int32_put (input : Z) : ZM unit :=
  if input <? 0 then value_encode ZCBOR_MAJOR_TYPE_NINT (-1 - input) 4
  else value_encode ZCBOR_MAJOR_TYPE_PINT input 4.

Definition zcbor_uint32_put (input : Z) : ZM unit := value_encode ZCBOR_MAJOR_TYPE_PINT input 4.
Definition zcbor_uint64_put (input : Z) : ZM unit := value_encode ZCBOR_MAJOR_TYPE_PINT input 8.

Definition str_start_encode (major_type len : Z) : ZM unit :=
  p ← get_pos;
  if payload_end p <? zcbor_header_len len + len + payload p then ZCBOR_FAIL else
  value_encode major_type len 4.

Definition str_encode (major_type : Z) (input : list Z) : ZM unit :=
  p ← get_pos;
  if payload_end p <=? payload p then ZCBOR_FAIL else
  if payload_end p - payload p <? zlen input then ZCBOR_FAIL else
  _ ←? str_start_encode major_type (zlen input);
  p ← get_pos;
  write_bytes (payload p) input;;
  put_pos (set_payload p (payload p + zlen input));; ok_ ().

Definition zcbor_bstr_encode_ptr (str : list Z) : ZM unit := str_encode ZCBOR_MAJOR_TYPE_BSTR str.
Definition zcbor_tstr_encode_ptr (str : list Z) : ZM unit := str_encode ZCBOR_MAJOR_TYPE_TSTR str.

Definition list_map_start_encode (max_num major_type : Z) : ZM unit :=
  if ZCBOR_CANONICAL then
    _ ←? zcbor_new_backup 0;
    _ ←? value_encode major_type max_num 4;
    p ← get_pos; put_pos (set_elem_count p (elem_count p ⊖ 1));; ok_ ()
  else encode_header_byte major_type ZCBOR_VALUE_IS_INDEFINITE_LENGTH.

Definition zcbor_list_start_encode (max_num : Z) : ZM unit := list_map_start_encode max_num ZCBOR_MAJOR_TYPE_LIST.
Definition zcbor_map_start_encode (max_num : Z) : ZM unit := list_map_start_encode max_num ZCBOR_MAJOR_TYPE_MAP.

(** In the canonical form the header is written again with the number of elements, and
    the elements moved up to it if it is now shorter. *)
Definition list_map_end_encode (max_num major_type : Z) : ZM unit :=
  if ZCBOR_CANONICAL then
    p ← get_pos;
    let list_count := if major_type =? ZCBOR_MAJOR_TYPE_LIST then elem_count p else elem_count p / 2 in
    let max_header_len := zcbor_header_len max_num - 1 in
    let header_len := zcbor_header_len list_count - 1 in
    _ ←? zcbor_process_backup false 0xFFFFFFFF;
    if max_header_len <? header_len then ZCBOR_FAIL else
    _ ←? value_encode major_type list_count 4;
    q ← get_pos;
    if negb (max_header_len =? header_len) then
      let start := payload q + max_header_len - header_len in
      let body_size := payload p - start in
      body ← read_bytes start body_size;
      write_bytes (payload q) body;;
      put_pos (set_payload q (payload q + body_size));; ok_ ()
    else put_pos (set_payload q (payload p));; ok_ ()
  else encode_header_byte ZCBOR_MAJOR_TYPE_SIMPLE ZCBOR_VALUE_IS_INDEFINITE_LENGTH.

Definition zcbor_list_end_encode (max_num : Z) : ZM unit := list_map_end_encode max_num ZCBOR_MAJOR_TYPE_LIST.
Definition zcbor_map_end_encode (max_num : Z) : ZM unit := list_map_end_encode max_num ZCBOR_MAJOR_TYPE_MAP.

Definition zcbor_simple_put (input : Z) : ZM unit := value_encode ZCBOR_MAJOR_TYPE_SIMPLE input 1.
Definition zcbor_bool_put (input : bool) : ZM unit :=
  zcbor_simple_put ((if input then 1 else 0) + ZCBOR_BOOL_TO_SIMPLE).

(** Encoders joined by [&&]. *)
Fixpoint all_ok (l : list (ZM unit)) : ZM unit :=
  match l with
  | [] => ok_ ()
  | c :: l => zbind c (λ _, all_ok l)
  end.

End Encode.
