(* ===== verification/ZcborProps.v ===== *)
(** * The CBOR decoder on arbitrary bytes

    Whatever a message holds, decoding it ends, reads only bytes of the message, and
    gives strings that lie in it. *)

From S2P Require Import Prelude Effects Zcbor.

#[local] Set Default Proof Using "Type*".

Section Safe.
  Context `{ZcborConfig}.
  Variables (b : list Z).
  Hypothesis Hb : Forall is_u8 b.

Definition pos_ok (p : zcbor_pos) : Prop :=
  0 <= payload_bak p <= payload_end p ∧ 0 <= payload p <= payload_end p ∧ payload_end p = zlen b.

(** All pointers are in the message. *)
Definition state_ok (s : zcbor_state) : Prop :=
  buffer s = b ∧ pos_ok (pos s) ∧ Forall pos_ok (backup_list s).

Definition at_ (s : zcbor_state) : Z := payload (pos s).

(** [c] keeps the pointers in the message; if it succeeds it has moved by at least [d]
    bytes and the result satisfies [P], else it has not moved backwards. *)
Definition safe {A} (d : Z) (c : ZM A) (P : A → Prop) : Prop :=
  ∀ s, state_ok s →
    wp c (λ r s', state_ok s' ∧ match r with Some a => at_ s + d <= at_ s' ∧ P a | None => at_ s <= at_ s' end)
      (λ _, False) s.

Lemma safe_mono {A} d d' (c : ZM A) (P Q : A → Prop) :
  safe d c P → d' <= d → (∀ a, P a → Q a) → safe d' c Q.
Proof.
  intros Hc Hd HPQ s Hs. eapply wp_mono; [by apply Hc| |done].
  intros [a|] s' [Hs' Hr]; (split; [done|]); [|done].
  destruct Hr as [? ?]. split; [lia|auto].
Qed.

Lemma safe_zbind {A B} d d' (c : ZM A) (k : A → ZM B) P Q :
  0 <= d → safe d c P → (∀ a, P a → safe d' (k a) Q) → safe (d + d') (zbind c k) Q.
Proof.
  intros Hd Hc Hk s Hs. unfold zbind. wp_step Hc; [done|].
  intros [a|] s' [Hs' Hr]; [|by apply wp_ret]. destruct Hr as [Hle HP].
  eapply wp_mono; [by apply Hk| |done].
  intros [a'|] s'' [Hs'' Hr]; (split; [done|]); [|lia]. destruct Hr. split; [lia|done].
Qed.

Lemma safe_fail {A} d (P : A → Prop) : safe d ZCBOR_FAIL P.
Proof. intros s Hs. apply wp_ret. split; [done|lia]. Qed.

Lemma safe_ok {A} (a : A) (P : A → Prop) : P a → safe 0 (ok_ a) P.
Proof. intros HP s Hs. apply wp_ret. split; [done|]. split; [lia|done]. Qed.

Lemma state_ok_pos s : state_ok s → pos_ok (pos s).
Proof. by intros (_ & ? & _). Qed.

Lemma state_ok_set s p : state_ok s → pos_ok p → state_ok (set_pos s p).
Proof. intros (? & ? & ?) Hp. by repeat split; try apply Hp. Qed.

(** [p ← get_pos; k p] *)
Lemma wp_get_pos {A} (k : zcbor_pos → M zcbor_state A) Q C s : wp (k (pos s)) Q C s → wp (p ← get_pos; k p) Q C s.
Proof. intros Hk. by apply wp_bind. Qed.

Lemma wp_put_pos {A} p (k : M zcbor_state A) Q C s : wp k Q C (set_pos s p) → wp (put_pos p;; k) Q C s.
Proof. intros Hk. by apply wp_bind. Qed.

Lemma wp_payload_byte {A} (k : Z → M zcbor_state A) Q C s :
  state_ok s → at_ s < zlen b →
  (∀ x, b !! Z.to_nat (at_ s) = Some x → is_u8 x → wp (k x) Q C s) → wp (x ← payload_byte; k x) Q C s.
Proof.
  intros (Hbuf & (Hbak & Hp & He) & _) Hlt Hk. unfold at_ in *. apply wp_bind. unfold payload_byte, wp. rewrite Hbuf.
  destruct (lookup_lt_is_Some_2 b (Z.to_nat (payload (pos s)))) as [x Hx]; [unfold zlen in *; lia|].
  rewrite (array_get_ret _ _ x) by (lia || done). apply Hk; [done|]. by apply (Forall_lookup_1 _ _ _ _ Hb Hx).
Qed.

Lemma wp_read_bytes {A} off len (k : list Z → M zcbor_state A) Q C s :
  state_ok s → 0 <= off → 0 <= len → off + len <= zlen b →
  wp (k (slice b off len)) Q C s → wp (x ← read_bytes off len; k x) Q C s.
Proof.
  intros (Hbuf & _) Hoff Hlen Hle Hk. apply wp_bind. unfold read_bytes, wp. rewrite Hbuf.
  by rewrite (proj2 (Z.leb_le _ _) Hoff), (proj2 (Z.leb_le _ _) Hle).
Qed.

Lemma initial_checks_wp s (Q : option unit → zcbor_state → Prop) :
  (payload_end (pos s) <= at_ s → Q None s) → (at_ s < payload_end (pos s) → Q (Some ()) s) →
  wp initial_checks Q (λ _, False) s.
Proof.
  intros Hf Hs. unfold initial_checks. apply wp_get_pos. case_if Hc; apply wp_ret; auto.
Qed.
(** The value of a header, and where the pointers go. *)
Lemma value_extract_wp n s :
  state_ok s → 0 <= n →
  wp (value_extract n)
    (λ r s', state_ok s' ∧ match r with
             | Some v => at_ s < at_ s' ∧ payload_bak (pos s') = at_ s ∧ 0 <= v < 256 ^ Z.max 1 n
             | None => s' = s
             end) (λ _, False) s.
Proof using Hb.
  intros Hs Hn. unfold value_extract, zbind. apply wp_bind, initial_checks_wp; [intros _; by apply wp_ret|intros Hlt].
  pose proof Hs as (Hbuf & (Hbak & Hp & He) & Hbl).
  apply wp_get_pos. case_if Hec; [by apply wp_ret|].
  apply wp_payload_byte; [done|lia|]. intros x Hx Hx8.
  set (add := ZCBOR_ADDITIONAL x). set (len := additional_len add).
  assert (Hadd : 0 <= add < 32).
  { unfold add, ZCBOR_ADDITIONAL. change 0x1F with (Z.ones 5). rewrite Z.land_ones by lia. lia. }
  case_if H8; [by apply wp_ret|]. case_if Hlen; [by apply wp_ret|]. case_if Hend; [by apply wp_ret|].
  assert (Hlen0 : 0 <= len).
  { unfold len, additional_len. repeat case_match; try lia. rewrite Z.shiftl_1_l. lia. }
  unfold at_ in *. apply wp_read_bytes; [done|lia|lia|lia|].
  set (v := if len =? 0 then add else _).
  assert (Hv : 0 <= v < 256 ^ Z.max 1 n).
  { unfold v. assert (256 ^ 1 <= 256 ^ Z.max 1 n) by (apply Z.pow_le_mono_r; lia).
    case_if Hz; [lia|].
    pose proof (le_dec_bound (rev (slice b (payload (pos s) + 1) len))) as Hbd.
    unfold zlen in Hbd. rewrite length_rev in Hbd. fold (zlen (slice b (payload (pos s) + 1) len)) in Hbd.
    rewrite zlen_slice in Hbd by lia.
    assert (256 ^ len <= 256 ^ Z.max 1 n) by (apply Z.pow_le_mono_r; lia).
    enough (0 <= le_dec (rev (slice b (payload (pos s) + 1) len)) < 256 ^ len) by lia.
    apply Hbd, Forall_rev. by apply Forall_slice. }
  case_if Hcan; [by apply wp_ret|].
  apply wp_put_pos, wp_ret. split; [|cbn; split; [lia|by split]].
  apply state_ok_set; [done|]. unfold pos_ok. cbn. lia.
Qed.

Lemma type_check_wp t s :
  state_ok s →
  wp (type_check t) (λ r s', s' = s ∧ match r with Some _ => at_ s < zlen b | None => True end) (λ _, False) s.
Proof using Hb.
  intros Hs. unfold type_check, zbind. pose proof Hs as (Hbuf & (Hbak & Hp & He) & Hbl).
  apply wp_bind, initial_checks_wp; [intros _; by apply wp_ret|intros Hlt]. unfold at_ in *.
  apply wp_payload_byte; [done|unfold at_; lia|]. intros x _ _. case_if Ht; apply wp_ret; split; done || lia.
Qed.

(** A string lies in the message. *)
Definition str_ok (x : zcbor_string) : Prop :=
  0 <= str_value x ∧ 0 <= str_len x ∧ str_value x + str_len x <= zlen b ∧ is_u32 (str_len x).

Lemma fail_restore_wp {A} s (Q : option A → zcbor_state → Prop) :
  Q None (set_pos s (set_elem_count (set_payload (pos s) (payload_bak (pos s))) (elem_count (pos s) ⊕ 1))) →
  wp FAIL_RESTORE Q (λ _, False) s.
Proof. intros HQ. unfold FAIL_RESTORE. apply wp_get_pos, wp_put_pos. by apply wp_ret. Qed.

Lemma restore_ok s n :
  state_ok s → state_ok (set_pos s (set_elem_count (set_payload (pos s) (payload_bak (pos s))) n)).
Proof. intros Hs. pose proof (state_ok_pos _ Hs) as Hp. apply state_ok_set; [done|]. unfold pos_ok in *. cbn. lia. Qed.

Lemma str_decode_safe t : safe 1 (str_decode t) str_ok.
Proof using Hb.
  intros s Hs. unfold str_decode, str_start_decode_with_overflow_check, str_start_decode, zbind.
  do 2 apply wp_bind. wp_step (type_check_wp t); [done|]. intros [[]|] s1 [-> Ht];
    [|do 3 apply wp_ret; (split; [done|lia])].
  apply wp_bind. eapply wp_mono; [apply (value_extract_wp 4); [done|lia]| |done].
  intros [v|] s1 [Hs1 Hv]; [|subst; do 3 apply wp_ret; (split; [done|lia])]. destruct Hv as (Hlt & Hbak & Hv).
  apply wp_get_pos, wp_ret, wp_get_pos. pose proof (state_ok_pos _ Hs1) as Hp1. unfold pos_ok, at_ in *.
  cbn [str_len]. change (256 ^ Z.max 1 4) with 4294967296 in Hv. case_if Hov.
  - apply fail_restore_wp. apply wp_ret. split; [by apply restore_ok|]. cbn. lia.
  - apply wp_ret. apply wp_get_pos, wp_put_pos, wp_ret. cbn. split; [|split; [lia|]].
    + apply state_ok_set; [done|]. unfold pos_ok. cbn. lia.
    + unfold str_ok, is_u32. cbn. lia.
Qed.

Lemma value_extract_safe n : 0 <= n → safe 1 (value_extract n) (λ v, 0 <= v < 256 ^ Z.max 1 n).
Proof using Hb.
  intros Hn s Hs. eapply wp_mono; [by apply value_extract_wp| |done].
  intros [v|] s' [Hs' Hv]; (split; [done|]); [|subst; lia]. split; [lia|apply Hv].
Qed.

Lemma type_check_safe t : safe 0 (type_check t) (λ _, True).
Proof using Hb.
  intros s Hs. eapply wp_mono; [by apply type_check_wp| |done].
  intros [[]|] s' [-> _]; (split; [done|]); [split; [lia|done]|lia].
Qed.

Lemma uint_decode_safe n : 0 <= n → safe 1 (zcbor_uint_decode n) (λ v, 0 <= v < 256 ^ Z.max 1 n).
Proof using Hb.
  intros Hn. eapply (safe_zbind 0 1); [lia|apply type_check_safe|]. intros _ _. by apply value_extract_safe.
Qed.
Lemma simple_decode_wp s :
  state_ok s →
  wp zcbor_simple_decode
    (λ r s', state_ok s' ∧ match r with
             | Some v => at_ s < at_ s' ∧ payload_bak (pos s') = at_ s
             | None => s' = s
             end) (λ _, False) s.
Proof using Hb.
  intros Hs. unfold zcbor_simple_decode, zbind. wp_step (type_check_wp ZCBOR_MAJOR_TYPE_SIMPLE); [done|].
  intros [[]|] s' [-> Ht]; [|by apply wp_ret]. apply wp_payload_byte; [done..|]. intros x _ _.
  case_if Hx; [by apply wp_ret|]. eapply wp_mono; [by apply (value_extract_wp 1)| |done].
  intros [v|] s' [Hs' Hv]; (split; [done|]); [|done]. by destruct Hv as (? & ? & _).
Qed.

Lemma bool_decode_safe : safe 1 zcbor_bool_decode (λ _, True).
Proof using Hb.
  intros s Hs. unfold zcbor_bool_decode, zbind. wp_step simple_decode_wp; [done|].
  intros [v|] s' [Hs' Hv]; [|subst; apply wp_ret; split; [done|lia]]. destruct Hv as [Hlt Hbak]. case_if Hx.
  - apply fail_restore_wp. split; [by apply restore_ok|]. unfold at_ in *. cbn. lia.
  - apply wp_ret. split; [done|]. split; [lia|done].
Qed.

Lemma tag_decode_safe : safe 1 zcbor_tag_decode (λ _, True).
Proof using Hb.
  intros s Hs. unfold zcbor_tag_decode, zbind. wp_step (type_check_wp ZCBOR_MAJOR_TYPE_TAG); [done|].
  intros [[]|] s' [-> Ht]; [|apply wp_ret; split; [done|lia]].
  wp_step (value_extract_wp 4); [done|lia|]. intros [v|] s' [Hs' Hv]; [|subst; apply wp_ret; split; [done|lia]].
  apply wp_get_pos, wp_put_pos, wp_ret. split; [|split; [unfold at_ in *; cbn; lia|done]].
  apply state_ok_set; [done|]. by pose proof (state_ok_pos _ Hs').
Qed.

Lemma array_end_safe : safe 1 array_end_expect (λ _, True).
Proof using Hb.
  intros s Hs. unfold array_end_expect, zbind. pose proof (state_ok_pos _ Hs) as (Hbak & Hp & He).
  apply wp_bind, initial_checks_wp; [intros _; apply wp_ret; (split; [done|lia])|intros Hlt]. unfold at_ in *.
  apply wp_payload_byte; [done|unfold at_; lia|]. intros x _ _. case_if Hx; [apply wp_ret; split; [done|unfold at_; lia]|].
  apply wp_get_pos, wp_put_pos, wp_ret. split; [|unfold at_; cbn; split; [lia|done]].
  apply state_ok_set; [done|]. unfold pos_ok. cbn. lia.
Qed.

Lemma new_backup_wp n s :
  state_ok s →
  wp (zcbor_new_backup n)
    (λ r s', state_ok s' ∧ at_ s' = at_ s ∧ payload_bak (pos s') = payload_bak (pos s)) (λ _, False) s.
Proof using Hb.
  intros Hs. unfold zcbor_new_backup, wp. case_if Hn; [by repeat split; try apply Hs|]. destruct Hs as (Hbuf & Hp & Hl).
  unfold state_ok, at_. cbn. split; [|done]. split; [done|]. split; [done|]. by constructor.
Qed.

Lemma process_backup_wp keep n s :
  state_ok s → keep = true →
  wp (zcbor_process_backup keep n)
    (λ r s', state_ok s' ∧ match r with Some _ => at_ s' = at_ s | None => True end) (λ _, False) s.
Proof using Hb.
  intros Hs ->. unfold zcbor_process_backup, wp. pose proof Hs as (Hbuf & Hp & Hl).
  destruct (backup_list s) as [|q l]; [by split|]. apply Forall_cons_1 in Hl as [Hq Hl].
  case_if Hn; [by repeat split; try apply Hq|].
  unfold state_ok, at_, pos_ok in *. cbn. split; [|done]. split; [done|]. split; [lia|done].
Qed.
Lemma list_map_start_wp t s :
  state_ok s →
  wp (list_map_start_decode t)
    (λ r s', state_ok s' ∧ match r with
             | Some _ => at_ s < at_ s' ∧ payload_bak (pos s') = at_ s
             | None => at_ s' = at_ s
             end) (λ _, False) s.
Proof using Hb.
  intros Hs. unfold list_map_start_decode, zbind. wp_step (type_check_wp t); [done|].
  intros [[]|] s1 [-> Ht]; [|apply wp_ret; split; [done|lia]].
  apply wp_payload_byte; [done..|]. intros x _ _. apply wp_get_pos.
  set (ind := _ && _). apply wp_bind.
  eapply (wp_mono _ (λ r s', state_ok s' ∧ match r with
                             | Some v => at_ s < at_ s' ∧ payload_bak (pos s') = at_ s
                             | None => s' = s end) _ (λ _, False)); [| |done].
  - pose proof (state_ok_pos _ Hs) as (Hbak & Hp & He). destruct ind.
    + case_if Hec; [by apply wp_ret|]. apply wp_put_pos, wp_ret. unfold at_ in *. cbn. split; [|lia].
      apply state_ok_set; [done|]. unfold pos_ok. cbn. lia.
    + eapply wp_mono; [apply (value_extract_wp 4); [done|lia]| |done]. intros [v|] s' [Hs' Hv]; (split; [done|]); [|done].
      by destruct Hv as (? & ? & _).
  - intros [v|] s1 [Hs1 Hv]; [|subst; apply wp_ret; split; [done|lia]]. destruct Hv as [Hlt Hbak].
    wp_step (new_backup_wp v); [done|]. intros [[]|] s2 (Hs2 & Hat & Hb2).
    + apply wp_get_pos, wp_put_pos, wp_ret. split; [|unfold at_ in *; cbn; lia].
      apply state_ok_set; [done|]. by pose proof (state_ok_pos _ Hs2).
    + apply fail_restore_wp. split; [by apply restore_ok|]. unfold at_ in *. cbn. lia.
Qed.

Lemma map_start_safe : safe 1 zcbor_map_start_decode (λ _, True).
Proof using Hb.
  intros s Hs. unfold zcbor_map_start_decode, zbind. wp_step (list_map_start_wp ZCBOR_MAJOR_TYPE_MAP); [done|].
  intros [[]|] s1 [Hs1 Hv]; [|apply wp_ret; split; [done|lia]]. destruct Hv as [Hlt Hbak].
  apply wp_get_pos. case_if Hi; [apply wp_ret; split; [done|]; split; [lia|done]|]. case_if Hc.
  - apply fail_restore_wp. split; [by apply restore_ok|]. unfold at_ in *. cbn. lia.
  - apply wp_put_pos, wp_ret. split; [|split; [unfold at_ in *; cbn; lia|done]].
    apply state_ok_set; [done|]. by pose proof (state_ok_pos _ Hs1).
Qed.

Lemma map_end_wp s :
  state_ok s → wp zcbor_map_end_decode (λ r s', state_ok s') (λ _, False) s.
Proof using Hb.
  intros Hs. unfold zcbor_map_end_decode, list_map_end_decode, zbind. apply wp_get_pos. case_if Hi.
  - wp_step array_end_safe; [done|]. intros [[]|] s1 [Hs1 _]; [|by apply wp_ret].
    apply wp_get_pos, wp_put_pos. eapply wp_mono; [apply process_backup_wp; [|done]| |done].
    + apply state_ok_set; [done|]. by pose proof (state_ok_pos _ Hs1).
    + by intros r s' [? _].
  - eapply wp_mono; [by apply process_backup_wp| |done]. by intros r s' [? _].
Qed.

Lemma at_end_wp {A} (k : bool → M zcbor_state A) Q C s :
  state_ok s → (∀ e, wp (k e) Q C s) → wp (e ← zcbor_array_at_end; k e) Q C s.
Proof using Hb.
  intros Hs Hk. apply wp_bind. unfold zcbor_array_at_end. apply wp_get_pos.
  pose proof (state_ok_pos _ Hs) as (Hbak & Hp & He). case_if Hi; [case_if Hlt|]; [|by apply wp_ret..].
  apply wp_payload_byte; [done|unfold at_; lia|]. intros x _ _. by apply wp_ret.
Qed.
(** ** Skipping an item *)

(** [wp] of a step that keeps the pointers in the message and, when it succeeds, moves
    from [s]. *)
Definition moves {A} (s : zcbor_state) (r : option A) (s' : zcbor_state) : Prop :=
  state_ok s' ∧ match r with Some _ => at_ s < at_ s' | None => True end.

Lemma bytes_left_eq s : state_ok s → Z.of_nat (bytes_left (pos s)) = zlen b - at_ s.
Proof. intros (_ & (? & ? & He) & _). unfold bytes_left, at_. lia. Qed.

Lemma skip_tags_wp x s :
  state_ok s → at_ s < zlen b →
  wp (loop (S (bytes_left (pos s))) skip_tags_step x)
    (λ r s', state_ok s' ∧ match r with Some _ => at_ s <= at_ s' < zlen b | None => True end) (λ _, False) s.
Proof using Hb.
  intros Hs Hlt. remember (bytes_left (pos s)) as n eqn:Hn.
  assert (Hm : zlen b - at_ s <= Z.of_nat n) by (subst; rewrite bytes_left_eq by done; lia). clear Hn.
  revert x s Hs Hlt Hm. induction n as [|n IH]; intros x s Hs Hlt Hm; [lia|].
  cbn [loop]. apply wp_bind. unfold skip_tags_step at 1. case_if Ht; [by do 2 apply wp_ret; split; [|lia]|].
  wp_step tag_decode_safe; [done|]. intros [v|] s1 [Hs1 Hv]; [|by do 2 apply wp_ret]. destruct Hv as [Hv _].
  apply wp_get_pos. pose proof (state_ok_pos _ Hs1) as (_ & _ & He1).
  case_if Hend; [by do 2 apply wp_ret|]. apply wp_payload_byte; [done|unfold at_; lia|]. intros y _ _.
  apply wp_ret. eapply wp_mono; [apply IH; [done|unfold at_ in *; lia..]| |done].
  intros [z|] s' [Hs' Hz]; (split; [done|]); [lia|done].
Qed.

Lemma skip_elems_wp (skip : ZM unit) s0 s n :
  state_ok s → at_ s0 <= at_ s → zlen b - at_ s < Z.of_nat n →
  (∀ s', state_ok s' → at_ s0 <= at_ s' → wp skip (moves s') (λ _, False) s') →
  wp (loop n (skip_elems_step skip) ()) (λ r s', state_ok s' ∧ match r with Some _ => at_ s <= at_ s' | None => True end)
    (λ _, False) s.
Proof using Hb.
  intros Hs Hle Hn Hskip. revert s Hs Hle Hn. induction n as [|n IH]; intros s Hs Hle Hn.
  { destruct Hs as (_ & (? & ? & ?) & _). unfold at_ in *. lia. }
  cbn [loop]. apply wp_bind. unfold skip_elems_step at 1. apply at_end_wp; [done|]. intros [].
  { do 2 apply wp_ret. split; [done|lia]. }
  wp_step Hskip; [done..|]. intros [[]|] s1 [Hs1 Hlt]; [|by do 2 apply wp_ret].
  apply wp_ret. eapply wp_mono; [apply IH; [done|lia..]| |done].
  intros [[]|] s2 [Hs2 H2]; (split; [done|]); [lia|done].
Qed.
Lemma skip_content_wp (skip : ZM unit) y s1 s :
  state_ok s1 → at_ s <= at_ s1 < zlen b →
  (∀ s', state_ok s' → at_ s < at_ s' → wp skip (moves s') (λ _, False) s') →
  wp (skip_content skip y) (moves s) (λ _, False) s1.
Proof using Hb.
  intros Hs1 H1 Hskip. unfold skip_content, zbind.
  set (ind := _ && _ && _). apply wp_bind.
  apply (wp_mono _ (λ r s', state_ok s' ∧ match r with
                            | Some v => 0 <= v ∧ if ind then s' = s1 else at_ s1 < at_ s'
                            | None => True end) _ (λ _, False)); [| |done].
  { destruct ind; [by apply wp_ret|]. eapply wp_mono; [apply (value_extract_wp 8); [done|lia]| |done].
    intros [v|] s' [Hs' Hv]; (split; [done|]); [|done]. destruct Hv as (? & _ & ?). split; [lia|done]. }
  intros [v|] s2 [Hs2 H2]; [|by apply wp_ret]. destruct H2 as [Hv H2].
  apply wp_get_pos. pose proof (state_ok_pos _ Hs2) as (Hbak & Hp & He).
  assert (Hind : ind = true → ZCBOR_MAJOR_TYPE y = ZCBOR_MAJOR_TYPE_LIST ∨ ZCBOR_MAJOR_TYPE y = ZCBOR_MAJOR_TYPE_MAP).
  { unfold ind. intros [_ Hi]%andb_true_iff. apply orb_true_iff in Hi as [Hi|Hi]; apply Z.eqb_eq in Hi; auto. }
  case_if Hstr.
  { assert (ind = false) as Hi.
    { destruct ind; [|done]. apply orb_true_iff in Hstr as [Hm|Hm]; zsimp; rewrite Hm in Hind; by destruct Hind. }
    rewrite Hi in H2. case_if Hov; [by apply wp_ret|]. apply wp_put_pos, wp_ret. split.
    - apply state_ok_set; [done|]. unfold pos_ok. cbn. lia.
    - unfold at_ in *. cbn. lia. }
  case_if Hlm.
  2:{ assert (ind = false) as Hi.
      { destruct ind; [|done]. zsimp. destruct Hind as [Hm|Hm]; [done|rewrite Hm in *; done..]. }
      rewrite Hi in H2. apply wp_ret. split; [done|lia]. }
  case_if Hbig; [by apply wp_ret|]. apply wp_put_pos.
  set (q := set_indefinite _ _). assert (Hq : state_ok (set_pos s2 q)).
  { apply state_ok_set; [done|]. unfold pos_ok, q. destruct ind; cbn; [subst s2; unfold at_ in *; lia|lia]. }
  assert (Hlt2 : at_ s < at_ (set_pos s2 q)).
  { unfold at_ in *. cbn. destruct ind; cbn; [subst s2; lia|lia]. }
  apply wp_bind. eapply wp_mono; [apply (skip_elems_wp skip (set_pos s2 q)); [done|lia| |]| |done].
  - pose proof (bytes_left_eq _ Hs2). unfold at_ in *. cbn. destruct ind; cbn; [subst s2; lia|lia].
  - intros s' Hs' Hle. apply Hskip; [done|lia].
  - intros [[]|] s3 [Hs3 He3]; [|by apply wp_ret]. destruct ind.
    + eapply wp_mono; [by apply array_end_safe| |done]. intros [[]|] s4 [Hs4 He4]; (split; [done|]); [lia|done].
    + apply wp_ret. split; [done|lia].
Qed.

Lemma skip_item_wp (skip : ZM unit) s :
  state_ok s → at_ s < zlen b →
  (∀ s', state_ok s' → at_ s < at_ s' → wp skip (moves s') (λ _, False) s') →
  wp (skip_item skip) (moves s) (λ _, False) s.
Proof using Hb.
  intros Hs Hlt Hskip. unfold skip_item, zbind. apply wp_payload_byte; [done..|]. intros x _ _.
  apply wp_get_pos. wp_step (skip_tags_wp x); [done..|].
  intros [y|] s1 [Hs1 H1]; [|by apply wp_ret]. by apply skip_content_wp.
Qed.

Lemma any_skip_wp n s :
  state_ok s → zlen b - at_ s < Z.of_nat n → wp (any_skip n) (moves s) (λ _, False) s.
Proof using Hb.
  revert s. induction n as [|n IH]; intros s Hs Hn.
  { destruct Hs as (_ & (? & ? & ?) & _). unfold at_ in *. lia. }
  cbn [any_skip]. unfold zbind. pose proof (state_ok_pos _ Hs) as (Hbak & Hp & He).
  apply wp_bind, initial_checks_wp; [intros _; by apply wp_ret|intros Hlt].
  apply wp_get_pos. wp_step skip_item_wp; [done|lia| |].
  - intros s' Hs' Hlt'. apply IH; [done|lia].
  - intros r s1 [Hs1 H1]. apply wp_get_pos, wp_put_pos. pose proof (state_ok_pos _ Hs1) as (_ & Hp1 & He1).
    destruct r as [[]|].
    + apply wp_put_pos, wp_ret. split; [|unfold at_ in *; cbn; lia].
      apply state_ok_set; [by apply state_ok_set|]. unfold pos_ok. cbn. lia.
    + apply wp_ret. split; [by apply state_ok_set|done].
Qed.

Lemma zcbor_any_skip_wp s : state_ok s → wp zcbor_any_skip (moves s) (λ _, False) s.
Proof using Hb.
  intros Hs. unfold zcbor_any_skip. apply wp_get_pos, any_skip_wp; [done|].
  rewrite Nat2Z.inj_succ, bytes_left_eq by done. lia.
Qed.
(** ** Decoding a whole map *)

Definition value_ok (v : zcbor_value) : Prop :=
  match v with VUint n => is_u32 n | VString x => str_ok x | VBool _ => True end.

Lemma as_uint_safe c : safe 1 c is_u32 → safe 1 (as_uint c) value_ok.
Proof. intros Hc. apply (safe_zbind 1 0 _ _ is_u32); [lia|done|]. intros n Hn. by apply safe_ok. Qed.

Lemma as_string_safe c : safe 1 c str_ok → safe 1 (as_string c) value_ok.
Proof. intros Hc. apply (safe_zbind 1 0 _ _ str_ok); [lia|done|]. intros n Hn. by apply safe_ok. Qed.

Lemma as_bool_safe c : safe 1 c (λ _, True) → safe 1 (as_bool c) value_ok.
Proof. intros Hc. apply (safe_zbind 1 0 _ _ (λ _, True)); [lia|done|]. intros n Hn. by apply safe_ok. Qed.

Lemma uint32_decode_safe : safe 1 zcbor_uint32_decode is_u32.
Proof using Hb. eapply safe_mono; [by apply (uint_decode_safe 4)|lia|]. intros v Hv. exact Hv. Qed.

(** A table whose decoders are safe and whose values are in the message. *)
Definition entry_ok (e : zcbor_map_decode_key_val) : Prop :=
  safe 1 (kv_decoder e) value_ok ∧ match kv_found e with Some v => value_ok v | None => True end.

Lemma find_key_lookup map key dptr n dptr' e : find_key map key dptr n = (dptr', Some e) → map !! dptr' = Some e.
Proof.
  revert dptr. induction n as [|n IH]; intros dptr; cbn [find_key]; [done|].
  set (d := if (_ <=? _)%nat then _ else _). destruct (map !! d) eqn:Hl; intros Hf; [|by simplify_eq]. case_match; [by simplify_eq|by eapply IH].
Qed.

Lemma bulk_step_wp dptr map matched s :
  state_ok s → Forall entry_ok map →
  wp (bulk_step (dptr, map, matched))
    (λ r s', state_ok s' ∧ match r with
             | inl (_, map', _) => Forall entry_ok map' ∧ kv_key <$> map' = kv_key <$> map ∧ at_ s < at_ s'
             | inr (_, map', _) => Forall entry_ok map' ∧ kv_key <$> map' = kv_key <$> map
             end) (λ _, False) s.
Proof using Hb.
  intros Hs Hmap. cbn [bulk_step]. wp_step (str_decode_safe ZCBOR_MAJOR_TYPE_TSTR); [done|].
  intros [k|] s1 [Hs1 Hk].
  2:{ wp_step map_end_wp; [done|]. intros r s2 Hs2. by apply wp_ret. }
  destruct Hk as [Hlt (Hv & Hl & Hvl & _)]. apply wp_read_bytes; [done..|].
  destruct (find_key _ _ _ _) as [dptr' [e|]] eqn:Hfind.
  - apply find_key_lookup in Hfind. pose proof (Forall_lookup_1 _ _ _ _ Hmap Hfind) as [Hdec Hf].
    destruct (kv_found e) eqn:Hfound; [by apply wp_ret|].
    wp_step Hdec; [done|]. intros [v|] s2 [Hs2 H2]; apply wp_ret; (split; [done|]); [|done]. destruct H2 as [H2 Hok].
    split; [|split; [|lia]].
    + by apply Forall_insert.
    + rewrite list_fmap_insert. apply list_insert_id. by rewrite list_lookup_fmap, Hfind.
  - wp_step zcbor_any_skip_wp; [done|]. intros [[]|] s2 [Hs2 H2].
    + apply wp_ret. split; [done|]. split; [done|]. split; [done|lia].
    + wp_step map_end_wp; [done|]. intros r s3 Hs3. by apply wp_ret.
Qed.

Lemma bulk_loop_wp n dptr map matched s :
  state_ok s → Forall entry_ok map → zlen b - at_ s < Z.of_nat n →
  wp (loop n bulk_step (dptr, map, matched))
    (λ '(_, map', _) s', state_ok s' ∧ Forall entry_ok map' ∧ kv_key <$> map' = kv_key <$> map) (λ _, False) s.
Proof using Hb.
  revert dptr map matched s. induction n as [|n IH]; intros dptr map matched s Hs Hmap Hn.
  { destruct Hs as (_ & (? & ? & ?) & _). unfold at_ in *. lia. }
  cbn [loop]. wp_step bulk_step_wp; [done..|].
  intros [[[dptr' map'] m']|[[rc map'] m']] s1 [Hs1 Hr]; [|by apply wp_ret].
  destruct Hr as (Hmap' & <- & Hlt). apply IH; [done..|lia].
Qed.

Lemma bulk_safe map matched s :
  state_ok s → Forall entry_ok map →
  wp (zcbor_map_decode_bulk map matched)
    (λ '(_, map', _) s', state_ok s' ∧ Forall entry_ok map' ∧ kv_key <$> map' = kv_key <$> map) (λ _, False) s.
Proof using Hb.
  intros Hs Hmap. unfold zcbor_map_decode_bulk. wp_step map_start_safe; [done|].
  intros [[]|] s1 [Hs1 _]; [|by apply wp_ret]. apply wp_get_pos, bulk_loop_wp; [done..|].
  rewrite Nat2Z.inj_succ, bytes_left_eq by done. lia.
Qed.

Lemma new_state_ok n_states n : state_ok (zcbor_new_state b n_states n).
Proof. unfold state_ok, pos_ok. cbn. pose proof (zlen_nonneg b). split; [done|]. split; [lia|by constructor]. Qed.
End Safe.
