(* ===== verification/ZcborRound.v ===== *)
(** * CBOR messages and their decoding

    CBOR items and their encoding as specified in RFC 8949, with lengths in the shortest
    form and lists and maps of definite or indefinite length.  The decoder skips any
    item, and decodes a map with known keys whatever the order of the entries and
    whatever else is in the map. *)

From S2P Require Import Prelude Effects Zcbor ZcborProps.

#[local] Set Default Proof Using "Type*".
#[local] Set Warnings "-register-all".

(** A map is the list of its keys and values in turn. *)
Inductive cbor :=
| CUint (n : Z)
| CNeg (n : Z)
| CBytes (l : list Z)
| CText (l : list Z)
| CList (indefinite : bool) (l : list cbor)
| CMap (indefinite : bool) (l : list cbor)
| CTag (t : Z) (c : cbor)
| CSimple (n : Z).

(** Major type and number. *)
Definition cbor_head (major n : Z) : list Z :=
  if n <=? 23 then [major * 32 + n]
  else if n <=? 0xFF then (major * 32 + 24) :: rev (le_enc 1 n)
  else if n <=? 0xFFFF then (major * 32 + 25) :: rev (le_enc 2 n)
  else if n <=? 0xFFFFFFFF then (major * 32 + 26) :: rev (le_enc 4 n)
  else (major * 32 + 27) :: rev (le_enc 8 n).

Definition cbor_seq (indefinite : bool) (major n : Z) (items : list Z) : list Z :=
  if indefinite then (major * 32 + 31) :: items ++ [0xFF] else cbor_head major n ++ items.

Fixpoint cbor_enc (c : cbor) : list Z :=
  match c with
  | CUint n => cbor_head 0 n
  | CNeg n => cbor_head 1 n
  | CBytes l => cbor_head 2 (zlen l) ++ l
  | CText l => cbor_head 3 (zlen l) ++ l
  | CList ind l => cbor_seq ind 4 (zlen l) (flat_map cbor_enc l)
  | CMap ind l => cbor_seq ind 5 (zlen l / 2) (flat_map cbor_enc l)
  | CTag t c => cbor_head 6 t ++ cbor_enc c
  | CSimple n => cbor_head 7 n
  end.

Section Round.
  Context `{ZcborConfig}.

(** Items the decoder accepts: numbers of 64 bits, lengths and tags of 32 bits, and
    indefinite lengths unless the canonical form is required. *)
Inductive cbor_ok : cbor → Prop :=
| cbor_ok_uint n : 0 <= n < 2 ^ 64 → cbor_ok (CUint n)
| cbor_ok_neg n : 0 <= n < 2 ^ 64 → cbor_ok (CNeg n)
| cbor_ok_bytes l : is_u32 (zlen l) → cbor_ok (CBytes l)
| cbor_ok_text l : is_u32 (zlen l) → cbor_ok (CText l)
| cbor_ok_list ind l :
    (ind = true → ZCBOR_CANONICAL = false) → zlen l < 2 ^ 31 → Forall cbor_ok l → cbor_ok (CList ind l)
| cbor_ok_map ind l :
    (ind = true → ZCBOR_CANONICAL = false) → zlen l < 2 ^ 31 → Z.even (zlen l) = true → Forall cbor_ok l →
    cbor_ok (CMap ind l)
| cbor_ok_tag t c : is_u32 t → cbor_ok c → cbor_ok (CTag t c)
| cbor_ok_simple n : is_u8 n → cbor_ok (CSimple n).

(** ** Heads *)

Lemma head_spec major n :
  0 <= n < 2 ^ 64 →
  ∃ add len, cbor_head major n = (major * 32 + add) :: rev (le_enc (Z.to_nat len) n) ∧
    additional_len add = len ∧ zcbor_header_len n = len + 1 ∧ 0 <= add <= 27 ∧ 0 <= len <= 8 ∧
    (len = 0 → add = n) ∧ (len ≠ 0 → n < 256 ^ len) ∧ (n < 2 ^ 32 → len <= 4) ∧ (n < 256 → len <= 1 ∧ add <= 24).
Proof.
  intros Hn. unfold cbor_head, zcbor_header_len, ZCBOR_VALUE_IN_HEADER.
  case_if Ha; [|case_if Hb; [|case_if Hc; [|case_if Hd]]].
  - exists n, 0. unfold additional_len, ZCBOR_VALUE_IN_HEADER. rewrite (proj2 (Z.leb_le n 23)) by lia.
    cbn [le_enc Z.to_nat]. repeat split; lia.
  - exists 24, 1. repeat split; first [lia|done|intros; cbv [Z.pow Z.pow_pos Pos.iter]; lia].
  - exists 25, 2. repeat split; first [lia|done|intros; cbv [Z.pow Z.pow_pos Pos.iter]; lia].
  - exists 26, 4. repeat split; first [lia|done|intros; cbv [Z.pow Z.pow_pos Pos.iter]; lia].
  - exists 27, 8. repeat split; first [lia|done|intros; cbv [Z.pow Z.pow_pos Pos.iter]; lia].
Qed.

Lemma head_byte major add :
  0 <= major < 8 → 0 <= add < 32 →
  ZCBOR_MAJOR_TYPE (major * 32 + add) = major ∧ ZCBOR_ADDITIONAL (major * 32 + add) = add ∧ is_u8 (major * 32 + add).
Proof.
  intros Hm Ha. unfold ZCBOR_MAJOR_TYPE, ZCBOR_ADDITIONAL, is_u8.
  change 7 with (Z.ones 3). change 0x1F with (Z.ones 5). rewrite !Z.land_ones by lia. rewrite Z.shiftr_div_pow2 by lia. lia.
Qed.

Lemma head_len major n : 1 <= zlen (cbor_head major n).
Proof. unfold cbor_head. repeat case_match; rewrite zlen_cons, ?zlen_nil; unfold zlen; lia. Qed.

Lemma enc_len c : 1 <= zlen (cbor_enc c).
Proof.
  assert (Hseq : ∀ i m n l, 1 <= zlen (cbor_seq i m n l)).
  { intros [] m n l; unfold cbor_seq.
    - rewrite zlen_cons. pose proof (zlen_nonneg (l ++ [0xFF])). lia.
    - rewrite zlen_app. pose proof (head_len m n). pose proof (zlen_nonneg l). lia. }
  destruct c; cbn [cbor_enc]; rewrite ?zlen_app; auto using head_len;
    match goal with |- context [cbor_head ?m ?n] => pose proof (head_len m n) end;
    match goal with |- context [_ + zlen ?l] => pose proof (zlen_nonneg l) end; lia.
Qed.
(** ** What the buffer holds *)

(** The bytes [l] at offset [o], before the end of the message. *)
Definition holds (s : zcbor_state) (o : Z) (l : list Z) : Prop :=
  0 <= o ∧ o + zlen l <= payload_end (pos s) ∧ payload_end (pos s) <= zlen (buffer s) ∧ slice (buffer s) o (zlen l) = l.

Lemma holds_app s o l l' : holds s o (l ++ l') ↔ holds s o l ∧ holds s (o + zlen l) l'.
Proof.
  unfold holds. rewrite zlen_app. pose proof (zlen_nonneg l). pose proof (zlen_nonneg l'). split.
  - intros (Ho & He & Hb & Hs). rewrite slice_app_split in Hs by lia.
    apply app_inj_1 in Hs as [? ?]; [split; repeat split; try lia; done|].
    pose proof (zlen_slice (buffer s) o (zlen l)). unfold zlen in *. lia.
  - intros [(Ho & He & Hb & Hs) (Ho' & He' & _ & Hs')]. repeat split; try lia.
    rewrite slice_app_split by lia. congruence.
Qed.

Lemma holds_pos s p o l : payload_end p = payload_end (pos s) → holds (set_pos s p) o l ↔ holds s o l.
Proof. intros Hp. unfold holds. cbn [pos buffer set_pos]. by rewrite Hp. Qed.

Lemma holds_byte s o x l : holds s o (x :: l) → buffer s !! Z.to_nat o = Some x.
Proof.
  intros (Ho & He & Hb & Hs). rewrite zlen_cons in *. pose proof (zlen_nonneg l).
  assert (Hx : slice (buffer s) o (1 + zlen l) !! 0%nat = Some x) by by rewrite Hs.
  rewrite lookup_slice, decide_True in Hx by lia. rewrite <- Hx. f_equal. lia.
Qed.

Lemma holds_lt s o x l : holds s o (x :: l) → o < payload_end (pos s).
Proof. intros (_ & He & _). rewrite zlen_cons in He. pose proof (zlen_nonneg l). lia. Qed.

Lemma get_pos_bind {A} (k : zcbor_pos → M zcbor_state A) s : (p ← get_pos; k p) s = k (pos s) s.
Proof. done. Qed.

Lemma put_pos_bind {A} p (k : M zcbor_state A) s : (put_pos p;; k) s = k (set_pos s p).
Proof. done. Qed.

Lemma payload_byte_eq s x l : holds s (at_ s) (x :: l) → payload_byte s = (Ret x, s).
Proof.
  intros Hh. pose proof (holds_byte _ _ _ _ Hh) as Hx. destruct Hh as (Ho & _).
  unfold payload_byte. by apply array_get_ret.
Qed.

Lemma initial_checks_eq s x l : holds s (at_ s) (x :: l) → initial_checks s = (Ret (Some ()), s).
Proof.
  intros Hh. pose proof (holds_lt _ _ _ _ Hh) as Hlt; unfold at_ in Hlt.
  unfold initial_checks. rewrite get_pos_bind. by rewrite (proj2 (Z.leb_gt _ _) Hlt).
Qed.

Lemma read_bytes_eq s o l : holds s o l → read_bytes o (zlen l) s = (Ret l, s).
Proof.
  intros (Ho & He & Hb & Hs). unfold read_bytes.
  by rewrite (proj2 (Z.leb_le _ _) Ho), (proj2 (Z.leb_le (o + _) _)), Hs by lia.
Qed.

Lemma type_check_eq s major add l :
  0 <= major < 8 → 0 <= add < 32 → holds s (at_ s) ((major * 32 + add) :: l) → type_check major s = (Ret (Some ()), s).
Proof.
  intros Hm Ha Hh. unfold type_check, zbind. rewrite (bind_ret _ _ _ _ _ (initial_checks_eq _ _ _ Hh)).
  rewrite (bind_ret _ _ _ _ _ (payload_byte_eq _ _ _ Hh)). destruct (head_byte major add Hm Ha) as (-> & _ & _).
  by rewrite Z.eqb_refl.
Qed.

(** The number of a head fits the variable it is read to. *)
Definition fits (rl n : Z) : Prop :=
  0 <= n ∧ (rl = 8 ∧ n < 2 ^ 64 ∨ rl = 4 ∧ n < 2 ^ 32 ∨ rl = 1 ∧ n < 256).

Lemma value_extract_eq s rl major n :
  0 <= major < 8 → fits rl n → elem_count (pos s) ≠ 0 → holds s (at_ s) (cbor_head major n) →
  value_extract rl s =
    (Ret (Some n), set_pos s (set_elem_count (advance (pos s) (at_ s + zlen (cbor_head major n))) (elem_count (pos s) ⊖ 1))).
Proof.
  intros Hm [Hn0 Hfit] Hec Hh. destruct (head_spec major n) as (add & len & Heq & Hal & Hhl & Hadd & Hlen & Hz & Hnz & H4 & Hle1).
  { lia. }
  rewrite Heq in *. set (bs := rev (le_enc (Z.to_nat len) n)) in *.
  assert (Hbs : zlen bs = len) by (unfold zlen, bs; rewrite length_rev, length_le_enc; lia).
  destruct (head_byte major add Hm ltac:(lia)) as (_ & Hadd' & _).
  unfold value_extract, zbind. rewrite (bind_ret _ _ _ _ _ (initial_checks_eq _ _ _ Hh)).
  rewrite get_pos_bind, (proj2 (Z.eqb_neq _ _) Hec).
  rewrite (bind_ret _ _ _ _ _ (payload_byte_eq _ _ _ Hh)). cbv zeta. rewrite Hadd', Hal.
  pose proof Hh as (Ho & He & _). rewrite zlen_cons, Hbs in He |- *. unfold at_ in *.
  rewrite (proj2 (Z.ltb_ge ZCBOR_VALUE_IS_8_BYTES add)) by (unfold ZCBOR_VALUE_IS_8_BYTES; lia).
  rewrite (proj2 (Z.ltb_ge rl len)) by lia. rewrite (proj2 (Z.ltb_ge (payload_end _) _)) by lia.
  rewrite <- Hbs at 1. rewrite (bind_ret _ _ _ _ _ (read_bytes_eq s (payload (pos s) + 1) bs ltac:(by apply (holds_app s _ [_] bs) in Hh as [_ Hh]))).
  assert (Hres : (if len =? 0 then add else le_dec (rev bs)) = n).
  { case_if Hl; [by apply Hz|]. unfold bs. rewrite rev_involutive. apply le_dec_enc_small. rewrite Z2Nat.id by lia. auto with lia. }
  rewrite Hres, Hhl, Z.eqb_refl, andb_false_r, put_pos_bind.
  by replace (payload (pos s) + len + 1) with (payload (pos s) + (1 + len)) by lia.
Qed.
Lemma type_check_head s major n :
  0 <= major < 8 → 0 <= n < 2 ^ 64 → holds s (at_ s) (cbor_head major n) → type_check major s = (Ret (Some ()), s).
Proof.
  intros Hm Hn Hh. destruct (head_spec major n Hn) as (add & len & Heq & _ & _ & Hadd & _). rewrite Heq in Hh.
  eapply type_check_eq; [done| |done]. lia.
Qed.

Lemma uint_decode_eq s rl n :
  fits rl n → elem_count (pos s) ≠ 0 → holds s (at_ s) (cbor_enc (CUint n)) →
  zcbor_uint_decode rl s =
    (Ret (Some n), set_pos s (set_elem_count (advance (pos s) (at_ s + zlen (cbor_enc (CUint n)))) (elem_count (pos s) ⊖ 1))).
Proof.
  intros Hf Hec Hh. cbn [cbor_enc] in *. unfold zcbor_uint_decode, zbind.
  rewrite (bind_ret _ _ _ _ _ (type_check_head s 0 n ltac:(lia) ltac:(unfold fits in Hf; lia) Hh)).
  apply (value_extract_eq s rl 0 n); done || lia.
Qed.

Lemma str_decode_eq s major l :
  0 <= major < 8 → is_u32 (zlen l) → elem_count (pos s) ≠ 0 → holds s (at_ s) (cbor_head major (zlen l) ++ l) →
  str_decode major s =
    (Ret (Some (ZString (at_ s + zlen (cbor_head major (zlen l))) (zlen l))),
     set_pos s (set_elem_count (advance (pos s) (at_ s + zlen (cbor_head major (zlen l) ++ l))) (elem_count (pos s) ⊖ 1))).
Proof.
  intros Hm Hl Hec Hh. unfold is_u32 in Hl. pose proof Hh as [Hh1 Hh2]%holds_app. pose proof Hh as (Ho & He & _).
  rewrite zlen_app in *. unfold str_decode, str_start_decode_with_overflow_check, str_start_decode, zbind.
  set (p1 := set_elem_count (advance (pos s) (at_ s + zlen (cbor_head major (zlen l)))) (elem_count (pos s) ⊖ 1)).
  rewrite (bind_ret _ _ (Some (ZString (payload p1) (zlen l))) _ (set_pos s p1)).
  { rewrite get_pos_bind. cbn [pos set_pos]. rewrite put_pos_bind. cbn [str_len]. unfold p1, set_payload, set_elem_count, advance.
    cbn [payload payload_bak elem_count payload_end indefinite_length_array]. by rewrite Z.add_assoc. }
  rewrite (bind_ret _ _ (Some (ZString (payload p1) (zlen l))) _ (set_pos s p1)).
  { rewrite get_pos_bind. cbn [pos set_pos str_len]. unfold p1 at 1 2. cbn [payload payload_end set_elem_count advance].
    by rewrite (proj2 (Z.ltb_ge _ _)) by lia. }
  rewrite (bind_ret _ _ _ _ _ (type_check_head s major (zlen l) Hm ltac:(lia) Hh1)).
  rewrite (bind_ret _ _ _ _ _ (value_extract_eq s 4 major (zlen l) Hm ltac:(unfold fits; lia) Hec Hh1)). done.
Qed.
(** ** Skipping an item *)

Definition cbor_major (c : cbor) : Z :=
  match c with
  | CUint _ => 0 | CNeg _ => 1 | CBytes _ => 2 | CText _ => 3 | CList _ _ => 4 | CMap _ _ => 5 | CTag _ _ => 6
  | CSimple _ => 7
  end.

Definition is_indefinite (c : cbor) : bool :=
  match c with CList ind _ | CMap ind _ => ind | _ => false end.

Lemma enc_first c :
  cbor_ok c →
  0 <= cbor_major c < 8 ∧
  ∃ add l, cbor_enc c = (cbor_major c * 32 + add) :: l ∧ 0 <= add < 32 ∧ (add =? 31) = is_indefinite c.
Proof.
  assert (Hhead : ∀ m n l, 0 <= n < 2 ^ 64 →
            ∃ add l', cbor_head m n ++ l = (m * 32 + add) :: l' ∧ 0 <= add < 32 ∧ (add =? 31) = false).
  { intros m n l Hn. destruct (head_spec m n Hn) as (add & len & -> & _ & _ & Hadd & _).
    exists add. eexists. split; [done|]. split; [lia|]. apply Z.eqb_neq. lia. }
  assert (Hhead0 : ∀ m n, 0 <= n < 2 ^ 64 →
            ∃ add l', cbor_head m n = (m * 32 + add) :: l' ∧ 0 <= add < 32 ∧ (add =? 31) = false).
  { intros m n Hn. destruct (Hhead m n [] Hn) as (add & l' & He & ?). rewrite app_nil_r in He. eauto. }
  intros Hok. split; [destruct c; cbn; lia|].
  destruct Hok as [n Hn|n Hn|l Hl|l Hl|[] l _ Hl _|[] l _ Hl _ _|t c Ht _|n Hn];
    cbn [cbor_enc cbor_major is_indefinite cbor_seq]; unfold is_u32, is_u8 in *;
    try (apply Hhead0; lia); try (apply Hhead; pose proof (zlen_nonneg l); lia); try (apply Hhead; lia).
  - exists 31. eexists. split; [done|]. split; [lia|done].
  - exists 31. eexists. split; [done|]. split; [lia|done].
Qed.

(** The state after an item of [n] bytes. *)
Definition past (s : zcbor_state) (n : Z) : zcbor_state :=
  set_pos s (set_elem_count (set_payload (pos s) (at_ s + n)) (elem_count (pos s) ⊖ 1)).

(** [skip] goes past the item [c]. *)
Definition skips (skip : ZM unit) (c : cbor) : Prop :=
  ∀ s, 0 < elem_count (pos s) <= UINT32_MAX → holds s (at_ s) (cbor_enc c) →
       skip s = (Ret (Some ()), past s (zlen (cbor_enc c))).

Lemma tag_decode_eq s t :
  is_u32 t → 0 < elem_count (pos s) <= UINT32_MAX → holds s (at_ s) (cbor_head 6 t) →
  zcbor_tag_decode s = (Ret (Some t), set_pos s (advance (pos s) (at_ s + zlen (cbor_head 6 t)))).
Proof.
  unfold is_u32. intros Ht Hec Hh. unfold zcbor_tag_decode, zbind.
  rewrite (bind_ret _ _ _ _ _ (type_check_head s 6 t ltac:(lia) ltac:(lia) Hh)).
  rewrite (bind_ret _ _ _ _ _ (value_extract_eq s 4 6 t ltac:(lia) ltac:(unfold fits; lia) ltac:(lia) Hh)).
  rewrite get_pos_bind, put_pos_bind. cbn [pos set_pos]. unfold set_elem_count, advance, set_pos.
  cbn [payload payload_bak elem_count payload_end indefinite_length_array buffer num_backups backup_list].
  repeat f_equal. unfold_uint. lia.
Qed.
Definition is_tag (c : cbor) : bool := if c is CTag _ _ then true else false.

(** [p] is the position of [s] moved to [o]. *)
Definition moved_to (s : zcbor_state) (o : Z) (p : zcbor_pos) : Prop :=
  payload p = o ∧ elem_count p = elem_count (pos s) ∧ payload_end p = payload_end (pos s) ∧
  indefinite_length_array p = indefinite_length_array (pos s).

Lemma skip_tags_eq c s n x l :
  cbor_ok c → 0 < elem_count (pos s) <= UINT32_MAX → holds s (at_ s) (cbor_enc c) → cbor_enc c = x :: l →
  zlen (cbor_enc c) <= Z.of_nat n →
  ∃ core tags p y l', cbor_enc c = tags ++ cbor_enc core ∧ cbor_ok core ∧ is_tag core = false ∧
    moved_to s (at_ s + zlen tags) p ∧ cbor_enc core = y :: l' ∧
    loop n skip_tags_step x s = (Ret (Some y), set_pos s p).
Proof.
  revert s n x l. induction c as [m|m|m|m|ind m|ind m|t c IH|m]; intros s n x l Hok Hec Hh Hx Hn;
    (destruct n as [|n]; [pose proof (enc_len (CUint 0)); match type of Hn with zlen (cbor_enc ?c) <= _ => pose proof (enc_len c) end; lia|]).
  7: { inversion Hok as [| | | | | |t' c' Ht Hokc|]; subst t' c'. cbn [cbor_enc] in *.
       pose proof Hh as [Hh1 Hh2]%holds_app. rewrite zlen_app in Hn. pose proof (head_len 6 t) as Hl.
       destruct (head_spec 6 t ltac:(unfold is_u32 in Ht; lia)) as (add & len & Heq & _ & _ & Hadd & _).
       assert (x = 6 * 32 + add) as -> by (rewrite Heq in Hx; by inversion Hx).
       destruct (enc_first c Hokc) as (_ & add' & lc & Hc & _).
       set (p1 := advance (pos s) (at_ s + zlen (cbor_head 6 t))).
       assert (Hhp : holds (set_pos s p1) (at_ (set_pos s p1)) (cbor_enc c)) by by apply holds_pos.
       destruct (IH (set_pos s p1) n (cbor_major c * 32 + add') lc) as (core & tags & p & y & l' & Hcore & Hokcore & Hnt & Hmv & Hy & Hrun);
         [done|done|done|done|lia|].
       exists core, (cbor_head 6 t ++ tags), p, y, l'. split; [by rewrite Hcore, app_assoc|].
       split; [done|]. split; [done|]. split; [|split; [done|]].
       { destruct Hmv as (Hp & ? & ? & ?). repeat split; try done. rewrite Hp, zlen_app. unfold at_, p1. cbn. unfold at_. lia. }
       rewrite (loop_continue _ _ _ (cbor_major c * 32 + add') _ (set_pos s p1)).
       { by rewrite Hrun. }
       unfold skip_tags_step. destruct (head_byte 6 add ltac:(lia) ltac:(lia)) as (-> & _ & _). cbn [negb].
       change (negb (6 =? ZCBOR_MAJOR_TYPE_TAG)) with false. cbn [negb].
       rewrite (bind_ret _ _ _ _ _ (tag_decode_eq s t Ht Hec Hh1)). rewrite get_pos_bind. fold p1.
       rewrite Hc in Hhp. pose proof (holds_lt _ _ _ _ Hhp) as Hlt; unfold at_ in Hlt. rewrite (proj2 (Z.leb_gt _ _) Hlt).
       by rewrite (bind_ret _ _ _ _ _ (payload_byte_eq _ _ _ Hhp)). }
  all: destruct (enc_first _ Hok) as (Hmaj & add & l' & He & Hadd & _);
    match type of Hok with cbor_ok ?c => exists c end; exists [], (pos s), x, l;
    (split; [done|]); (split; [done|]); (split; [done|]);
    (split; [repeat split; unfold at_; rewrite zlen_nil; lia|]); (split; [done|]);
    assert (Hss : set_pos s (pos s) = s) by (by destruct s); rewrite Hss; apply loop_exit;
    destruct (head_byte _ add Hmaj Hadd) as (Hmt & _ & _); rewrite Hx in He; unfold skip_tags_step;
    match type of He with _ :: _ = ?y :: _ => assert (x = y) as -> by congruence end; rewrite Hmt; done.
Qed.
(** The elements of a list or map: [n] of them, or up to the break byte. *)
Definition elems_end (s : zcbor_state) (n : Z) (rest : list Z) : Prop :=
  if negb ZCBOR_CANONICAL && indefinite_length_array (pos s)
  then (∃ rest', rest = 0xFF :: rest') ∧ n < elem_count (pos s) <= UINT32_MAX
  else elem_count (pos s) = n ∧ n <= UINT32_MAX.

Lemma at_end_eq s rest : elems_end s 0 rest → holds s (at_ s) rest → zcbor_array_at_end s = (Ret true, s).
Proof.
  unfold elems_end, zcbor_array_at_end. intros Hend Hh. rewrite get_pos_bind. case_if Hi.
  - destruct Hend as [[rest' ->] _]. pose proof (holds_lt _ _ _ _ Hh) as Hlt; unfold at_ in Hlt. rewrite (proj2 (Z.ltb_lt _ _) Hlt).
    by rewrite (bind_ret _ _ _ _ _ (payload_byte_eq _ _ _ Hh)).
  - destruct Hend as [-> _]. done.
Qed.

Lemma not_at_end_eq s c l rest n :
  cbor_ok c → elems_end s n rest → 0 < n → holds s (at_ s) (cbor_enc c ++ l) → zcbor_array_at_end s = (Ret false, s).
Proof.
  unfold elems_end, zcbor_array_at_end. intros Hok Hend Hn Hh. rewrite get_pos_bind.
  destruct (enc_first c Hok) as (Hm & add & l' & He & Hadd & Hi). rewrite He in Hh. cbn [app] in Hh. case_if Hind.
  - pose proof (holds_lt _ _ _ _ Hh) as Hlt; unfold at_ in Hlt. rewrite (proj2 (Z.ltb_lt _ _) Hlt).
    rewrite (bind_ret _ _ _ _ _ (payload_byte_eq _ _ _ Hh)).
    enough ((cbor_major c * 32 + add =? 0xFF) = false) as -> by done. apply Z.eqb_neq.
    destruct (decide (add = 31)) as [->|]; [|lia]. destruct c; cbn in *; try done; lia.
  - destruct Hend as [-> _]. by rewrite (proj2 (Z.eqb_neq n 0)) by lia.
Qed.

Lemma skip_elems_eq skip l s n rest :
  Forall (skips skip) l → Forall cbor_ok l → holds s (at_ s) (flat_map cbor_enc l ++ rest) → elems_end s (zlen l) rest →
  (length l < n)%nat →
  loop n (skip_elems_step skip) () s =
    (Ret (Some ()), set_pos s (set_elem_count (set_payload (pos s) (at_ s + zlen (flat_map cbor_enc l))) (elem_count (pos s) - zlen l))).
Proof.
  revert s n. induction l as [|c l IH]; intros s n Hsk Hok Hh Hend Hn; (destruct n as [|n]; [cbn in Hn; lia|]).
  - cbn [flat_map app] in *. rewrite !zlen_nil, Z.add_0_r, Z.sub_0_r.
    replace (set_pos s _) with s by (destruct s as [? [] ? ?]; done). apply loop_exit. unfold skip_elems_step.
    by rewrite (bind_ret _ _ _ _ _ (at_end_eq _ _ Hend Hh)).
  - apply Forall_cons_1 in Hsk as [Hc Hsk]. apply Forall_cons_1 in Hok as [Hokc Hok]. cbn [flat_map] in *.
    rewrite <- app_assoc in Hh. pose proof Hh as [Hh1 Hh2]%holds_app. pose proof (zlen_nonneg l).
    rewrite zlen_cons in *. assert (Hec : 1 + zlen l <= elem_count (pos s) <= UINT32_MAX).
    { unfold elems_end in Hend. case_match; destruct Hend; lia. }
    assert (Hpast : elem_count (pos s) ⊖ 1 = elem_count (pos s) - 1) by (unfold_uint; lia).
    rewrite (loop_continue _ _ _ () _ (past s (zlen (cbor_enc c)))).
    + rewrite IH; [|done|done|by apply holds_pos| |cbn in Hn; lia].
      * unfold past, at_. cbn [pos set_pos payload set_elem_count set_payload elem_count]. rewrite Hpast, zlen_app.
        unfold set_pos, set_elem_count, set_payload. cbn [buffer num_backups backup_list payload payload_bak payload_end indefinite_length_array pos].
        f_equal. f_equal. f_equal; lia.
      * unfold elems_end, past in *. cbn [pos set_pos set_elem_count set_payload indefinite_length_array elem_count].
        rewrite Hpast. case_match; destruct Hend; (split; [done || lia|lia]).
    + unfold skip_elems_step. rewrite (bind_ret _ _ _ _ _ (not_at_end_eq s c _ _ _ Hokc Hend ltac:(lia) Hh)).
      by rewrite (bind_ret _ _ _ _ _ (Hc s ltac:(lia) Hh1)).
Qed.
Lemma first_byte c y l :
  cbor_ok c → cbor_enc c = y :: l →
  ZCBOR_MAJOR_TYPE y = cbor_major c ∧
  negb ZCBOR_CANONICAL && (ZCBOR_ADDITIONAL y =? ZCBOR_VALUE_IS_INDEFINITE_LENGTH) &&
    ((cbor_major c =? ZCBOR_MAJOR_TYPE_LIST) || (cbor_major c =? ZCBOR_MAJOR_TYPE_MAP)) = is_indefinite c.
Proof.
  intros Hok Hy. destruct (enc_first c Hok) as (Hm & add & l' & He & Hadd & Hi). rewrite Hy in He. injection He as -> _.
  destruct (head_byte (cbor_major c) add Hm Hadd) as (-> & -> & _). split; [done|].
  change ZCBOR_VALUE_IS_INDEFINITE_LENGTH with 31. rewrite Hi. destruct (is_indefinite c) eqn:Hic; [|by rewrite andb_false_r].
  destruct Hok as [| | | |ind ? Hcan|ind ? Hcan| |]; cbn in Hic |- *; try discriminate Hic; by rewrite (Hcan Hic).
Qed.

(** Numbers and strings. *)
Lemma skip_scalar_eq skip c s y l :
  cbor_ok c → cbor_major c ∉ [4; 5; 6] → cbor_enc c = y :: l → 0 < elem_count (pos s) <= UINT32_MAX →
  holds s (at_ s) (cbor_enc c) →
  ∃ p, skip_content skip y s = (Ret (Some ()), set_pos s p) ∧ payload p = at_ s + zlen (cbor_enc c).
Proof.
  intros Hok Hns Hy Hec Hh. destruct (first_byte c y l Hok Hy) as [Hm Hi].
  unfold skip_content, zbind. cbv zeta. rewrite Hm, Hi.
  assert (is_indefinite c = false) as ->.
  { destruct c; cbn in *; try done; exfalso; apply Hns; rewrite !elem_of_cons; auto. }
  assert (∃ n rest, cbor_enc c = cbor_head (cbor_major c) n ++ rest ∧ fits 8 n ∧
            (n = zlen rest ∧ (cbor_major c = 2 ∨ cbor_major c = 3) ∨ rest = [] ∧ cbor_major c ∈ [0; 1; 7])) as (n & rest & He & Hf & Hcase).
  { destruct Hok as [n Hn|n Hn|r Hr|r Hr| | | |n Hn]; cbn in *; unfold fits, is_u32, is_u8 in *.
    5-7: exfalso; apply Hns; rewrite !elem_of_cons; auto.
    3-4: exists (zlen r), r; split; [done|]; split; [lia|]; left; auto.
    all: exists n, []; rewrite app_nil_r; split; [done|]; split; [lia|]; right; split; [done|]; rewrite !elem_of_cons; auto. }
  rewrite He in Hh |- *. pose proof Hh as [Hh1 _]%holds_app. pose proof Hh as (Ho & Hend & _). rewrite zlen_app in *.
  assert (Hmr : 0 <= cbor_major c < 8) by by apply enc_first.
  rewrite (bind_ret _ _ _ _ _ (value_extract_eq s 8 _ n Hmr Hf ltac:(lia) Hh1)). rewrite get_pos_bind.
  cbn [pos set_pos payload payload_end set_elem_count advance].
  destruct Hcase as [[-> Hstr]|[-> Hnum]].
  - replace ((cbor_major c =? ZCBOR_MAJOR_TYPE_BSTR) || (cbor_major c =? ZCBOR_MAJOR_TYPE_TSTR)) with true by (by destruct Hstr as [-> | ->]).
    rewrite (proj2 (Z.ltb_ge _ _)) by lia. rewrite put_pos_bind. eexists. split; [done|]. cbn. lia.
  - assert (∀ m, m = 2 ∨ m = 3 ∨ m = 5 ∨ m = 4 → (cbor_major c =? m) = false) as Hne.
    { intros m Hcm. apply Z.eqb_neq. rewrite !elem_of_cons, elem_of_nil in Hnum. lia. }
    rewrite !Hne by (cbv; tauto). eexists. split; [done|]. cbn. rewrite zlen_nil. lia.
Qed.
(** The elements of a sequence and the count in its head. *)
Definition seq_items (c : cbor) : list cbor := match c with CList _ l | CMap _ l => l | _ => [] end.
Definition seq_count (c : cbor) : Z := if cbor_major c =? 5 then zlen (seq_items c) / 2 else zlen (seq_items c).

Lemma seq_enc c :
  cbor_ok c → cbor_major c ∈ [4; 5] →
  Forall cbor_ok (seq_items c) ∧ zlen (seq_items c) < 2 ^ 31 ∧ (is_indefinite c = true → ZCBOR_CANONICAL = false) ∧
  (if cbor_major c =? ZCBOR_MAJOR_TYPE_MAP then 2 * seq_count c else seq_count c) = zlen (seq_items c) ∧ 0 <= seq_count c ∧
  cbor_enc c = cbor_seq (is_indefinite c) (cbor_major c) (seq_count c) (flat_map cbor_enc (seq_items c)).
Proof.
  intros Hok Hm. rewrite !elem_of_cons, elem_of_nil in Hm.
  destruct Hok as [| | | |ind l Hc Hl Hf|ind l Hc Hl He Hf| |]; cbn in Hm; try lia; unfold seq_count; cbn; pose proof (zlen_nonneg l).
  - repeat split; try done; lia.
  - apply Z.even_spec in He as [k Hk]. repeat split; try done; lia.
Qed.

Lemma flat_map_len l : zlen l <= zlen (flat_map cbor_enc l).
Proof. induction l as [|c l IH]; [done|]. cbn [flat_map]. rewrite zlen_cons, zlen_app. pose proof (enc_len c). lia. Qed.

Lemma flat_map_elem c l : c ∈ l → zlen (cbor_enc c) <= zlen (flat_map cbor_enc l).
Proof.
  induction 1 as [c l|c c' l _ IH]; cbn [flat_map]; rewrite zlen_app.
  - pose proof (zlen_nonneg (flat_map cbor_enc l)). lia.
  - pose proof (zlen_nonneg (cbor_enc c')). lia.
Qed.

Lemma array_end_eq s : holds s (at_ s) [0xFF] → array_end_expect s = (Ret (Some ()), set_pos s (set_payload (pos s) (at_ s + 1))).
Proof.
  intros Hh. unfold array_end_expect, zbind. rewrite (bind_ret _ _ _ _ _ (initial_checks_eq _ _ _ Hh)).
  by rewrite (bind_ret _ _ _ _ _ (payload_byte_eq _ _ _ Hh)).
Qed.

Lemma bytes_left_le s o l n : holds s o l → o = at_ s → n <= zlen l → n < Z.of_nat (S (bytes_left (pos s))).
Proof. intros (Ho & He & _) -> Hn. unfold bytes_left, at_ in *. lia. Qed.

Lemma skip_definite_eq skip c s y l :
  cbor_ok c → cbor_major c ∈ [4; 5] → is_indefinite c = false → cbor_enc c = y :: l → 0 < elem_count (pos s) <= UINT32_MAX →
  holds s (at_ s) (cbor_enc c) → Forall (skips skip) (seq_items c) →
  ∃ p, skip_content skip y s = (Ret (Some ()), set_pos s p) ∧ payload p = at_ s + zlen (cbor_enc c).
Proof.
  intros Hok Hm Hdef Hy Hec Hh Hskip. destruct (first_byte c y l Hok Hy) as [Hmt Hi].
  destruct (seq_enc c Hok Hm) as (Hitems & Hlen & _ & Hcnt & Hpos & He). pose proof (flat_map_len (seq_items c)) as Hfl.
  rewrite !elem_of_cons, elem_of_nil in Hm. unfold skip_content, zbind. cbv zeta. rewrite Hmt, Hi, Hdef.
  rewrite Hdef in He. unfold cbor_seq in He. rewrite He in Hh |- *. pose proof Hh as [Hh1 Hh2]%holds_app. rewrite zlen_app.
  assert (Hcl : seq_count c < 2 ^ 31) by (unfold seq_count in *; case_match; lia).
  rewrite (bind_ret _ _ _ _ _ (value_extract_eq s 8 (cbor_major c) (seq_count c) ltac:(lia) ltac:(unfold fits; lia) ltac:(lia) Hh1)).
  set (p1 := set_elem_count _ _). rewrite get_pos_bind. cbn [pos set_pos].
  replace ((cbor_major c =? ZCBOR_MAJOR_TYPE_BSTR) || _) with false by (by destruct Hm as [->|[->|[]]]).
  replace ((cbor_major c =? ZCBOR_MAJOR_TYPE_MAP) || _) with true by (by destruct Hm as [->|[->|[]]]).
  rewrite (proj2 (Z.ltb_ge (SIZE_MAX / 2) _)), andb_false_r, Hcnt by (unfold SIZE_MAX, UINT32_MAX; lia). rewrite put_pos_bind.
  rewrite (u32_small (zlen _)) by (unfold is_u32; pose proof (zlen_nonneg (seq_items c)); lia).
  set (p2 := set_indefinite _ _).
  assert (Hp2 : holds (set_pos s p2) (at_ (set_pos s p2)) (flat_map cbor_enc (seq_items c) ++ [])) by (rewrite app_nil_r; by apply holds_pos).
  erewrite bind_ret; [|apply (skip_elems_eq skip (seq_items c) (set_pos s p2) _ []); [done|done|exact Hp2| |]].
  - eexists. split; [done|]. cbn. lia.
  - unfold elems_end. cbn. rewrite andb_false_r. split; [done|]. unfold UINT32_MAX. lia.
  - pose proof (bytes_left_le (set_pos s p1) _ _ (zlen (seq_items c)) ltac:(apply holds_pos; [done|exact Hh2]) eq_refl Hfl) as Hbl.
    unfold zlen in Hbl. cbn [pos set_pos] in Hbl. lia.
Qed.

Lemma skip_indefinite_eq skip c s y l :
  cbor_ok c → cbor_major c ∈ [4; 5] → is_indefinite c = true → cbor_enc c = y :: l → 0 < elem_count (pos s) <= UINT32_MAX →
  holds s (at_ s) (cbor_enc c) → Forall (skips skip) (seq_items c) →
  ∃ p, skip_content skip y s = (Ret (Some ()), set_pos s p) ∧ payload p = at_ s + zlen (cbor_enc c).
Proof.
  intros Hok Hm Hdef Hy Hec Hh Hskip. destruct (first_byte c y l Hok Hy) as [Hmt Hi].
  destruct (seq_enc c Hok Hm) as (Hitems & Hlen & Hcan & Hcnt & Hpos & He). pose proof (flat_map_len (seq_items c)) as Hfl.
  rewrite !elem_of_cons, elem_of_nil in Hm. unfold skip_content, zbind. cbv zeta. rewrite Hmt, Hi, Hdef.
  rewrite Hdef in He. unfold cbor_seq in He. rewrite He in Hh |- *.
  pose proof Hh as [_ Hh2]%(holds_app s _ [_]). pose proof Hh2 as [_ Hh3]%holds_app.
  rewrite (bind_ret _ _ (Some 0) _ s) by done. rewrite get_pos_bind.
  replace ((cbor_major c =? ZCBOR_MAJOR_TYPE_BSTR) || _) with false by (by destruct Hm as [->|[->|[]]]).
  replace ((cbor_major c =? ZCBOR_MAJOR_TYPE_MAP) || _) with true by (by destruct Hm as [->|[->|[]]]).
  rewrite (proj2 (Z.ltb_ge (SIZE_MAX / 2) _)), andb_false_r by (unfold SIZE_MAX, UINT32_MAX; lia). rewrite put_pos_bind.
  set (p2 := set_indefinite _ _).
  assert (Hp2 : holds (set_pos s p2) (at_ (set_pos s p2)) (flat_map cbor_enc (seq_items c) ++ [0xFF])) by by apply holds_pos.
  erewrite bind_ret; [|apply (skip_elems_eq skip (seq_items c) (set_pos s p2) _ [0xFF]); [done|done|exact Hp2| |]].
  - rewrite array_end_eq.
    + eexists. split; [done|]. unfold at_, p2. cbn. rewrite zlen_cons, zlen_app. unfold at_. change (zlen [255]) with 1. lia.
    + apply holds_pos; [done|]. apply holds_pos; [done|]. exact Hh3.
  - unfold elems_end. cbn. rewrite (Hcan Hdef). cbn. split; [by eexists|].
    unfold ZCBOR_LARGE_ELEM_COUNT, ZCBOR_MAX_ELEM_COUNT, SIZE_MAX, UINT32_MAX, u32. lia.
  - pose proof (bytes_left_le s _ _ (zlen (seq_items c)) Hh eq_refl) as Hbl. rewrite zlen_cons, zlen_app in Hbl.
    unfold zlen in *. lia.
Qed.
Lemma skip_content_eq skip c s y l :
  cbor_ok c → is_tag c = false → cbor_enc c = y :: l → 0 < elem_count (pos s) <= UINT32_MAX →
  holds s (at_ s) (cbor_enc c) → (∀ c', cbor_ok c' → zlen (cbor_enc c') < zlen (cbor_enc c) → skips skip c') →
  ∃ p, skip_content skip y s = (Ret (Some ()), set_pos s p) ∧ payload p = at_ s + zlen (cbor_enc c).
Proof.
  intros Hok Hnt Hy Hec Hh Hskip. destruct (decide (cbor_major c ∈ [4; 5])) as [Hm|Hm].
  - destruct (seq_enc c Hok Hm) as (Hitems & _ & _ & _ & _ & He).
    assert (Forall (skips skip) (seq_items c)).
    { apply Forall_forall. intros c' Hc'. apply Hskip; [by apply (Forall_forall cbor_ok (seq_items c))|].
      apply list_elem_of_In in Hc'. pose proof (flat_map_elem c' _ Hc') as Hle. rewrite He. unfold cbor_seq. case_match.
      - rewrite zlen_cons, zlen_app. change (zlen [255]) with 1. lia.
      - rewrite zlen_app. pose proof (head_len (cbor_major c) (seq_count c)). lia. }
    destruct (is_indefinite c) eqn:Hi; [by eapply skip_indefinite_eq|by eapply skip_definite_eq].
  - eapply skip_scalar_eq; try done. rewrite !elem_of_cons, elem_of_nil in *. destruct c; cbn in *; try done; lia.
Qed.

Lemma skip_item_eq skip c s :
  cbor_ok c → 0 < elem_count (pos s) <= UINT32_MAX → holds s (at_ s) (cbor_enc c) →
  (∀ c', cbor_ok c' → zlen (cbor_enc c') < zlen (cbor_enc c) → skips skip c') →
  ∃ p, skip_item skip s = (Ret (Some ()), set_pos s p) ∧ payload p = at_ s + zlen (cbor_enc c).
Proof.
  intros Hok Hec Hh Hskip. destruct (enc_first c Hok) as (_ & add & l & He & _).
  pose proof (bytes_left_le s _ _ (zlen (cbor_enc c)) Hh eq_refl ltac:(lia)) as Hbl.
  edestruct (skip_tags_eq c s (S (bytes_left (pos s))) _ l Hok Hec Hh He) as (core & tags & p & y & l' & Hcore & Hokc & Hnt & (Hp & Hpe & Hpend & _) & Hy & Hrun); [lia|].
  pose proof (zlen_nonneg tags). pose proof Hh as Hh0. rewrite He in Hh0.
  rewrite Hcore, zlen_app in *. pose proof Hh as [_ Hh2]%holds_app.
  destruct (skip_content_eq skip core (set_pos s p) y l') as (q & Hq & Hpq); try done; [by rewrite <- Hpe in Hec| | |].
  - unfold at_ at 1. cbn [pos set_pos]. rewrite Hp. by apply holds_pos.
  - intros c' Hok' Hlt. apply Hskip; [done|lia].
  - exists q. split; [|rewrite Hpq; unfold at_ at 1; cbn [pos set_pos]; rewrite Hp; lia].
    unfold skip_item, zbind.
    rewrite (bind_ret _ _ _ _ _ (payload_byte_eq _ _ _ Hh0)), get_pos_bind, (bind_ret _ _ _ _ _ Hrun), Hq. done.
Qed.

Lemma any_skip_eq n c : cbor_ok c → zlen (cbor_enc c) <= Z.of_nat n → skips (any_skip n) c.
Proof.
  revert c. induction n as [|n IH]; intros c Hok Hn s Hec Hh; [pose proof (enc_len c); lia|].
  destruct (enc_first c Hok) as (_ & add & l & He & _).
  destruct (skip_item_eq (any_skip n) c s Hok Hec Hh) as (p & Hp & Hpp); [intros c' Hok' Hlt; apply IH; [done|lia]|].
  cbn [any_skip]. unfold zbind. rewrite He in Hh. rewrite (bind_ret _ _ _ _ _ (initial_checks_eq _ _ _ Hh)), get_pos_bind.
  rewrite (bind_ret _ _ _ _ _ Hp), get_pos_bind, !put_pos_bind. cbn [pos set_pos]. unfold past. by rewrite Hpp.
Qed.

Lemma zcbor_any_skip_eq c : cbor_ok c → skips zcbor_any_skip c.
Proof.
  intros Hok s Hec Hh. unfold zcbor_any_skip. rewrite get_pos_bind. apply any_skip_eq; [done| |done|done].
  pose proof (bytes_left_le s _ _ _ Hh eq_refl (Z.le_refl _)). lia.
Qed.
End Round.

(** * Decoding a map with known keys

    [zcbor_map_decode_bulk] on a well-formed map: every known key that occurs gets its
    value, whatever the order of the entries and whatever the unknown ones hold. *)

(** What a decoded value means: a string is the bytes it points to. *)
Inductive cbor_val := SUint (n : Z) | SBytes (l : list Z) | SBool (b : bool).

Definition denotes (b : list Z) (v : zcbor_value) (x : cbor_val) : Prop :=
  match v, x with
  | VUint n, SUint m => n = m
  | VString s, SBytes l => slice b (str_value s) (str_len s) = l ∧ str_len s = zlen l ∧ 0 <= str_value s <= zlen b - zlen l
  | VBool c, SBool d => c = d
  | _, _ => False
  end.

Section Bulk.
  Context `{ZcborConfig}.

(** The state after an item of [n] bytes, up to the place kept for error handling. *)
Definition goes_past (s : zcbor_state) (n : Z) (p : zcbor_pos) : Prop :=
  payload p = at_ s + n ∧ elem_count p = elem_count (pos s) - 1 ∧ payload_end p = payload_end (pos s) ∧
  indefinite_length_array p = indefinite_length_array (pos s).

(** The decoder [d] reads the item [c] as [x]. *)
Definition decodes (d : ZM zcbor_value) (c : cbor) (x : cbor_val) : Prop :=
  ∀ s, 0 < elem_count (pos s) <= UINT32_MAX → holds s (at_ s) (cbor_enc c) →
    ∃ v p, d s = (Ret (Some v), set_pos s p) ∧ denotes (buffer s) v x ∧ goes_past s (zlen (cbor_enc c)) p.

Lemma minus_1 n : 0 < n <= UINT32_MAX → n ⊖ 1 = n - 1.
Proof. unfold_uint. lia. Qed.

Lemma uint_decodes n : is_u32 n → decodes (as_uint zcbor_uint32_decode) (CUint n) (SUint n).
Proof.
  intros Hn s Hec Hh. unfold is_u32 in Hn. do 2 eexists. unfold as_uint, zbind.
  rewrite (bind_ret _ _ _ _ _ (uint_decode_eq s 4 n ltac:(unfold fits; lia) ltac:(lia) Hh)).
  split; [done|]. split; [done|]. repeat split; cbn; by rewrite minus_1.
Qed.

Lemma str_decodes major c l :
  0 <= major < 8 → cbor_enc c = cbor_head major (zlen l) ++ l → is_u32 (zlen l) →
  decodes (as_string (str_decode major)) c (SBytes l).
Proof.
  intros Hm Hc Hl s Hec Hh. rewrite Hc in *. do 2 eexists. unfold as_string, zbind.
  rewrite (bind_ret _ _ _ _ _ (str_decode_eq s major l Hm Hl ltac:(lia) Hh)).
  pose proof Hh as [_ (Ho & He & Hb & Hs)]%holds_app.
  split; [done|]. split; [cbn; repeat split; done || lia|]. repeat split; cbn; by rewrite minus_1.
Qed.

Lemma bool_decodes (b : bool) : decodes (as_bool zcbor_bool_decode) (CSimple (if b then 21 else 20)) (SBool b).
Proof.
  intros s Hec Hh. do 2 eexists. unfold as_bool, zcbor_bool_decode, zcbor_simple_decode, zbind.
  set (n := if b then 21 else 20) in *. assert (Hn : 20 <= n < 22) by (unfold n; destruct b; lia). cbn [cbor_enc] in *.
  assert (Hhd : cbor_head 7 n = [7 * 32 + n]) by (unfold cbor_head; by rewrite (proj2 (Z.leb_le n 23)) by lia).
  erewrite bind_ret.
  2:{ erewrite bind_ret.
      2:{ rewrite (bind_ret _ _ _ _ _ (type_check_head s 7 n ltac:(lia) ltac:(lia) Hh)).
          pose proof Hh as Hh0. rewrite Hhd in Hh0. rewrite (bind_ret _ _ _ _ _ (payload_byte_eq _ _ _ Hh0)).
          destruct (head_byte 7 n ltac:(lia) ltac:(lia)) as (_ & -> & _).
          rewrite (proj2 (Z.ltb_ge 24 n)) by lia.
          apply (value_extract_eq s 1 7 n ltac:(lia) ltac:(unfold fits; lia) ltac:(lia) Hh). }
      by destruct b. }
  split; [done|]. split; [by destruct b|]. repeat split; cbn; by rewrite minus_1.
Qed.

(** ** The search for a key *)

Lemma find_key_none map key d n d' :
  (0 < length map)%nat → (d <= length map)%nat → find_key map key d n = (d', None) →
  (d' <= length map)%nat ∧
  ∀ j e, (j < n)%nat → map !! ((d + j) mod length map)%nat = Some e → kv_key e ≠ key.
Proof.
  intros Hpos. revert d. induction n as [|n IH]; intros d Hd; cbn [find_key].
  { intros [= <-]. split; [done|lia]. }
  assert (Hw : (if (length map <=? d)%nat then O else d) = (d mod length map)%nat).
  { destruct (Nat.leb_spec (length map) d) as [Hle|Hlt]; [|by rewrite Nat.mod_small].
    assert (d = length map) as -> by lia. by rewrite Nat.Div0.mod_same. }
  rewrite Hw. destruct (lookup_lt_is_Some_2 map (d mod length map)) as [e0 He0]; [by apply Nat.mod_upper_bound; lia|].
  rewrite He0. case_bool_decide as Hk; [done|]. intros Hf.
  apply IH in Hf as [Hd' Hall]; [|pose proof (Nat.mod_upper_bound d (length map)); lia].
  split; [done|]. intros [|j] e Hj He; [rewrite Nat.add_0_r, He0 in He; congruence|].
  apply (Hall j e); [lia|]. rewrite <- He. f_equal.
  by rewrite Nat.add_succ_comm, Nat.Div0.add_mod_idemp_l.
Qed.

Lemma map_find_key_bound map key d n d' e :
  find_key map key d n = (d', Some e) → (d' < length map)%nat ∧ map !! d' = Some e ∧ kv_key e = key.
Proof.
  intros Hf. pose proof (find_key_lookup _ _ _ _ _ _ Hf) as Hl. split; [by apply lookup_lt_Some in Hl|]. split; [done|].
  revert d Hf. induction n as [|n IH]; intros d; cbn [find_key]; [done|].
  set (d0 := if (_ <=? _)%nat then _ else _). destruct (map !! d0); [case_bool_decide|]; intros Hf; [by simplify_eq|by eapply IH|by simplify_eq].
Qed.

Lemma find_key_unknown map key d d' :
  (0 < length map)%nat → (d <= length map)%nat → find_key map key d (length map) = (d', None) →
  (d' <= length map)%nat ∧ key ∉ kv_key <$> map.
Proof.
  intros Hpos Hd Hf. destruct (find_key_none _ _ _ _ _ Hpos Hd Hf) as [Hd' Hall]. split; [done|].
  intros (e & -> & [i Hi]%list_elem_of_lookup)%list_elem_of_fmap.
  pose proof (lookup_lt_Some _ _ _ Hi) as Hlt.
  apply (Hall ((i + (length map - d)) mod length map)%nat e); [apply Nat.mod_upper_bound; lia| |done].
  rewrite Nat.Div0.add_mod_idemp_r. rewrite <- Hi. f_equal.
  replace (d + (i + (length map - d)))%nat with (i + 1 * length map)%nat by lia.
  rewrite Nat.Div0.mod_add. by apply Nat.mod_small.
Qed.
(** ** The end of a map *)

(** A string cannot be read where the element count is exhausted or another type follows. *)
Lemma no_string_eq s t :
  (∃ r, type_check t s = (Ret r, s) ∧ (r = Some () → value_extract 4 s = (Ret None, s))) → str_decode t s = (Ret None, s).
Proof.
  intros (r & Ht & Hv).
  assert (Hc : str_start_decode t s = (Ret None, s)).
  { unfold str_start_decode, zbind. rewrite (bind_ret _ _ _ _ _ Ht). destruct r as [[]|]; [|done].
    by rewrite (bind_ret _ _ _ _ _ (Hv eq_refl)). }
  assert (Ho : str_start_decode_with_overflow_check t s = (Ret None, s)).
  { unfold str_start_decode_with_overflow_check, zbind. by rewrite (bind_ret _ _ _ _ _ Hc). }
  unfold str_decode, zbind. by rewrite (bind_ret _ _ _ _ _ Ho).
Qed.

Lemma tstr_end_eq s rest : elems_end s 0 rest → holds s (at_ s) rest → zcbor_tstr_decode s = (Ret None, s).
Proof.
  intros Hend Hh. apply no_string_eq. unfold type_check, zbind, elems_end in *.
  destruct (negb ZCBOR_CANONICAL && indefinite_length_array (pos s)) eqn:Hi.
  - destruct Hend as [[rest' ->] _]. exists None. split; [|done].
    rewrite (bind_ret _ _ _ _ _ (initial_checks_eq _ _ _ Hh)). by rewrite (bind_ret _ _ _ _ _ (payload_byte_eq _ _ _ Hh)).
  - destruct Hend as [Hec _]. destruct Hh as (Ho & He & Hb & _). pose proof (zlen_nonneg rest).
    destruct (decide (payload_end (pos s) <= payload (pos s))) as [Hle|Hlt].
    { exists None. split; [|done]. rewrite (bind_ret _ _ None _ s); [done|]. unfold initial_checks.
      by rewrite get_pos_bind, (proj2 (Z.leb_le _ _) Hle). }
    destruct (lookup_lt_is_Some_2 (buffer s) (Z.to_nat (payload (pos s)))) as [x Hx]; [unfold at_, zlen in *; lia|].
    assert (Hpb : payload_byte s = (Ret x, s)) by (apply array_get_ret; unfold at_ in *; done || lia).
    assert (Hic : initial_checks s = (Ret (Some ()), s)).
    { unfold initial_checks. by rewrite get_pos_bind, (proj2 (Z.leb_gt _ _)) by lia. }
    rewrite (bind_ret _ _ _ _ _ Hic), (bind_ret _ _ _ _ _ Hpb). 
    exists (if ZCBOR_MAJOR_TYPE x =? ZCBOR_MAJOR_TYPE_TSTR then Some () else None). split; [by destruct (_ =? _)|].
    intros _. unfold value_extract, zbind. rewrite (bind_ret _ _ _ _ _ Hic), get_pos_bind. by rewrite Hec.
Qed.

Lemma map_end_eq s rest q bl :
  elems_end s 0 rest → holds s (at_ s) rest → backup_list s = q :: bl → (rest = [] ∨ rest = [0xFF]) →
  ∃ s', zcbor_map_end_decode s = (Ret (Some ()), s') ∧ buffer s' = buffer s.
Proof.
  intros Hend Hh Hbl Hrest. unfold zcbor_map_end_decode, list_map_end_decode, zbind. rewrite get_pos_bind.
  unfold elems_end in Hend. case_if Hi.
  - destruct Hend as [[rest' ->] [_ Hmax]]. destruct Hrest as [|[= ->]]; [done|].
    rewrite (bind_ret _ _ _ _ _ (array_end_eq s Hh)), get_pos_bind, put_pos_bind.
    unfold zcbor_process_backup. cbn. rewrite Hbl, (proj2 (Z.ltb_ge _ _)) by (unfold ZCBOR_MAX_ELEM_COUNT, SIZE_MAX; lia).
    by eexists.
  - destruct Hend as [Hec _]. unfold zcbor_process_backup. rewrite Hbl, Hec. cbn. by eexists.
Qed.
(** ** The start of a map *)

Definition break (indefinite : bool) : list Z := if indefinite then [0xFF] else [].

Lemma map_start_eq s ind l :
  cbor_ok (CMap ind l) → 0 < elem_count (pos s) <= UINT32_MAX → holds s (at_ s) (cbor_enc (CMap ind l)) →
  zlen (backup_list s) < num_backups s →
  ∃ s' q, zcbor_map_start_decode s = (Ret (Some ()), s') ∧ buffer s' = buffer s ∧ backup_list s' = q :: backup_list s ∧
    holds s' (at_ s') (flat_map cbor_enc l ++ break ind) ∧ elems_end s' (zlen l) (break ind).
Proof.
  intros Hok Hec Hh Hbk. inversion Hok as [| | | | |? ? Hcan Hl Heven Hf| |]; subst. destruct Hh as (Ho & He & Hb & Hs).
  assert (Hh : holds s (at_ s) (cbor_enc (CMap ind l))) by done. pose proof (zlen_nonneg l).
  apply Z.even_spec in Heven as [m Hm]. assert (Hm2 : zlen l / 2 = m) by lia.
  destruct (enc_first _ Hok) as (_ & add & l' & Hfst & Hadd & Hind). cbn [cbor_major is_indefinite] in *.
  pose proof Hh as Hh0. rewrite Hfst in Hh0.
  destruct (head_byte 5 add ltac:(lia) Hadd) as (_ & Hadd' & _).
  unfold zcbor_map_start_decode, list_map_start_decode, zbind.
  assert (Hnb : ∀ p n, zcbor_new_backup n (set_pos s p) =
            (Ret (Some ()), ZState (buffer s) (set_elem_count p n) (num_backups s) (p :: backup_list s))).
  { intros p n. unfold zcbor_new_backup. cbn. by rewrite (proj2 (Z.leb_gt _ _)) by lia. }
  set (o := at_ s + if ind then 1 else zlen (cbor_head 5 m)).
  assert (Ho2 : holds s o (flat_map cbor_enc l ++ break ind)).
  { unfold o. destruct ind; cbn [cbor_enc cbor_seq break] in *.
    - by apply (holds_app s _ [_]) in Hh as [_ ?].
    - rewrite app_nil_r. rewrite Hm2 in Hh. by apply holds_app in Hh as [_ ?]. }
  set (p1 := set_elem_count (advance (pos s) o) (elem_count (pos s) ⊖ 1)).
  set (p2 := set_indefinite (set_elem_count p1 (if ind then ZCBOR_LARGE_ELEM_COUNT else m)) ind).
  rewrite (bind_ret _ _ (Some ()) _ (ZState (buffer s) p2 (num_backups s) (p1 :: backup_list s))).
  - rewrite get_pos_bind. cbn [pos]. change (indefinite_length_array p2) with ind. destruct ind; cbn [break] in *.
    + do 2 eexists. split; [done|]. split; [done|]. split; [done|]. split; [exact Ho2|].
      unfold elems_end. cbn. rewrite (Hcan eq_refl). cbn. split; [by eexists|].
      unfold ZCBOR_LARGE_ELEM_COUNT, ZCBOR_MAX_ELEM_COUNT, SIZE_MAX, UINT32_MAX. lia.
    + change (elem_count p2) with m.
      rewrite (proj2 (Z.leb_gt (ZCBOR_MAX_ELEM_COUNT / 2) m)) by (unfold ZCBOR_MAX_ELEM_COUNT, SIZE_MAX, UINT32_MAX; lia).
      rewrite put_pos_bind. do 2 eexists. split; [done|]. split; [done|]. split; [done|]. split; [exact Ho2|].
      unfold elems_end. cbn. rewrite andb_false_r. unfold_uint. lia.
  - rewrite (bind_ret _ _ _ _ _ (type_check_eq s 5 add l' ltac:(lia) Hadd Hh0)), (bind_ret _ _ _ _ _ (payload_byte_eq _ _ _ Hh0)), get_pos_bind.
    rewrite Hadd'. change ZCBOR_VALUE_IS_INDEFINITE_LENGTH with 31. rewrite Hind. destruct ind; cbn [cbor_enc cbor_seq] in *.
    + rewrite (Hcan eq_refl). cbn [negb andb]. rewrite (proj2 (Z.eqb_neq _ _)) by lia.
      rewrite (bind_ret _ _ (Some ZCBOR_LARGE_ELEM_COUNT) _ (set_pos s p1)) by done.
      by rewrite (bind_ret _ _ _ _ _ (Hnb _ _)), get_pos_bind, put_pos_bind.
    + rewrite andb_false_r. rewrite Hm2 in *. pose proof Hh as [Hh1 _]%holds_app.
      rewrite (bind_ret _ _ _ _ _ (value_extract_eq s 4 5 m ltac:(lia) ltac:(unfold fits; lia) ltac:(lia) Hh1)).
      by rewrite (bind_ret _ _ _ _ _ (Hnb _ _)), get_pos_bind, put_pos_bind.
Qed.

(** ** The entries of a map *)

Definition entry : Type := list Z * cbor.

Definition entries_items (es : list entry) : list cbor := flat_map (λ kc, [CText kc.1; kc.2]) es.

Variable val : list Z → cbor_val.

(** The table [map] can decode the entry: an unknown key with any item, or a known key
    with the value [val] assigns to it. *)
Definition entry_decodes (map : list zcbor_map_decode_key_val) (kc : entry) : Prop :=
  is_u32 (zlen kc.1) ∧ cbor_ok kc.2 ∧
  Forall (λ e, kv_key e = kc.1 → decodes (kv_decoder e) kc.2 (val kc.1)) map.

(** A row of the table before and after decoding the given keys. *)
Definition filled (b : list Z) (keys : list (list Z)) (e e' : zcbor_map_decode_key_val) : Prop :=
  kv_key e' = kv_key e ∧ kv_decoder e' = kv_decoder e ∧
  (kv_key e ∈ keys → ∃ v, kv_found e' = Some v ∧ denotes b v (val (kv_key e))) ∧
  (kv_key e ∉ keys → kv_found e' = kv_found e).

(** The state [p] of [s] behind two items of [n] bytes. *)
Definition goes_past_2 (s : zcbor_state) (n : Z) (p : zcbor_pos) : Prop :=
  payload p = at_ s + n ∧ elem_count p = elem_count (pos s) - 2 ∧ payload_end p = payload_end (pos s) ∧
  indefinite_length_array p = indefinite_length_array (pos s).

(** One turn of the loop. *)
Lemma bulk_step_eq map dptr matched s k c :
  (0 < length map)%nat → (dptr <= length map)%nat → entry_decodes map (k, c) →
  Forall (λ e, kv_key e = k → kv_found e = None) map →
  2 <= elem_count (pos s) <= UINT32_MAX → holds s (at_ s) (cbor_enc (CText k) ++ cbor_enc c) →
  ∃ map' dptr' m p, bulk_step (dptr, map, matched) s = (Ret (inl (dptr', map', m)), set_pos s p) ∧
    goes_past_2 s (zlen (cbor_enc (CText k) ++ cbor_enc c)) p ∧ (dptr' <= length map)%nat ∧
    (((k ∉ kv_key <$> map) ∧ map' = map) ∨
     ∃ i e v, map !! i = Some e ∧ kv_key e = k ∧ map' = <[i := set_found e v]> map ∧ denotes (buffer s) v (val k)).
Proof.
  intros Hpos Hd (Hk & Hok & Hdec) Hun Hec Hh. cbn [fst snd] in *. pose proof Hh as [Hh1 Hh2]%holds_app.
  pose proof (str_decode_eq s 3 k ltac:(lia) Hk ltac:(lia) Hh1) as Hkey. change (cbor_head 3 (zlen k) ++ k) with (cbor_enc (CText k)) in Hkey.
  set (p1 := set_elem_count _ _) in Hkey. set (s1 := set_pos s p1).
  assert (Hs1 : holds s1 (at_ s1) (cbor_enc c)) by (apply holds_pos; [done|exact Hh2]).
  assert (Hat1 : at_ s1 = at_ s + zlen (cbor_enc (CText k))) by done.
  assert (Hec1 : elem_count (pos s1) = elem_count (pos s) - 1) by (cbn; apply minus_1; lia).
  assert (Hrd : read_bytes (at_ s + zlen (cbor_head 3 (zlen k))) (zlen k) s1 = (Ret k, s1)).
  { apply read_bytes_eq, holds_pos; [done|]. cbn [cbor_enc] in Hh1. by apply holds_app in Hh1 as [_ ?]. }
  unfold bulk_step. rewrite (bind_ret _ _ _ _ _ Hkey). cbn [str_value str_len]. fold s1. rewrite (bind_ret _ _ _ _ _ Hrd).
  destruct (find_key map k dptr (length map)) as [d' [e|]] eqn:Hf.
  - destruct (map_find_key_bound _ _ _ _ _ _ Hf) as (Hlt & Hl & Hke).
    rewrite (Forall_lookup_1 _ _ _ _ Hun Hl Hke).
    destruct (Forall_lookup_1 _ _ _ _ Hdec Hl Hke s1) as (v & p2 & Hrun & Hv & (Hp & Hc & He & Hi)); [lia|done|].
    rewrite (bind_ret _ _ _ _ _ Hrun). do 4 eexists. split; [done|]. split; [|split; [lia|right; by exists d', e, v]].
    repeat split; [rewrite Hp, Hat1, zlen_app; lia|rewrite Hc; lia|done|done].
  - destruct (find_key_unknown _ _ _ _ Hpos Hd Hf) as [Hd' Hnot].
    rewrite (bind_ret _ _ _ _ _ (zcbor_any_skip_eq c Hok s1 ltac:(lia) Hs1)). do 4 eexists. split; [done|].
    split; [|split; [done|by left]]. unfold past, goes_past_2. cbn [payload elem_count set_elem_count set_payload payload_end indefinite_length_array].
    rewrite Hat1, zlen_app, minus_1 by lia. repeat split; lia.
Qed.
(** ** The whole map *)

Lemma filled_step b map map' keys k :
  k ∉ keys → NoDup (kv_key <$> map) →
  ((k ∉ kv_key <$> map) ∧ map' = map ∨
   ∃ i e v, map !! i = Some e ∧ kv_key e = k ∧ map' = <[i := set_found e v]> map ∧ denotes b v (val k)) →
  ∀ map'', Forall2 (filled b keys) map' map'' → Forall2 (filled b (k :: keys)) map map''.
Proof.
  intros Hk Hnd [[Hnot ->]|(i & e & v & Hl & Hke & -> & Hv)] map'' Hf; apply Forall2_same_length_lookup.
  - apply Forall2_same_length_lookup in Hf as [Hlen Hf]. split; [done|]. intros j x y Hx Hy.
    destruct (Hf j x y Hx Hy) as (? & ? & Hin & Hout). repeat split; [done|done| |].
    + rewrite elem_of_cons. intros [Heq|Hx']; [|by apply Hin]. exfalso. apply Hnot. rewrite <- Heq.
      by apply list_elem_of_fmap_2, list_elem_of_lookup_2 with j.
    + intros Hx'. apply Hout. intros Hx''. apply Hx'. by right.
  - apply Forall2_same_length_lookup in Hf as [Hlen Hf]. rewrite length_insert in Hlen. split; [done|]. intros j x y Hx Hy.
    destruct (decide (j = i)) as [->|Hji].
    + rewrite Hl in Hx. injection Hx as <-.
      destruct (Hf i (set_found e v) y) as (Hky & Hdy & _ & Hout); [apply list_lookup_insert_eq; by eapply lookup_lt_Some|done|].
      cbn in Hky, Hdy, Hout. repeat split; [done|done| |].
      * intros _. exists v. rewrite Hke. split; [|done]. apply Hout. by rewrite Hke.
      * rewrite Hke, elem_of_cons. intros Hn. exfalso. apply Hn. by left.
    + destruct (Hf j x y) as (? & ? & Hin & Hout); [by rewrite list_lookup_insert_ne|done|]. repeat split; [done|done| |].
      * rewrite elem_of_cons. intros [Heq|Hx']; [|by apply Hin]. exfalso. apply Hji.
        apply (NoDup_lookup (kv_key <$> map) j i (kv_key x)); rewrite ?list_lookup_fmap, ?Hx, ?Hl; cbn; by rewrite ?Hke, ?Heq.
      * intros Hx'. apply Hout. intros Hx''. apply Hx'. by right.
Qed.

Lemma bulk_loop_eq es map dptr matched s n rest q bl :
  (0 < length map)%nat → (dptr <= length map)%nat → NoDup (kv_key <$> map) → NoDup es.*1 →
  Forall (entry_decodes map) es → Forall (λ e, kv_key e ∈ es.*1 → kv_found e = None) map →
  holds s (at_ s) (flat_map cbor_enc (entries_items es) ++ rest) → elems_end s (2 * zlen es) rest → (rest = [] ∨ rest = [0xFF]) →
  backup_list s = q :: bl → zlen es < Z.of_nat n →
  ∃ map' m s', loop n bulk_step (dptr, map, matched) s = (Ret (0, map', m), s') ∧ Forall2 (filled (buffer s) es.*1) map map'.
Proof.
  revert map dptr matched s n. induction es as [|[k c] es IH];
    intros map dptr matched s n Hpos Hd Hnd Hnde Hdec Hun Hh Hend Hrest Hbl Hn; (destruct n as [|n]; [unfold zlen in Hn; lia|]).
  - cbn [entries_items flat_map app] in Hh. change (2 * zlen (A:=entry) []) with 0 in Hend.
    destruct (map_end_eq s rest q bl Hend Hh Hbl Hrest) as (s' & Hrun & _). exists map, matched, s'. split.
    + apply loop_exit. unfold bulk_step. rewrite (bind_ret _ _ _ _ _ (tstr_end_eq s rest Hend Hh)).
      by rewrite (bind_ret _ _ _ _ _ Hrun).
    + apply Forall2_same_length_lookup. split; [done|]. intros j x y Hx Hy. rewrite Hx in Hy. injection Hy as <-.
      split; [done|]. split; [done|]. split; [by intros ?%elem_of_nil|done].
  - inversion Hnde as [|? ? Hk Hnde']; subst. apply Forall_cons_1 in Hdec as [Hkc Hdec]. cbn [fst fmap list_fmap] in *.
    assert (Hsplit : flat_map cbor_enc (entries_items ((k, c) :: es)) ++ rest =
                     (cbor_enc (CText k) ++ cbor_enc c) ++ flat_map cbor_enc (entries_items es) ++ rest).
    { unfold entries_items. cbn [flat_map app fst snd]. by rewrite !app_assoc. }
    rewrite Hsplit in Hh. pose proof Hh as [Hh1 Hh2]%holds_app. rewrite zlen_cons in *. pose proof (zlen_nonneg es).
    assert (Hec : 2 * (1 + zlen es) <= elem_count (pos s) <= UINT32_MAX) by (unfold elems_end in Hend; case_match; destruct Hend; lia).
    destruct (bulk_step_eq map dptr matched s k c) as (map1 & d1 & m1 & p & Hrun & (Hp & Hpc & Hpe & Hpi) & Hd1 & Hmap1); [done..| |lia|done|].
    { revert Hun. apply Forall_impl. intros e He Hke. apply He. rewrite Hke. by left. }
    rewrite (loop_continue _ _ _ _ _ _ Hrun).
    assert (Hkeys : kv_key <$> map1 = kv_key <$> map ∧ length map1 = length map ∧
                    (∀ P : list Z → ZM zcbor_value → Prop, Forall (λ e, P (kv_key e) (kv_decoder e)) map → Forall (λ e, P (kv_key e) (kv_decoder e)) map1) ∧
                    Forall (λ e, kv_key e ∈ es.*1 → kv_found e = None) map1).
    { assert (Hun' : Forall (λ e, kv_key e ∈ es.*1 → kv_found e = None) map).
      { revert Hun. apply Forall_impl. intros e He Hke. apply He. by right. }
      destruct Hmap1 as [[_ ->]|(i & e & v & Hl & Hke & -> & _)]; [done|].
      rewrite list_fmap_insert, length_insert. split; [apply list_insert_id; by rewrite list_lookup_fmap, Hl|]. split; [done|]. split.
      - intros P HP. apply Forall_insert; [done|]. cbn. apply (Forall_lookup_1 _ _ _ _ HP Hl).
      - apply Forall_insert; [done|]. cbn. by rewrite Hke. }
    destruct Hkeys as (Hkeys & Hlen & HP & Hun1).
    destruct (IH map1 d1 m1 (set_pos s p) n) as (map2 & m2 & s2 & Hrun2 & Hfill); rewrite ?Hkeys, ?Hlen; try done; try lia.
    + revert Hdec. apply Forall_impl. intros [k' c'] (? & ? & Hd'). split; [done|]. split; [done|].
      by apply (HP (λ key d, key = k' → decodes d c' (val k'))).
    + unfold at_ at 1. cbn [pos set_pos]. rewrite Hp. by apply holds_pos.
    + unfold elems_end in *. cbn [pos set_pos]. rewrite Hpi, Hpc. case_match; destruct Hend; (split; [done || lia|lia]).
    + exists map2, m2, s2. split; [done|]. by eapply filled_step.
Qed.
Lemma bulk_complete map matched s ind es :
  (0 < length map)%nat → NoDup (kv_key <$> map) → NoDup es.*1 → Forall (λ e, kv_found e = None) map →
  Forall (entry_decodes map) es → cbor_ok (CMap ind (entries_items es)) →
  0 < elem_count (pos s) <= UINT32_MAX → holds s (at_ s) (cbor_enc (CMap ind (entries_items es))) →
  zlen (backup_list s) < num_backups s →
  ∃ map' m s', zcbor_map_decode_bulk map matched s = (Ret (0, map', m), s') ∧ Forall2 (filled (buffer s) es.*1) map map'.
Proof.
  intros Hpos Hnd Hnde Hun Hdec Hok Hec Hh Hbk.
  destruct (map_start_eq s ind _ Hok Hec Hh Hbk) as (s1 & q & Hrun & Hbuf & Hbl & Hh1 & Hend).
  assert (Hlen : zlen (entries_items es) = 2 * zlen es).
  { unfold entries_items. clear. induction es as [|e es IH]; [done|]. cbn [flat_map app]. rewrite !zlen_cons, IH. lia. }
  pose proof (flat_map_len (entries_items es)) as Hfl.
  unfold zcbor_map_decode_bulk. rewrite (bind_ret _ _ _ _ _ Hrun), get_pos_bind, <- Hbuf.
  eapply bulk_loop_eq; try done; try lia.
  - revert Hun. apply Forall_impl. done.
  - by rewrite <- Hlen.
  - destruct ind; auto.
  - pose proof (bytes_left_le s1 _ _ (zlen es) Hh1 eq_refl) as Hle. rewrite zlen_app in Hle.
    pose proof (zlen_nonneg (break ind)). pose proof (zlen_nonneg es). lia.
Qed.
End Bulk.
