(* ===== verification/ZcborEncode.v ===== *)
(** * Encoding CBOR

    zcbor_encode.c against the encoding of ZcborRound.v: if there is room, the encoders
    write the bytes of the item they are called for, and between the start and the end of
    a map or list those of its elements, in the canonical form as well as in that with
    indefinite lengths.  At the end, both sides of the library together. *)

From stdpp Require Import gmap.
From S2P Require Import Prelude Effects Zcbor ZcborProps ZcborRound.

#[local] Set Default Proof Using "Type*".

Section Encode.
  Context `{ZcborConfig}.

(** The bytes [l] are written and, where elements are counted, [n] elements counted. *)
Record wrote (s s' : zcbor_state) (l : list Z) (n : Z) : Prop := {
  wr_buffer : buffer s' = splice (buffer s) (payload (pos s)) l;
  wr_payload : payload (pos s') = payload (pos s) + zlen l;
  wr_end : payload_end (pos s') = payload_end (pos s);
  wr_count : ZCBOR_CANONICAL = true → elem_count (pos s') = elem_count (pos s) ⊕ n;
  wr_num : num_backups s' = num_backups s;
  wr_list : backup_list s' = backup_list s;
}.

(** There is room for [len] bytes. *)
Definition room (s : zcbor_state) (len : Z) : Prop :=
  0 <= payload (pos s) ∧ payload (pos s) + len <= payload_end (pos s) ∧ payload_end (pos s) <= zlen (buffer s).

(** The encoder writes [l], [n] elements; [k] backups are free. *)
Definition emits (c : ZM unit) (l : list Z) (n k : Z) : Prop :=
  ∀ s, room s (zlen l) → (ZCBOR_CANONICAL = true → zlen (backup_list s) + k <= num_backups s) →
    ∃ s', c s = (Ret (Some ()), s') ∧ wrote s s' l n.

Lemma write_bytes_eq s o d :
  0 <= o → o + zlen d <= zlen (buffer s) → write_bytes o d s = (Ret (), set_buffer s (splice (buffer s) o d)).
Proof. intros. unfold write_bytes. rewrite (proj2 (Z.leb_le 0 o)), (proj2 (Z.leb_le _ _)) by lia. done. Qed.

Lemma header_byte_eq s major add :
  0 <= major < 8 → 0 <= add < 32 → room s 1 →
  encode_header_byte major add s =
    (Ret (Some ()), set_pos (set_buffer s (splice (buffer s) (payload (pos s)) [major * 32 + add])) (set_payload (pos s) (payload (pos s) + 1))).
Proof.
  intros Hm Ha (? & ? & ?). unfold encode_header_byte. rewrite get_pos_bind. rewrite (proj2 (Z.leb_gt _ _)) by lia.
  assert (Hb : u8 (Z.lor (Z.shiftl major 5) (Z.land add 0x1F)) = major * 32 + add).
  { change 0x1F with (Z.ones 5). rewrite Z.land_ones, Z.shiftl_mul_pow2 by lia. rewrite (Z.mod_small add) by lia.
    assert (Hz : Z.land (major * 2 ^ 5) add = 0).
    { rewrite <- (Z.mod_small add (2 ^ 5)) by lia. rewrite <- Z.land_ones by lia. rewrite (Z.land_comm add), Z.land_assoc, Z.land_ones by lia.
      by rewrite Z.mod_mul by lia. }
    rewrite <- (Z.lxor_lor _ _ Hz), <- (Z.add_nocarry_lxor _ _ Hz). unfold u8. change (2 ^ 5) with 32. rewrite Z.mod_small by lia. lia. }
  rewrite Hb. rewrite (bind_ret _ _ _ _ _ (write_bytes_eq s (payload (pos s)) [major * 32 + add] ltac:(lia) ltac:(rewrite zlen_cons, zlen_nil; lia))). done.
Qed.

Lemma value_len_emits major bytes v add (len : nat) :
  0 <= major < 8 → 0 <= add < 32 → slice bytes 0 (Z.of_nat len) = le_enc len v → (0 < length bytes)%nat →
  (∀ b, bytes !! 0%nat = Some b → get_additional (Z.of_nat len) b = add) →
  emits (value_encode_len major bytes (Z.of_nat len)) ((major * 32 + add) :: rev (le_enc len v)) 1 0.
Proof.
  intros Hm Hadd Hsl Hpos Hga s Hr _.
  assert (Hzr : zlen (rev (le_enc len v)) = Z.of_nat len) by (unfold zlen; rewrite length_rev, length_le_enc; done).
  destruct Hr as (? & Hroom & ?). rewrite zlen_cons, Hzr in Hroom.
  destruct (lookup_lt_is_Some_2 bytes 0 Hpos) as [b0 Hb0].
  unfold value_encode_len. rewrite get_pos_bind, (proj2 (Z.ltb_ge _ _)) by lia.
  rewrite (bind_ret _ _ _ _ _ (array_get_ret bytes 0 b0 s ltac:(lia) Hb0)), (Hga b0 Hb0). unfold zbind.
  rewrite (bind_ret _ _ _ _ _ (header_byte_eq s major add Hm Hadd ltac:(unfold room; lia))), get_pos_bind, Hsl.
  set (s1 := set_pos _ _).
  assert (Hz1 : zlen (buffer s1) = zlen (buffer s)).
  { cbn. rewrite zlen_splice; [done|lia|]. rewrite zlen_cons, zlen_nil. lia. }
  rewrite (bind_ret _ _ _ _ _ (write_bytes_eq s1 (payload (pos s1)) (rev (le_enc len v)) ltac:(cbn; lia) ltac:(rewrite Hz1, Hzr; cbn; lia))).
  eexists. split; [done|]. split; cbn [buffer pos set_pos set_buffer payload payload_end elem_count set_payload set_elem_count num_backups backup_list s1]; try done.
  - rewrite splice_append; [done|done|lia|]. rewrite zlen_cons, zlen_nil, Hzr. lia.
  - rewrite zlen_cons, Hzr. lia.
Qed.

(** A value of 32 bits. *)
Lemma value_emits major v : 0 <= major < 8 → is_u32 v → emits (value_encode major v 4) (cbor_head major v) 1 0.
Proof.
  intros Hm Hv. unfold is_u32 in Hv. unfold value_encode, zcbor_header_len, ZCBOR_VALUE_IN_HEADER, cbor_head. change (Z.to_nat 4) with 4%nat.
  case_if Ha; [|case_if Hb; [|case_if Hc; [|case_if Hd; [|lia]]]].
  - change (1 - 1) with (Z.of_nat 0). apply (value_len_emits major _ v v 0%nat); try done; [lia|cbn; lia|].
    intros b [= <-]. unfold get_additional. cbn [Z.of_nat Z.eqb]. apply Z.mod_small. lia.
  - change (2 - 1) with (Z.of_nat 1). by apply (value_len_emits major _ v 24 1%nat); [lia|lia|done|cbn; lia|].
  - change (3 - 1) with (Z.of_nat 2). by apply (value_len_emits major _ v 25 2%nat); [lia|lia|done|cbn; lia|].
  - change (5 - 1) with (Z.of_nat 4). by apply (value_len_emits major _ v 26 4%nat); [lia|lia|done|cbn; lia|].
Qed.

Lemma uint_emits v : is_u32 v → emits (zcbor_uint32_put v) (cbor_enc (CUint v)) 1 0.
Proof. intros Hv. by apply value_emits. Qed.

Lemma int_emits v : is_u32 v → emits (zcbor_int32_put v) (cbor_enc (CUint v)) 1 0.
Proof. intros Hv. unfold zcbor_int32_put, is_u32 in *. rewrite (proj2 (Z.ltb_ge _ _)) by lia. by apply value_emits. Qed.

Lemma bool_emits (b : bool) : emits (zcbor_bool_put b) (cbor_enc (CSimple (if b then 21 else 20))) 1 0.
Proof.
  destruct b.
  - apply (value_len_emits 7 [21] 0 21 0%nat); [lia|lia|done|apply Nat.lt_0_1|by intros x [= <-]].
  - apply (value_len_emits 7 [20] 0 20 0%nat); [lia|lia|done|apply Nat.lt_0_1|by intros x [= <-]].
Qed.

Lemma head_small major n : 0 <= n <= 23 → cbor_head major n = [major * 32 + n].
Proof. intros. unfold cbor_head. by rewrite (proj2 (Z.leb_le n 23)) by lia. Qed.

Lemma str_emits major l : 0 <= major < 8 → is_u32 (zlen l) → emits (str_encode major l) (cbor_head major (zlen l) ++ l) 1 0.
Proof.
  intros Hm Hl s Hr Hb. destruct Hr as (? & Hroom & ?). rewrite zlen_app in Hroom. pose proof (head_len major (zlen l)). pose proof (zlen_nonneg l).
  assert (Hhl : zcbor_header_len (zlen l) = zlen (cbor_head major (zlen l))).
  { destruct (head_spec major (zlen l)) as (add & len & -> & _ & -> & _ & ? & _); [unfold is_u32 in Hl; lia|].
    rewrite zlen_cons. unfold zlen. rewrite length_rev, length_le_enc. lia. }
  destruct (value_emits major (zlen l) Hm Hl s) as (s1 & Hrun & [Hbuf Hpl Hend Hcnt Hnum Hlist]); [unfold room; lia|done|].
  assert (Hst : str_start_encode major (zlen l) s = (Ret (Some ()), s1)).
  { unfold str_start_encode. rewrite get_pos_bind, (proj2 (Z.ltb_ge _ _)) by lia. done. }
  unfold str_encode. rewrite get_pos_bind, (proj2 (Z.leb_gt _ _)), (proj2 (Z.ltb_ge _ _)) by lia. unfold zbind.
  rewrite (bind_ret _ _ _ _ _ Hst), get_pos_bind.
  assert (Hz1 : zlen (buffer s1) = zlen (buffer s)) by (rewrite Hbuf, zlen_splice; lia).
  rewrite (bind_ret _ _ _ _ _ (write_bytes_eq s1 (payload (pos s1)) l ltac:(lia) ltac:(lia))).
  eexists. split; [done|]. split; cbn [buffer pos set_pos set_buffer payload payload_end elem_count set_payload num_backups backup_list]; try done.
  - rewrite Hbuf, splice_append; [done|done|lia|lia].
  - rewrite Hpl, zlen_app. lia.
Qed.

(** ** Sequences *)

Lemma wrote_app s s1 s2 l l' n n' :
  room s (zlen (l ++ l')) → wrote s s1 l n → wrote s1 s2 l' n' → wrote s s2 (l ++ l') (n + n').
Proof.
  intros (? & Hr & ?) [Hb1 Hp1 He1 Hc1 Hn1 Hl1] [Hb2 Hp2 He2 Hc2 Hn2 Hl2]. rewrite zlen_app in Hr.
  pose proof (zlen_nonneg l). pose proof (zlen_nonneg l').
  split; try congruence.
  - rewrite Hb2, Hb1, Hp1. apply splice_append; [done|lia|lia].
  - rewrite Hp2, Hp1, zlen_app. lia.
  - intros Hcan. rewrite Hc2, Hc1 by done. unfold u32. rewrite Zplus_mod_idemp_l. f_equal. lia.
Qed.

Lemma wrote_room s s1 l l' n : room s (zlen (l ++ l')) → wrote s s1 l n → room s1 (zlen l').
Proof.
  intros (? & Hr & ?) [Hb1 Hp1 He1 _ _ _]. rewrite zlen_app in Hr. pose proof (zlen_nonneg l). pose proof (zlen_nonneg l').
  unfold room. rewrite Hp1, He1, Hb1, zlen_splice by lia. lia.
Qed.

(** An encoder for each item. *)
Definition emits_items (cs : list (ZM unit)) (items : list cbor) (k : Z) : Prop :=
  Forall2 (λ c i, emits c (cbor_enc i) 1 k) cs items.

Lemma all_ok_app l l' s s1 : all_ok l s = (Ret (Some ()), s1) → all_ok (l ++ l') s = all_ok l' s1.
Proof.
  revert s. induction l as [|c l IH]; intros s; cbn [all_ok app].
  - by intros [= ->].
  - unfold zbind, mbind, M_bind. destruct (c s) as [[[[]|]| | | |] s2]; try done. apply IH.
Qed.

Lemma all_ok_items cs items k s :
  emits_items cs items k → room s (zlen (flat_map cbor_enc items)) → (ZCBOR_CANONICAL = true → is_u32 (elem_count (pos s))) →
  (ZCBOR_CANONICAL = true → zlen (backup_list s) + k <= num_backups s) →
  ∃ s', all_ok cs s = (Ret (Some ()), s') ∧ wrote s s' (flat_map cbor_enc items) (zlen items).
Proof.
  intros Hem. revert s. induction Hem as [|c i cs items Hc _ IH]; intros s Hr Hec Hbk.
  - exists s. split; [done|]. destruct Hr as (? & _). split; try done.
    + cbn. by rewrite splice_nil.
    + cbn [flat_map]. rewrite zlen_nil. lia.
    + intros Hcan. rewrite zlen_nil, Z.add_0_r. rewrite u32_small; auto.
  - cbn [flat_map] in *. destruct (Hc s) as (s1 & Hrun & Hw1); [|done|].
    { destruct Hr as (? & Hr & ?). rewrite zlen_app in Hr. pose proof (zlen_nonneg (flat_map cbor_enc items)). unfold room. lia. }
    pose proof (wrote_room _ _ _ _ _ Hr Hw1) as Hr1. cbn [all_ok]. unfold zbind. rewrite (bind_ret _ _ _ _ _ Hrun).
    destruct (IH s1 Hr1) as (s2 & Hrun2 & Hw2).
    + intros Hcan. rewrite (wr_count _ _ _ _ Hw1 Hcan). apply u32_range.
    + intros Hcan. rewrite (wr_num _ _ _ _ Hw1), (wr_list _ _ _ _ Hw1). auto.
    + exists s2. split; [done|]. rewrite zlen_cons. by eapply wrote_app.
Qed.

(** ** Maps and lists *)

Lemma header_emits major add n :
  ZCBOR_CANONICAL = false → 0 <= major < 8 → 0 <= add < 32 → emits (encode_header_byte major add) [major * 32 + add] n 0.
Proof.
  intros Hcan Hm Ha s Hr _. eexists. split; [by apply header_byte_eq|]. split; try done. by rewrite Hcan.
Qed.

Definition seq_count (major : Z) (items : list cbor) : Z := if major =? 4 then zlen items else zlen items / 2.

Lemma indefinite_emits major cs items max_num k :
  ZCBOR_CANONICAL = false → 0 <= major < 8 → emits_items cs items k →
  emits (all_ok ([list_map_start_encode max_num major] ++ cs ++ [list_map_end_encode max_num major]))
    (cbor_seq true major (seq_count major items) (flat_map cbor_enc items)) 1 (k + 1).
Proof.
  intros Hcan Hm Hem s Hr _. set (body := flat_map cbor_enc items) in *. unfold cbor_seq in *.
  change ((major * 32 + 31) :: body ++ [255]) with ([major * 32 + 31] ++ (body ++ [255])) in *.
  assert (Hpre : ∀ s (l l' : list Z), room s (zlen (l ++ l')) → room s (zlen l)).
  { intros s' l l' (? & Hr' & ?). rewrite zlen_app in Hr'. pose proof (zlen_nonneg l'). unfold room. lia. }
  cbn [app all_ok]. unfold list_map_start_encode, list_map_end_encode. rewrite Hcan.
  destruct (header_emits major 31 0 Hcan Hm ltac:(lia) s) as (s1 & Hrun1 & Hw1); [by eapply Hpre|by rewrite Hcan|].
  unfold zbind at 1. rewrite (bind_ret _ _ _ _ _ Hrun1). pose proof (wrote_room _ _ _ _ _ Hr Hw1) as Hr1.
  destruct (all_ok_items cs items k s1 Hem) as (s2 & Hrun2 & Hw2); [by eapply Hpre|by rewrite Hcan..|].
  fold body in Hw2. rewrite (all_ok_app _ _ _ _ Hrun2). pose proof (wrote_room _ _ _ _ _ Hr1 Hw2) as Hr2.
  destruct (header_emits 7 31 0 Hcan ltac:(lia) ltac:(lia) s2) as (s3 & Hrun3 & Hw3); [done|by rewrite Hcan|].
  cbn [all_ok]. unfold zbind. rewrite (bind_ret _ _ _ _ _ Hrun3). exists s3. split; [done|].
  pose proof (wrote_app _ _ _ _ _ _ _ Hr1 Hw2 Hw3) as Hw. destruct (wrote_app _ _ _ _ _ _ _ Hr Hw1 Hw). split; try done. by rewrite Hcan.
Qed.

(** In the canonical form the header is written at the start for [max_num] elements and
    again at the end for those counted; both take one byte. *)
Lemma canonical_start_eq s major max_num :
  ZCBOR_CANONICAL = true → 0 <= major < 8 → 0 <= max_num <= 23 → room s 1 → zlen (backup_list s) < num_backups s →
  ∃ p, list_map_start_encode max_num major s =
    (Ret (Some ()), ZState (splice (buffer s) (payload (pos s)) [major * 32 + max_num]) p (num_backups s) (pos s :: backup_list s)) ∧
    payload p = payload (pos s) + 1 ∧ elem_count p = 0 ∧ payload_end p = payload_end (pos s).
Proof.
  intros Hcan Hm Hmax Hr Hbk. unfold list_map_start_encode. rewrite Hcan. unfold zbind at 1, zcbor_new_backup.
  set (sa := ZState (buffer s) (set_elem_count (pos s) 0) (num_backups s) (pos s :: backup_list s)).
  assert (Hnb : (if num_backups s <=? zlen (backup_list s) then (Ret None, s) else (Ret (Some ()), sa)) = (Ret (Some ()) : outcome (option ()), sa)).
  { by rewrite (proj2 (Z.leb_gt _ _)) by lia. }
  erewrite bind_ret; [|exact Hnb].
  destruct (value_emits major max_num Hm ltac:(unfold is_u32; lia) sa) as (s1 & Hrun & [Hb Hp He Hc Hn Hl]).
  { rewrite head_small by lia. exact Hr. }
  { intros _. cbn. rewrite zlen_cons. lia. }
  rewrite head_small in * by lia. unfold zbind. rewrite (bind_ret _ _ _ _ _ Hrun), get_pos_bind.
  exists (set_elem_count (pos s1) (elem_count (pos s1) ⊖ 1)). split; [|split; [exact Hp|split; [|exact He]]].
  - rewrite put_pos_bind. unfold ok_, mret, M_ret, set_pos. rewrite Hb, Hn, Hl. reflexivity.
  - cbn [elem_count set_elem_count]. rewrite (Hc Hcan). done.
Qed.

Lemma canonical_end_eq s major max_num n b bl :
  ZCBOR_CANONICAL = true → (major = 4 ∨ major = 5) → 0 <= max_num <= 23 → 0 <= n <= 23 →
  (if major =? 4 then elem_count (pos s) else elem_count (pos s) / 2) = n → elem_count (pos s) <= UINT32_MAX →
  backup_list s = b :: bl → 0 <= payload b → payload b + 1 <= payload_end b → payload_end b <= zlen (buffer s) → zlen bl <= num_backups s →
  ∃ p, list_map_end_encode max_num major s =
    (Ret (Some ()), ZState (splice (buffer s) (payload b) [major * 32 + n]) p (num_backups s) bl) ∧
    payload p = payload (pos s) ∧ elem_count p = elem_count b ⊕ 1 ∧ payload_end p = payload_end b.
Proof.
  intros Hcan Hmaj Hmax Hn Hcnt Hec Hbl Hb0 Hb1 Hb2 Hnum. unfold list_map_end_encode. rewrite Hcan, get_pos_bind.
  change ZCBOR_MAJOR_TYPE_LIST with 4. rewrite Hcnt.
  assert (Hhl : ∀ x, 0 <= x <= 23 → zcbor_header_len x - 1 = 0).
  { intros x Hx. unfold zcbor_header_len, ZCBOR_VALUE_IN_HEADER. by rewrite (proj2 (Z.leb_le x 23)) by lia. }
  rewrite !Hhl by lia. set (sb := set_backup_list (set_pos s b) bl).
  assert (Hpb : zcbor_process_backup false 0xFFFFFFFF s = (Ret (Some ()), sb)).
  { unfold zcbor_process_backup. rewrite Hbl. unfold UINT32_MAX in Hec. by rewrite (proj2 (Z.ltb_ge _ _)) by lia. }
  unfold zbind at 1. rewrite (bind_ret _ _ _ _ _ Hpb). rewrite Z.ltb_irrefl, Z.eqb_refl.
  destruct (value_emits major n ltac:(lia) ltac:(unfold is_u32; lia) sb) as (s1 & Hrun & [Hb Hp He Hc Hnb Hl]).
  { rewrite head_small by lia. done. }
  { intros _. cbn. lia. }
  rewrite head_small in * by lia. unfold zbind. rewrite (bind_ret _ _ _ _ _ Hrun), get_pos_bind.
  exists (set_payload (pos s1) (payload (pos s))). split; [|split; [done|split; [|exact He]]].
  - cbn [negb]. rewrite put_pos_bind. unfold ok_, mret, M_ret, set_pos. rewrite Hb, Hnb, Hl. reflexivity.
  - exact (Hc Hcan).
Qed.

Lemma canonical_emits major cs items max_num k :
  ZCBOR_CANONICAL = true → (major = 4 ∨ major = 5) → emits_items cs items k → 0 <= max_num <= 23 → 0 <= k →
  seq_count major items <= 23 →
  emits (all_ok ([list_map_start_encode max_num major] ++ cs ++ [list_map_end_encode max_num major]))
    (cbor_seq false major (seq_count major items) (flat_map cbor_enc items)) 1 (k + 1).
Proof.
  intros Hcan Hmaj Hem Hmax Hk Hn s Hr Hbk. specialize (Hbk Hcan). set (body := flat_map cbor_enc items) in *. unfold cbor_seq in *.
  pose proof (zlen_nonneg items). pose proof (zlen_nonneg body). pose proof (zlen_nonneg (backup_list s)).
  assert (Hn0 : 0 <= seq_count major items) by (unfold seq_count; destruct (major =? 4); lia).
  assert (Hni : zlen items <= 47) by (unfold seq_count in Hn; destruct (major =? 4); lia).
  rewrite (head_small major (seq_count major items)) in * by lia.
  destruct Hr as (Hr0 & Hr & Hr2). rewrite zlen_app in Hr. rewrite zlen_cons, zlen_nil in Hr.
  destruct (canonical_start_eq s major max_num Hcan ltac:(lia) Hmax ltac:(unfold room; lia) ltac:(lia)) as (p1 & Hrun1 & Hp1 & Hc1 & He1).
  set (s1 := ZState _ p1 _ _) in Hrun1.
  assert (Hz1 : zlen (buffer s1) = zlen (buffer s)) by (cbn [buffer s1]; rewrite zlen_splice; [done|lia|rewrite zlen_cons, zlen_nil; lia]).
  destruct (all_ok_items cs items k s1 Hem) as (s2 & Hrun2 & [Hb2 Hp2 He2 Hc2 Hn2 Hl2]).
  { unfold room. rewrite Hz1. fold body. cbn [pos s1]. lia. }
  { intros _. cbn [pos s1]. rewrite Hc1. unfold is_u32. lia. }
  { intros _. cbn [s1 backup_list num_backups]. rewrite zlen_cons. lia. }
  fold body in Hb2, Hp2. specialize (Hc2 Hcan). cbn [pos s1 num_backups backup_list] in Hp2, He2, Hc2, Hn2, Hl2.
  rewrite Hc1, Z.add_0_l, u32_small in Hc2 by (unfold is_u32; lia).
  assert (Hz2 : zlen (buffer s2) = zlen (buffer s)) by (rewrite Hb2, zlen_splice; cbn [pos s1]; lia).
  destruct (canonical_end_eq s2 major max_num (seq_count major items) (pos s) (backup_list s)) as (p3 & Hrun3 & Hp3 & Hc3 & He3); try done; try lia.
  { by rewrite Hc2. }
  { unfold UINT32_MAX. lia. }
  cbn [app all_ok]. unfold zbind at 1. rewrite (bind_ret _ _ _ _ _ Hrun1), (all_ok_app _ _ _ _ Hrun2). cbn [all_ok]. unfold zbind.
  rewrite (bind_ret _ _ _ _ _ Hrun3). eexists. split; [done|]. split; cbn [buffer pos num_backups backup_list]; try done.
  - rewrite Hb2. cbn [buffer pos s1]. rewrite (splice_append _ (payload (pos s)) (payload p1)); [|exact Hp1|lia|rewrite zlen_cons, zlen_nil; lia].
    rewrite <- (Z.add_0_r (payload (pos s))) at 2. rewrite splice_inside; [done|lia|lia| |]; rewrite ?zlen_app, !zlen_cons, ?zlen_nil; lia.
  - rewrite Hp3, Hp2, Hp1, ?zlen_app, !zlen_cons, ?zlen_nil. lia.
Qed.

(** The form is canonical or has indefinite lengths, by the configuration. *)
Lemma map_emits cs items max_num k :
  emits_items cs items k → 0 <= max_num <= 23 → 0 <= k → (ZCBOR_CANONICAL = true → zlen items <= 47) →
  emits (all_ok ([zcbor_map_start_encode max_num] ++ cs ++ [zcbor_map_end_encode max_num]))
    (cbor_enc (CMap (negb ZCBOR_CANONICAL) items)) 1 (k + 1).
Proof.
  intros Hem Hmax Hk Hn. cbn [cbor_enc]. change (zlen items / 2) with (seq_count 5 items). unfold zcbor_map_start_encode, zcbor_map_end_encode.
  destruct ZCBOR_CANONICAL eqn:Hcan; cbn [negb].
  - apply canonical_emits; try done; [by right|]. specialize (Hn eq_refl). unfold seq_count. cbn. lia.
  - by apply indefinite_emits.
Qed.

Lemma list_emits cs items max_num k :
  emits_items cs items k → 0 <= max_num <= 23 → 0 <= k → (ZCBOR_CANONICAL = true → zlen items <= 23) →
  emits (all_ok ([zcbor_list_start_encode max_num] ++ cs ++ [zcbor_list_end_encode max_num]))
    (cbor_enc (CList (negb ZCBOR_CANONICAL) items)) 1 (k + 1).
Proof.
  intros Hem Hmax Hk Hn. cbn [cbor_enc]. change (zlen items) with (seq_count 4 items) at 1. unfold zcbor_list_start_encode, zcbor_list_end_encode.
  destruct ZCBOR_CANONICAL eqn:Hcan; cbn [negb].
  - apply canonical_emits; try done; [by left|by apply Hn].
  - by apply indefinite_emits.
Qed.

(** ** Without room *)

(** Whatever the room, the encoders write only into the buffer, of [n] bytes. *)
Variable n : Z.

Definition pos_in (p : zcbor_pos) : Prop := 0 <= payload p ∧ payload p <= payload_end p ∧ payload_end p = n.

Definition enc_ok (s : zcbor_state) : Prop := zlen (buffer s) = n ∧ pos_in (pos s) ∧ Forall pos_in (backup_list s).

Definition enc_safe (c : ZM unit) : Prop := ∀ s, enc_ok s → wp c (λ _, enc_ok) (λ _, False) s.

Lemma write_wp {A} (k : unit → M zcbor_state A) o d s Q C :
  enc_ok s → 0 <= o → o + zlen d <= n → (∀ s', enc_ok s' → pos s' = pos s → wp (k ()) Q C s') → wp (write_bytes o d ≫= k) Q C s.
Proof.
  intros (Hz & Hp & Hb) Ho Hd Hk. apply wp_bind. unfold wp at 1. rewrite write_bytes_eq by lia. apply Hk; [|done].
  split; [|done]. cbn [buffer set_buffer]. rewrite zlen_splice; lia.
Qed.

Lemma enc_ok_pos s p : enc_ok s → pos_in p → enc_ok (set_pos s p).
Proof. by intros (? & ? & ?) Hp. Qed.

(** A header byte moves the pointer by one. *)
Lemma header_byte_wp major add s :
  enc_ok s →
  wp (encode_header_byte major add)
    (λ r s', enc_ok s' ∧ payload_end (pos s') = payload_end (pos s) ∧ if r is Some _ then payload (pos s') = payload (pos s) + 1 else True)
    (λ _, False) s.
Proof.
  intros Hs. pose proof Hs as (Hz & (? & ? & ?) & Hb). unfold encode_header_byte. apply wp_get_pos.
  case_if Hc; [by apply wp_ret|]. apply write_wp; [done|lia|rewrite zlen_cons, zlen_nil; lia|]. intros s1 Hs1 Hp1.
  apply wp_put_pos, wp_ret. split; [|done]. apply enc_ok_pos; [done|]. unfold pos_in. cbn. lia.
Qed.

Lemma value_encode_wp major v max s :
  enc_ok s → (0 < max) →
  wp (value_encode major v max)
    (λ r s', enc_ok s' ∧ payload_end (pos s') = payload_end (pos s) ∧
       if r is Some _ then payload (pos s') = payload (pos s) + zcbor_header_len v else True) (λ _, False) s.
Proof.
  intros Hs Hm. pose proof Hs as (Hz & (? & ? & ?) & Hb). unfold value_encode, value_encode_len. apply wp_get_pos.
  assert (Hhl : 1 <= zcbor_header_len v) by (unfold zcbor_header_len; repeat case_match; lia). set (len := zcbor_header_len v - 1).
  case_if Hc; [by apply wp_ret|]. destruct (Z.to_nat max) as [|m] eqn:Hmx; [lia|]. cbn [le_enc].
  apply wp_bind. eapply wp_array_get; [lia|done|]. unfold zbind. wp_step header_byte_wp; [done|].
  intros [[]|] s1 (Hs1 & He1 & Hp1); [|by apply wp_ret]. apply wp_get_pos. pose proof Hs1 as (Hz1 & (? & ? & ?) & _).
  assert (0 <= len) by (unfold len; lia). set (bytes := _ :: _). assert (Hzb : zlen (rev (slice bytes 0 len)) <= len).
  { unfold zlen. rewrite length_rev. unfold slice. rewrite length_take. lia. }
  apply write_wp; [done|lia|lia|]. intros s2 Hs2 Hp2. apply wp_put_pos, wp_ret.
  split; [|cbn; lia]. apply enc_ok_pos; [done|]. unfold pos_in. cbn. lia.
Qed.

Lemma value_encode_safe major v max : 0 < max → enc_safe (value_encode major v max).
Proof. intros Hm s Hs. eapply wp_mono; [by apply value_encode_wp| |done]. by intros r s' [? _]. Qed.

Lemma str_encode_safe major l : enc_safe (str_encode major l).
Proof.
  intros s Hs. pose proof Hs as (Hz & (? & ? & ?) & Hb). pose proof (zlen_nonneg l). unfold str_encode, str_start_encode, zbind.
  apply wp_get_pos. case_if Hc; [by apply wp_ret|]. case_if Hd; [by apply wp_ret|]. apply wp_bind, wp_get_pos.
  case_if He; [by apply wp_ret, wp_ret|]. eapply wp_mono; [apply (value_encode_wp major (zlen l) 4); [done|lia]| |done].
  intros [[]|] s1 (Hs1 & He1 & Hp1); [|by apply wp_ret]. apply wp_get_pos.
  pose proof Hs1 as (Hz1 & (? & ? & ?) & _). apply write_wp; [done|lia|lia|].
  intros s2 Hs2 Hp2. apply wp_put_pos, wp_ret. apply enc_ok_pos; [done|]. unfold pos_in. cbn. lia.
Qed.

Lemma start_encode_safe max_num major : enc_safe (list_map_start_encode max_num major).
Proof.
  intros s Hs. pose proof Hs as (Hz & Hp & Hb). unfold list_map_start_encode. destruct ZCBOR_CANONICAL.
  - unfold zbind at 1, zcbor_new_backup. apply wp_bind. unfold wp at 1. case_if Hc; [by apply wp_ret|].
    unfold zbind. wp_step value_encode_safe; [lia|split; [done|split; [done|by constructor]]|]. intros [[]|] s1 Hs1; [|by apply wp_ret].
    apply wp_get_pos, wp_put_pos, wp_ret. by apply enc_ok_pos; [|apply Hs1].
  - eapply wp_mono; [by apply header_byte_wp| |done]. by intros r s' [? _].
Qed.

Lemma end_encode_safe max_num major : 0 <= max_num <= 23 → enc_safe (list_map_end_encode max_num major).
Proof.
  intros Hmax s Hs. pose proof Hs as (Hz & Hp & Hb). unfold list_map_end_encode. destruct ZCBOR_CANONICAL.
  - apply wp_get_pos. cbv zeta. set (cnt := if major =? _ then _ else _).
    assert (Hm0 : zcbor_header_len max_num - 1 = 0).
    { unfold zcbor_header_len, ZCBOR_VALUE_IN_HEADER. by rewrite (proj2 (Z.leb_le max_num 23)) by lia. }
    assert (Hc1 : 1 <= zcbor_header_len cnt) by (unfold zcbor_header_len; repeat case_match; lia).
    unfold zbind at 1, zcbor_process_backup. apply wp_bind. unfold wp at 1. destruct (backup_list s) as [|b l] eqn:Hbl; [by apply wp_ret|].
    apply Forall_cons_1 in Hb as [Hb Hl].
    case_if Hc; [apply wp_ret; by split|]. rewrite Hm0. case_if Hh; [apply wp_ret; by split|].
    unfold zbind. wp_step (value_encode_wp major cnt 4); [by split|lia|]. cbn [pos set_pos set_backup_list].
    intros [[]|] s1 (Hs1 & He1 & Hp1); [|by apply wp_ret]. apply wp_get_pos. rewrite (proj2 (Z.eqb_eq 0 _)) by lia. cbn [negb].
    apply wp_put_pos, wp_ret. apply enc_ok_pos; [done|]. unfold pos_in in *. cbn. lia.
  - eapply wp_mono; [by apply header_byte_wp| |done]. by intros r s' [? _].
Qed.

Lemma all_ok_safe l : Forall enc_safe l → enc_safe (all_ok l).
Proof.
  induction 1 as [|c l Hc _ IH]; intros s Hs; cbn [all_ok]; [by apply wp_ret|]. unfold zbind.
  wp_step Hc; [done|]. intros [[]|] s1 Hs1; [by apply IH|by apply wp_ret].
Qed.

End Encode.

(** * The library from both sides

    What the encoders of zcbor_encode.c write, the table-driven decoder of zcbor_bulk.c
    reads back; and the decoder is safe on a message of any bytes. *)

Section Codec.
  Context `{ZcborConfig}.

(** The values the messages of the loader are made of, each with its item, its encoder
    and its decoder. *)
Inductive field := FUint (n : Z) | FText (l : list Z) | FBytes (l : list Z) | FBool (b : bool).

Definition field_item (f : field) : cbor :=
  match f with FUint n => CUint n | FText l => CText l | FBytes l => CBytes l | FBool b => CSimple (if b then 21 else 20) end.

Definition field_put (f : field) : ZM unit :=
  match f with
  | FUint n => zcbor_uint32_put n
  | FText l => zcbor_tstr_encode_ptr l
  | FBytes l => zcbor_bstr_encode_ptr l
  | FBool b => zcbor_bool_put b
  end.

Definition field_get (f : field) : ZM zcbor_value :=
  match f with
  | FUint _ => as_uint zcbor_uint32_decode
  | FText _ => as_string zcbor_tstr_decode
  | FBytes _ => as_string zcbor_bstr_decode
  | FBool _ => as_bool zcbor_bool_decode
  end.

Definition field_val (f : field) : cbor_val :=
  match f with FUint n => SUint n | FText l | FBytes l => SBytes l | FBool b => SBool b end.

Definition field_ok (f : field) : Prop :=
  match f with FUint n => is_u32 n | FText l | FBytes l => is_u32 (zlen l) | FBool _ => True end.

Definition fields_items (fs : list (list Z * field)) : list cbor := entries_items (prod_map id field_item <$> fs).

(** A map of the fields as the handlers of the loader write theirs. *)
Definition put_map (max_num : Z) (fs : list (list Z * field)) : ZM unit :=
  all_ok ([zcbor_map_start_encode max_num] ++ flat_map (λ kf, [zcbor_tstr_encode_ptr kf.1; field_put kf.2]) fs ++
          [zcbor_map_end_encode max_num]).

Lemma field_emits f : field_ok f → emits (field_put f) (cbor_enc (field_item f)) 1 0.
Proof.
  destruct f as [n|l|l|b]; intros Hf; [by apply uint_emits|by apply (str_emits 3)|by apply (str_emits 2)|apply bool_emits].
Qed.

Lemma field_decodes f : field_ok f → decodes (field_get f) (field_item f) (field_val f).
Proof.
  destruct f as [n|l|l|b]; intros Hf; [by apply uint_decodes|by apply str_decodes|by apply str_decodes|apply bool_decodes].
Qed.

Lemma field_cbor_ok f : field_ok f → cbor_ok (field_item f).
Proof. destruct f as [n|l|l|[]]; intros Hf; constructor; unfold field_ok, is_u32, is_u8 in *; lia. Qed.

Lemma field_get_safe b f : Forall is_u8 b → safe b 1 (field_get f) (value_ok b).
Proof.
  intros Hb. destruct f; [apply as_uint_safe; [done|]; by apply uint32_decode_safe|apply as_string_safe; [done|]; by apply str_decode_safe..|].
  apply as_bool_safe; [done|]. by apply bool_decode_safe.
Qed.

Lemma fields_emit fs :
  Forall (λ kf, is_u32 (zlen kf.1) ∧ field_ok kf.2) fs →
  emits_items (flat_map (λ kf, [zcbor_tstr_encode_ptr kf.1; field_put kf.2]) fs) (fields_items fs) 0.
Proof.
  unfold emits_items, fields_items, entries_items. induction 1 as [|kf fs [Hk Hf] _ IH]; [by constructor|]. cbn.
  apply List.Forall2_cons; [by apply (str_emits 3)|]. apply List.Forall2_cons; [by apply field_emits|done].
Qed.

Lemma fields_ok fs :
  Forall (λ kf, is_u32 (zlen kf.1) ∧ field_ok kf.2) fs → zlen fs <= 23 → cbor_ok (CMap (negb ZCBOR_CANONICAL) (fields_items fs)).
Proof.
  intros Hfs Hz. assert (Hlen : zlen (fields_items fs) = 2 * zlen fs).
  { unfold fields_items, entries_items. clear. induction fs as [|kf fs IH]; [done|]. cbn. rewrite !zlen_cons, IH. lia. }
  constructor; [by destruct ZCBOR_CANONICAL|lia|rewrite Hlen; by rewrite Z.even_mul|].
  unfold fields_items, entries_items. clear Hlen Hz. induction Hfs as [|kf fs [Hk Hf] _ IH]; [by constructor|]. cbn.
  apply List.Forall_cons; [by constructor|]. apply List.Forall_cons; [by apply field_cbor_ok|done].
Qed.

(** What a key stands for. *)
Definition val_of (fs : list (list Z * field)) (k : list Z) : cbor_val :=
  match (list_to_map fs : gmap (list Z) field) !! k with Some f => field_val f | None => SBool false end.

Lemma val_of_field fs k f : NoDup fs.*1 → (k, f) ∈ fs → val_of fs k = field_val f.
Proof. intros Hnd Hin. unfold val_of. by rewrite (elem_of_list_to_map_1 fs k f Hnd Hin). Qed.

(** The rows of a table that decode the fields they name. *)
Definition rows_for (fs : list (list Z * field)) (map : list zcbor_map_decode_key_val) : Prop :=
  NoDup (kv_key <$> map) ∧ (0 < length map)%nat ∧
  Forall (λ e, kv_found e = None ∧ ∀ f, (kv_key e, f) ∈ fs → kv_decoder e = field_get f) map.

(** The row [e'] after decoding: the value of its field, or nothing. *)
Definition row_read (msg : list Z) (fs : list (list Z * field)) (e e' : zcbor_map_decode_key_val) : Prop :=
  kv_key e' = kv_key e ∧ (∀ f, (kv_key e, f) ∈ fs → ∃ v, kv_found e' = Some v ∧ denotes msg v (field_val f)) ∧
  (kv_key e ∉ fs.*1 → kv_found e' = None).

Lemma fields_decode fs map :
  NoDup fs.*1 → Forall (λ kf, is_u32 (zlen kf.1) ∧ field_ok kf.2) fs → rows_for fs map →
  Forall (entry_decodes (val_of fs) map) (prod_map id field_item <$> fs).
Proof.
  intros Hnd Hfs (_ & _ & Hmap). apply Forall_fmap, Forall_forall. intros [k f] Hin.
  destruct (proj1 (Forall_forall _ _) Hfs _ Hin) as [Hk Hf]. cbn [fst snd] in *. apply list_elem_of_In in Hin. split; [done|]. split; [by apply field_cbor_ok|].
  revert Hmap. apply Forall_impl. intros e [_ Hd] Hke. cbn [prod_map fst snd id] in *. rewrite (Hd f) by (rewrite Hke; exact Hin).
  rewrite (val_of_field fs k f Hnd Hin). by apply field_decodes.
Qed.

Lemma rows_filled msg fs map map' :
  NoDup fs.*1 → Forall (λ e, kv_found e = None) map →
  Forall2 (filled (val_of fs) msg (prod_map id field_item <$> fs).*1) map map' → Forall2 (row_read msg fs) map map'.
Proof.
  intros Hnd Hnone Hfill. rewrite <- list_fmap_compose in Hfill. change (fst ∘ prod_map id field_item) with (@fst (list Z) field) in Hfill.
  induction Hfill as [|e e' map map' (Hk & _ & Hin & Hout) _ IH]; [by constructor|].
  apply Forall_cons_1 in Hnone as [He Hnone]. apply List.Forall2_cons; [|by apply IH]. split; [done|]. split.
  - intros f Hf. rewrite <- (val_of_field fs _ f Hnd Hf). apply Hin, list_elem_of_fmap. by exists (kv_key e, f).
  - intros Hn. by rewrite Hout.
Qed.

(** C16: What the encoders write, the decoder reads: a map of unsigned numbers, strings and
    booleans under distinct keys, encoded by the calls the handlers use into a buffer that
    has room for it, in the canonical form or the one of indefinite length, and then read
    by a table with the same keys or others, in any order: decoding succeeds, each row
    whose key occurs has the value that was written and every other row has none. *)
Theorem map_codec fs map max_num n_states n_states' buf :
  NoDup fs.*1 → Forall (λ kf, is_u32 (zlen kf.1) ∧ field_ok kf.2) fs → zlen fs <= 23 → rows_for fs map →
  0 <= max_num <= 23 → 3 <= n_states → 3 <= n_states' → zlen (cbor_enc (CMap (negb ZCBOR_CANONICAL) (fields_items fs))) <= zlen buf →
  ∃ s', put_map max_num fs (zcbor_new_state buf n_states 0) = (Ret (Some ()), s') ∧
    let msg := slice (buffer s') 0 (payload (pos s')) in
    ∃ map' m s'', zcbor_map_decode_bulk map 0 (zcbor_new_state msg n_states' 1) = (Ret (0, map', m), s'') ∧
      Forall2 (row_read msg fs) map map'.
Proof.
  intros Hnd Hfs Hz Hrows Hmax Hn Hn' Hroom. pose proof (fields_ok fs Hfs Hz) as Hok. set (c := CMap _ _) in *.
  destruct (map_emits _ _ max_num 0 (fields_emit fs Hfs) Hmax ltac:(lia)) with (s := zcbor_new_state buf n_states 0) as (s' & Hrun & Hw).
  { intros _. unfold fields_items, entries_items. clear -Hz. assert (zlen (flat_map (λ kc, [CText kc.1; kc.2]) (prod_map id field_item <$> fs)) = 2 * zlen fs); [|lia].
    clear Hz. induction fs as [|kf fs IH]; [done|]. cbn. rewrite !zlen_cons, IH. lia. }
  { fold c. unfold room. cbn [pos zcbor_new_state payload payload_end buffer]. lia. }
  { intros _. cbn [backup_list num_backups zcbor_new_state]. rewrite zlen_nil. lia. }
  exists s'. split; [exact Hrun|]. fold c in Hw. destruct Hw as [Hbuf Hpl _ _ _ _]. cbn [pos zcbor_new_state payload buffer] in Hbuf, Hpl.
  assert (Hmsg : slice (buffer s') 0 (payload (pos s')) = cbor_enc c) by (rewrite Hbuf, Hpl; apply slice_splice_eq; lia).
  cbv zeta. rewrite Hmsg. pose proof (fields_decode fs map Hnd Hfs Hrows) as Hdec. destruct Hrows as (Hndm & Hpos & Hmap).
  destruct (bulk_complete (val_of fs) map 0 (zcbor_new_state (cbor_enc c) n_states' 1) (negb ZCBOR_CANONICAL) (prod_map id field_item <$> fs))
    as (map' & m & s'' & Hd & Hfill); try done.
  - rewrite <- list_fmap_compose. exact Hnd.
  - revert Hmap. apply Forall_impl. by intros e [? _].
  - unfold holds. cbn [pos zcbor_new_state payload payload_end buffer]. unfold at_. cbn [pos zcbor_new_state payload].
    split; [done|]. split; [done|]. split; [done|]. apply slice_full.
  - cbn [backup_list num_backups zcbor_new_state]. rewrite zlen_nil. lia.
  - exists map', m, s''. split; [exact Hd|]. apply rows_filled; [done| |done]. revert Hmap. apply Forall_impl. by intros e [? _].
Qed.

(** C17: The decoder on a message of any bytes, with a table of the kinds of value above and
    any number of backups: it returns, whatever the nesting and the lengths the message
    announces, reads nothing outside of the message, and every string it hands out lies
    in the message and every number is in its range. *)
Theorem bulk_any_bytes msg map n_states n :
  Forall is_u8 msg → Forall (λ e, kv_found e = None ∧ ∃ f, kv_decoder e = field_get f) map →
  wp (zcbor_map_decode_bulk map 0)
    (λ '(_, map', _) s', buffer s' = msg ∧ kv_key <$> map' = kv_key <$> map ∧
       Forall (λ e, if kv_found e is Some v then value_ok msg v else True) map')
    (λ _, False) (zcbor_new_state msg n_states n).
Proof.
  intros Hb Hmap. eapply wp_mono; [apply (bulk_safe msg Hb); [by apply new_state_ok|]| |done].
  - revert Hmap. apply Forall_impl. intros e [Hn (f & Hf)]. split; [rewrite Hf; by apply field_get_safe|by rewrite Hn].
  - intros [[rc map'] m] s' (Hs & Hok & Hkeys). split; [apply Hs|]. split; [done|]. revert Hok. apply Forall_impl. by intros e [_ ?].
Qed.

End Codec.
