(* ===== verification/SerialFrame.v ===== *)
(** * Serial recovery: packets on the wire

    boot_serial.c and boot_serial_priv.h, the part between the UART and the message
    handlers, as built for Zephyr: a message is a header and a CBOR payload, sent with
    its length and a checksum in base64, in lines of at most 127 characters.  The
    checksum and base64 belong to the operating system and are parameters. *)

From S2P Require Import Prelude Effects Zcbor.

(** The size of the receive buffer. *)
Class FrameConfig := { MCUBOOT_SERIAL_MAX_RECEIVE_SIZE : Z }.

(** [base64_decode dlen src] gives at most [dlen] bytes, or an error. *)
Class SerialLib := {
  crc16_itu_t : Z → list Z → Z;
  base64_encode : list Z → list Z;
  base64_decode : Z → list Z → option (list Z);
}.

Definition SHELL_NLIP_PKT_START1 : Z := 6.
Definition SHELL_NLIP_PKT_START2 : Z := 9.
Definition SHELL_NLIP_DATA_START1 : Z := 4.
Definition SHELL_NLIP_DATA_START2 : Z := 20.
Definition BOOT_SERIAL_FRAME_MTU : Z := 124.
Definition CRC16_INITIAL_CRC : Z := 0.

(** ** The header *)

(** [nh_op], [nh_version] and [_res1] share the first byte, lowest bits first.  The
    16-bit fields are as a little-endian machine reads them. *)
Record nmgr_hdr := NmgrHdr {
  nh_op : Z;
  nh_version : Z;
  nh_res1 : Z;
  nh_flags : Z;
  nh_len : Z;
  nh_group : Z;
  nh_seq : Z;
  nh_id : Z;
}.

Definition NMGR_HDR_SIZE : Z := 8.

Definition hdr_of_bytes (b : list Z) : nmgr_hdr :=
  let b0 := le_dec (slice b 0 1) in
  NmgrHdr (Z.land b0 7) (Z.land (Z.shiftr b0 3) 3) (Z.shiftr b0 5)
    (le_dec (slice b 1 1)) (le_dec (slice b 2 2)) (le_dec (slice b 4 2)) (le_dec (slice b 6 1)) (le_dec (slice b 7 1)).

Definition bytes_of_hdr (h : nmgr_hdr) : list Z :=
  [nh_op h + 8 * nh_version h + 32 * nh_res1 h; nh_flags h] ++ le_enc 2 (nh_len h) ++ le_enc 2 (nh_group h) ++
  [nh_seq h; nh_id h].

(** [htons] and [ntohs]. *)
Definition htons (x : Z) : Z := le_dec (rev (le_enc 2 x)).
Definition ntohs (x : Z) : Z := htons x.

Definition set_nh_group (h : nmgr_hdr) (g : Z) : nmgr_hdr :=
  NmgrHdr (nh_op h) (nh_version h) (nh_res1 h) (nh_flags h) (nh_len h) g (nh_seq h) (nh_id h).

(** The header of the response: made from that of the request, in place. *)
Definition response_hdr (h : nmgr_hdr) (len : Z) : nmgr_hdr :=
  NmgrHdr ((nh_op h + 1) mod 8) (nh_version h) (nh_res1 h) 0 (htons (u16 len)) (htons (nh_group h)) (nh_seq h) (nh_id h).

Section Frame.
  Context `{FrameConfig} `{SerialLib}.

(** ** Sending *)

(** The lines of the encoded packet from [out] on. *)
Fixpoint output_lines (fuel : nat) (encoded : list Z) (totlen out : Z) : list Z :=
  match fuel with
  | O => []
  | S fuel =>
      if totlen <=? out then [] else
      let len := Z.min BOOT_SERIAL_FRAME_MTU (totlen - out) in
      (if out =? 0 then [SHELL_NLIP_PKT_START1; SHELL_NLIP_PKT_START2] else [SHELL_NLIP_DATA_START1; SHELL_NLIP_DATA_START2]) ++
      slice encoded out len ++ [10] ++ output_lines fuel encoded totlen (out + len)
  end.

Definition packet (h : nmgr_hdr) (data : list Z) : list Z :=
  let crc := crc16_itu_t (crc16_itu_t CRC16_INITIAL_CRC (bytes_of_hdr h)) data in
  le_enc 2 (htons (u16 (zlen data + NMGR_HDR_SIZE + 2))) ++ bytes_of_hdr h ++ data ++ le_enc 2 (htons crc).

(** [boot_serial_output]: the header as it is left behind and the bytes written to the
    UART. *)
Definition boot_serial_output (h : nmgr_hdr) (data : list Z) : nmgr_hdr * list Z :=
  let h := response_hdr h (zlen data) in
  let encoded := base64_encode (packet h data) in
  let totlen := u16 (zlen encoded) in
  (h, output_lines (Z.to_nat totlen) encoded totlen 0).

(** ** Receiving *)

Definition max_input : Z := MCUBOOT_SERIAL_MAX_RECEIVE_SIZE + 1.

(** [boot_serial_in_dec]: return code, buffer and offset.  [inp] is the buffer behind
    the two bytes that mark a line, [inlen] the length of the line with its newline and
    the terminating zero. *)
Definition boot_serial_in_dec {W} (inp : list Z) (inlen : Z) (out : list Z) (out_off : Z) : M W (Z * list Z * Z) :=
  if (inlen - 2 <? 0) || (zlen inp <? inlen - 2) || (max_input <? out_off) then fault else
  match base64_decode (max_input - out_off) (slice inp 0 (inlen - 2)) with
  | None => mret (-1, out, out_off)
  | Some dec =>
      if zlen out <? out_off + zlen dec then fault else
      let out := splice out out_off dec in
      let out_off := out_off + zlen dec in
      if out_off <=? 2 then mret (0, out, out_off) else
      let len := ntohs (le_dec (slice out 0 2)) in
      if negb (len =? out_off - 2) then mret (0, out, out_off) else
      let crc := crc16_itu_t CRC16_INITIAL_CRC (slice out 2 len) in
      if negb (crc =? 0) || (len <=? 2) then mret (0, out, out_off) else
      let out_off := out_off - 2 in
      out ← array_set out out_off 0;
      mret (1, out, out_off)
  end.

(** A full line in [in_buf], of [off] bytes with its newline and the terminating zero:
    the first line of a packet, a further one, or something else, for which the return
    code of the read is kept. *)
Definition console_line {W} (in_buf : list Z) (off rc : Z) (dec_buf : list Z) (dec_off : Z) : M W (Z * list Z * Z) :=
  c0 ← array_get in_buf 0;
  c1 ← array_get in_buf 1;
  if (c0 =? SHELL_NLIP_PKT_START1) && (c1 =? SHELL_NLIP_PKT_START2) then
    boot_serial_in_dec (drop 2 in_buf) (off - 2) dec_buf 0
  else if (c0 =? SHELL_NLIP_DATA_START1) && (c1 =? SHELL_NLIP_DATA_START2) then
    boot_serial_in_dec (drop 2 in_buf) (off - 2) dec_buf dec_off
  else mret (rc, dec_buf, dec_off).

(** [console_read] of serial_adapter.c for a line received: the buffer and its new
    length, which counts the terminating zero. *)
Definition console_read (str line : list Z) : list Z * Z :=
  let len := if zlen str - 1 <? zlen line then zlen str - 1 else zlen line in
  (splice str 0 (slice line 0 len ++ [0]), len + 1).

(** One line read and decoded. *)
Definition receive_line {W} (in_buf line dec_buf : list Z) (dec_off : Z) : M W (Z * list Z * list Z * Z) :=
  let '(in_buf, rc) := console_read in_buf line in
  '(rc, dec_buf, dec_off) ← console_line in_buf rc rc dec_buf dec_off;
  mret (rc, in_buf, dec_buf, dec_off).

(** [boot_uart_fifo_callback]: the lines of a stream, with their newlines, and what
    follows the last one; [cur] is the line begun.  The buffer of a line holds [room]
    bytes, further ones are dropped. *)
Fixpoint split_lines (room : Z) (cur s : list Z) : list (list Z) * list Z :=
  match s with
  | [] => ([], cur)
  | c :: s =>
      let cur := if zlen cur <? room then cur ++ [c] else cur in
      if c =? 10 then let '(ls, r) := split_lines room [] s in (cur :: ls, r)
      else split_lines room cur s
  end.

End Frame.
