(* ===== verification/SerialFrameProps.v ===== *)
(** * Packets survive the wire

    What is assumed of the checksum and of base64, and: the lines of a packet are
    received as that packet. *)

From S2P Require Import Prelude Effects Zcbor SerialFrame.

#[local] Set Default Proof Using "Type*".

(** CRC-16 leaves a zero remainder behind a message followed by its checksum; base64
    (RFC 4648) turns three bytes into four characters, independently of the next three. *)
Class SerialLibOk `{SerialLib} : Prop := {
  crc_u16 c l : is_u16 (crc16_itu_t c l);
  crc_app c l l' : crc16_itu_t c (l ++ l') = crc16_itu_t (crc16_itu_t c l) l';
  crc_residue c : is_u16 c → crc16_itu_t c [c / 256; c mod 256] = 0;
  b64_len l : zlen (base64_encode l) = 4 * ((zlen l + 2) / 3);
  b64_app l l' : zlen l mod 3 = 0 → base64_encode (l ++ l') = base64_encode l ++ base64_encode l';
  b64_decode n l : Forall is_u8 l → zlen l <= n → base64_decode n (base64_encode l) = Some l;
  b64_bound n s l : base64_decode n s = Some l → zlen l <= n ∧ Forall is_u8 l;
  b64_chars l : Forall (λ c, c ≠ 10) (base64_encode l);
}.

(** ** Lines *)

Lemma split_lines_line room cur l s :
  Forall (λ c, c ≠ 10) l → zlen cur + zlen l < room →
  split_lines room cur (l ++ [10] ++ s) = ((cur ++ l ++ [10]) :: (split_lines room [] s).1, (split_lines room [] s).2).
Proof.
  intros Hl. revert cur. induction Hl as [|c l Hc Hl IH]; intros cur Hroom; cbn [app split_lines].
  - rewrite zlen_nil in Hroom. rewrite (proj2 (Z.ltb_lt _ _)) by lia. by destruct (split_lines room [] s).
  - rewrite zlen_cons in Hroom. pose proof (zlen_nonneg l). rewrite (proj2 (Z.ltb_lt _ _)) by lia.
    rewrite (proj2 (Z.eqb_neq _ _) Hc). change (l ++ 10 :: s) with (l ++ [10] ++ s).
    rewrite IH by (rewrite zlen_app, zlen_cons, zlen_nil; lia). by rewrite <- app_assoc.
Qed.

(** ** Big-endian numbers *)

Lemma htons_bytes x : is_u16 x → le_enc 2 (htons x) = [x / 256; x mod 256].
Proof. unfold is_u16. intros Hx. unfold htons. cbn. f_equal; [|f_equal]; lia. Qed.

Lemma ntohs_bytes x : is_u16 x → ntohs (le_dec [x / 256; x mod 256]) = x.
Proof. unfold is_u16. intros Hx. unfold ntohs, htons. cbn. lia. Qed.

Section FrameProps.
  Context `{FrameConfig} `{SerialLibOk} {W : Type}.

(** ** Slices of an encoded packet *)

Lemma b64_slice pkt o n :
  0 <= o → o mod 3 = 0 → 0 <= n → o + n <= zlen pkt → n mod 3 = 0 ∨ o + n = zlen pkt →
  slice (base64_encode pkt) (o / 3 * 4) (zlen (base64_encode (slice pkt o n))) = base64_encode (slice pkt o n).
Proof.
  intros Ho Ho3 Hn Hle Hend.
  assert (Hpkt : pkt = slice pkt 0 o ++ slice pkt o n ++ slice pkt (o + n) (zlen pkt - (o + n))).
  { rewrite <- (slice_full pkt) at 1. replace (zlen pkt) with (o + (n + (zlen pkt - (o + n)))) at 1 by lia.
    rewrite !slice_app_split by lia. done. }
  assert (Hl0 : zlen (slice pkt 0 o) = o) by (apply zlen_slice; lia).
  assert (Hl1 : zlen (slice pkt o n) = n) by (apply zlen_slice; lia).
  rewrite Hpkt at 1. rewrite b64_app by (by rewrite Hl0).
  assert (He : zlen (base64_encode (slice pkt 0 o)) = o / 3 * 4) by (rewrite b64_len, Hl0; lia).
  rewrite slice_app_r by lia. rewrite He, Z.sub_diag. set (m := slice pkt o n) in *.
  destruct Hend as [Hn3|Hfull].
  - rewrite b64_app by (by rewrite Hl1). rewrite slice_app_l by lia. apply slice_full.
  - rewrite Hfull, Z.sub_diag, slice_nil, app_nil_r. apply slice_full.
Qed.
(** ** A line of a packet *)

(** What the buffer holds after the first [o] bytes of [pkt]. *)
Definition received (pkt out : list Z) (o : Z) : Prop :=
  zlen out = max_input ∧ slice out 0 o = slice pkt 0 o.

(** A packet: length, contents, checksum. *)
Definition pkt_ok (pkt : list Z) : Prop :=
  Forall is_u8 pkt ∧ 4 < zlen pkt <= max_input ∧ zlen pkt < 65536 ∧
  ntohs (le_dec (slice pkt 0 2)) = zlen pkt - 2 ∧ crc16_itu_t CRC16_INITIAL_CRC (slice pkt 2 (zlen pkt - 2)) = 0.

Lemma received_splice pkt out o n :
  received pkt out o → 0 <= o → 0 <= n → o + n <= zlen pkt → zlen pkt <= max_input →
  received pkt (splice out o (slice pkt o n)) (o + n).
Proof using Type.
  intros [Hlen Hs] Ho Hn Hle Hm. assert (Hl : zlen (slice pkt o n) = n) by (apply zlen_slice; lia).
  split; [rewrite zlen_splice; lia|]. rewrite (slice_app_split _ 0 o n), (slice_app_split pkt 0 o n) by lia.
  rewrite (slice_splice_disj _ _ _ 0), Hs, Z.add_0_l by lia. f_equal. apply slice_splice_eq; lia.
Qed.

(** A line that does not complete the packet, and the one that does. *)
Lemma in_dec_line pkt inp out o n (w : W) :
  pkt_ok pkt → received pkt out o → 0 <= o → o mod 3 = 0 → 0 < n → 2 < o + n <= zlen pkt → n mod 3 = 0 ∨ o + n = zlen pkt →
  let enc := base64_encode (slice pkt o n) in
  zlen enc <= zlen inp → slice inp 0 (zlen enc) = enc →
  ∃ out', received pkt out' (Z.min (o + n) (zlen pkt - 2)) ∧
    (o + n < zlen pkt → received pkt out' (o + n)) ∧
    boot_serial_in_dec inp (zlen enc + 2) out o w =
      (Ret (if o + n =? zlen pkt then (1, out', zlen pkt - 2) else (0, out', o + n)), w).
Proof.
  intros (Hb & Hsz & H16 & Hlen & Hcrc) Hrec Ho Ho3 Hn [H2 Hle] Hend enc Hin Henc. pose proof (zlen_nonneg enc).
  assert (Hl : zlen (slice pkt o n) = n) by (apply zlen_slice; lia).
  pose proof (received_splice pkt out o n Hrec Ho ltac:(lia) Hle ltac:(lia)) as Hrec'. destruct Hrec as [Hz _].
  unfold boot_serial_in_dec. rewrite Z.add_simpl_r, (proj2 (Z.ltb_ge _ _)), (proj2 (Z.ltb_ge (zlen inp) _)), (proj2 (Z.ltb_ge max_input _)) by lia.
  cbn [orb]. rewrite Henc. unfold enc. rewrite b64_decode, Hl by (lia || by apply Forall_slice).
  rewrite (proj2 (Z.ltb_ge (zlen out) _)) by lia. set (out' := splice out o (slice pkt o n)) in *.
  destruct Hrec' as [Hz' Hs']. rewrite (proj2 (Z.leb_gt (o + n) 2)) by lia.
  assert (Hpre : ∀ a m, 0 <= a → 0 <= m → a + m <= o + n → slice out' a m = slice pkt a m).
  { intros a m Ha Hm Ham. replace a with (0 + a) by lia.
    by rewrite <- (slice_slice out' 0 (o + n) a m), <- (slice_slice pkt 0 (o + n) a m), Hs' by lia. }
  rewrite (Hpre 0 2), Hlen by lia. destruct (o + n =? zlen pkt) eqn:Hdone; zsimp.
  - rewrite Hdone in *. rewrite Z.eqb_refl. cbn [negb]. rewrite Hpre, Hcrc, (proj2 (Z.leb_gt _ 2)) by lia. cbn [negb orb Z.eqb].
    exists (<[Z.to_nat (zlen pkt - 2) := 0]> out'). split; [|split; [lia|]].
    + rewrite Z.min_r by lia. split; [unfold zlen in *; by rewrite length_insert|].
      rewrite <- Hpre by lia. apply slice_ext; [|lia]. intros i Hi. rewrite list_lookup_insert_ne; [done|lia].
    + unfold array_set. by rewrite (proj2 (Z.ltb_ge _ 0)), (proj2 (Z.leb_gt (zlen out') _)) by lia.
  - rewrite (proj2 (Z.eqb_neq (zlen pkt - 2) _)) by lia. cbn [negb]. exists out'. split; [|split; [by split|done]].
    split; [done|]. apply Hpre; lia.
Qed.
(** ** The lines of a packet *)

(** Lines read one after the other; the return codes are collected. *)
Fixpoint receive_lines (lines : list (list Z)) (in_buf dec_buf : list Z) (dec_off : Z) : M W (list Z * list Z * Z) :=
  match lines with
  | [] => mret ([], dec_buf, dec_off)
  | line :: lines =>
      '(rc, in_buf, dec_buf, dec_off) ← receive_line in_buf line dec_buf dec_off;
      '(rcs, dec_buf, dec_off) ← receive_lines lines in_buf dec_buf dec_off;
      mret (rc :: rcs, dec_buf, dec_off)
  end.

Definition line_start (o : Z) : list Z :=
  if o =? 0 then [SHELL_NLIP_PKT_START1; SHELL_NLIP_PKT_START2] else [SHELL_NLIP_DATA_START1; SHELL_NLIP_DATA_START2].

Lemma receive_line_eq pkt in_buf out o n off (w : W) :
  pkt_ok pkt → received pkt out o → 128 <= max_input → zlen in_buf = max_input →
  0 <= o → o mod 3 = 0 → 0 < n <= 93 → 2 < o + n <= zlen pkt → n mod 3 = 0 ∨ o + n = zlen pkt →
  (o ≠ 0 → off = o) →
  ∃ in_buf' out', zlen in_buf' = max_input ∧ received pkt out' (Z.min (o + n) (zlen pkt - 2)) ∧
    (o + n < zlen pkt → received pkt out' (o + n)) ∧
    receive_line in_buf (line_start o ++ base64_encode (slice pkt o n) ++ [10]) out off w =
      (Ret (if o + n =? zlen pkt then (1, in_buf', out', zlen pkt - 2) else (0, in_buf', out', o + n)), w).
Proof.
  intros Hpkt Hrec H128 Hin Ho Ho3 Hn Hle Hend Hoff. set (enc := base64_encode (slice pkt o n)).
  assert (Henc : zlen enc <= 124) by (unfold enc; rewrite b64_len, zlen_slice by lia; lia). pose proof (zlen_nonneg enc).
  set (line := line_start o ++ enc ++ [10]).
  assert (Hst : ∃ c0 c1, line_start o = [c0; c1]) by (unfold line_start; case_match; eauto). destruct Hst as (c0 & c1 & Hst).
  assert (Hline : zlen line = zlen enc + 3) by (unfold line; rewrite Hst, !zlen_app; change (zlen [c0; c1]) with 2; change (zlen [10]) with 1; lia).
  unfold receive_line, console_read. rewrite Hin, (proj2 (Z.ltb_ge _ _)), slice_full by lia.
  set (in1 := splice in_buf 0 (line ++ [0])).
  assert (Hl1 : zlen (line ++ [0]) = zlen enc + 4) by (rewrite zlen_app, Hline; change (zlen [0]) with 1; lia).
  assert (Hin1 : in1 = c0 :: c1 :: (enc ++ [10; 0] ++ drop (Z.to_nat (zlen enc + 4)) in_buf)).
  { unfold in1, splice. replace (Z.to_nat 0 + length (line ++ [0%Z]))%nat with (Z.to_nat (zlen enc + 4)) by (unfold zlen in *; lia).
    unfold line. rewrite Hst. cbn [take Z.to_nat app]. by rewrite <- !app_assoc. }
  assert (Hdrop : drop 2 in1 = enc ++ [10; 0] ++ drop (Z.to_nat (zlen enc + 4)) in_buf) by by rewrite Hin1.
  destruct (in_dec_line pkt (drop 2 in1) out o n w) as (out' & Hr1 & Hr2 & Hrun); try done; try lia.
  { rewrite Hdrop, zlen_app. pose proof (zlen_nonneg ([10; 0] ++ drop (Z.to_nat (zlen enc + 4)) in_buf)). fold enc. lia. }
  { rewrite Hdrop. fold enc. rewrite slice_app_l by lia. apply slice_full. }
  exists in1, out'. split; [unfold in1; rewrite zlen_splice; lia|]. split; [done|]. split; [done|].
  assert (Hcl : console_line in1 (zlen line + 1) (zlen line + 1) out off w =
            boot_serial_in_dec (drop 2 in1) (zlen enc + 2) out o w).
  { unfold console_line. rewrite (bind_ret _ _ c0 _ w), (bind_ret _ _ c1 _ w) by (apply array_get_ret; [lia|by rewrite Hin1]).
    rewrite Hline. replace (zlen enc + 3 + 1 - 2) with (zlen enc + 2) by lia.
    unfold line_start in Hst. destruct (o =? 0) eqn:Ho0; zsimp; injection Hst as <- <-; cbn; [by subst o|by rewrite Hoff]. }
  rewrite (bind_ret _ _ _ _ _ (eq_trans Hcl Hrun)). by destruct (o + n =? zlen pkt).
Qed.
Lemma lines_received pkt fuel room in_buf out off o (w : W) :
  pkt_ok pkt → received pkt out o → 128 <= max_input → zlen in_buf = max_input → 127 <= room →
  0 <= o < zlen pkt → o mod 93 = 0 → (o ≠ 0 → off = o) → zlen pkt - o <= 93 * Z.of_nat fuel →
  let lines := split_lines room [] (output_lines fuel (base64_encode pkt) (zlen (base64_encode pkt)) (o / 3 * 4)) in
  lines.2 = [] ∧ ∃ k out', receive_lines lines.1 in_buf out off w = (Ret (replicate k 0 ++ [1], out', zlen pkt - 2), w) ∧
    received pkt out' (zlen pkt - 2).
Proof.
  intros Hpkt Hrec H128 Hin Hroom. revert in_buf out off o Hin Hrec.
  induction fuel as [|fuel IH]; intros in_buf out off o Hin Hrec Ho Ho93 Hoff Hfuel; [lia|].
  set (n := Z.min 93 (zlen pkt - o)). pose proof Hpkt as (_ & H4 & _).
  assert (Hl : zlen (slice pkt o n) = n) by (apply zlen_slice; lia).
  assert (Hmin : Z.min BOOT_SERIAL_FRAME_MTU (zlen (base64_encode pkt) - o / 3 * 4) = zlen (base64_encode (slice pkt o n))).
  { rewrite !b64_len, Hl. unfold BOOT_SERIAL_FRAME_MTU. lia. }
  cbn [output_lines]. rewrite (proj2 (Z.leb_gt _ _)) by (rewrite b64_len; lia). rewrite Hmin, b64_slice by lia.
  replace (o / 3 * 4 =? 0) with (o =? 0) by (destruct (Z.eqb_spec o 0), (Z.eqb_spec (o / 3 * 4) 0); done || lia).
  fold (line_start o). set (enc := base64_encode (slice pkt o n)) in *.
  rewrite (app_assoc (line_start o) enc), split_lines_line.
  2:{ apply Forall_app. split; [|apply b64_chars]. unfold line_start. case_match; repeat (constructor; [done|]); constructor. }
  2:{ assert (zlen enc <= 124) by (unfold enc; rewrite b64_len, Hl; lia).
      rewrite zlen_nil, zlen_app. unfold line_start. case_match; unfold zlen at 1; cbn [length]; lia. }
  cbn [fst snd app]. rewrite <- app_assoc.
  destruct (receive_line_eq pkt in_buf out o n off w) as (in' & out' & Hin' & Hr1 & Hr2 & Hrun); try done; try lia.
  cbn [receive_lines]. rewrite (bind_ret _ _ _ _ _ Hrun). destruct (o + n =? zlen pkt) eqn:Hdone; zsimp.
  - assert (Hend : output_lines fuel (base64_encode pkt) (zlen (base64_encode pkt)) (o / 3 * 4 + zlen enc) = []).
    { destruct fuel; [done|]. cbn [output_lines]. rewrite (proj2 (Z.leb_le _ _)); [done|]. unfold enc. rewrite !b64_len, Hl. lia. }
    rewrite Hend. cbn [split_lines fst snd receive_lines]. split; [done|]. exists O, out'. split; [done|].
    by rewrite Z.min_r in Hr1 by lia.
  - replace (o / 3 * 4 + zlen enc) with ((o + n) / 3 * 4) by (unfold enc; rewrite b64_len, Hl; lia).
    destruct (IH in' out' (o + n) (o + n)) as (Hrest & k & out2 & Hrun2 & Hrec2); [done|apply Hr2; lia|lia|lia|done|lia|].
    split; [done|]. exists (S k), out2. split; [|done]. by rewrite (bind_ret _ _ _ _ _ Hrun2).
Qed.
(** ** Messages *)

Definition hdr_ok (h : nmgr_hdr) : Prop :=
  0 <= nh_op h < 8 ∧ 0 <= nh_version h < 4 ∧ 0 <= nh_res1 h < 8 ∧ is_u8 (nh_flags h) ∧ is_u16 (nh_len h) ∧
  is_u16 (nh_group h) ∧ is_u8 (nh_seq h) ∧ is_u8 (nh_id h).

Lemma htons_u16 x : is_u16 (htons x).
Proof using Type.
  unfold htons. pose proof (le_dec_bound (rev (le_enc 2 x))) as Hb. cbn in Hb. apply Hb.
  repeat (constructor; [unfold is_u8; lia|]). constructor.
Qed.

Lemma response_hdr_ok h len : hdr_ok h → hdr_ok (response_hdr h len).
Proof using Type.
  unfold hdr_ok, response_hdr. cbn. intros (? & ? & ? & ? & ? & ? & ? & ?).
  pose proof (htons_u16 (u16 len)). pose proof (htons_u16 (nh_group h)). unfold is_u8, is_u16 in *. lia.
Qed.

Lemma bytes_of_hdr_bytes h : hdr_ok h → Forall is_u8 (bytes_of_hdr h) ∧ zlen (bytes_of_hdr h) = NMGR_HDR_SIZE.
Proof using Type.
  intros (? & ? & ? & ? & ? & ? & ? & ?). split; [|done]. unfold bytes_of_hdr, is_u8, is_u16 in *.
  repeat (constructor; [unfold is_u8; cbn; lia|]). constructor.
Qed.

Lemma packet_pkt_ok h data :
  hdr_ok h → Forall is_u8 data → zlen data + 12 <= max_input → zlen data + 12 < 65536 →
  pkt_ok (packet h data) ∧ zlen (packet h data) = zlen data + 12 ∧
  slice (packet h data) 2 (zlen data + 8) = bytes_of_hdr h ++ data.
Proof.
  intros Hh Hd Hmax H16. destruct (bytes_of_hdr_bytes h Hh) as [Hhb Hhl]. unfold NMGR_HDR_SIZE in Hhl. pose proof (zlen_nonneg data).
  set (crc := crc16_itu_t (crc16_itu_t CRC16_INITIAL_CRC (bytes_of_hdr h)) data).
  assert (Hcrc : is_u16 crc) by apply crc_u16. set (n := zlen data + 10).
  assert (Hn : is_u16 n) by (unfold is_u16; lia).
  assert (Hp : packet h data = [n / 256; n mod 256] ++ (bytes_of_hdr h ++ data) ++ [crc / 256; crc mod 256]).
  { unfold packet. fold crc. rewrite (htons_bytes crc) by done. unfold NMGR_HDR_SIZE, u16.
    replace ((zlen data + 8 + 2) mod 65536) with n by lia. by rewrite htons_bytes, <- app_assoc. }
  assert (Hm : zlen (bytes_of_hdr h ++ data) = zlen data + 8) by (rewrite zlen_app; lia).
  assert (Hz : zlen (packet h data) = zlen data + 12).
  { rewrite Hp, (zlen_app [_; _]), zlen_app, Hm. change (zlen [_; _]) with 2. change (zlen [crc / 256; _]) with 2. lia. }
  assert (Hs : ∀ m, slice (packet h data) 2 m = slice ((bytes_of_hdr h ++ data) ++ [crc / 256; crc mod 256]) 0 m).
  { intros m. rewrite Hp. by rewrite slice_app_r by done. }
  split; [|split; [done|]].
  - unfold is_u16 in *. split; [|split; [|split; [lia|split]]]; [|lia| |].
    + rewrite Hp. apply Forall_app_2; [|apply Forall_app_2; [by apply Forall_app_2|]];
        (constructor; [unfold is_u8; lia|constructor; [unfold is_u8; lia|constructor]]).
    + rewrite Hz. replace (slice (packet h data) 0 2) with [n / 256; n mod 256] by (by rewrite Hp). rewrite ntohs_bytes; [lia|done].
    + rewrite Hz, Hs. replace (zlen data + 12 - 2) with (zlen ((bytes_of_hdr h ++ data) ++ [crc / 256; crc mod 256]))
        by (rewrite zlen_app, Hm; change (zlen [crc / 256; _]) with 2; lia).
      rewrite slice_full, <- app_assoc, !crc_app. apply crc_residue. done.
  - rewrite Hs, slice_app_l by lia. rewrite <- Hm. apply slice_full.
Qed.

(** C14: A message written by [boot_serial_output], cut into lines by the console and read
    line by line, is received as it was sent, in any buffers: all lines but the last leave
    the packet incomplete, and the last one completes it, with header and payload in the
    decode buffer. *)
Theorem message_received h data room in_buf dec_buf off (w : W) :
  hdr_ok h → Forall is_u8 data → zlen data + 12 <= max_input → zlen data < 49000 →
  128 <= max_input → zlen in_buf = max_input → zlen dec_buf = max_input → 127 <= room →
  let '(h', out) := boot_serial_output h data in
  let lines := split_lines room [] out in
  lines.2 = [] ∧ ∃ k dec_buf', receive_lines lines.1 in_buf dec_buf off w = (Ret (replicate k 0 ++ [1], dec_buf', zlen data + 10), w) ∧
    slice dec_buf' 2 (zlen data + 8) = bytes_of_hdr h' ++ data.
Proof.
  intros Hh Hd Hmax H49 H128 Hin Hdec Hroom. unfold boot_serial_output. pose proof (response_hdr_ok h (zlen data) Hh) as Hh'.
  set (h' := response_hdr h (zlen data)) in *. pose proof (zlen_nonneg data).
  destruct (packet_pkt_ok h' data Hh' Hd Hmax ltac:(lia)) as (Hpkt & Hz & Hs).
  rewrite (u16_small (zlen (base64_encode (packet h' data)))) by (unfold is_u16; rewrite b64_len; lia).
  destruct (lines_received (packet h' data) (Z.to_nat (zlen (base64_encode (packet h' data)))) room in_buf dec_buf off 0 w)
    as (Hend & k & out' & Hrun & Hrec); try done; try lia.
  { rewrite b64_len. lia. }
  split; [done|]. exists k, out'. rewrite Hz in *. replace (zlen data + 12 - 2) with (zlen data + 10) in * by lia.
  split; [done|]. rewrite <- Hs. destruct Hrec as [_ Hrec].
  change 2 with (0 + 2). by rewrite <- (slice_slice out' 0 (zlen data + 10)), Hrec, slice_slice by lia.
Qed.
End FrameProps.
