(* ===== verification/SerialAdapter.v ===== *)
(** * The console of the serial recovery

    boot/zephyr/serial_adapter.c: the interrupt handler of the UART collects lines (or,
    for the raw protocol, fragments) in buffers, and the loader takes them from a queue.
    Each buffer is in one of two queues or belongs to the handler or to the reader.  The
    queues are singly linked lists of the operating system with the link in the buffer; a
    buffer is named by its index. *)

From S2P Require Import Prelude Effects SerialFrame.

(** [sys_slist_t]. *)
Class SysSlist := {
  sys_slist_t : Type;
  sys_slist_init : sys_slist_t;
  sys_slist_append : sys_slist_t → nat → sys_slist_t;
  sys_slist_get : sys_slist_t → option nat * sys_slist_t;
  sys_slist_peek_tail : sys_slist_t → option nat;
}.

(** [char_signed]: whether [char] has negative values, which C leaves to the platform. *)
Class AdapterConfig := {
  CONFIG_BOOT_MAX_LINE_INPUT_LEN : Z;
  CONFIG_BOOT_LINE_BUFS : nat;
  CONFIG_BOOT_SERIAL_RAW_PROTOCOL : bool;
  char_signed : bool;
}.

Section Adapter.
  Context `{SysSlist} `{AdapterConfig}.

Record line_input := LineInput { li_len : Z; li_line : list Z }.

(** The variables of the module; [cb_cmd] and [get_cmd] are the static variables [cmd] of
    the handler and of [boot_uart_fifo_getline], [pending] is a place in a buffer. *)
Record adapter := Adapter {
  line_bufs : list line_input;
  avail_queue : sys_slist_t;
  lines_queue : sys_slist_t;
  cur : Z;
  cb_cmd : option nat;
  get_cmd : option nat;
  pending : option (nat * Z);
  pending_len : Z;
  initialized : bool;
}.

Definition set_bufs (a : adapter) b := Adapter b (avail_queue a) (lines_queue a) (cur a) (cb_cmd a) (get_cmd a) (pending a) (pending_len a) (initialized a).
Definition set_avail (a : adapter) q := Adapter (line_bufs a) q (lines_queue a) (cur a) (cb_cmd a) (get_cmd a) (pending a) (pending_len a) (initialized a).
Definition set_lines (a : adapter) q := Adapter (line_bufs a) (avail_queue a) q (cur a) (cb_cmd a) (get_cmd a) (pending a) (pending_len a) (initialized a).
Definition set_cur (a : adapter) n := Adapter (line_bufs a) (avail_queue a) (lines_queue a) n (cb_cmd a) (get_cmd a) (pending a) (pending_len a) (initialized a).
Definition set_cb_cmd (a : adapter) c := Adapter (line_bufs a) (avail_queue a) (lines_queue a) (cur a) c (get_cmd a) (pending a) (pending_len a) (initialized a).
Definition set_get_cmd (a : adapter) c := Adapter (line_bufs a) (avail_queue a) (lines_queue a) (cur a) (cb_cmd a) c (pending a) (pending_len a) (initialized a).
Definition set_pending (a : adapter) p n := Adapter (line_bufs a) (avail_queue a) (lines_queue a) (cur a) (cb_cmd a) (get_cmd a) p n (initialized a).
Definition set_initialized (a : adapter) b := Adapter (line_bufs a) (avail_queue a) (lines_queue a) (cur a) (cb_cmd a) (get_cmd a) (pending a) (pending_len a) b.

Definition get_adapter : M adapter adapter := λ a, (Ret a, a).
Definition change (f : adapter → adapter) : M adapter unit := λ a, (Ret (), f a).

(** ** Output *)

Definition EOF : Z := -1.

(** A byte as a value of type [char]. *)
Definition char_of (c : Z) : Z := if char_signed && (128 <=? c) then c - 256 else c.

(** The bytes [console_out] passes to the UART. *)
Fixpoint console_write (str : list Z) : list Z :=
  match str with
  | [] => []
  | c :: str => c :: (if char_of c =? EOF then [] else console_write str)
  end.

(** ** The interrupt handler *)

(** The buffer being filled, or the next free one; [None] without one. *)
Definition current_buffer : M adapter (option nat) :=
  a ← get_adapter;
  match cb_cmd a with
  | Some cmd => mret (Some cmd)
  | None =>
      let '(node, q) := sys_slist_get (avail_queue a) in
      change (λ a, set_cb_cmd (set_avail a q) node);;
      mret node
  end.

(** Copies to a place in the line of a buffer. *)
Definition store (cmd : nat) (o : Z) (d : list Z) : M adapter unit :=
  a ← get_adapter;
  match line_bufs a !! cmd with
  | Some b => if (o <? 0) || (zlen (li_line b) <? o + zlen d) then fault else
      change (λ a, set_bufs a (<[cmd := LineInput (li_len b) (splice (li_line b) o d)]> (line_bufs a)))
  | None => fault
  end.

(** Hands the buffer to the reader. *)
Definition finish (cmd : nat) : M adapter unit :=
  a ← get_adapter;
  match line_bufs a !! cmd with
  | Some b =>
      change (λ a, set_cb_cmd (set_cur (set_lines (set_bufs a (<[cmd := LineInput (cur a) (li_line b)]> (line_bufs a)))
                                                 (sys_slist_append (lines_queue a) cmd)) 0) None)
  | None => fault
  end.

(** The place of the first newline. *)
Fixpoint memchr_nl (p : list Z) : option Z :=
  match p with
  | [] => None
  | c :: p => if c =? 10 then Some 0 else (λ i, i + 1) <$> memchr_nl p
  end.

(** One round of the loop over a batch; it is left with [false] when there is no buffer.
    Sizes are 32 bits wide, [cur] is 16 bits wide. *)
Definition batch_step (p : list Z) : M adapter (list Z + bool) :=
  if zlen p =? 0 then mret (inr true) else
  cmd ← current_buffer;
  match cmd with
  | None => mret (inr false)
  | Some cmd =>
      a ← get_adapter;
      let nl := memchr_nl p in
      let chunk := match nl with Some i => i + 1 | None => zlen p end in
      let room := CONFIG_BOOT_MAX_LINE_INPUT_LEN ⊖ cur a in
      let copy_len := Z.min chunk room in
      store cmd (cur a) (slice p 0 copy_len);;
      change (λ a, set_cur a (u16 (cur a + copy_len)));;
      (match nl with Some _ => finish cmd | None => mret () end);;
      mret (inl (slice p chunk (zlen p - chunk)))
  end.

(** [reads] are the bytes the UART has for each call of [uart_fifo_read] in this interrupt;
    after them there are none. *)
Fixpoint read_lines (reads : list (list Z)) : M adapter unit :=
  match reads with
  | [] => mret ()
  | p :: reads =>
      if zlen p <=? 0 then mret () else
      ok ← loop (S (length p)) batch_step p;
      if ok : bool then read_lines reads else mret ()
  end.

(** The raw protocol reads byte by byte; [false] when there is no buffer. *)
Fixpoint read_raw (reads : list (list Z)) : M adapter bool :=
  match reads with
  | [byte] :: reads =>
      cmd ← current_buffer;
      match cmd with
      | None => mret false
      | Some cmd =>
          a ← get_adapter;
          store cmd (cur a) [byte];;
          change (λ a, set_cur a (u16 (cur a + 1)));;
          a ← get_adapter;
          (if CONFIG_BOOT_MAX_LINE_INPUT_LEN <=? cur a then finish cmd else mret ());;
          read_raw reads
      end
  | _ => mret true
  end.

Definition boot_uart_fifo_callback (rx_ready : bool) (reads : list (list Z)) : M adapter unit :=
  if negb rx_ready then mret () else
  if CONFIG_BOOT_SERIAL_RAW_PROTOCOL then
    ok ← read_raw reads;
    if negb ok then mret () else
    a ← get_adapter;
    match cb_cmd a with
    | Some cmd => if 0 <? cur a then finish cmd else mret ()
    | None => mret ()
    end
  else read_lines reads.

(** ** The reader *)

(** The line is named by its buffer. *)
Definition boot_uart_fifo_getline : M adapter (Z * option nat) :=
  a ← get_adapter;
  (match get_cmd a with
   | Some cmd => if bool_decide (sys_slist_peek_tail (avail_queue a) = Some cmd) then mret ()
                 else change (λ a, set_avail a (sys_slist_append (avail_queue a) cmd))
   | None => mret ()
   end);;
  let '(node, q) := sys_slist_get (lines_queue a) in
  change (λ a, set_get_cmd (set_lines a q) node);;
  match node with
  | None => mret (0, None)
  | Some cmd =>
      match line_bufs a !! cmd with
      | Some b => mret (li_len b, Some cmd)
      | None => fault
      end
  end.

(** Copies from the line of a buffer. *)
Definition load (cmd : nat) (o len : Z) : M adapter (list Z) :=
  a ← get_adapter;
  match line_bufs a !! cmd with
  | Some b => if (o <? 0) || (len <? 0) || (zlen (li_line b) <? o + len) then fault else mret (slice (li_line b) o len)
  | None => fault
  end.

(** The raw reader takes the next fragment when the last one is used up. *)
Definition raw_fetch : M adapter unit :=
  a ← get_adapter;
  if pending_len a =? 0 then
    '(len, line) ← boot_uart_fifo_getline;
    change (λ a, set_pending a ((λ cmd, (cmd, 0)) <$> line) len)
  else mret ().

(** The readers give what the caller's buffer is filled with.  The pointer is compared with
    [NULL] only after the next fragment was asked for. *)
Definition raw_copy (str_size : Z) : M adapter (Z * list Z * bool) :=
  a ← get_adapter;
  match pending a with
  | None => if pending_len a =? 0 then mret (0, [], false) else fault
  | Some (cmd, o) =>
      let n := Z.min (pending_len a) str_size in
      d ← load cmd o n;
      change (λ a, set_pending a (Some (cmd, o + n)) (pending_len a - n));;
      mret (n, d, true)
  end.

Definition console_read_raw (str_size : Z) : M adapter (Z * list Z * bool) :=
  raw_fetch;;
  raw_copy str_size.

Definition console_copy (str_size len : Z) (line : option nat) : M adapter (Z * list Z * bool) :=
  match line with
  | None => mret (0, [], false)
  | Some cmd =>
      let len := if str_size - 1 <? len then str_size - 1 else len in
      d ← load cmd 0 len;
      mret (len + 1, d ++ [0], true)
  end.

Definition console_read (str_size : Z) : M adapter (Z * list Z * bool) :=
  if CONFIG_BOOT_SERIAL_RAW_PROTOCOL then console_read_raw str_size else
  '(len, line) ← boot_uart_fifo_getline;
  console_copy str_size len line.

(** ** Start *)

(** The UART back end: [dev_ready] is whether the device is ready; draining its FIFO has
    no effect on the state. *)
Definition boot_uart_fifo_init (dev_ready : bool) : M adapter Z :=
  if negb dev_ready then mret (-1) else
  change (λ a, set_cur a 0);;
  mret 0.

Definition boot_console_init (dev_ready : bool) : M adapter Z :=
  a ← get_adapter;
  if initialized a then mret 0 else
  change (λ a, set_lines (set_avail a sys_slist_init) sys_slist_init);;
  change (λ a, set_avail a (fold_left sys_slist_append (seq 0 (length (line_bufs a))) (avail_queue a)));;
  rc ← boot_uart_fifo_init dev_ready;
  (if rc =? 0 then change (λ a, set_initialized a true) else mret ());;
  mret rc.

(** The memory of the module at the start of the program. *)
Definition adapter_start : adapter :=
  Adapter (replicate CONFIG_BOOT_LINE_BUFS (LineInput 0 (replicate (Z.to_nat CONFIG_BOOT_MAX_LINE_INPUT_LEN) 0)))
    sys_slist_init sys_slist_init 0 None None None 0 false.

End Adapter.
