(* ===== verification/SerialAdapterProps.v ===== *)
(** * The console delivers the lines it receives

    The buffers of serial_adapter.c against a console without memory: a line begun, the
    lines that wait, the line the loader reads and a count of free buffers.  Interrupts
    may come at any time, also between taking a line and copying it.  The second part is
    about the raw protocol. *)

From S2P Require Import Prelude Effects SerialFrame SerialAdapter.
From stdpp Require Import list.

#[local] Open Scope Z_scope.

#[local] Set Default Proof Using "Type*".

(** A list of the operating system holds the nodes in the order they were appended; a node
    must not be in the list when it is appended. *)
Class SysSlistOk `{SysSlist} := {
  slist_nodes : sys_slist_t → list nat;
  slist_init : slist_nodes sys_slist_init = [];
  slist_append q n : n ∉ slist_nodes q → slist_nodes (sys_slist_append q n) = slist_nodes q ++ [n];
  slist_get_nil q : slist_nodes q = [] → sys_slist_get q = (None, q);
  slist_get_cons q n l : slist_nodes q = n :: l → ∃ q', sys_slist_get q = (Some n, q') ∧ slist_nodes q' = l;
  slist_tail q : sys_slist_peek_tail q = last (slist_nodes q);
}.

Section AdapterProps.
  Context `{SysSlistOk} `{AdapterConfig}.
  Abbreviation MAX := CONFIG_BOOT_MAX_LINE_INPUT_LEN.
  Hypothesis Hmax : 0 < MAX < 65536.

(** ** The console without memory *)

Record console_spec := ConsoleSpec {
  sp_partial : option (list Z);
  sp_ready : list (list Z);
  sp_held : option (list Z);
  sp_free : nat;
}.

Definition spec_push (s : console_spec) (l : list Z) (c : Z) : console_spec :=
  let l := if zlen l <? MAX then l ++ [c] else l in
  if c =? 10 then ConsoleSpec None (sp_ready s ++ [l]) (sp_held s) (sp_free s)
  else ConsoleSpec (Some l) (sp_ready s) (sp_held s) (sp_free s).

(** A line begins with a free buffer. *)
Definition spec_begin (s : console_spec) : option console_spec :=
  match sp_partial s, sp_free s with
  | Some _, _ => Some s
  | None, S n => Some (ConsoleSpec (Some []) (sp_ready s) (sp_held s) n)
  | None, O => None
  end.

(** Without one the rest of a batch is lost, and the interrupt ends. *)
Fixpoint spec_batch (p : list Z) (s : console_spec) : console_spec * bool :=
  match p with
  | [] => (s, true)
  | c :: p =>
      match spec_begin s with
      | Some s => spec_batch p (spec_push s (default [] (sp_partial s)) c)
      | None => (s, false)
      end
  end.

Fixpoint spec_irq (reads : list (list Z)) (s : console_spec) : console_spec :=
  match reads with
  | [] => s
  | p :: reads => if zlen p <=? 0 then s else let '(s, ok) := spec_batch p s in if ok : bool then spec_irq reads s else s
  end.

Definition count {A} (o : option A) : nat := if o is Some _ then 1 else 0.

Definition spec_take (s : console_spec) : console_spec :=
  ConsoleSpec (sp_partial s) (tail (sp_ready s)) (head (sp_ready s)) (sp_free s + count (sp_held s)).

(** ** Ownership *)

Definition owned (a : adapter) : list nat :=
  slist_nodes (avail_queue a) ++ slist_nodes (lines_queue a) ++ option_list (cb_cmd a) ++ option_list (get_cmd a).

(** The buffer [i] begins with [l]. *)
Definition begins (bufs : list line_input) (i : nat) (l : list Z) : Prop :=
  ∃ b, bufs !! i = Some b ∧ slice (li_line b) 0 (zlen l) = l ∧ zlen l <= MAX.

Definition contains (bufs : list line_input) (i : nat) (l : list Z) : Prop :=
  ∃ b, bufs !! i = Some b ∧ slice (li_line b) 0 (zlen l) = l ∧ zlen l <= MAX ∧ li_len b = zlen l.

Record models (a : adapter) (s : console_spec) : Prop := {
  m_owned : NoDup (owned a) ∧ Forall (λ i, (i < length (line_bufs a))%nat) (owned a);
  m_size : Forall (λ b, zlen (li_line b) = MAX) (line_bufs a);
  m_free : sp_free s = length (slist_nodes (avail_queue a));
  m_ready : Forall2 (contains (line_bufs a)) (slist_nodes (lines_queue a)) (sp_ready s);
  m_partial : match cb_cmd a, sp_partial s with
              | Some i, Some l => cur a = zlen l ∧ begins (line_bufs a) i l
              | None, None => cur a = 0
              | _, _ => False
              end;
  m_held : match get_cmd a, sp_held s with
           | Some i, Some l => contains (line_bufs a) i l
           | None, None => True
           | _, _ => False
           end;
}.

(** A change of one buffer leaves the others. *)
Lemma contains_other bufs i j b l : i ≠ j → contains bufs i l → contains (<[j := b]> bufs) i l.
Proof. intros Hij (b' & Hb & Hl). exists b'. by rewrite list_lookup_insert_ne. Qed.

Lemma contains_all_other bufs j b ns ls : j ∉ ns → Forall2 (contains bufs) ns ls → Forall2 (contains (<[j := b]> bufs)) ns ls.
Proof.
  intros Hj Hf. induction Hf as [|i l ns ls Hi _ IH]; [by constructor|]. apply not_elem_of_cons in Hj as [Hne Hj].
  apply List.Forall2_cons; [|by apply IH]. by apply contains_other.
Qed.

Lemma owned_perm (P : nat → Prop) l l' : l ≡ₚ l' → NoDup l ∧ Forall P l → NoDup l' ∧ Forall P l'.
Proof using Type. intros Hp [Hn Hf]. by rewrite <- Hp. Qed.

Lemma wp_adapter {B} (k : adapter → M adapter B) Q C a : wp (k a) Q C a → wp (get_adapter ≫= k) Q C a.
Proof using Type. done. Qed.

Lemma wp_change {B} f (k : unit → M adapter B) Q C a : wp (k ()) Q C (f a) → wp (change f ≫= k) Q C a.
Proof using Type. done. Qed.

(** The handler gets a buffer, or there is none. *)
Lemma current_buffer_wp a s :
  models a s →
  wp current_buffer (λ r a', match spec_begin s with
                             | Some s' => models a' s' ∧ r = cb_cmd a' ∧ is_Some r
                             | None => models a' s ∧ r = None
                             end) (λ _, False) a.
Proof using All.
  intros Hm. pose proof Hm as [Hown Hsz Hfr Hrd Hp Hh]. unfold current_buffer. apply wp_adapter. unfold spec_begin.
  destruct (cb_cmd a) as [i|] eqn:Hcb, (sp_partial s) as [l|] eqn:Hsp; try done.
  destruct (slist_nodes (avail_queue a)) as [|n q] eqn:Hq; rewrite Hfr; cbn [length].
  - rewrite (slist_get_nil _ Hq). apply wp_change, wp_ret. split; [|done].
    replace (set_cb_cmd (set_avail a (avail_queue a)) None) with a; [done|]. destruct a. cbn in *. by subst.
  - destruct (slist_get_cons _ _ _ Hq) as (q' & -> & Hq'). apply wp_change, wp_ret. split; [|done]. unfold owned in Hown. rewrite Hq, Hcb in Hown.
    split; cbn [line_bufs avail_queue lines_queue cur cb_cmd get_cmd set_cb_cmd set_avail sp_free sp_partial sp_ready sp_held]; rewrite ?Hq'; try done.
    + unfold owned. cbn [avail_queue lines_queue cb_cmd get_cmd set_cb_cmd set_avail]. rewrite Hq'. revert Hown. apply owned_perm.
      cbn [option_list app]. solve_Permutation.
    + split; [done|]. destruct Hown as [_ [Hn _]%Forall_cons_1]. apply lookup_lt_is_Some_2 in Hn as [b Hb]. exists b. split; [done|]. split; [done|]. unfold zlen. cbn [length]. lia.
Qed.

(** The buffer of the handler belongs to nobody else. *)
Lemma cb_alone a i : NoDup (owned a) → cb_cmd a = Some i → (i ∉ slist_nodes (avail_queue a)) ∧ (i ∉ slist_nodes (lines_queue a)) ∧ get_cmd a ≠ Some i.
Proof.
  unfold owned. intros Hnd Hcb. rewrite Hcb in Hnd. apply NoDup_app in Hnd as (_ & Ha & Hnd). apply NoDup_app in Hnd as (_ & Hl & Hnd).
  cbn [option_list app] in *. apply NoDup_cons in Hnd as [Hg _]. split; [|split].
  - intros Hi. apply (Ha i Hi), elem_of_app. right. apply elem_of_cons. by left.
  - intros Hi. apply (Hl i Hi), elem_of_cons. by left.
  - intros E. rewrite E in Hg. apply Hg. cbn [option_list]. apply elem_of_cons. by left.
Qed.

(** Another value of the handler's buffer. *)
Lemma models_buffer a s i b n l :
  models a s → cb_cmd a = Some i → zlen (li_line b) = MAX → slice (li_line b) 0 (zlen l) = l → zlen l <= MAX → n = zlen l →
  models (set_cur (set_bufs a (<[i := b]> (line_bufs a))) n) (ConsoleSpec (Some l) (sp_ready s) (sp_held s) (sp_free s)).
Proof.
  intros [Hown Hsz Hfr Hrd Hp Hh] Hcb Hb Hl Hz ->. destruct (cb_alone a i (proj1 Hown) Hcb) as (_ & Hq & Hg).
  assert (Hi : (i < length (line_bufs a))%nat).
  { rewrite Hcb in Hp. destruct (sp_partial s); [|done]. destruct Hp as [_ (b' & Hb' & _)]. by eapply lookup_lt_Some. }
  split; cbn [line_bufs avail_queue lines_queue cur cb_cmd get_cmd set_cur set_bufs sp_free sp_partial sp_ready sp_held] in *; try done.
  - unfold owned in *. cbn [avail_queue lines_queue cb_cmd get_cmd set_cur set_bufs]. by rewrite length_insert.
  - by apply Forall_insert.
  - by apply contains_all_other.
  - rewrite Hcb. split; [done|]. exists b. by rewrite list_lookup_insert_eq.
  - destruct (get_cmd a) as [j|], (sp_held s); try done. apply contains_other; [congruence|done].
Qed.

Lemma store_wp {B} a s i l d n (k : unit → M adapter B) Q C :
  models a s → cb_cmd a = Some i → sp_partial s = Some l → n = zlen d → zlen l + zlen d <= MAX →
  (∀ a', models a' (ConsoleSpec (Some (l ++ d)) (sp_ready s) (sp_held s) (sp_free s)) → cb_cmd a' = Some i → wp (k ()) Q C a') →
  wp (store i (cur a) d;; change (λ a, set_cur a (u16 (cur a + n)));; k ()) Q C a.
Proof.
  intros Hm Hcb Hsp -> Hz Hk. pose proof Hm as [_ Hsz _ _ Hp _]. rewrite Hcb, Hsp in Hp. destruct Hp as (Hcur & b & Hb & Hl & Hlm).
  pose proof (zlen_nonneg l). pose proof (zlen_nonneg d). assert (Hbz : zlen (li_line b) = MAX) by (eapply (Forall_lookup_1 _ _ _ _ Hsz Hb)).
  apply wp_bind. unfold store. apply wp_adapter. rewrite Hb, Hcur, (proj2 (Z.ltb_ge _ _)), (proj2 (Z.ltb_ge _ _)) by lia.
  cbn [orb]. unfold change at 1, wp at 1. apply wp_change, Hk; [|done].
  cbn [cur set_bufs]. rewrite Hcur, u16_small by (unfold is_u16; lia). rewrite <- zlen_app.
  apply (models_buffer a s i (LineInput (li_len b) (splice (li_line b) (zlen l) d)) (zlen (l ++ d)) (l ++ d)); try done.
  - cbn [li_line]. by rewrite zlen_splice by lia.
  - cbn [li_line]. rewrite zlen_app, slice_app_split, slice_splice_disj by lia. rewrite Hl, Z.add_0_l, slice_splice_eq; [done|lia|lia|lia].
  - rewrite zlen_app. lia.
Qed.

(** A finished line joins the queue. *)
Lemma finish_wp a s i l :
  models a s → cb_cmd a = Some i → sp_partial s = Some l →
  wp (finish i) (λ _ a', models a' (ConsoleSpec None (sp_ready s ++ [l]) (sp_held s) (sp_free s))) (λ _, False) a.
Proof.
  intros Hm Hcb Hsp. pose proof Hm as [Hown Hsz Hfr Hrd Hp Hh]. rewrite Hcb, Hsp in Hp. destruct Hp as (Hcur & b & Hb & Hl & Hlm).
  destruct (cb_alone a i (proj1 Hown) Hcb) as (_ & Hq & Hg). assert (Hbz : zlen (li_line b) = MAX) by (eapply (Forall_lookup_1 _ _ _ _ Hsz Hb)).
  unfold finish. apply wp_adapter. rewrite Hb. unfold change, wp.
  split; unfold owned in *; cbn [line_bufs avail_queue lines_queue cur cb_cmd get_cmd set_cur set_bufs set_lines set_cb_cmd sp_free sp_partial sp_ready sp_held] in *; try done.
  - rewrite length_insert, slist_append by done. rewrite Hcb in Hown. revert Hown. apply owned_perm. cbn [option_list app]. solve_Permutation.
  - by apply Forall_insert.
  - rewrite slist_append by done. apply Forall2_app; [by apply contains_all_other|]. apply List.Forall2_cons; [|apply List.Forall2_nil].
    eexists. rewrite list_lookup_insert_eq by (by eapply lookup_lt_Some). split; [done|]. by split.
  - destruct (get_cmd a) as [j|], (sp_held s); try done. apply contains_other; [congruence|done].
Qed.

(** ** A batch of bytes *)

Definition sp_with (s : console_spec) (l : list Z) : console_spec := ConsoleSpec (Some l) (sp_ready s) (sp_held s) (sp_free s).

(** The line [l] after the bytes [q], cut at the size of the buffer. *)
Definition fill (l q : list Z) : list Z := fold_left (λ l c, if zlen l <? MAX then l ++ [c] else l) q l.

Lemma fill_eq l q : zlen l <= MAX → fill l q = l ++ slice q 0 (Z.min (zlen q) (MAX - zlen l)).
Proof.
  unfold fill. revert l. induction q as [|c q IH]; intros l Hl; cbn [fold_left].
  - unfold slice. rewrite drop_nil, take_nil. by rewrite app_nil_r.
  - rewrite zlen_cons. pose proof (zlen_nonneg q). destruct (zlen l <? MAX) eqn:E; zsimp.
    + rewrite IH by (rewrite zlen_app; change (zlen [c]) with 1; lia). rewrite zlen_app, <- app_assoc. change (zlen [c]) with 1. f_equal. cbn [app].
      unfold slice. cbn [drop Z.to_nat]. replace (Z.min (1 + zlen q) (MAX - zlen l)) with (Z.min (zlen q) (MAX - (zlen l + 1)) + 1) by lia.
      rewrite Z2Nat.inj_add by lia. change (Z.to_nat 1) with 1%nat. rewrite Nat.add_1_r. cbn [take]. by replace (1 + 0) with 1 by lia.
    + rewrite IH by done. f_equal. replace (MAX - zlen l) with 0 by lia. by rewrite !Z.min_r by lia.
Qed.

Lemma fill_len l q : zlen l <= MAX → zlen (fill l q) <= MAX.
Proof.
  unfold fill. revert l. induction q as [|c q IH]; intros l Hl; cbn [fold_left]; [done|]. apply IH. destruct (zlen l <? MAX) eqn:E; zsimp; [|done].
  rewrite zlen_app. change (zlen [c]) with 1. lia.
Qed.

Lemma memchr_nl_spec p :
  match memchr_nl p with
  | None => Forall (λ c, c ≠ 10) p
  | Some i => ∃ q r, p = q ++ 10 :: r ∧ zlen q = i ∧ Forall (λ c, c ≠ 10) q
  end.
Proof.
  induction p as [|c p IH]; cbn [memchr_nl]; [by constructor|]. destruct (c =? 10) eqn:E; zsimp.
  - subst. by exists [], p.
  - destruct (memchr_nl p) as [i|]; cbn [fmap option_fmap option_map]; [|by apply List.Forall_cons].
    destruct IH as (q & r & -> & Hi & Hq). exists (c :: q), r. split; [done|]. split; [rewrite zlen_cons; lia|by apply List.Forall_cons].
Qed.

Lemma spec_batch_run s l q r :
  Forall (λ c, c ≠ 10) q → sp_partial s = Some l → spec_batch (q ++ r) s = spec_batch r (sp_with s (fill l q)).
Proof.
  intros Hq. revert s l. induction Hq as [|c q Hc _ IH]; intros s l Hs; cbn [app].
  - destruct s. cbn in *. by subst.
  - cbn [spec_batch]. unfold spec_begin. rewrite Hs. cbn [default]. rewrite Hs. cbn [default]. unfold spec_push. rewrite (proj2 (Z.eqb_neq _ _) Hc).
    by rewrite (IH _ (if zlen l <? MAX then l ++ [c] else l)).
Qed.

Lemma spec_batch_begin s s1 p : p ≠ [] → spec_begin s = Some s1 → spec_batch p s = spec_batch p s1 ∧ ∃ l, sp_partial s1 = Some l.
Proof.
  intros Hp Hs. assert (Hl : ∃ l, sp_partial s1 = Some l).
  { unfold spec_begin in Hs. repeat case_match; simplify_eq; by eexists. }
  split; [|done]. destruct Hl as [l Hl]. destruct p as [|c p]; [done|]. cbn [spec_batch]. rewrite Hs.
  by replace (spec_begin s1) with (Some s1) by (unfold spec_begin; by rewrite Hl).
Qed.

Lemma spec_batch_line s l q r :
  Forall (λ c, c ≠ 10) q → sp_partial s = Some l →
  spec_batch (q ++ 10 :: r) s = spec_batch r (ConsoleSpec None (sp_ready s ++ [fill l (q ++ [10])]) (sp_held s) (sp_free s)).
Proof.
  intros Hq Hl. rewrite (spec_batch_run s l) by done. cbn [spec_batch]. unfold fill. by rewrite fold_left_app.
Qed.

Lemma copied_eq l p n : zlen l <= MAX → 0 <= n <= zlen p → l ++ slice p 0 (Z.min n (MAX - zlen l)) = fill l (slice p 0 n).
Proof.
  intros Hl Hn. rewrite fill_eq by done. rewrite zlen_slice by lia. f_equal. symmetry. apply slice_slice; lia.
Qed.

Lemma slice_upto {A} (q : list A) c r : slice (q ++ c :: r) 0 (zlen q + 1) = q ++ [c].
Proof using Type.
  unfold slice, zlen. rewrite cons_middle, app_assoc. apply take_app_length'. rewrite length_app. cbn [length]. lia.
Qed.

Lemma slice_past {A} (q : list A) c r : slice (q ++ c :: r) (zlen q + 1) (zlen (q ++ c :: r) - (zlen q + 1)) = r.
Proof using Type.
  unfold slice, zlen. rewrite length_app. cbn [length]. rewrite cons_middle, app_assoc, drop_app_length' by (rewrite length_app; cbn [length]; lia).
  apply take_ge. lia.
Qed.

Lemma batch_step_wp p a s :
  models a s → p ≠ [] →
  wp (batch_step p) (λ r a', match r with
                             | inl p' => ∃ s', models a' s' ∧ spec_batch p s = spec_batch p' s' ∧ zlen p' < zlen p
                             | inr ok => ok = false ∧ models a' s ∧ spec_batch p s = (s, false)
                             end) (λ _, False) a.
Proof.
  intros Hm Hp. assert (Hpz : 0 < zlen p) by (destruct p; [done|unfold zlen; cbn; lia]). unfold batch_step. rewrite (proj2 (Z.eqb_neq _ _)) by lia.
  wp_step current_buffer_wp; [done|]. intros r a1. destruct (spec_begin s) as [s1|] eqn:Hbg.
  2:{ intros [Hm1 ->]. apply wp_ret. split; [done|]. split; [done|]. destruct p; [done|]. cbn [spec_batch]. by rewrite Hbg. }
  intros (Hm1 & -> & i & Hi). rewrite Hi. destruct (spec_batch_begin s s1 p Hp Hbg) as [-> [l Hl]]. apply wp_adapter.
  pose proof (m_partial _ _ Hm1) as Hpar. rewrite Hi, Hl in Hpar. destruct Hpar as (Hcur & b & _ & _ & Hlm). pose proof (zlen_nonneg l).
  assert (Hroom : MAX ⊖ cur a1 = MAX - zlen l) by (rewrite Hcur; unfold_uint; lia). cbv zeta. rewrite Hroom.
  pose proof (memchr_nl_spec p) as Hnl. set (chunk := match memchr_nl p with Some i => i + 1 | None => zlen p end).
  assert (Hch : 0 < chunk <= zlen p).
  { unfold chunk. destruct (memchr_nl p); [|lia]. destruct Hnl as (q & r & -> & <- & _). rewrite zlen_app, zlen_cons. pose proof (zlen_nonneg q). pose proof (zlen_nonneg r). lia. }
  assert (Hcz : zlen (slice p 0 (Z.min chunk (MAX - zlen l))) = Z.min chunk (MAX - zlen l)) by (apply zlen_slice; lia).
  assert (Hrest : zlen (slice p chunk (zlen p - chunk)) < zlen p) by (rewrite zlen_slice; lia).
  apply (store_wp a1 s1 i l _ _ (λ _, (match memchr_nl p with Some _ => finish i | None => mret () end);; mret (inl _))); [done..|lia|lia|].
  intros a2. rewrite copied_eq by lia. intros Hm2 Hi2. destruct (memchr_nl p) as [j|].
  - destruct Hnl as (q & r & Hpq & Hj & Hq). wp_step finish_wp; [done..|]. intros [] a3 Hm3. apply wp_ret. eexists. split; [done|]. split; [|done].
    cbn [sp_ready sp_held sp_free]. subst chunk. rewrite Hpq. rewrite (spec_batch_line s1 l), <- Hj, slice_upto, slice_past; done.
  - apply wp_bind, wp_ret, wp_ret. eexists. split; [done|]. split; [|done]. subst chunk. rewrite slice_full, Z.sub_diag.
    rewrite <- (app_nil_r p) at 1. by rewrite (spec_batch_run s1 l).
Qed.

Lemma batch_wp n p a s :
  models a s → zlen p < Z.of_nat n →
  wp (loop n batch_step p) (λ ok a', models a' (spec_batch p s).1 ∧ ok = (spec_batch p s).2) (λ _, False) a.
Proof.
  revert p a s. induction n as [|n IH]; intros p a s Hm Hn; [pose proof (zlen_nonneg p); lia|]. cbn [loop].
  destruct (decide (p = [])) as [->|Hp]; [by apply wp_bind, wp_ret, wp_ret|].
  wp_step batch_step_wp; [done..|]. intros [p'|ok] a1.
  - intros (s1 & Hm1 & -> & Hlt). apply IH; [done|lia].
  - intros (-> & Hm1 & ->). by apply wp_ret.
Qed.

(** ** Interrupts and reads *)

Lemma callback_wp ready reads a s :
  CONFIG_BOOT_SERIAL_RAW_PROTOCOL = false → models a s →
  wp (boot_uart_fifo_callback ready reads) (λ _ a', models a' (if ready then spec_irq reads s else s)) (λ _, False) a.
Proof.
  intros Hraw Hm. unfold boot_uart_fifo_callback. destruct ready; cbn [negb]; [|by apply wp_ret]. rewrite Hraw. revert a s Hm.
  induction reads as [|p reads IH]; intros a s Hm; cbn [read_lines spec_irq]; [by apply wp_ret|]. case_if Hz; [by apply wp_ret|].
  apply wp_bind. eapply wp_mono; [apply (batch_wp (S (length p)) p a s Hm); unfold zlen; lia| |done].
  intros ok a1 [Hm1 ->]. destruct (spec_batch p s) as [s1 []]; [by apply IH|by apply wp_ret].
Qed.

Lemma get_alone a i : NoDup (owned a) → get_cmd a = Some i → i ∉ slist_nodes (avail_queue a).
Proof.
  unfold owned. intros Hnd Hg. rewrite Hg in Hnd. apply NoDup_app in Hnd as (_ & Ha & _). intros Hi. apply (Ha i Hi).
  rewrite !elem_of_app. right. right. cbn. apply elem_of_cons. by left.
Qed.

(** The buffer of the line read before is free again. *)
Definition recycled (a : adapter) : adapter :=
  match get_cmd a with Some i => set_avail a (sys_slist_append (avail_queue a) i) | None => a end.

Lemma slist_taken q n q' :
  sys_slist_get q = (n, q') → slist_nodes q = option_list n ++ slist_nodes q' ∧ (n = None → slist_nodes q' = []).
Proof.
  intros Hget. destruct (slist_nodes q) as [|i l] eqn:Hn.
  - rewrite (slist_get_nil _ Hn) in Hget. by injection Hget as <- <-.
  - destruct (slist_get_cons _ _ _ Hn) as (q1 & Hg & <-). rewrite Hg in Hget. by injection Hget as <- <-.
Qed.

Lemma models_take a s n q :
  models a s → sys_slist_get (lines_queue a) = (n, q) → models (set_get_cmd (set_lines (recycled a) q) n) (spec_take s).
Proof.
  intros [Hown Hsz Hfr Hrd Hp Hh] Hget. pose proof (get_alone a) as Hal. specialize (Hal) with (1 := proj1 Hown).
  assert (Hav : slist_nodes (avail_queue (recycled a)) = slist_nodes (avail_queue a) ++ option_list (get_cmd a)).
  { unfold recycled. destruct (get_cmd a) as [i|]; cbn [option_list avail_queue set_avail]; [by rewrite slist_append by auto|by rewrite app_nil_r]. }
  assert (Hsame : line_bufs (recycled a) = line_bufs a ∧ cur (recycled a) = cur a ∧ cb_cmd (recycled a) = cb_cmd a) by (unfold recycled; by destruct (get_cmd a)).
  destruct Hsame as (Hb & Hc & Hcb).
  destruct (slist_taken _ _ _ Hget) as [Hq Hempty]. unfold owned in Hown. rewrite Hq in Hown, Hrd.
  split; unfold owned; cbn [line_bufs avail_queue lines_queue cur cb_cmd get_cmd set_get_cmd set_lines spec_take sp_free sp_partial sp_ready sp_held]; rewrite ?Hb, ?Hc, ?Hcb, ?Hav; try done.
  - revert Hown. apply owned_perm. solve_Permutation.
  - rewrite length_app, Hfr. f_equal. by destruct (get_cmd a), (sp_held s).
  - destruct n as [i|]; [|rewrite Hempty in * by done]; cbn [option_list app] in Hrd; inversion Hrd; by subst.
  - destruct n as [i|]; [|rewrite Hempty in * by done]; cbn [option_list app] in Hrd; inversion Hrd; by subst.
Qed.

(** The next line is taken, and its buffer is held. *)
Lemma getline_wp a s :
  models a s →
  wp boot_uart_fifo_getline (λ '(len, line) a', models a' (spec_take s) ∧ line = get_cmd a' ∧ len = zlen (default [] (head (sp_ready s)))) (λ _, False) a.
Proof.
  intros Hm. unfold boot_uart_fifo_getline. apply wp_adapter.
  apply wp_bind. eapply (wp_mono _ (λ _ a', a' = recycled a) _ (λ _, False)); [| |done].
  { unfold recycled. destruct (get_cmd a) as [i|] eqn:Hg; [|by apply wp_ret]. rewrite bool_decide_eq_false_2; [done|].
    rewrite slist_tail. intros Hl. apply last_Some_elem_of in Hl. by apply (get_alone a i (proj1 (m_owned _ _ Hm)) Hg). }
  intros [] a1 ->. destruct (sys_slist_get (lines_queue a)) as [n q] eqn:Hget. pose proof (models_take a s n q Hm Hget) as Hm1. apply wp_change.
  destruct (slist_taken _ _ _ Hget) as [Hq Hempty]. pose proof (m_ready _ _ Hm) as Hrd. rewrite Hq in Hrd.
  destruct n as [i|]; cbn [option_list app] in Hrd.
  - inversion Hrd as [|? l ? ls (b & Hb & _ & _ & Hlen) _ E1 E2]; subst. rewrite Hb. apply wp_ret. split; [done|]. split; [done|]. exact Hlen.
  - rewrite Hempty in Hrd by done. inversion Hrd as [E1 E2|]. apply wp_ret. split; [done|]. split; [done|]. done.
Qed.

(** What a read of at most [n] bytes gives for a line. *)
Definition read_result (n : Z) (line : option (list Z)) : Z * list Z * bool :=
  match line with
  | Some l => let len := Z.min (zlen l) (n - 1) in (len + 1, slice l 0 len ++ [0], true)
  | None => (0, [], false)
  end.

Lemma spec_copy_wp n a s :
  1 <= n → models a s →
  wp (console_copy n (zlen (default [] (sp_held s))) (get_cmd a)) (λ r a', a' = a ∧ r = read_result n (sp_held s)) (λ _, False) a.
Proof.
  intros Hn Hm. pose proof (m_held _ _ Hm) as Hh. unfold console_copy. destruct (get_cmd a) as [i|], (sp_held s) as [l|]; try done.
  destruct Hh as (b & Hb & Hl & Hlm & _). change (default [] (Some l)) with l. unfold read_result. cbv zeta. pose proof (zlen_nonneg l).
  assert (Hbz : zlen (li_line b) = MAX) by (eapply (Forall_lookup_1 _ _ _ _ (m_size _ _ Hm) Hb)).
  replace (if n - 1 <? zlen l then n - 1 else zlen l) with (Z.min (zlen l) (n - 1)) by (case_if E; lia). set (len := Z.min _ _).
  apply wp_bind. unfold load. apply wp_adapter. rewrite Hb, (proj2 (Z.ltb_ge 0 0)), (proj2 (Z.ltb_ge len 0)), (proj2 (Z.ltb_ge _ _)) by lia.
  apply wp_ret, wp_ret. split; [done|]. cbn [orb]. do 3 f_equal. rewrite <- Hl at 1. rewrite slice_slice by lia. done.
Qed.

(** ** Any order of interrupts and reads *)

(** An interrupt: whether the UART has bytes, and what each read from it gives. *)
Definition interrupt : Type := bool * list (list Z).

(** A read may be interrupted between taking the line and copying it. *)
Inductive event := Irq (i : interrupt) | Read (n : Z) (meanwhile : list interrupt).

Fixpoint irqs (l : list interrupt) : M adapter unit :=
  match l with [] => mret () | (ready, reads) :: l => boot_uart_fifo_callback ready reads;; irqs l end.

Definition interrupted_read (n : Z) (meanwhile : list interrupt) : M adapter (Z * list Z * bool) :=
  '(len, line) ← boot_uart_fifo_getline;
  irqs meanwhile;;
  console_copy n len line.

Fixpoint events (l : list event) : M adapter (list (Z * list Z * bool)) :=
  match l with
  | [] => mret []
  | Irq (ready, reads) :: l => boot_uart_fifo_callback ready reads;; events l
  | Read n meanwhile :: l => r ← interrupted_read n meanwhile; rs ← events l; mret (r :: rs)
  end.

Lemma not_interrupted n a : CONFIG_BOOT_SERIAL_RAW_PROTOCOL = false → interrupted_read n [] a = console_read n a.
Proof. intros Hraw. unfold interrupted_read, console_read. rewrite Hraw. done. Qed.

Definition spec_irqs (l : list interrupt) (s : console_spec) : console_spec :=
  fold_left (λ s '(ready, reads), if ready : bool then spec_irq reads s else s) l s.

Fixpoint spec_events (l : list event) (s : console_spec) : list (Z * list Z * bool) :=
  match l with
  | [] => []
  | Irq i :: l => spec_events l (spec_irqs [i] s)
  | Read n meanwhile :: l => read_result n (head (sp_ready s)) :: spec_events l (spec_irqs meanwhile (spec_take s))
  end.

Definition reads_ok (l : list event) : Prop := Forall (λ e, match e with Read n _ => 1 <= n | Irq _ => True end) l.

(** An interrupt does not touch the line that is being read. *)
Lemma spec_batch_held p s : sp_held (spec_batch p s).1 = sp_held s.
Proof.
  revert s. induction p as [|c p IH]; intros s; cbn [spec_batch]; [done|]. destruct (spec_begin s) as [s1|] eqn:Hs; [|done].
  rewrite IH. unfold spec_begin in Hs. unfold spec_push. repeat case_match; simplify_eq; done.
Qed.

Lemma spec_irqs_held l s : sp_held (spec_irqs l s) = sp_held s.
Proof.
  unfold spec_irqs. revert s. induction l as [|[[] reads] l IH]; intros s; cbn [fold_left]; [done| |by apply IH]. rewrite IH. clear IH l.
  revert s. induction reads as [|p reads IH]; intros s; cbn [spec_irq]; [done|]. case_if Hz; [done|].
  pose proof (spec_batch_held p s) as Hp. destruct (spec_batch p s) as [s1 []]; [by rewrite IH|done].
Qed.

(** Nor does the handler use the variables of the reader. *)
Definition reader (a : adapter) : option nat * option (nat * Z) * Z := (get_cmd a, pending a, pending_len a).

Definition keeps {A} (c : M adapter A) : Prop := ∀ a, reader (c a).2 = reader a.

Lemma adapter_keeps_bind {A B} (c : M adapter A) (k : A → M adapter B) : keeps c → (∀ x, keeps (k x)) → keeps (c ≫= k).
Proof using Type. intros Hc Hk a. specialize (Hc a). unfold mbind, M_bind. destruct (c a) as [[x| | | |] a1]; cbn [snd] in *; try done. by rewrite Hk. Qed.

Lemma adapter_keeps_loop {S R} n (body : S → M adapter (S + R)) x : (∀ x, keeps (body x)) → keeps (loop n body x).
Proof using Type. intros Hb. revert x. induction n as [|n IH]; intros x; [done|]. cbn [loop]. apply adapter_keeps_bind; [done|]. by intros [y|r]. Qed.

Lemma callback_keeps ready reads : keeps (boot_uart_fifo_callback ready reads).
Proof using Type.
  assert (Hcb : keeps current_buffer).
  { intros a. unfold current_buffer, mbind, M_bind, get_adapter, change. destruct (cb_cmd a); [done|]. by destruct (sys_slist_get _). }
  assert (Hst : ∀ i o d, keeps (store i o d)) by (intros i o d a; unfold store, mbind, M_bind, get_adapter, change, fault; repeat case_match; simplify_eq; done).
  assert (Hfi : ∀ i, keeps (finish i)) by (intros i a; unfold finish, mbind, M_bind, get_adapter, change, fault; repeat case_match; simplify_eq; done).
  unfold boot_uart_fifo_callback. destruct ready; cbn [negb]; [|done]. destruct CONFIG_BOOT_SERIAL_RAW_PROTOCOL.
  - apply adapter_keeps_bind.
    + induction reads as [|[|c [|]] reads IH]; cbn [read_raw]; try done. apply adapter_keeps_bind; [done|]. intros [i|]; [|done].
      apply adapter_keeps_bind; [done|]. intros a. apply adapter_keeps_bind; [done|]. intros []. apply adapter_keeps_bind; [done|]. intros []. apply adapter_keeps_bind; [done|]. intros a'.
      apply adapter_keeps_bind; [|done]. by case_match.
    + intros ok. destruct (negb ok); [done|]. apply adapter_keeps_bind; [done|]. intros a. repeat case_match; done.
  - induction reads as [|p reads IH]; cbn [read_lines]; [done|]. case_match; [done|]. apply adapter_keeps_bind; [|by intros []].
    apply adapter_keeps_loop. intros q. unfold batch_step. case_match; [done|]. apply adapter_keeps_bind; [done|]. intros [i|]; [|done].
    apply adapter_keeps_bind; [done|]. intros a. apply adapter_keeps_bind; [done|]. intros []. apply adapter_keeps_bind; [done|]. intros []. apply adapter_keeps_bind; [|done]. by case_match.
Qed.

Lemma wp_keeps {A} (c : M adapter A) Q a : keeps c → wp c Q (λ _, False) a → wp c (λ r a', Q r a' ∧ reader a' = reader a) (λ _, False) a.
Proof using Type. intros Hk. specialize (Hk a). unfold wp. by destruct (c a) as [[] ?]. Qed.

Lemma irqs_wp l a s :
  CONFIG_BOOT_SERIAL_RAW_PROTOCOL = false → models a s →
  wp (irqs l) (λ _ a', models a' (spec_irqs l s) ∧ reader a' = reader a) (λ _, False) a.
Proof.
  intros Hraw. revert a s. induction l as [|[ready reads] l IH]; intros a s Hm; cbn [irqs]; [by apply wp_ret|].
  apply wp_bind. eapply wp_mono; [apply wp_keeps; [apply callback_keeps|by apply callback_wp]| |done].
  intros [] a1 [Hm1 <-]. by apply IH.
Qed.

Lemma events_wp l a s :
  CONFIG_BOOT_SERIAL_RAW_PROTOCOL = false → models a s → reads_ok l → wp (events l) (λ rs _, rs = spec_events l s) (λ _, False) a.
Proof.
  intros Hraw Hm Hl. revert a s Hm. induction Hl as [|[[ready reads]|n l'] l He _ IH]; intros a s Hm; cbn [events spec_events]; [by apply wp_ret| |].
  - wp_step callback_wp; [done..|]. intros [] a1 Hm1. by apply IH.
  - apply wp_bind. unfold interrupted_read. wp_step getline_wp; [done|]. intros [len line] a1 (Hm1 & -> & ->). apply wp_bind.
    eapply wp_mono; [by apply irqs_wp| |done]. intros [] a2 [Hm2 Hrd]. injection Hrd as <- _ _.
    pose proof (spec_copy_wp n a2 _ He Hm2) as Hc. rewrite spec_irqs_held in Hc. cbn [sp_held spec_take] in Hc.
    eapply wp_mono; [exact Hc| |done]. intros r a3 [-> ->]. apply wp_bind. eapply wp_mono; [by apply IH| |done]. intros rs a4 ->. by apply wp_ret.
Qed.

(** ** From the start *)

Lemma append_all q (n m : nat) :
  slist_nodes q = seq 0 n → slist_nodes (fold_left sys_slist_append (seq n m) q) = seq 0 (n + m).
Proof.
  revert q n. induction m as [|m IH]; intros q n Hq; cbn [seq fold_left]; [by rewrite Nat.add_0_r|].
  replace (n + S m)%nat with (S n + m)%nat by lia. apply IH. rewrite slist_append, Hq by (rewrite Hq, elem_of_seq; lia).
  by rewrite seq_S.
Qed.

Definition spec_start : console_spec := ConsoleSpec None [] None CONFIG_BOOT_LINE_BUFS.

Lemma init_wp : wp (boot_console_init true) (λ rc a, rc = 0 ∧ models a spec_start ∧ reader a = (None, None, 0)) (λ _, False) adapter_start.
Proof.
  unfold boot_console_init. apply wp_adapter. cbn [initialized adapter_start]. apply wp_change, wp_change.
  cbn [boot_uart_fifo_init negb]. do 2 apply wp_bind. apply wp_change, wp_ret. split; [done|]. split; [|done].
  assert (Hn : slist_nodes (fold_left sys_slist_append (seq 0 CONFIG_BOOT_LINE_BUFS) sys_slist_init) = seq 0 CONFIG_BOOT_LINE_BUFS)
    by (apply (append_all _ 0); apply slist_init).
  split; unfold owned; cbn [line_bufs avail_queue lines_queue cur cb_cmd get_cmd set_cur set_lines set_avail set_initialized adapter_start spec_start sp_free sp_partial sp_ready sp_held option_list];
    rewrite ?length_replicate, ?Hn, ?slist_init; try done.
  - cbn [app]. rewrite app_nil_r. split; [apply NoDup_seq|]. apply Forall_seq. intros j Hj. lia.
  - apply Forall_replicate. cbn [li_line]. unfold zlen. rewrite length_replicate. lia.
  - by rewrite length_seq.
Qed.

(** C18: The console against one without memory, for any interrupts, any batches of bytes and
    reads of at least one byte, in any order, also with interrupts while a line is copied:
    the results of all reads are those of a queue of lines, each cut at the size of a
    buffer, that loses the rest of a batch exactly when a line begins and no buffer is
    free.  No access is outside of a buffer, and no buffer is in two places at once. *)
Theorem adapter_refines evs :
  CONFIG_BOOT_SERIAL_RAW_PROTOCOL = false → reads_ok evs →
  wp (boot_console_init true;; events evs) (λ rs _, rs = spec_events evs spec_start) (λ _, False) adapter_start.
Proof using All.
  intros Hraw Hl. apply wp_bind. eapply wp_mono; [apply init_wp| |done]. intros rc a (_ & Hm & _). by apply events_wp.
Qed.

(** ** Nothing is lost *)

(** The bytes of an interrupt. *)
Fixpoint received (reads : list (list Z)) : list Z :=
  match reads with [] => [] | p :: reads => if zlen p <=? 0 then [] else p ++ received reads end.

Definition irq_bytes (i : interrupt) : list Z := if i.1 then received i.2 else [].

Definition newlines (l : list Z) : nat := length (filter (λ c, c = 10) l).

(** The lines of the bytes received, in a queue without bounds. *)
Definition arrive (st : list Z * list (list Z)) (l : list interrupt) : list Z * list (list Z) :=
  let '(ls, r) := split_lines MAX st.1 (concat (irq_bytes <$> l)) in (r, st.2 ++ ls).

Fixpoint ideal (evs : list event) (st : list Z * list (list Z)) : list (Z * list Z * bool) :=
  match evs with
  | [] => []
  | Irq i :: evs => ideal evs (arrive st [i])
  | Read n meanwhile :: evs => read_result n (head st.2) :: ideal evs (arrive (st.1, tail st.2) meanwhile)
  end.

(** The loader keeps up: with [w] lines waiting, those that arrive leave a buffer for the
    line that is being read and one for the line that begins. *)
Fixpoint paced (evs : list event) (w : nat) : Prop :=
  match evs with
  | [] => True
  | Irq i :: evs => let w := (w + newlines (irq_bytes i))%nat in (w + 2 <= CONFIG_BOOT_LINE_BUFS)%nat ∧ paced evs w
  | Read _ l :: evs =>
      let w := (pred w + newlines (concat (irq_bytes <$> l)))%nat in (w + 2 <= CONFIG_BOOT_LINE_BUFS)%nat ∧ paced evs w
  end.

(** All buffers are accounted for. *)
Record keeps_up (s : console_spec) (st : list Z * list (list Z)) : Prop := {
  ku_partial : default [] (sp_partial s) = st.1;
  ku_ready : sp_ready s = st.2;
  ku_count : (sp_free s + count (sp_partial s) + length (sp_ready s) + count (sp_held s) = CONFIG_BOOT_LINE_BUFS)%nat;
}.

Lemma begin_keeps_up s st :
  keeps_up s st → (length (sp_ready s) + 2 <= CONFIG_BOOT_LINE_BUFS)%nat →
  ∃ s1, spec_begin s = Some s1 ∧ keeps_up s1 st ∧ sp_partial s1 = Some st.1 ∧ sp_ready s1 = sp_ready s.
Proof using Type.
  intros [Hp Hr Hc] Hn. unfold spec_begin. destruct (sp_partial s) as [l|] eqn:Hs; cbn [count] in Hc.
  - exists s. rewrite Hs. cbn in Hp. subst. split; [done|]. split; [|done]. split; rewrite ?Hs; done.
  - destruct (sp_free s) as [|n]; [destruct (sp_held s); cbn [count] in Hc; lia|]. eexists. split; [done|]. cbn in Hp.
    split; [|by rewrite <- Hp]. split; cbn [sp_partial sp_ready sp_held sp_free count]; [done|done|lia].
Qed.

Lemma batch_keeps_up p s st :
  keeps_up s st → (length (sp_ready s) + newlines p + 2 <= CONFIG_BOOT_LINE_BUFS)%nat →
  ∃ s', spec_batch p s = (s', true) ∧
    keeps_up s' ((split_lines MAX st.1 p).2, st.2 ++ (split_lines MAX st.1 p).1) ∧ length (sp_ready s') = (length (sp_ready s) + newlines p)%nat.
Proof using Type.
  unfold newlines. revert s st. induction p as [|c p IH]; intros s st Hk Hn; cbn [spec_batch split_lines].
  { exists s. split; [done|]. cbn [fst snd]. rewrite app_nil_r. split; [by destruct st|]. cbn. lia. }
  rewrite filter_cons in Hn |- *. destruct (begin_keeps_up s st Hk) as (s1 & -> & Hk1 & Hp1 & Hr1); [case_decide; cbn [length] in Hn; lia|].
  rewrite Hp1. change (default [] (Some st.1)) with st.1. unfold spec_push. set (l := if zlen st.1 <? MAX then st.1 ++ [c] else st.1).
  destruct Hk1 as [_ Hr Hc]. rewrite Hp1 in Hc. cbn [count] in Hc. destruct (c =? 10) eqn:E; zsimp.
  - subst c. rewrite decide_True in Hn |- * by done. cbn [length] in Hn.
    destruct (IH (ConsoleSpec None (sp_ready s1 ++ [l]) (sp_held s1) (sp_free s1)) ([], st.2 ++ [l])) as (s' & Hb & Hk' & Hz).
    + split; cbn [sp_partial sp_ready sp_held sp_free count]; [done|by rewrite Hr|]. rewrite length_app. cbn [length]. lia.
    + cbn [sp_ready]. rewrite length_app, Hr1. cbn [length]. lia.
    + exists s'. split; [done|]. cbn [fst snd] in Hk'. destruct (split_lines MAX [] p) as [ls r]. cbn [fst snd] in *. rewrite <- app_assoc in Hk'. split; [done|].
      rewrite Hz. cbn [sp_ready]. rewrite length_app, Hr1. cbn [length]. lia.
  - rewrite decide_False in Hn |- * by done.
    destruct (IH (ConsoleSpec (Some l) (sp_ready s1) (sp_held s1) (sp_free s1)) (l, st.2)) as (s' & Hb & Hk' & Hz).
    + by split.
    + cbn [sp_ready]. by rewrite Hr1.
    + exists s'. split; [done|]. split; [done|]. rewrite Hz. cbn [sp_ready]. by rewrite Hr1.
Qed.

Lemma split_lines_app cur0 p q :
  split_lines MAX cur0 (p ++ q) =
    ((split_lines MAX cur0 p).1 ++ (split_lines MAX (split_lines MAX cur0 p).2 q).1, (split_lines MAX (split_lines MAX cur0 p).2 q).2).
Proof using Type.
  revert cur0. induction p as [|c p IH]; intros cur0; cbn [app split_lines]; [cbn [fst snd app]; by destruct (split_lines MAX cur0 q)|].
  destruct (c =? 10); [|by rewrite IH]. rewrite IH. by destruct (split_lines MAX [] p) as [ls r].
Qed.

Lemma newlines_app p q : newlines (p ++ q) = (newlines p + newlines q)%nat.
Proof using Type. unfold newlines. by rewrite filter_app, length_app. Qed.

Lemma irq_keeps_up reads s st :
  keeps_up s st → (length (sp_ready s) + newlines (received reads) + 2 <= CONFIG_BOOT_LINE_BUFS)%nat →
  let '(ls, r) := split_lines MAX st.1 (received reads) in
  keeps_up (spec_irq reads s) (r, st.2 ++ ls) ∧ length (sp_ready (spec_irq reads s)) = (length (sp_ready s) + newlines (received reads))%nat.
Proof using Type.
  revert s st. induction reads as [|p reads IH]; intros s st Hk Hn; cbn [received spec_irq] in *.
  { cbn [split_lines]. rewrite app_nil_r. split; [by destruct st|unfold newlines; cbn; lia]. }
  case_if Hz. { cbn [split_lines]. rewrite app_nil_r. split; [by destruct st|unfold newlines; cbn; lia]. }
  rewrite newlines_app in *. destruct (batch_keeps_up p s st Hk) as (s1 & -> & Hk1 & Hz1); [lia|]. specialize (IH _ _ Hk1). rewrite Hz1 in IH. cbn [fst snd] in IH.
  rewrite split_lines_app. destruct (split_lines MAX (split_lines MAX st.1 p).2 (received reads)) as [ls r]. cbn [fst snd].
  rewrite app_assoc. destruct IH as [Hk2 Hz2]; [lia|]. split; [done|lia].
Qed.

Lemma irqs_keep_up l s st :
  keeps_up s st → (length (sp_ready s) + newlines (concat (irq_bytes <$> l)) + 2 <= CONFIG_BOOT_LINE_BUFS)%nat →
  keeps_up (spec_irqs l s) (arrive st l) ∧ length (sp_ready (spec_irqs l s)) = (length (sp_ready s) + newlines (concat (irq_bytes <$> l)))%nat.
Proof using Type.
  unfold arrive, spec_irqs. revert s st. induction l as [|[ready reads] l IH]; intros s st Hk Hn; cbn [fmap list_fmap concat fold_left] in *.
  { cbn [split_lines]. rewrite app_nil_r. split; [by destruct st|unfold newlines; cbn; lia]. }
  rewrite newlines_app in *. rewrite split_lines_app. destruct ready.
  - change (irq_bytes (true, reads)) with (received reads) in *. pose proof (irq_keeps_up reads s st Hk) as Hi.
    destruct (split_lines MAX st.1 (received reads)) as [ls r]. destruct Hi as [Hk1 Hz1]; [lia|]. destruct (IH _ _ Hk1) as [Hk2 Hz2]; [lia|]. cbn [fst snd] in *.
    destruct (split_lines MAX r _) as [ls' r']. cbn [fst snd]. rewrite app_assoc. split; [done|]. rewrite Hz2. lia.
  - change (irq_bytes (false, reads)) with (@nil Z) in *. destruct (IH s st Hk) as [Hk2 Hz2]; [unfold newlines in Hn at 1; cbn in Hn; lia|].
    cbn [split_lines fst snd app]. destruct (split_lines MAX st.1 _) as [ls' r']. split; [done|]. rewrite Hz2. done.
Qed.

Lemma ideal_events evs s st : keeps_up s st → paced evs (length (sp_ready s)) → spec_events evs s = ideal evs st.
Proof using Type.
  revert s st. induction evs as [|[i|n l] evs IH]; intros s st Hk Hp; cbn [spec_events ideal paced] in *; [done| |]; destruct Hp as [Hn Hp].
  - assert (Hc : concat (irq_bytes <$> [i]) = irq_bytes i) by (cbn; by rewrite app_nil_r).
    destruct (irqs_keep_up [i] s st Hk) as [Hk1 Hz1]; rewrite Hc in *; [lia|]. apply IH; [done|by rewrite Hz1].
  - pose proof Hk as [Hpa Hr Hcn]. assert (Hk1 : keeps_up (spec_take s) (st.1, tail st.2)).
    { split; cbn [spec_take sp_partial sp_ready sp_held sp_free]; [done|by rewrite Hr|]. destruct (sp_ready s); cbn [count head tail length] in *; lia. }
    assert (Hl1 : length (sp_ready (spec_take s)) = pred (length (sp_ready s))) by (cbn [spec_take sp_ready]; by destruct (sp_ready s)).
    rewrite Hr. f_equal. destruct (irqs_keep_up l _ _ Hk1) as [Hk2 Hz2]; [rewrite Hl1; lia|]. rewrite Hl1 in Hz2. apply IH; [done|by rewrite Hz2].
Qed.

(** C15: While the loader keeps up with the line, nothing is lost, repeated or reordered:
    whatever the batches in which the bytes arrive, and whenever the loader reads, each
    read gives the next line of the stream, as a division of the stream at its newlines
    defines them, or nothing if that line is not complete. *)
Theorem lines_delivered evs :
  CONFIG_BOOT_SERIAL_RAW_PROTOCOL = false → reads_ok evs → paced evs 0 →
  wp (boot_console_init true;; events evs) (λ rs _, rs = ideal evs ([], [])) (λ _, False) adapter_start.
Proof using All.
  intros Hraw Hl Hp. apply wp_bind. eapply wp_mono; [apply init_wp| |done]. intros rc a (_ & Hm & _).
  eapply wp_mono; [by apply events_wp| |done]. intros rs a' ->. apply ideal_events; [|done]. split; [done|done|]. cbn. lia.
Qed.

(** ** Output *)

(** A byte that is [EOF] as a [char] ends the output. *)
Lemma char_eof c : is_u8 c → (char_of c =? EOF) = char_signed && (c =? 255).
Proof using Type.
  unfold is_u8, char_of, EOF. intros Hc. destruct char_signed; cbn [andb]; [|apply Z.eqb_neq; lia].
  destruct (128 <=? c) eqn:E, (c =? 255) eqn:E'; zsimp; first [apply Z.eqb_eq; lia | apply Z.eqb_neq; lia].
Qed.

Lemma console_write_all l : Forall is_u8 l → char_signed = false ∨ Forall (λ c, c ≠ 255) l → console_write l = l.
Proof using Type.
  intros Hl Hs. induction Hl as [|c l Hc _ IH]; [done|]. cbn [console_write]. rewrite char_eof by done.
  destruct Hs as [Hs|Hs]; [rewrite Hs in *; cbn [andb]; by rewrite IH by auto|].
  apply Forall_cons_1 in Hs as [Hn Hs]. rewrite (proj2 (Z.eqb_neq _ _) Hn), andb_false_r. by rewrite IH by auto.
Qed.

Lemma console_write_cut l r :
  char_signed = true → Forall is_u8 l → Forall (λ c, c ≠ 255) l → console_write (l ++ 255 :: r) = l ++ [255].
Proof using Type.
  intros Hs Hl. induction Hl as [|c l Hc _ IH]; intros Hn; cbn [app console_write].
  - rewrite char_eof by (unfold is_u8; lia). by rewrite Hs.
  - apply Forall_cons_1 in Hn as [Hn Hr]. rewrite char_eof, (proj2 (Z.eqb_neq _ _) Hn), andb_false_r by done. by rewrite IH.
Qed.

End AdapterProps.

(** * The console with the raw protocol

    Fragments instead of lines: the bytes the loader reads are the bytes received, in
    their order, however they are cut by interrupts, by the size of the buffers and by
    the sizes of the reads. *)

Section Raw.
  Context `{SysSlistOk} `{AdapterConfig}.
  Abbreviation MAX := CONFIG_BOOT_MAX_LINE_INPUT_LEN.
  Hypothesis Hmax : 0 < MAX < 65536.
  Hypothesis Hraw : CONFIG_BOOT_SERIAL_RAW_PROTOCOL = true.

(** ** The console without memory *)

Definition spec_flush (s : console_spec) : console_spec :=
  match sp_partial s with
  | Some l => if 0 <? zlen l then ConsoleSpec None (sp_ready s ++ [l]) (sp_held s) (sp_free s) else s
  | None => s
  end.

Definition raw_push (s : console_spec) (l : list Z) (c : Z) : console_spec :=
  let s := sp_with s (l ++ [c]) in if MAX <=? zlen (l ++ [c]) then spec_flush s else s.

(** The bytes up to the first one without a buffer. *)
Fixpoint raw_bytes (reads : list (list Z)) (s : console_spec) : console_spec * list Z * bool :=
  match reads with
  | [c] :: reads =>
      match spec_begin s with
      | Some s => let '(s, l, ok) := raw_bytes reads (raw_push s (default [] (sp_partial s)) c) in (s, c :: l, ok)
      | None => (s, [], false)
      end
  | _ => (s, [], true)
  end.

Definition raw_irq (i : interrupt) (s : console_spec) : console_spec * list Z :=
  if i.1 then let '(s, l, ok) := raw_bytes i.2 s in (if ok : bool then spec_flush s else s, l) else (s, []).

Fixpoint raw_irqs (l : list interrupt) (s : console_spec) : console_spec * list Z :=
  match l with
  | [] => (s, [])
  | i :: l => let '(s, b) := raw_irq i s in let '(s, b') := raw_irqs l s in (s, b ++ b')
  end.

(** The bytes in the console that the loader has not taken. *)
Definition outstanding (s : console_spec) : list Z := concat (sp_ready s) ++ default [] (sp_partial s).

Lemma begin_outstanding s s1 : spec_begin s = Some s1 → outstanding s1 = outstanding s ∧ is_Some (sp_partial s1).
Proof using Type. unfold spec_begin, outstanding. intros Hs. destruct (sp_partial s) eqn:Hp; [|destruct (sp_free s)]; simplify_eq; cbn; rewrite ?Hp; split; try done; by eexists. Qed.

Lemma flush_outstanding s : outstanding (spec_flush s) = outstanding s.
Proof using Type. unfold spec_flush, outstanding. destruct (sp_partial s) as [l|] eqn:Hs; [|by rewrite Hs]. destruct (0 <? zlen l); cbn; [|by rewrite Hs]. rewrite concat_app. cbn. by rewrite !app_nil_r. Qed.

Lemma push_outstanding s l c : sp_partial s = Some l → outstanding (raw_push s l c) = outstanding s ++ [c].
Proof using Type.
  intros Hs. unfold raw_push. case_match; rewrite ?flush_outstanding; unfold outstanding, sp_with; cbn; rewrite Hs; cbn; by rewrite app_assoc.
Qed.

Lemma bytes_outstanding reads s : let '(s', l, _) := raw_bytes reads s in outstanding s' = outstanding s ++ l.
Proof using Type.
  revert s. induction reads as [|[|c [|]] reads IH]; intros s; cbn [raw_bytes]; rewrite ?app_nil_r; try done.
  destruct (spec_begin s) as [s1|] eqn:Hs; [|by rewrite app_nil_r]. destruct (begin_outstanding s s1 Hs) as [Ho [l Hl]].
  specialize (IH (raw_push s1 (default [] (sp_partial s1)) c)). destruct (raw_bytes _ _) as [[s' b] ok].
  rewrite IH, Hl. change (default [] (Some l)) with l. rewrite (push_outstanding s1 l c Hl), Ho. by rewrite <- app_assoc.
Qed.

Lemma irqs_outstanding l s : let '(s', b) := raw_irqs l s in outstanding s' = outstanding s ++ b.
Proof using Type.
  revert s. induction l as [|[ready reads] l IH]; intros s; cbn [raw_irqs]; [by rewrite app_nil_r|]. unfold raw_irq. cbn [fst snd]. destruct ready.
  - pose proof (bytes_outstanding reads s) as Hb. destruct (raw_bytes reads s) as [[s1 b] ok].
    assert (Ho : outstanding (if ok : bool then spec_flush s1 else s1) = outstanding s ++ b) by (destruct ok; by rewrite ?flush_outstanding).
    specialize (IH (if ok : bool then spec_flush s1 else s1)). destruct (raw_irqs l _) as [s2 b']. by rewrite IH, Ho, <- app_assoc.
  - specialize (IH s). by destruct (raw_irqs l s).
Qed.

(** ** The handler *)

(** A fragment begun has a byte, and room for one. *)
Definition has_room (s : console_spec) : Prop := match sp_partial s with Some l => 0 < zlen l < MAX | None => True end.

Lemma flush_wp a s i l :
  models a s → cb_cmd a = Some i → sp_partial s = Some l → 0 < zlen l →
  wp (finish i) (λ _ a', models a' (spec_flush s)) (λ _, False) a.
Proof using Hmax.
  intros Hm Hi Hl Hz. unfold spec_flush. rewrite Hl, (proj2 (Z.ltb_lt _ _)) by lia. by apply (finish_wp Hmax).
Qed.

Lemma read_raw_wp reads a s :
  models a s → has_room s →
  wp (read_raw reads) (λ ok a', let '(s', _, ok') := raw_bytes reads s in models a' s' ∧ ok = ok' ∧ has_room s' ∧ (ok = false → sp_partial s' = None)) (λ _, False) a.
Proof using Hmax.
  revert a s. induction reads as [|[|c [|]] reads IH]; intros a s Hm Hr; cbn [read_raw raw_bytes]; try (by apply wp_ret).
  wp_step (current_buffer_wp Hmax); [done|]. intros r a1. destruct (spec_begin s) as [s1|] eqn:Hs.
  2:{ intros [Hm1 ->]. apply wp_ret. split; [done|]. split; [done|]. split; [done|]. intros _. unfold spec_begin in Hs. repeat case_match; simplify_eq; done. }
  intros (Hm1 & -> & i & Hi). rewrite Hi. destruct (begin_outstanding s s1 Hs) as [_ [l Hl]]. rewrite Hl. change (default [] (Some l)) with l.
  assert (Hlr : zlen l < MAX).
  { unfold spec_begin in Hs. unfold has_room in Hr. destruct (sp_partial s) eqn:Hp; [|destruct (sp_free s)]; simplify_eq; [lia|]. cbn in Hl. simplify_eq. unfold zlen. cbn. lia. }
  apply wp_adapter. pose proof (zlen_nonneg l). assert (Hz1 : zlen (l ++ [c]) = zlen l + 1) by (by rewrite zlen_app).
  apply (store_wp Hmax a1 s1 i l [c] 1 (λ _, a ← get_adapter; (if MAX <=? cur a then finish i else mret ());; read_raw reads)); try done.
  { change (zlen [c]) with 1. lia. }
  intros a2 Hm2 Hi2. apply wp_adapter. pose proof (m_partial _ _ Hm2) as Hp. rewrite Hi2 in Hp. cbn [sp_partial] in Hp. destruct Hp as [Hcur _]. rewrite Hcur.
  specialize (IH) with (s := raw_push s1 l c). destruct (raw_bytes reads (raw_push s1 l c)) as [[s' b] ok]. unfold raw_push in IH. fold (sp_with s1 (l ++ [c])) in Hm2.
  destruct (MAX <=? zlen (l ++ [c])) eqn:Hfull; zsimp.
  - apply wp_bind. eapply wp_mono; [apply (flush_wp a2 _ i (l ++ [c]) Hm2); [done|done|lia]| |done]. intros [] a3 Hm3. apply IH; [done|].
    unfold has_room, spec_flush, sp_with. cbn [sp_partial]. by rewrite (proj2 (Z.ltb_lt _ _)) by lia.
  - apply wp_bind, wp_ret. apply IH; [done|]. unfold has_room, sp_with. cbn [sp_partial]. lia.
Qed.

Lemma raw_callback_wp i a s :
  models a s → sp_partial s = None →
  wp (boot_uart_fifo_callback i.1 i.2) (λ _ a', models a' (raw_irq i s).1 ∧ sp_partial (raw_irq i s).1 = None) (λ _, False) a.
Proof using Hmax Hraw.
  intros Hm Hs. destruct i as [ready reads]. unfold boot_uart_fifo_callback, raw_irq. cbn [fst snd]. destruct ready; cbn [negb]; [|by apply wp_ret]. rewrite Hraw.
  apply wp_bind. eapply wp_mono; [apply read_raw_wp; [done|unfold has_room; by rewrite Hs]| |done].
  intros ok a1. destruct (raw_bytes reads s) as [[s1 b] ok'] eqn:Hb. intros (Hm1 & -> & Hr & Hf). cbn [fst]. destruct ok'; cbn [negb]; [|apply wp_ret; auto].
  apply wp_adapter. pose proof (m_partial _ _ Hm1) as Hp. unfold has_room in Hr.
  destruct (cb_cmd a1) as [j|] eqn:Hj, (sp_partial s1) as [l|] eqn:Hl; try done.
  - destruct Hp as [Hcur _]. rewrite Hcur, (proj2 (Z.ltb_lt _ _)) by lia. eapply wp_mono; [by apply (flush_wp a1 s1 j l); [..|lia]| |done].
    intros [] a2 Hm2. split; [done|]. unfold spec_flush. by rewrite Hl, (proj2 (Z.ltb_lt _ _)) by lia.
  - apply wp_ret. unfold spec_flush. by rewrite Hl.
Qed.

Lemma bytes_held reads s : sp_held (raw_bytes reads s).1.1 = sp_held s.
Proof using Type.
  revert s. induction reads as [|[|c [|]] reads IH]; intros s; cbn [raw_bytes]; try done. destruct (spec_begin s) as [s1|] eqn:Hs; [|done].
  specialize (IH (raw_push s1 (default [] (sp_partial s1)) c)). destruct (raw_bytes _ _) as [[s' b] ok]. cbn [fst] in *. rewrite IH.
  unfold raw_push, spec_flush, sp_with. unfold spec_begin in Hs. repeat case_match; simplify_eq; done.
Qed.

Lemma irq_held i s : sp_held (raw_irq i s).1 = sp_held s.
Proof using Type.
  unfold raw_irq. destruct i as [[] reads]; cbn [fst snd]; [|done]. pose proof (bytes_held reads s) as Hb. destruct (raw_bytes reads s) as [[s' b] ok].
  cbn [fst] in *. unfold spec_flush. repeat case_match; done.
Qed.

Lemma raw_irqs_wp l a s :
  models a s → sp_partial s = None →
  wp (irqs l) (λ _ a', models a' (raw_irqs l s).1 ∧ sp_partial (raw_irqs l s).1 = None ∧ sp_held (raw_irqs l s).1 = sp_held s ∧
                       reader a' = reader a) (λ _, False) a.
Proof using Hmax Hraw.
  revert a s. induction l as [|[ready reads] l IH]; intros a s Hm Hs; cbn [irqs raw_irqs]; [by apply wp_ret|].
  apply wp_bind. eapply wp_mono; [apply wp_keeps; [apply callback_keeps|by apply (raw_callback_wp (ready, reads))]| |done].
  intros [] a1 [[Hm1 Hp1] Hr1]. pose proof (irq_held (ready, reads) s) as Hh. destruct (raw_irq (ready, reads) s) as [s1 b]. cbn [fst] in *.
  specialize (IH a1 s1 Hm1 Hp1). destruct (raw_irqs l s1) as [s2 b']. cbn [fst] in *. eapply wp_mono; [exact IH| |done].
  intros [] a2 (? & ? & Hh2 & Hr2). split; [done|]. split; [done|]. split; congruence.
Qed.

(** ** The reader *)

(** [rest] is what is left of the fragment held. *)
Record raw_models (a : adapter) (s : console_spec) (rest : list Z) : Prop := {
  rm_models : models a s;
  rm_partial : sp_partial s = None;
  rm_rest : match pending a with
            | None => rest = [] ∧ pending_len a = 0 ∧ sp_held s = None
            | Some (i, o) => ∃ l, get_cmd a = Some i ∧ sp_held s = Some l ∧ 0 <= o ∧ o + zlen rest = zlen l ∧ slice l o (zlen rest) = rest ∧ pending_len a = zlen rest
            end;
}.

(** The fragment a read looks at. *)
Definition raw_take (s : console_spec) (rest : list Z) : console_spec * list Z :=
  if zlen rest =? 0 then (spec_take s, default [] (head (sp_ready s))) else (s, rest).

Lemma set_pending_models a s p n : models a s → models (set_pending a p n) s.
Proof using Type. intros [? ? ? ? ? ?]. by split. Qed.

Lemma fetch_wp a s rest :
  raw_models a s rest → wp raw_fetch (λ _ a', raw_models a' (raw_take s rest).1 (raw_take s rest).2) (λ _, False) a.
Proof using Hmax.
  intros [Hm Hp Hr]. unfold raw_fetch, raw_take. apply wp_adapter. assert (Hpl : pending_len a = zlen rest).
  { destruct (pending a) as [[i o]|]; [by destruct Hr as (l & _ & _ & _ & _ & _ & ?)|]. destruct Hr as (-> & -> & _). done. }
  rewrite Hpl. destruct (zlen rest =? 0) eqn:Hz; zsimp; [|by apply wp_ret]. wp_step (getline_wp Hmax); [done|].
  intros [len line] a1 (Hm1 & -> & ->). split; [by apply set_pending_models|done|]. cbn [pending set_pending pending_len get_cmd fst snd].
  pose proof (m_held _ _ Hm1) as Hh. cbn [spec_take sp_held] in *. destruct (get_cmd a1) as [i|], (head (sp_ready s)) as [l|]; try done; cbn [fmap option_fmap option_map].
  exists l. change (default [] (Some l)) with l. pose proof (zlen_nonneg l). split; [done|]. split; [done|]. split; [done|]. split; [lia|]. split; [apply slice_full|done].
Qed.

Definition raw_result (n : Z) (held : option (list Z)) (rest : list Z) : Z * list Z * bool :=
  match held with
  | Some _ => (Z.min (zlen rest) n, slice rest 0 (Z.min (zlen rest) n), true)
  | None => (0, [], false)
  end.

Definition raw_rest (n : Z) (rest : list Z) : list Z := slice rest (Z.min (zlen rest) n) (zlen rest - Z.min (zlen rest) n).

Lemma raw_copy_wp n a s rest :
  0 <= n → raw_models a s rest →
  wp (raw_copy n) (λ r a', r = raw_result n (sp_held s) rest ∧ raw_models a' s (raw_rest n rest)) (λ _, False) a.
Proof using Hmax.
  intros Hn [Hm Hp Hr]. unfold raw_copy. apply wp_adapter. pose proof (zlen_nonneg rest). destruct (pending a) as [[i o]|] eqn:Hpe.
  - destruct Hr as (l & Hg & Hh & Ho & Hol & Hsl & Hpl). rewrite Hpl. cbv zeta. unfold raw_result, raw_rest. rewrite Hh. set (m := Z.min (zlen rest) n).
    pose proof (m_held _ _ Hm) as Hc. rewrite Hg, Hh in Hc. destruct Hc as (b & Hb & Hlb & Hlm & _).
    assert (Hbz : zlen (li_line b) = MAX) by (eapply (Forall_lookup_1 _ _ _ _ (m_size _ _ Hm) Hb)).
    apply wp_bind. unfold load. apply wp_adapter. rewrite Hb, (proj2 (Z.ltb_ge o 0)), (proj2 (Z.ltb_ge m 0)), (proj2 (Z.ltb_ge _ _)) by lia. cbn [orb].
    apply wp_ret, wp_change, wp_ret. split.
    + do 2 f_equal. transitivity (slice l o m).
      * rewrite <- Hlb. rewrite slice_slice by lia. done.
      * rewrite <- Hsl at 1. rewrite slice_slice by lia. by rewrite Z.add_0_r.
    + split; [by apply set_pending_models|done|]. cbn [pending set_pending pending_len get_cmd]. exists l. rewrite zlen_slice by lia.
      split; [done|]. split; [done|]. split; [lia|]. split; [lia|]. split; [|lia].
      symmetry. rewrite <- Hsl at 1. by rewrite slice_slice by lia.
  - destruct Hr as (-> & Hpl & Hh). rewrite Hpl. cbn [Z.eqb]. apply wp_ret. unfold raw_result. rewrite Hh. split; [done|]. split; [done|done|].
    rewrite Hpe. split; [unfold raw_rest, slice; by rewrite drop_nil, take_nil|done].
Qed.

(** ** Any order of interrupts and reads *)

Definition interrupted_raw_read (n : Z) (meanwhile : list interrupt) : M adapter (Z * list Z * bool) :=
  raw_fetch;;
  irqs meanwhile;;
  raw_copy n.

Fixpoint raw_events (l : list event) : M adapter (list (Z * list Z * bool)) :=
  match l with
  | [] => mret []
  | Irq i :: l => irqs [i];; raw_events l
  | Read n meanwhile :: l => r ← interrupted_raw_read n meanwhile; rs ← raw_events l; mret (r :: rs)
  end.

Lemma raw_not_interrupted n a : interrupted_raw_read n [] a = console_read n a.
Proof using Hraw. unfold interrupted_raw_read, console_read, console_read_raw. rewrite Hraw. done. Qed.

(** The results of the reads, the bytes accepted and those that remain. *)
Fixpoint raw_spec (l : list event) (s : console_spec) (rest : list Z) : list (Z * list Z * bool) * list Z * list Z :=
  match l with
  | [] => ([], [], rest ++ outstanding s)
  | Irq i :: l =>
      let '(s, b) := raw_irqs [i] s in
      let '(rs, acc, out) := raw_spec l s rest in (rs, b ++ acc, out)
  | Read n meanwhile :: l =>
      let '(s, rest) := raw_take s rest in
      let '(s', b) := raw_irqs meanwhile s in
      let '(rs, acc, out) := raw_spec l s' (raw_rest n rest) in
      (raw_result n (sp_held s) rest :: rs, b ++ acc, out)
  end.

Definition raw_reads_ok (l : list event) : Prop := Forall (λ e, match e with Read n _ => 0 <= n | Irq _ => True end) l.

Lemma raw_events_wp l a s rest :
  raw_models a s rest → raw_reads_ok l → wp (raw_events l) (λ rs _, rs = (raw_spec l s rest).1.1) (λ _, False) a.
Proof using Hmax Hraw.
  intros Hm Hl. revert a s rest Hm. induction Hl as [|[i|n l'] l He _ IH]; intros a s rest Hm; cbn [raw_events raw_spec]; [by apply wp_ret| |].
  - apply wp_bind. pose proof Hm as [Hm0 Hp Hr]. eapply wp_mono; [by apply raw_irqs_wp| |done]. intros [] a1 (Hm1 & Hp1 & Hh1 & Hr1).
    injection Hr1 as Hg1 Hpe1 Hpl1. destruct (raw_irqs [i] s) as [s1 b]. cbn [fst] in *. specialize (IH a1 s1 rest).
    destruct (raw_spec l s1 rest) as [[rs acc] out]. apply IH. split; [done|done|]. by rewrite Hg1, Hpe1, Hpl1, Hh1.
  - apply wp_bind. unfold interrupted_raw_read. wp_step fetch_wp; [done|]. intros [] a1 Hm1. destruct (raw_take s rest) as [s1 rest1]. cbn [fst snd] in *.
    pose proof Hm1 as [Hm0 Hp Hr]. apply wp_bind. eapply wp_mono; [by apply raw_irqs_wp| |done]. intros [] a2 (Hm2 & Hp2 & Hh2 & Hr2).
    injection Hr2 as Hg2 Hpe2 Hpl2. destruct (raw_irqs l' s1) as [s2 b]. cbn [fst] in *.
    eapply wp_mono; [apply (raw_copy_wp n a2 s2 rest1 He); split; [done|done|by rewrite Hg2, Hpe2, Hpl2, Hh2]| |done].
    intros r a3 [-> Hm3]. rewrite Hh2. specialize (IH a3 s2 _ Hm3). destruct (raw_spec l s2 (raw_rest n rest1)) as [[rs acc] out]. cbn [fst] in *.
    apply wp_bind. eapply wp_mono; [exact IH| |done]. intros ? a4 ->. by apply wp_ret.
Qed.

(** ** Every byte once, in order *)

Definition data_of (r : Z * list Z * bool) : list Z := r.1.2.

Lemma result_split n held rest : 0 <= n → (held = None → rest = []) → data_of (raw_result n held rest) ++ raw_rest n rest = rest.
Proof using Type.
  intros Hn Hh. unfold data_of, raw_result, raw_rest. pose proof (zlen_nonneg rest). destruct held as [l|]; cbn [fst snd].
  - rewrite <- slice_app_split by lia. replace (Z.min (zlen rest) n + (zlen rest - Z.min (zlen rest) n)) with (zlen rest) by lia. apply slice_full.
  - rewrite (Hh eq_refl). unfold slice. by rewrite drop_nil, take_nil.
Qed.

Lemma irqs_held l s : sp_held (raw_irqs l s).1 = sp_held s.
Proof using Type.
  revert s. induction l as [|i l IH]; intros s; cbn [raw_irqs]; [done|]. pose proof (irq_held i s) as Hi. destruct (raw_irq i s) as [s1 b].
  specialize (IH s1). destruct (raw_irqs l s1) as [s2 b']. cbn [fst] in *. congruence.
Qed.

(** Taking a fragment moves its bytes. *)
Lemma take_bytes s rest :
  (sp_held s = None → rest = []) →
  (raw_take s rest).2 ++ outstanding (raw_take s rest).1 = rest ++ outstanding s ∧ (sp_held (raw_take s rest).1 = None → (raw_take s rest).2 = []).
Proof using Type.
  intros Hh. unfold raw_take. destruct (zlen rest =? 0) eqn:Hz; zsimp; [|done]. destruct rest; [|unfold zlen in Hz; cbn in Hz; lia].
  unfold outstanding. cbn [fst snd spec_take sp_ready sp_partial sp_held app]. destruct (sp_ready s) as [|l ls]; cbn [head tail concat]; [done|].
  split; [|done]. by rewrite <- app_assoc.
Qed.

Lemma raw_spec_bytes l s rest :
  raw_reads_ok l → (sp_held s = None → rest = []) →
  let '(rs, acc, out) := raw_spec l s rest in concat (data_of <$> rs) ++ out = rest ++ outstanding s ++ acc.
Proof using Type.
  intros Hl. revert s rest. induction Hl as [|[i|n l'] l He _ IH]; intros s rest Hh; cbn [raw_spec].
  - by rewrite (app_nil_r (outstanding s)).
  - pose proof (irqs_outstanding [i] s) as Ho. pose proof (irqs_held [i] s) as Hk. destruct (raw_irqs [i] s) as [s1 b]. cbn [fst] in Hk. rewrite <- Hk in Hh.
    specialize (IH s1 rest Hh). destruct (raw_spec l s1 rest) as [[rs acc] out]. rewrite IH, Ho. by rewrite <- app_assoc.
  - pose proof (take_bytes s rest Hh) as [Ht Hh1]. destruct (raw_take s rest) as [s1 rest1]. cbn [fst snd] in *.
    pose proof (irqs_outstanding l' s1) as Ho. pose proof (irqs_held l' s1) as Hk. destruct (raw_irqs l' s1) as [s2 b]. cbn [fst] in Hk.
    specialize (IH s2 (raw_rest n rest1)). destruct (raw_spec l s2 _) as [[rs acc] out]. cbn [fmap list_fmap concat]. rewrite <- app_assoc, IH.
    + rewrite Ho, <- (app_assoc (outstanding s1)), app_assoc, (result_split n (sp_held s1) rest1), app_assoc, Ht, <- app_assoc by done. done.
    + rewrite Hk. intros E. rewrite (Hh1 E). unfold raw_rest, slice. by rewrite drop_nil, take_nil.
Qed.

(** C19: With the raw protocol the reads give the bytes received, each once and in their
    order, for any interrupts and any reads, also interrupted ones: what the reads have
    returned followed by what is still in the buffers is what the interrupts have
    delivered, but for the bytes for which no buffer was free, with which an interrupt
    ends.  No access is outside of a buffer. *)
Theorem raw_stream evs :
  raw_reads_ok evs →
  wp (boot_console_init true;; raw_events evs)
    (λ rs _, let '(rs', acc, out) := raw_spec evs spec_start [] in rs = rs' ∧ concat (data_of <$> rs) ++ out = acc)
    (λ _, False) adapter_start.
Proof using All.
  intros Hl. apply wp_bind. eapply wp_mono; [apply (init_wp Hmax)| |done]. intros rc a (_ & Hm & Hr). injection Hr as Hg Hp Hpl.
  eapply wp_mono; [apply (raw_events_wp evs a spec_start []); [|done]| |done].
  - split; [done|done|]. by rewrite Hp.
  - intros rs a' ->. pose proof (raw_spec_bytes evs spec_start [] Hl) as Hb. destruct (raw_spec evs spec_start []) as [[rs acc] out]. split; [done|]. by apply Hb.
Qed.

End Raw.
