(* ===== verification/SerialLibDemo.v ===== *)
(** * A checksum and an encoding for the serial line

    CRC-16 with the polynomial x^16 + x^12 + x^5 + 1 and base64, as in the operating system, with
    the laws SerialFrameProps.v asks for; and a small console for the theorems of
    SerialAdapterProps.v. *)

From S2P Require Import Prelude Effects Zcbor SerialFrame SerialFrameProps SerialAdapter SerialAdapterProps.

Module SerialLibDemo.

(** ** CRC-16 *)

Definition crc_step (seed b : Z) : Z :=
  let s := Z.lxor (seed / 256 + 256 * (seed mod 256)) (u8 b) in
  let s := Z.lxor s (Z.shiftr (Z.land s 0xff) 4) in
  let s := u16 (Z.lxor s (Z.shiftl s 12)) in
  u16 (Z.lxor s (Z.shiftl (Z.land s 0xff) 5)).

Definition crc16 (seed : Z) (l : list Z) : Z := fold_left crc_step l (u16 seed).

Lemma crc_step_u16 s b : is_u16 (crc_step s b).
Proof. unfold crc_step, u16, is_u16. lia. Qed.

Lemma crc16_range c l : is_u16 (crc16 c l).
Proof.
  unfold crc16. assert (Hs : is_u16 (u16 c)) by (unfold u16, is_u16; lia). revert Hs. generalize (u16 c).
  induction l as [|b l IH]; intros s Hs; cbn [fold_left]; [done|]. apply IH, crc_step_u16.
Qed.

Lemma u16_id x : is_u16 x → u16 x = x.
Proof. unfold u16, is_u16. lia. Qed.

(** Numbers without common bits. *)
Lemma land_high k a b : 0 <= k → 0 <= b < 2 ^ k → Z.land (2 ^ k * a) b = 0.
Proof.
  intros Hk Hb. rewrite <- (Z.mod_small b (2 ^ k)) by lia. rewrite <- Z.land_ones, (Z.land_comm b), Z.land_assoc, Z.land_ones by lia.
  rewrite Z.mul_comm, Z.mod_mul by lia. done.
Qed.

Lemma lxor_low a b : 0 <= b < 256 → Z.lxor (256 * a + b) b = 256 * a.
Proof.
  intros Hb. change 256 with (2 ^ 8) in *. rewrite (Z.add_nocarry_lxor _ _ (land_high 8 a b ltac:(lia) Hb)), Z.lxor_assoc, Z.lxor_nilpotent. apply Z.lxor_0_r.
Qed.

Lemma crc_step_zero a : 0 <= a < 256 → u16 (Z.lxor (256 * a) (Z.shiftl (256 * a) 12)) = 256 * a.
Proof.
  intros Ha. rewrite Z.shiftl_mul_pow2 by lia. replace (256 * a * 2 ^ 12) with (2 ^ 16 * (16 * a)) by (change (2 ^ 12) with 4096; change (2 ^ 16) with 65536; lia).
  rewrite Z.lxor_comm, <- Z.add_nocarry_lxor by (apply land_high; [lia|change (2 ^ 16) with 65536; lia]).
  unfold u16. change (2 ^ 16) with 65536. lia.
Qed.

Lemma crc16_residue c : is_u16 c → crc16 c [c / 256; c mod 256] = 0.
Proof.
  unfold is_u16. intros Hc. unfold crc16. rewrite u16_id by done. cbn [fold_left].
  assert (H1 : crc_step c (c / 256) = 256 * (c mod 256)).
  { unfold crc_step. replace (u8 (c / 256)) with (c / 256) by (unfold u8; lia). rewrite (Z.add_comm (c / 256)), lxor_low by lia.
    assert (Hl : Z.land (256 * (c mod 256)) 0xff = 0) by (change 0xff with (Z.ones 8); rewrite Z.land_ones by lia; change (2 ^ 8) with 256; lia).
    rewrite Hl. change (Z.shiftr 0 4) with 0. rewrite Z.lxor_0_r, crc_step_zero by lia. rewrite Hl. change (Z.shiftl 0 5) with 0.
    rewrite Z.lxor_0_r. unfold u16. lia. }
  rewrite H1. unfold crc_step. replace (u8 (c mod 256)) with (c mod 256) by (unfold u8; lia).
  replace (256 * (c mod 256) / 256 + 256 * ((256 * (c mod 256)) mod 256)) with (c mod 256) by lia.
  rewrite Z.lxor_nilpotent. done.
Qed.

(** ** Base64 *)

Definition b64_char (v : Z) : Z :=
  if v <? 26 then 65 + v else if v <? 52 then 71 + v else if v <? 62 then v - 4 else if v =? 62 then 43 else 47.

Definition b64_val (c : Z) : option Z :=
  if (65 <=? c) && (c <=? 90) then Some (c - 65)
  else if (97 <=? c) && (c <=? 122) then Some (c - 71)
  else if (48 <=? c) && (c <=? 57) then Some (c + 4)
  else if c =? 43 then Some 62 else if c =? 47 then Some 63 else None.

Fixpoint b64_enc (l : list Z) : list Z :=
  match l with
  | [] => []
  | [a] => [b64_char (a / 4 mod 64); b64_char (a mod 4 * 16); 61; 61]
  | [a; b] => [b64_char (a / 4 mod 64); b64_char (a mod 4 * 16 + b / 16 mod 16); b64_char (b mod 16 * 4); 61]
  | a :: b :: c :: l =>
      [b64_char (a / 4 mod 64); b64_char (a mod 4 * 16 + b / 16 mod 16); b64_char (b mod 16 * 4 + c / 64 mod 4); b64_char (c mod 64)] ++ b64_enc l
  end.

(** Padding ends the input. *)
Fixpoint b64_dec (s : list Z) : option (list Z) :=
  match s with
  | [] => Some []
  | c1 :: c2 :: c3 :: c4 :: s =>
      v1 ← b64_val c1; v2 ← b64_val c2;
      if (c3 =? 61) && (c4 =? 61) && bool_decide (s = []) then Some [u8 (v1 * 4 + v2 / 16)] else
      v3 ← b64_val c3;
      if (c4 =? 61) && bool_decide (s = []) then Some [u8 (v1 * 4 + v2 / 16); u8 (v2 * 16 + v3 / 4)] else
      v4 ← b64_val c4;
      l ← b64_dec s;
      Some ([u8 (v1 * 4 + v2 / 16); u8 (v2 * 16 + v3 / 4); u8 (v3 * 64 + v4)] ++ l)
  | _ => None
  end.

Definition b64_decode_at (n : Z) (s : list Z) : option (list Z) :=
  l ← b64_dec s; if zlen l <=? n then Some l else None.

Lemma b64_val_char v : 0 <= v < 64 → b64_val (b64_char v) = Some v ∧ b64_char v ≠ 61 ∧ b64_char v ≠ 10.
Proof.
  intros Hv. unfold b64_char. destruct (v <? 26) eqn:E1; [|destruct (v <? 52) eqn:E2; [|destruct (v <? 62) eqn:E3; [|destruct (v =? 62) eqn:E4]]]; zsimp;
    (split; [|lia]); unfold b64_val;
    repeat (match goal with |- context [?a <=? ?b] => first [rewrite (proj2 (Z.leb_le a b)) by lia | rewrite (proj2 (Z.leb_gt a b)) by lia] end; cbn [andb]);
    try (f_equal; lia); subst; done.
Qed.

(** Lists three bytes at a time. *)
Lemma list_ind3 (P : list Z → Prop) :
  P [] → (∀ a, P [a]) → (∀ a b, P [a; b]) → (∀ a b c l, P l → P (a :: b :: c :: l)) → ∀ l, P l.
Proof.
  intros H0 H1 H2 H3. fix IH 1. intros [|a [|b [|c l]]]; [apply H0|apply H1|apply H2|apply H3, IH].
Qed.

Lemma b64_enc_len l : zlen (b64_enc l) = 4 * ((zlen l + 2) / 3).
Proof.
  induction l as [| | |a b c l IH] using list_ind3; [done..|]. cbn [b64_enc]. rewrite zlen_app, IH, !zlen_cons, zlen_nil.
  pose proof (zlen_nonneg l). lia.
Qed.

Lemma b64_enc_app l l' : zlen l mod 3 = 0 → b64_enc (l ++ l') = b64_enc l ++ b64_enc l'.
Proof.
  induction l as [| | |a b c l IH] using list_ind3; [done|..].
  - rewrite zlen_cons, zlen_nil. done.
  - rewrite !zlen_cons, zlen_nil. done.
  - rewrite !zlen_cons. intros Hl. cbn [app b64_enc]. rewrite IH by lia. done.
Qed.

Lemma b64_dec_enc l : Forall is_u8 l → b64_dec (b64_enc l) = Some l.
Proof.
  assert (Hv : ∀ v, 0 <= v < 64 → b64_val (b64_char v) = Some v ∧ (b64_char v =? 61) = false).
  { intros v Hv. destruct (b64_val_char v Hv) as (? & ? & _). split; [done|by apply Z.eqb_neq]. }
  induction l as [| | |a b c l IH] using list_ind3; [done|..]; intros Hl.
  - apply Forall_cons_1 in Hl as [Ha _]. unfold is_u8 in Ha. cbn [b64_enc b64_dec].
    rewrite (proj1 (Hv (a / 4 mod 64) ltac:(lia))), (proj1 (Hv (a mod 4 * 16) ltac:(lia))). cbn. do 2 f_equal. unfold u8. lia.
  - apply Forall_cons_1 in Hl as [Ha [Hb _]%Forall_cons_1]. unfold is_u8 in *. cbn [b64_enc b64_dec].
    destruct (Hv (b mod 16 * 4) ltac:(lia)) as [H3 H3'].
    rewrite (proj1 (Hv (a / 4 mod 64) ltac:(lia))), (proj1 (Hv (a mod 4 * 16 + b / 16 mod 16) ltac:(lia))), H3. cbn [mbind option_bind].
    rewrite H3'. cbn. unfold u8. do 2 f_equal; [lia|]. f_equal. lia.
  - apply Forall_cons_1 in Hl as [Ha [Hb [Hc Hl]%Forall_cons_1]%Forall_cons_1]. unfold is_u8 in *. cbn [b64_enc b64_dec app].
    destruct (Hv (b mod 16 * 4 + c / 64 mod 4) ltac:(lia)) as [H3 H3']. destruct (Hv (c mod 64) ltac:(lia)) as [H4 H4'].
    rewrite (proj1 (Hv (a / 4 mod 64) ltac:(lia))), (proj1 (Hv (a mod 4 * 16 + b / 16 mod 16) ltac:(lia))), H3, H4, (IH Hl). cbn [mbind option_bind].
    rewrite H3', H4'. cbn [andb app]. unfold u8. f_equal. f_equal; [lia|]. f_equal; [lia|]. f_equal. lia.
Qed.

Lemma list_ind4 (P : list Z → Prop) :
  P [] → (∀ a, P [a]) → (∀ a b, P [a; b]) → (∀ a b c, P [a; b; c]) → (∀ a b c d l, P l → P (a :: b :: c :: d :: l)) → ∀ l, P l.
Proof.
  intros H0 H1 H2 H3 H4. fix IH 1. intros [|a [|b [|c [|d l]]]]; [apply H0|apply H1|apply H2|apply H3|apply H4, IH].
Qed.

Lemma b64_dec_bytes s l : b64_dec s = Some l → Forall is_u8 l.
Proof.
  assert (Hu : ∀ x, is_u8 (u8 x)) by (intros; unfold is_u8, u8; lia).
  revert l. induction s as [| | | |c1 c2 c3 c4 s IH] using list_ind4; intros l; [intros [= <-]; constructor|done..|]. cbn [b64_dec].
  destruct (b64_val c1) as [v1|]; [|done]. destruct (b64_val c2) as [v2|]; [|done]. cbn [mbind option_bind].
  case_match; [intros [= <-]; repeat (apply List.Forall_cons; [apply Hu|]); apply List.Forall_nil|]. destruct (b64_val c3) as [v3|]; [|done]. cbn [mbind option_bind].
  case_match; [intros [= <-]; repeat (apply List.Forall_cons; [apply Hu|]); apply List.Forall_nil|]. destruct (b64_val c4) as [v4|]; [|done]. destruct (b64_dec s) as [l'|]; [|done].
  cbn [mbind option_bind]. intros [= <-]. cbn [app]. do 3 (apply List.Forall_cons; [apply Hu|]). by apply IH.
Qed.

Lemma b64_enc_chars l : Forall (λ c, c ≠ 10) (b64_enc l).
Proof.
  assert (Hc : ∀ v, 0 <= v < 64 → b64_char v ≠ 10) by (intros v Hv; by destruct (b64_val_char v Hv) as (_ & _ & ?)).
  induction l as [| | |a b c l IH] using list_ind3; [constructor|..]; cbn [b64_enc app];
    repeat (apply Forall_cons; [first [lia|apply Hc; lia]|]); done || constructor.
Qed.

#[export] Instance serial_lib : SerialLib := {| crc16_itu_t := crc16; base64_encode := b64_enc; base64_decode := b64_decode_at |}.

#[export] Instance serial_lib_ok : SerialLibOk.
Proof.
  split; cbn [crc16_itu_t base64_encode base64_decode serial_lib].
  - apply crc16_range.
  - intros c l l'. unfold crc16 at 2. rewrite (u16_id (crc16 c l)) by apply crc16_range. unfold crc16. apply fold_left_app.
  - apply crc16_residue.
  - apply b64_enc_len.
  - apply b64_enc_app.
  - intros n l Hl Hn. unfold b64_decode_at. rewrite b64_dec_enc by done. cbn [mbind option_bind]. by rewrite (proj2 (Z.leb_le _ _)) by lia.
  - intros n s l. unfold b64_decode_at. destruct (b64_dec s) as [l'|] eqn:Hd; [|done]. cbn [mbind option_bind].
    case_if Hn; [|done]. intros [= <-]. split; [done|]. by eapply b64_dec_bytes.
  - apply b64_enc_chars.
Qed.

(** [message_received] for a response of three bytes. *)
#[local] Instance frame_config : FrameConfig := {| MCUBOOT_SERIAL_MAX_RECEIVE_SIZE := 512 |}.

Lemma message_received_witness :
  let h := NmgrHdr 2 0 0 0 0 0 7 5 in let data := [191; 1; 255] in
  let '(h', out) := boot_serial_output h data in
  let lines := split_lines 127 [] out in
  lines.2 = [] ∧ ∃ k dec_buf', receive_lines lines.1 (replicate 513 0) (replicate 513 0) 0 () = (Ret (replicate k 0 ++ [1], dec_buf', zlen data + 10), ()) ∧
    slice dec_buf' 2 (zlen data + 8) = bytes_of_hdr h' ++ data.
Proof.
  apply (message_received (NmgrHdr 2 0 0 0 0 0 7 5) [191; 1; 255] 127 (replicate 513 0) (replicate 513 0) 0 ()).
  - unfold hdr_ok, is_u8, is_u16. cbn. lia.
  - repeat (apply List.Forall_cons; [unfold is_u8; lia|]). apply List.Forall_nil.
  - by vm_compute.
  - by vm_compute.
  - by vm_compute.
  - by vm_compute.
  - by vm_compute.
  - lia.
Defined.

End SerialLibDemo.

(** * A small console

    The theorems on serial_adapter.c with lists of the operating system as plain lists,
    three buffers of eight bytes, and lines that arrive in pieces. *)

Module SerialAdapterDemo.

#[local] Instance plain_list : SysSlist := {|
  sys_slist_t := list nat;
  sys_slist_init := [];
  sys_slist_append q n := q ++ [n];
  sys_slist_get q := (head q, tail q);
  sys_slist_peek_tail := list_basics.list.last;
|}.

#[local] Instance plain_list_ok : SysSlistOk.
Proof.
  refine {| slist_nodes := (λ q : sys_slist_t, q) |}; cbn.
  - done.
  - done.
  - by intros q ->.
  - intros q n l ->. by exists l.
  - done.
Defined.

#[local] Instance lines : AdapterConfig := {|
  CONFIG_BOOT_MAX_LINE_INPUT_LEN := 8;
  CONFIG_BOOT_LINE_BUFS := 3;
  CONFIG_BOOT_SERIAL_RAW_PROTOCOL := false;
  char_signed := false;
|}.

(** Two lines in three batches; the second one is completed while the first is copied. *)
Definition lines_events : list event :=
  [Read 5 []; Irq (true, [[65; 66]; [67; 10; 68]]); Read 16 [(true, [[69; 10; 70]])]; Read 16 []; Irq (false, []); Read 2 []].

Lemma adapter_refines_witness :
  wp (boot_console_init true;; events lines_events) (λ rs _, rs = spec_events lines_events spec_start) (λ _, False) adapter_start.
Proof.
  apply adapter_refines.
  - by vm_compute.
  - done.
  - repeat apply List.Forall_cons; [..|apply List.Forall_nil]; done.
Defined.

Lemma lines_delivered_witness :
  wp (boot_console_init true;; events lines_events)
    (λ rs _, rs = [(0, [], false); (5, [65; 66; 67; 10; 0], true); (4, [68; 69; 10; 0], true); (0, [], false)]) (λ _, False) adapter_start.
Proof.
  apply (lines_delivered ltac:(by vm_compute) lines_events).
  - done.
  - repeat apply List.Forall_cons; [..|apply List.Forall_nil]; done.
  - vm_compute. lia.
Defined.

End SerialAdapterDemo.

Module RawAdapterDemo.
Import SerialAdapterDemo.
#[local] Existing Instance plain_list.
#[local] Existing Instance plain_list_ok.
#[local] Instance fragments : AdapterConfig := {|
  CONFIG_BOOT_MAX_LINE_INPUT_LEN := 2;
  CONFIG_BOOT_LINE_BUFS := 3;
  CONFIG_BOOT_SERIAL_RAW_PROTOCOL := true;
  char_signed := false;
|}.

(** Three bytes in two fragments, read one byte at a time, and then more than fits. *)
Definition raw_demo : list event :=
  [Irq (true, [[1]; [2]; [3]]); Read 1 []; Read 1 [(true, [[4]])]; Read 9 []; Irq (true, [[5]; [6]; [7]; [8]]); Read 9 []].

Lemma raw_stream_witness :
  wp (boot_console_init true;; raw_events raw_demo)
    (λ rs _, let '(rs', acc, out) := raw_spec raw_demo spec_start [] in rs = rs' ∧ concat (data_of <$> rs) ++ out = acc)
    (λ _, False) adapter_start.
Proof.
  apply raw_stream.
  - by vm_compute.
  - done.
  - repeat apply List.Forall_cons; [..|apply List.Forall_nil]; done.
Defined.

End RawAdapterDemo.
