(* ===== verification/FlashMap.v ===== *)
(** * The flash map interface

    What the boot code requires of the flash driver below it
    (flash_map_backend.h): the operations as a class over the world, and the
    laws its correctness rests on.  An area is described by its cells: a byte
    together with a flag saying that the cell was erased and not written since
    ("fresh").  A reset may replace an operation that modifies flash; an
    operation is atomic, as in the simulator of the repository (SimFlash.v). *)

From S2P Require Import Prelude Effects.

Record cell := Cell { c_val : Z; c_fresh : bool }.

#[export] Instance cell_eq_dec : EqDecision cell.
Proof. solve_decision. Defined.

Definition vals (l : list cell) : list Z := c_val <$> l.
Definition written (d : list Z) : list cell := (λ b, Cell b false) <$> d.
Definition erased (ev len : Z) : list cell := replicate (Z.to_nat len) (Cell ev true).
Definition all_fresh (l : list cell) : Prop := Forall (λ c, c_fresh c = true) l.

Lemma zlen_vals l : zlen (vals l) = zlen l.
Proof. apply zlen_fmap. Qed.
Lemma zlen_written d : zlen (written d) = zlen d.
Proof. apply zlen_fmap. Qed.
Lemma zlen_erased ev len : 0 <= len → zlen (erased ev len) = len.
Proof. intros. unfold erased. rewrite zlen_replicate. lia. Qed.
Lemma vals_written d : vals (written d) = d.
Proof.
  unfold vals, written. rewrite <- list_fmap_compose.
  rewrite <- (list_fmap_id d) at 2. by apply list_fmap_ext.
Qed.
Lemma vals_slice l o n : vals (slice l o n) = slice (vals l) o n.
Proof. apply fmap_slice. Qed.
Lemma vals_splice l o d : vals (splice l o d) = splice (vals l) o (vals d).
Proof. apply fmap_splice. Qed.
Lemma vals_erased ev len : vals (erased ev len) = replicate (Z.to_nat len) ev.
Proof. unfold vals, erased. by rewrite fmap_replicate. Qed.
Lemma all_fresh_erased ev len : all_fresh (erased ev len).
Proof. by apply Forall_replicate. Qed.
Lemma slice_erased ev n off len :
  0 <= off → 0 <= len → off + len <= n → slice (erased ev n) off len = erased ev len.
Proof. intros. unfold erased. apply slice_replicate; lia. Qed.

Lemma erased_app ev a b : 0 <= a → 0 <= b → erased ev a ++ erased ev b = erased ev (a + b).
Proof. intros. unfold erased. rewrite <- replicate_add. f_equal. lia. Qed.

#[export] Hint Rewrite zlen_vals zlen_written vals_written vals_slice vals_splice : zlen.
#[export] Hint Resolve all_fresh_erased : mcu.

(** ** Areas and operations *)

Record flash_area := FlashArea {
  fa_id : Z;
  fa_device_id : Z;
  fa_off : Z;
  fa_size : Z;
}.

#[export] Instance flash_area_eq_dec : EqDecision flash_area.
Proof. solve_decision. Defined.

Record flash_sector := FlashSector { fs_off : Z; fs_size : Z }.

#[export] Instance flash_sector_eq_dec : EqDecision flash_sector.
Proof. solve_decision. Defined.

(** The operations of flash_map_backend.h.  A read returns the code and the
    bytes it delivers, an open the code and the area. *)
Class FlashMap (W : Type) := {
  flash_area_open : Z → M W (Z * flash_area);
  flash_area_read : flash_area → Z → Z → M W (Z * list Z);
  flash_area_write : flash_area → Z → list Z → M W Z;
  flash_area_erase : flash_area → Z → Z → M W Z;
  flash_area_get_sector : flash_area → Z → M W (Z * flash_sector);
  flash_area_align : flash_area → Z;
  flash_area_erased_val : flash_area → Z;
}.

(** ** Sector maps *)

(** An area is a sequence of sectors, given by their sizes. *)
Definition sector_off (sizes : list Z) (i : nat) : Z := zsum (take i sizes).

(** Whole sectors [i .. j-1] make up the range [[off, off+len)]. *)
Definition sector_range (sizes : list Z) (off len : Z) : Prop :=
  ∃ i j : nat, (i < j <= length sizes)%nat ∧
    off = sector_off sizes i ∧ off + len = sector_off sizes j.

Definition sector_at (sizes : list Z) (off : Z) (s : flash_sector) : Prop :=
  ∃ i : nat, ∃ n : Z, sizes !! i = Some n ∧
    s = FlashSector (sector_off sizes i) n ∧ fs_off s <= off < fs_off s + n.

Lemma sector_off_S sizes i n :
  sizes !! i = Some n → sector_off sizes (S i) = sector_off sizes i + n.
Proof.
  intros Hi. unfold sector_off. erewrite take_S_r by done.
  rewrite zsum_app. unfold zsum at 2. cbn. lia.
Qed.

Lemma sector_off_mono sizes i j :
  Forall (λ n, 0 < n) sizes → (i <= j)%nat → sector_off sizes i <= sector_off sizes j.
Proof.
  intros Hs Hij. unfold sector_off. rewrite <- (take_drop i (take j sizes)), take_take.
  rewrite Nat.min_l by done. rewrite zsum_app.
  pose proof (zsum_nonneg (drop i (take j sizes))) as Hd. specialize (Hd ltac:(by apply Forall_drop, Forall_take)). lia.
Qed.

(** ** Laws *)

(** What the boot code relies on.  [fm_cells w fa] is the contents of a
    registered area; registered areas do not overlap.  Cells must be erased
    before they are written, unless the area is [fm_rewritable] (a device without
    erase).  A reset during a write or an erase leaves the operation done or not
    done. *)
Class FlashMapOk (W : Type) `{FlashMap W} := {
  fm_ok : W → Prop;
  fm_area : flash_area → Prop;
  fm_cells : W → flash_area → list cell;
  fm_sizes : flash_area → list Z;
  fm_rewritable : flash_area → Prop;
  fm_bounds fa : fm_area fa →
    0 <= fa_off fa ∧ 0 < fa_size fa ∧ fa_off fa + fa_size fa < 2147483648;
  fm_sizes_ok fa : fm_area fa →
    Forall (λ n, 0 < n) (fm_sizes fa) ∧
    sector_off (fm_sizes fa) (length (fm_sizes fa)) = fa_size fa;
  fm_align fa : fm_area fa → ∃ k, 0 <= k <= 5 ∧ flash_area_align fa = 2 ^ k;
  fm_align_sectors fa : fm_area fa → Forall (λ n, n mod flash_area_align fa = 0) (fm_sizes fa);
  fm_erased_val fa : fm_area fa → is_u8 (flash_area_erased_val fa);
  fm_len w fa : fm_ok w → fm_area fa → zlen (fm_cells w fa) = fa_size fa;
  fm_bytes w fa : fm_ok w → fm_area fa → Forall is_u8 (vals (fm_cells w fa));
  fm_read w fa off len :
    fm_ok w → fm_area fa → 0 <= off → 0 <= len → off + len <= fa_size fa →
    flash_area_read fa off len w = (Ret (0, slice (vals (fm_cells w fa)) off len), w);
  fm_write w fa off d :
    fm_ok w → fm_area fa → 0 <= off → off + zlen d <= fa_size fa →
    off mod flash_area_align fa = 0 → zlen d mod flash_area_align fa = 0 → Forall is_u8 d →
    fm_rewritable fa ∨ all_fresh (slice (fm_cells w fa) off (zlen d)) →
    let done w' := fm_ok w' ∧ fm_cells w' fa = splice (fm_cells w fa) off (written d) ∧
      ∀ fa', fm_area fa' → fa' ≠ fa → fm_cells w' fa' = fm_cells w fa' in
    wp (flash_area_write fa off d) (λ rc w', rc = 0 ∧ done w')
      (λ w', done w' ∨
             (fm_ok w' ∧ ∀ fa', fm_area fa' → fm_cells w' fa' = fm_cells w fa')) w;
  fm_erase w fa off len :
    fm_ok w → fm_area fa → sector_range (fm_sizes fa) off len →
    let done w' := fm_ok w' ∧
      fm_cells w' fa = splice (fm_cells w fa) off (erased (flash_area_erased_val fa) len) ∧
      ∀ fa', fm_area fa' → fa' ≠ fa → fm_cells w' fa' = fm_cells w fa' in
    wp (flash_area_erase fa off len) (λ rc w', rc = 0 ∧ done w')
      (λ w', done w' ∨
             (fm_ok w' ∧ ∀ fa', fm_area fa' → fm_cells w' fa' = fm_cells w fa')) w;
  fm_get_sector w fa off :
    fm_ok w → fm_area fa → 0 <= off < fa_size fa →
    ∃ s, sector_at (fm_sizes fa) off s ∧ flash_area_get_sector fa off w = (Ret (0, s), w);
  fm_get_sector_out w fa off :
    fm_ok w → fm_area fa → fa_size fa <= off → 
    ∃ rc s, rc ≠ 0 ∧ flash_area_get_sector fa off w = (Ret (rc, s), w);
}.
