(* ===== verification/SimFlash.v ===== *)
(** * The simulator's flash

    The flash driver of the simulator in the repository: the device model of
    sim/simflash/src/lib.rs and the flash map of
    sim/mcuboot-sys/csupport/run.c, whose [flash_counter] cuts the power before
    a chosen write or erase.  It implements the interface of FlashMap.v: the
    laws are proved at the end for a well-formed area table.  Write failures
    drawn at random ([bad_region]) are left out. *)

From stdpp Require Import gmap.
From S2P Require Import Prelude Effects FlashMap.

#[local] Open Scope mcu_scope.

(** ** The device (simflash/src/lib.rs) *)

Record sim_flash := SimFlash {
  sf_data : list Z;
  sf_write_safe : list bool;
  sf_sectors : list Z;
  sf_align : Z;
  sf_verify_writes : bool;
  sf_erased_val : Z;
}.

Definition sim_flash_new (sectors : list Z) (align ev : Z) : sim_flash :=
  SimFlash (replicate (Z.to_nat (zsum sectors)) ev)
    (replicate (Z.to_nat (zsum sectors)) true) sectors align true ev.

(** A [Result], or a panic. *)
Inductive result (A : Type) := Ok (a : A) | Err | Panic.
Arguments Ok {A} a.
Arguments Err {A}.
Arguments Panic {A}.

(** Index and offset within its sector of a byte of the device. *)
Fixpoint sf_get_sector (sectors : list Z) (offset : Z) : option (nat * Z) :=
  match sectors with
  | [] => None
  | size :: rest =>
      if offset <? size then Some (O, offset)
      else match sf_get_sector rest (offset - size) with
           | Some (k, o) => Some (S k, o)
           | None => None
           end
  end.

Definition sf_erase (d : sim_flash) (offset len : Z) : result sim_flash :=
  match sf_get_sector (sf_sectors d) offset with
  | None => Err
  | Some (_, slen) =>
      if offset + len - 1 <? 0 then Panic else
      match sf_get_sector (sf_sectors d) (offset + len - 1) with
      | None => Err
      | Some (e, elen) =>
          if negb (slen =? 0) then Err else
          if negb (elen =? default 0 (sf_sectors d !! e) - 1) then Err else
          if len <? 0 then Panic else
          Ok (SimFlash
                (splice (sf_data d) offset (replicate (Z.to_nat len) (sf_erased_val d)))
                (splice (sf_write_safe d) offset (replicate (Z.to_nat len) true))
                (sf_sectors d) (sf_align d) (sf_verify_writes d) (sf_erased_val d))
      end
  end.

Definition sf_write (d : sim_flash) (offset : Z) (payload : list Z) : result sim_flash :=
  if zlen (sf_data d) <? offset + zlen payload then Panic else
  if negb (Z.land offset (sf_align d - 1) =? 0) then Panic else
  if negb (Z.land (zlen payload) (sf_align d - 1) =? 0) then Panic else
  if sf_verify_writes d &&
     negb (forallb id (slice (sf_write_safe d) offset (zlen payload))) then Panic else
  Ok (SimFlash (splice (sf_data d) offset payload)
        (splice (sf_write_safe d) offset (replicate (length payload) false))
        (sf_sectors d) (sf_align d) (sf_verify_writes d) (sf_erased_val d)).

Definition sf_read (d : sim_flash) (offset len : Z) : result (list Z) :=
  if zlen (sf_data d) <? offset + len then Err
  else Ok (slice (sf_data d) offset len).

(** ** The simulation context and the flash map (run.c) *)

Record sim_world := SimWorld {
  flash_map : gmap Z sim_flash;
  flash_counter : Z;
  jumped : Z;
}.

Record area := Area {
  whole : flash_area;
  areas : list flash_area;
  area_id : Z;
}.

Record flash_param := FlashParam { p_align : Z; p_erased_val : Z }.

Section Sim.
  (** [sim_get_flash_areas()] and the device parameters the context holds. *)
  Context (slots : list area) (flash_params : gmap Z flash_param).
  (** Which devices check that writes hit erased cells ([set_verify_writes]). *)
  Context (verify : Z → bool).

Definition put_dev (w : sim_world) (dev_id : Z) (d : sim_flash) : sim_world :=
  SimWorld (<[dev_id := d]> (flash_map w)) (flash_counter w) (jumped w).

Definition sim_flash_read (dev_id offset size : Z) : M sim_world (Z * list Z) := λ w,
  match flash_map w !! dev_id with
  | None => (Ret (-19, []), w)
  | Some d => match sf_read d offset size with
              | Ok l => (Ret (0, l), w)
              | Err => (Ret (-1, []), w)
              | Panic => (Abort, w)
              end
  end.

Definition sim_flash_write (dev_id offset : Z) (src : list Z) : M sim_world Z := λ w,
  match flash_map w !! dev_id with
  | None => (Ret (-19), w)
  | Some d => match sf_write d offset src with
              | Ok d' => (Ret 0, put_dev w dev_id d')
              | Err => (Ret (-1), w)
              | Panic => (Abort, w)
              end
  end.

Definition sim_flash_erase (dev_id offset size : Z) : M sim_world Z := λ w,
  match flash_map w !! dev_id with
  | None => (Ret (-19), w)
  | Some d => match sf_erase d offset size with
              | Ok d' => (Ret 0, put_dev w dev_id d')
              | Err => (Ret (-1), w)
              | Panic => (Abort, w)
              end
  end.

(** [if (--ctx->flash_counter == 0) { ctx->jumped++; longjmp(...); }] *)
Definition sim_tick : M sim_world unit := λ w,
  let c := flash_counter w - 1 in
  if c =? 0 then (Reset, SimWorld (flash_map w) c (jumped w + 1))
  else (Ret (), SimWorld (flash_map w) c (jumped w)).

Definition sim_area_open (id : Z) : M sim_world (Z * flash_area) :=
  match list_find (λ s, area_id s = u8 id) slots with
  | None => abort
  | Some (_, s) => mret (0, whole s)
  end.

Definition sim_area_read (fa : flash_area) (off len : Z) : M sim_world (Z * list Z) :=
  sim_flash_read (fa_device_id fa) (fa_off fa ⊕ off) len.

Definition sim_area_write (fa : flash_area) (off : Z) (src : list Z) : M sim_world Z :=
  _ ← sim_tick;
  sim_flash_write (fa_device_id fa) (fa_off fa ⊕ off) src.

Definition sim_area_erase (fa : flash_area) (off len : Z) : M sim_world Z :=
  _ ← sim_tick;
  sim_flash_erase (fa_device_id fa) (fa_off fa ⊕ off) len.

Definition sim_area_align (fa : flash_area) : Z :=
  default 0 (p_align <$> flash_params !! fa_device_id fa).

Definition sim_area_erased_val (fa : flash_area) : Z :=
  default 0 (p_erased_val <$> flash_params !! fa_device_id fa).

(** The sector of [slot] containing [off]; an area pointer is identified with
    the area it points to. *)
Fixpoint find_sector (base : Z) (secs : list flash_area) (off : Z) : Z * flash_sector :=
  match secs with
  | [] => (-1, FlashSector 0 0)
  | s :: rest =>
      let sec_off := fa_off s ⊖ base in
      if (sec_off <=? off) && (off <? sec_off ⊕ fa_size s)
      then (0, FlashSector sec_off (fa_size s)) else find_sector base rest off
  end.

Definition sim_area_get_sector (fa : flash_area) (off : Z) : M sim_world (Z * flash_sector) :=
  match list_find (λ s, whole s = fa) slots with
  | None => abort
  | Some (_, s) => mret (find_sector (fa_off (whole s)) (areas s) off)
  end.

(** [-ENOMEM] when the table is too small for the area's sectors. *)
Definition sim_area_get_sectors (id count : Z) : M sim_world (Z * list flash_sector) :=
  match list_find (λ s, area_id s = id) slots with
  | None => abort
  | Some (_, s) =>
      let num_areas := zlen (areas s) in
      let n := if num_areas <? count then num_areas else count in
      mret (if count <? num_areas then -12 else 0,
            (λ a, FlashSector (fa_off a ⊖ fa_off (whole s)) (fa_size a)) <$>
              take (Z.to_nat n) (areas s))
  end.

#[export] Instance sim_flash_map : FlashMap sim_world := {
  flash_area_open := sim_area_open;
  flash_area_read := sim_area_read;
  flash_area_write := sim_area_write;
  flash_area_erase := sim_area_erase;
  flash_area_get_sector := sim_area_get_sector;
  flash_area_align := sim_area_align;
  flash_area_erased_val := sim_area_erased_val;
}.

(** ** Well-formed tables *)

(** The sectors of [a] are a run of the sectors of its device. *)
Record area_wf (layout : gmap Z (list Z)) (a : area) : Prop := {
  aw_layout : ∃ pre post,
    layout !! fa_device_id (whole a) = Some (pre ++ (fa_size <$> areas a) ++ post) ∧
    zsum pre = fa_off (whole a);
  aw_size : zsum (fa_size <$> areas a) = fa_size (whole a);
  aw_areas (i : nat) s : areas a !! i = Some s →
    fa_off s = fa_off (whole a) + sector_off (fa_size <$> areas a) i;
  aw_bounds : 0 <= fa_off (whole a) ∧ 0 < fa_size (whole a) ∧
    fa_off (whole a) + fa_size (whole a) < 2147483648;
  aw_param : ∃ p k, flash_params !! fa_device_id (whole a) = Some p ∧ 0 <= k <= 5 ∧
    p_align p = 2 ^ k ∧ is_u8 (p_erased_val p) ∧
    Forall (λ n, n mod 2 ^ k = 0) (fa_size <$> areas a) ∧ fa_off (whole a) mod 2 ^ k = 0;
}.

Definition disjoint_areas (f f' : flash_area) : Prop :=
  fa_device_id f ≠ fa_device_id f' ∨
  fa_off f + fa_size f <= fa_off f' ∨ fa_off f' + fa_size f' <= fa_off f.

Record sim_wf (layout : gmap Z (list Z)) : Prop := {
  sw_pos d l : layout !! d = Some l → Forall (λ n, 0 < n) l;
  sw_areas : Forall (area_wf layout) slots;
  sw_disjoint a a' : a ∈ slots → a' ∈ slots → whole a ≠ whole a' →
    disjoint_areas (whole a) (whole a');
}.

(** A device matches its description. *)
Record dev_ok (l : list Z) (p : flash_param) (v : bool) (d : sim_flash) : Prop := {
  do_sectors : sf_sectors d = l;
  do_align : sf_align d = p_align p;
  do_ev : sf_erased_val d = p_erased_val p;
  do_verify : sf_verify_writes d = v;
  do_data : zlen (sf_data d) = zsum l;
  do_safe : zlen (sf_write_safe d) = zsum l;
  do_bytes : Forall is_u8 (sf_data d);
}.

Definition sim_ok (layout : gmap Z (list Z)) (w : sim_world) : Prop :=
  ∀ id l p, layout !! id = Some l → flash_params !! id = Some p →
    ∃ d, flash_map w !! id = Some d ∧ dev_ok l p (verify id) d.

Definition dev_cells (d : sim_flash) : list cell := zip_with Cell (sf_data d) (sf_write_safe d).

Definition sim_cells (w : sim_world) (fa : flash_area) : list cell :=
  slice (default [] (dev_cells <$> flash_map w !! fa_device_id fa)) (fa_off fa) (fa_size fa).

Definition sim_area (fa : flash_area) : Prop := ∃ a, a ∈ slots ∧ whole a = fa.

Definition sim_sizes (fa : flash_area) : list Z :=
  match list_find (λ s, whole s = fa) slots with
  | Some (_, s) => fa_size <$> areas s
  | None => []
  end.

End Sim.

(** * The simulator's flash implements the flash map interface

    The laws of FlashMap.v for the instance above, under a well-formed area table. *)

#[local] Open Scope mcu_scope.

(** ** Sector arithmetic *)

Lemma sf_get_sector_at (l : list Z) (i : nat) n o :
  Forall (λ n, 0 < n) l → l !! i = Some n → 0 <= o < n →
  sf_get_sector l (sector_off l i + o) = Some (i, o).
Proof.
  revert i. induction l as [|m l IH]; intros i Hpos Hi Ho; [done|].
  inversion Hpos as [|? ? Hm Hpos']; subst. destruct i as [|i]; cbn in *.
  - injection Hi as ->. by rewrite (proj2 (Z.ltb_lt _ _)) by lia.
  - unfold sector_off in *. cbn. unfold zsum in *. cbn.
    pose proof (zsum_nonneg (take i l) ltac:(by apply Forall_take)) as Hs. unfold zsum in Hs.
    rewrite (proj2 (Z.ltb_ge _ _)) by lia.
    replace (m + foldr Z.add 0 (take i l) + o - m) with (foldr Z.add 0 (take i l) + o) by lia.
    by rewrite (IH i).
Qed.

Lemma sector_off_app pre l post (i : nat) :
  (i <= length l)%nat →
  sector_off (pre ++ l ++ post) (length pre + i) = zsum pre + sector_off l i.
Proof.
  intros Hi. unfold sector_off. rewrite take_app_add, zsum_app. f_equal.
  by rewrite take_app_le.
Qed.

Lemma sector_off_full l : sector_off l (length l) = zsum l.
Proof. unfold sector_off. by rewrite firstn_all. Qed.

Lemma find_sector_spec bs secs sizes pre off :
  (∀ (i : nat) s, secs !! i = Some s → fa_off s = bs + zsum pre + sector_off (fa_size <$> secs) i) →
  sizes = pre ++ (fa_size <$> secs) → Forall (λ n, 0 < n) sizes →
  0 <= bs → bs + zsum sizes < 2147483648 → zsum pre <= off →
  if decide (off < zsum sizes) then
    ∃ s, sector_at sizes off s ∧ find_sector bs secs off = (0, s)
  else ∃ s, find_sector bs secs off = (-1, s).
Proof.
  revert pre. induction secs as [|s secs IH]; intros pre Hoff Hsz Hpos Hb Hbound Hlo.
  - rewrite Hsz, app_nil_r. rewrite decide_False by lia. by exists (FlashSector 0 0).
  - assert (Hs0 : fa_off s = bs + zsum pre) by (rewrite (Hoff 0%nat s) by done; unfold sector_off; cbn; lia).
    rewrite fmap_cons in Hsz. rewrite Hsz in Hpos. apply Forall_app in Hpos as [Hp1 Hp2].
    inversion Hp2 as [|? ? Hfs Hp3]; subst.
    pose proof (zsum_nonneg _ Hp1). pose proof (zsum_nonneg _ Hp3).
    assert (Hsum : zsum (pre ++ fa_size s :: (fa_size <$> secs)) =
      zsum pre + (fa_size s + zsum (fa_size <$> secs))) by (by rewrite zsum_app).
    rewrite Hsum in Hbound. cbn [find_sector].
    rewrite (u32_small (fa_off s - bs)) by (unfold_uint; lia).
    rewrite u32_small by (unfold_uint; lia).
    rewrite (proj2 (Z.leb_le _ _)) by lia. cbn [andb].
    destruct (off <? _) eqn:Hlt; zsimp.
    + rewrite decide_True by lia. eexists. split; [|done].
      exists (length pre), (fa_size s). split_and!; [by rewrite list_lookup_middle|..].
      * f_equal. unfold sector_off. rewrite take_app_length. lia.
      * cbn. lia.
      * cbn. lia.
    + apply (IH (pre ++ [fa_size s])).
      * intros i s' Hi. rewrite (Hoff (S i) s' Hi), zsum_app.
        unfold sector_off, zsum. cbn. lia.
      * by rewrite <- app_assoc.
      * by apply Forall_app.
      * done.
      * rewrite Hsum. lia.
      * rewrite zsum_app. unfold zsum at 2. cbn. lia.
Qed.

(** ** Devices *)

Lemma zlen_dev_cells l p v d : dev_ok l p v d → zlen (dev_cells d) = zsum l.
Proof.
  intros Hd. pose proof (do_data _ _ _ _ Hd). pose proof (do_safe _ _ _ _ Hd).
  unfold dev_cells, zlen in *. rewrite length_zip_with. lia.
Qed.


Lemma vals_dev_cells l p v d : dev_ok l p v d → vals (dev_cells d) = sf_data d.
Proof.
  intros Hd. pose proof (do_data _ _ _ _ Hd). pose proof (do_safe _ _ _ _ Hd).
  unfold vals, dev_cells. rewrite fmap_zip_with_l; [done|done|]. unfold zlen in *. lia.
Qed.


Lemma all_fresh_safe l p v d off n :
  dev_ok l p v d → 0 <= off → 0 <= n → off + n <= zsum l →
  all_fresh (slice (dev_cells d) off n) → forallb id (slice (sf_write_safe d) off n) = true.
Proof.
  intros Hdo Ho Hn Hend Hfr. pose proof (do_data _ _ _ _ Hdo). pose proof (do_safe _ _ _ _ Hdo).
  apply Is_true_true, forallb_True, Forall_lookup. intros i x Hx.
  unfold all_fresh in Hfr. rewrite Forall_lookup in Hfr.
  rewrite lookup_slice in Hx. case_decide; [|done].
  destruct (lookup_lt_is_Some_2 (sf_data d) (Z.to_nat off + i)) as [x0 Hv]; [unfold zlen in *; lia|].
  specialize (Hfr i (Cell x0 x)). rewrite lookup_slice, decide_True in Hfr by done.
  unfold dev_cells in Hfr. rewrite lookup_zip_with, Hv, Hx in Hfr. cbn in Hfr.
  unfold id. by rewrite (Hfr eq_refl).
Qed.


Section Laws.
  Context (slots : list area) (flash_params : gmap Z flash_param) (layout : gmap Z (list Z)).
  Context (verify : Z → bool) (Hwf : sim_wf slots flash_params layout).

#[local] Existing Instance sim_flash_map.

Lemma sim_area_slot fa :
  sim_area slots fa →
  ∃ i s, list_find (λ s, whole s = fa) slots = Some (i, s) ∧ whole s = fa ∧ s ∈ slots ∧
    sim_sizes slots fa = fa_size <$> areas s ∧ area_wf flash_params layout s.
Proof using Hwf verify.
  intros (a & Ha & Hfa). unfold sim_sizes.
  destruct (list_find _ slots) as [[i s]|] eqn:Hf.
  - apply list_find_Some in Hf as (Hi & Hs & _). exists i, s.
    pose proof (list_elem_of_lookup_2 _ _ _ Hi) as Hin. do 4 (split; [done|]).
    pose proof (sw_areas _ _ _ Hwf) as Hall. rewrite list.Forall_forall in Hall. by apply Hall.
  - apply list_find_None in Hf. rewrite list.Forall_forall in Hf. by destruct (Hf a Ha).
Qed.

(** The device behind an area. *)
Lemma sim_area_dev w fa :
  sim_ok flash_params verify layout w → sim_area slots fa →
  ∃ d l p, flash_map w !! fa_device_id fa = Some d ∧ dev_ok l p (verify (fa_device_id fa)) d ∧
    layout !! fa_device_id fa = Some l ∧ flash_params !! fa_device_id fa = Some p ∧
    0 <= fa_off fa ∧ 0 < fa_size fa ∧ fa_off fa + fa_size fa <= zsum l ∧
    fa_off fa + fa_size fa < 2147483648.
Proof using Hwf verify.
  intros Hok Hfa. destruct (sim_area_slot fa Hfa) as (i & s & _ & <- & Hin & _ & [Hl Hs _ Hb Hp]).
  destruct Hl as (pre & post & Hl & Hpre). destruct Hp as (p & k & Hp & _).
  destruct (Hok _ _ _ Hl Hp) as (d & Hd & Hdo). exists d, (pre ++ (fa_size <$> areas s) ++ post), p. split_and!; try done; try lia.
  rewrite !zsum_app. pose proof (sw_pos _ _ _ Hwf _ _ Hl) as Hpos.
  apply Forall_app in Hpos as [_ [_ Hpost]%Forall_app]. pose proof (zsum_nonneg _ Hpost). lia.
Qed.

Lemma sim_cells_eq w fa d :
  flash_map w !! fa_device_id fa = Some d →
  sim_cells w fa = slice (dev_cells d) (fa_off fa) (fa_size fa).
Proof. intros Hd. unfold sim_cells. by rewrite Hd. Qed.

(** ** The reset counter *)

Lemma sim_tick_wp (Q : unit → sim_world → Prop) (C : sim_world → Prop) w :
  (∀ w', flash_map w' = flash_map w → Q () w' ∧ C w') → wp sim_tick Q C w.
Proof. intros H. unfold wp, sim_tick. destruct (_ =? 0); by apply H. Qed.

Lemma sim_cells_map w w' fa : flash_map w' = flash_map w → sim_cells w' fa = sim_cells w fa.
Proof. intros H. unfold sim_cells. by rewrite H. Qed.

Lemma sim_ok_map w w' :
  flash_map w' = flash_map w → sim_ok flash_params verify layout w → sim_ok flash_params verify layout w'.
Proof. unfold sim_ok. by intros ->. Qed.

(** Updating a window of one device changes one area. *)
Lemma sim_update w w' fa d d' l p off cs :
  sim_ok flash_params verify layout w → sim_area slots fa →
  flash_map w !! fa_device_id fa = Some d → dev_ok l p (verify (fa_device_id fa)) d →
  layout !! fa_device_id fa = Some l → flash_params !! fa_device_id fa = Some p →
  flash_map w' = <[fa_device_id fa := d']> (flash_map w) → dev_ok l p (verify (fa_device_id fa)) d' →
  0 <= off → off + zlen cs <= fa_size fa → fa_off fa + fa_size fa <= zsum l → 0 <= fa_off fa →
  dev_cells d' = splice (dev_cells d) (fa_off fa + off) cs →
  sim_ok flash_params verify layout w' ∧ sim_cells w' fa = splice (sim_cells w fa) off cs ∧
  ∀ fa', sim_area slots fa' → fa' ≠ fa → sim_cells w' fa' = sim_cells w fa'.
Proof using Hwf verify.
  intros Hok Hfa Hd Hdo Hl Hp Hw' Hdo' Hoff Hend Hin Hfo Hcells.
  pose proof (zlen_dev_cells _ _ _ _ Hdo) as Hlen. pose proof (zlen_nonneg cs).
  assert (Hd' : flash_map w' !! fa_device_id fa = Some d') by (rewrite Hw'; apply lookup_insert_eq).
  split_and!.
  - intros id l0 p0 Hl0 Hp0. destruct (decide (id = fa_device_id fa)) as [->|Hne].
    + exists d'. split; [done|]. congruence.
    + rewrite Hw', lookup_insert_ne by done. by apply Hok.
  - rewrite (sim_cells_eq _ _ _ Hd'), (sim_cells_eq _ _ _ Hd), Hcells.
    apply slice_of_splice_in; lia.
  - intros fa' Hfa' Hne. destruct (decide (fa_device_id fa' = fa_device_id fa)) as [Heq|Hned].
    + rewrite (sim_cells_eq w' fa' d') by (by rewrite Heq).
      rewrite (sim_cells_eq w fa' d) by (by rewrite Heq). rewrite Hcells.
      destruct Hfa as (a & Ha & <-), Hfa' as (a' & Ha' & <-).
      destruct (sw_disjoint _ _ _ Hwf a' a Ha' Ha Hne) as [?|Hdis]; [done|].
      pose proof (sw_areas _ _ _ Hwf) as Hall. rewrite list.Forall_forall in Hall.
      pose proof (aw_bounds _ _ _ (Hall a' Ha')) as (? & ? & _).
      apply slice_splice_disj; lia.
    + unfold sim_cells. by rewrite Hw', lookup_insert_ne.
Qed.

(** ** The laws *)

Lemma sim_read_law w fa off len :
  sim_ok flash_params verify layout w → sim_area slots fa → 0 <= off → 0 <= len → off + len <= fa_size fa →
  sim_area_read fa off len w = (Ret (0, slice (vals (sim_cells w fa)) off len), w).
Proof using Hwf verify.
  intros Hok Hfa Ho Hl Hend.
  destruct (sim_area_dev w fa Hok Hfa) as (d & l & p & Hd & Hdo & _ & _ & ? & ? & ? & ?).
  unfold sim_area_read, sim_flash_read, sf_read. rewrite Hd, u32_small by (unfold_uint; lia).
  pose proof (do_data _ _ _ _ Hdo). rewrite (proj2 (Z.ltb_ge _ _)) by lia.
  rewrite (sim_cells_eq _ _ _ Hd), vals_slice, (vals_dev_cells _ _ _ _ Hdo), slice_slice by lia.
  done.
Qed.

Lemma land_align x k : 0 <= k → Z.land x (2 ^ k - 1) = x mod 2 ^ k.
Proof. intros Hk. rewrite <- Z.land_ones by done. by rewrite Z.ones_equiv, <- Z.sub_1_r. Qed.

Lemma cells_of_bytes d : zip_with Cell d (replicate (length d) false) = written d.
Proof. rewrite zip_with_replicate_r_eq by done. done. Qed.

Lemma cells_of_erase ev n : zip_with Cell (replicate n ev) (replicate n true) = replicate n (Cell ev true).
Proof. rewrite zip_with_replicate_r_eq by (by rewrite length_replicate). by rewrite fmap_replicate. Qed.

Lemma sim_align_eq fa p :
  flash_params !! fa_device_id fa = Some p → sim_area_align flash_params fa = p_align p.
Proof. intros Hp. unfold sim_area_align. by rewrite Hp. Qed.

Lemma sim_ev_eq fa p :
  flash_params !! fa_device_id fa = Some p → sim_area_erased_val flash_params fa = p_erased_val p.
Proof. intros Hp. unfold sim_area_erased_val. by rewrite Hp. Qed.

Lemma sim_write_law w fa off d :
  sim_ok flash_params verify layout w → sim_area slots fa → 0 <= off → off + zlen d <= fa_size fa →
  off mod sim_area_align flash_params fa = 0 → zlen d mod sim_area_align flash_params fa = 0 →
  Forall is_u8 d →
  verify (fa_device_id fa) = false ∨ all_fresh (slice (sim_cells w fa) off (zlen d)) →
  let done w' := sim_ok flash_params verify layout w' ∧
    sim_cells w' fa = splice (sim_cells w fa) off (written d) ∧
    ∀ fa', sim_area slots fa' → fa' ≠ fa → sim_cells w' fa' = sim_cells w fa' in
  wp (sim_area_write fa off d) (λ rc w', rc = 0 ∧ done w')
    (λ w', done w' ∨ (sim_ok flash_params verify layout w' ∧
       ∀ fa', sim_area slots fa' → sim_cells w' fa' = sim_cells w fa')) w.
Proof using Hwf verify.
  intros Hok Hfa Ho Hend Hao Hal Hby Hfr done.
  destruct (sim_area_dev w fa Hok Hfa) as (dv & l & p & Hd & Hdo & Hly & Hp & ? & ? & ? & ?).
  unfold sim_area_write. apply wp_bind, sim_tick_wp. intros w1 Hw1. split.
  2: { right. split; [by apply (sim_ok_map w)|]. intros. by apply sim_cells_map. }
  destruct (sim_area_slot fa Hfa) as (_ & sl & _ & <- & _ & _ & Hawf).
  destruct (aw_param _ _ _ Hawf) as (p0 & k & Hp0 & Hk & Hpa & _ & _ & Hfo).
  rewrite Hp in Hp0. injection Hp0 as <-. rewrite (sim_align_eq _ _ Hp), Hpa in Hao, Hal.
  pose proof (zlen_nonneg d). pose proof (do_data _ _ _ _ Hdo). pose proof (do_safe _ _ _ _ Hdo).
  unfold wp, sim_flash_write. rewrite Hw1, Hd. unfold sf_write.
  rewrite u32_small by (unfold_uint; lia). rewrite (proj2 (Z.ltb_ge _ _)) by lia.
  rewrite (do_align _ _ _ _ Hdo), Hpa, !land_align, Hal by lia.
  rewrite Z.add_mod, Hfo, Hao by (apply Z.pow_nonzero; lia). rewrite Zmod_0_l. cbn [negb Z.eqb Z.add].
  replace (sf_verify_writes dv && _) with false; [split; [done|]|symmetry].
  2: { rewrite (do_verify _ _ _ _ Hdo). destruct Hfr as [-> |Hfr]; [done|].
       rewrite (all_fresh_safe l p _ dv) by (done || lia ||
         (rewrite (sim_cells_eq _ _ _ Hd) in Hfr; by rewrite slice_slice in Hfr by lia)).
       apply andb_false_r. }
  eapply (sim_update w _ _ dv _ l p); [done..|cbn; by rewrite Hw1| | | |done|done|].
  - destruct Hdo. split; cbn; try done; rewrite ?zlen_splice; try lia;
      rewrite ?zlen_replicate; unfold zlen in *; try lia.
    unfold splice. apply Forall_app. split; [by apply Forall_take|].
    apply Forall_app. split; [done|by apply Forall_drop].
  - done.
  - by rewrite zlen_written.
  - unfold dev_cells. cbn. rewrite zip_splice; [by rewrite cells_of_bytes|lia| |
      |]; rewrite ?zlen_replicate; unfold zlen in *; lia.
Qed.

(** Whole sectors of an area are whole sectors of its device. *)
Lemma sim_erase_aligned a d l p v off len :
  area_wf flash_params layout a → dev_ok l p v d → layout !! fa_device_id (whole a) = Some l →
  sector_range (fa_size <$> areas a) off len →
  0 <= off ∧ 0 < len ∧ off + len <= fa_size (whole a) ∧
  ∃ s e n, sf_get_sector (sf_sectors d) (fa_off (whole a) + off) = Some (s, 0) ∧
    sf_get_sector (sf_sectors d) (fa_off (whole a) + off + len - 1) = Some (e, n - 1) ∧
    sf_sectors d !! e = Some n.
Proof using Hwf verify.
  intros Ha Hdo Hl (i & j & Hij & Hoff & Hend).
  destruct (aw_layout _ _ _ Ha) as (pre & post & Hl' & Hpre). rewrite Hl in Hl'. injection Hl' as ->.
  pose proof (sw_pos _ _ _ Hwf _ _ Hl) as Hpos. pose proof Hpos as [_ [Hs _]%Forall_app]%Forall_app.
  set (sizes := fa_size <$> areas a) in *. rewrite (do_sectors _ _ _ _ Hdo).
  destruct (lookup_lt_is_Some_2 sizes i) as [ni Hi]; [lia|].
  destruct (lookup_lt_is_Some_2 sizes (j - 1)) as [nj Hj]; [lia|].
  pose proof (proj1 (Forall_lookup _ _) Hs _ _ Hi) as Hni. cbn in Hni.
  pose proof (proj1 (Forall_lookup _ _) Hs _ _ Hj) as Hnj. cbn in Hnj.
  pose proof (sector_off_S _ _ _ Hi) as Hsi. pose proof (sector_off_S _ _ _ Hj) as Hsj.
  replace (S (j - 1)) with j in Hsj by lia.
  pose proof (sector_off_mono sizes (S i) j Hs ltac:(lia)) as Hm1.
  pose proof (sector_off_mono sizes 0 i Hs ltac:(lia)) as Hm0.
  pose proof (sector_off_mono sizes j (length sizes) Hs ltac:(lia)) as Hm2.
  rewrite sector_off_full in Hm2. pose proof (aw_size _ _ _ Ha) as Hsz. fold sizes in Hsz.
  assert (sector_off sizes 0 = 0) by done.
  assert (Hat : ∀ (q : nat) n o, sizes !! q = Some n → 0 <= o < n →
    sf_get_sector (pre ++ sizes ++ post) (fa_off (whole a) + (sector_off sizes q + o)) =
      Some ((length pre + q)%nat, o) ∧ (pre ++ sizes ++ post) !! (length pre + q)%nat = Some n).
  { intros q n o Hq Ho. pose proof (lookup_lt_Some _ _ _ Hq) as Hql.
    assert (Hlk : (pre ++ sizes ++ post) !! (length pre + q)%nat = Some n).
    { rewrite lookup_app_r by lia. rewrite lookup_app_l by lia. by rewrite Nat.add_comm, Nat.add_sub. }
    split; [|done]. rewrite <- (sf_get_sector_at _ _ _ _ Hpos Hlk Ho). f_equal.
    rewrite sector_off_app by lia. lia. }
  split_and!; [lia..|].
  exists (length pre + i)%nat, (length pre + (j - 1))%nat, nj.
  destruct (Hat i ni 0 Hi) as [H1 _]; [lia|]. destruct (Hat (j - 1)%nat nj (nj - 1) Hj) as [H2 H3]; [lia|].
  split_and!; [rewrite <- H1; f_equal; lia|rewrite <- H2; f_equal; lia|done].
Qed.

Lemma sim_erase_law w fa off len :
  sim_ok flash_params verify layout w → sim_area slots fa → sector_range (sim_sizes slots fa) off len →
  let done w' := sim_ok flash_params verify layout w' ∧
    sim_cells w' fa =
      splice (sim_cells w fa) off (erased (sim_area_erased_val flash_params fa) len) ∧
    ∀ fa', sim_area slots fa' → fa' ≠ fa → sim_cells w' fa' = sim_cells w fa' in
  wp (sim_area_erase fa off len) (λ rc w', rc = 0 ∧ done w')
    (λ w', done w' ∨ (sim_ok flash_params verify layout w' ∧
       ∀ fa', sim_area slots fa' → sim_cells w' fa' = sim_cells w fa')) w.
Proof using Hwf verify.
  intros Hok Hfa Hrange done.
  destruct (sim_area_dev w fa Hok Hfa) as (dv & l & p & Hd & Hdo & Hly & Hp & ? & ? & ? & ?).
  unfold sim_area_erase. apply wp_bind, sim_tick_wp. intros w1 Hw1. split.
  2: { right. split; [by apply (sim_ok_map w)|]. intros. by apply sim_cells_map. }
  destruct (sim_area_slot fa Hfa) as (_ & sl & _ & <- & _ & Hsz & Hawf). rewrite Hsz in Hrange.
  destruct (sim_erase_aligned sl dv l p _ off len Hawf Hdo Hly Hrange)
    as (? & ? & ? & s & e & n & Hgs & Hge & Hn).
  pose proof (do_data _ _ _ _ Hdo). pose proof (do_safe _ _ _ _ Hdo).
  unfold wp, sim_flash_erase. rewrite Hw1, Hd. unfold sf_erase.
  rewrite u32_small by (unfold_uint; lia). rewrite Hgs.
  rewrite (proj2 (Z.ltb_ge _ _)) by lia. rewrite Hge, Hn. cbn [default negb Z.eqb].
  rewrite Z.eqb_refl. cbn [negb]. rewrite (proj2 (Z.ltb_ge _ _)) by lia. split; [done|].
  eapply (sim_update w _ _ dv _ l p); [done..|cbn; by rewrite Hw1| | | |done|done|].
  - destruct Hdo as [Hs Ha He Hv Hdl Hsl Hb]. destruct (aw_param _ _ _ Hawf) as (p0 & k & Hp0 & _ & _ & Hev & _).
    rewrite Hp in Hp0. injection Hp0 as <-.
    split; cbn; try done; rewrite ?zlen_splice; try lia; rewrite ?zlen_replicate; try lia.
    unfold splice. apply Forall_app. split; [by apply Forall_take|].
    apply Forall_app. split; [apply Forall_replicate; by rewrite He|by apply Forall_drop].
  - done.
  - rewrite zlen_erased by lia. done.
  - unfold dev_cells. cbn. rewrite zip_splice; rewrite ?zlen_replicate; try lia.
    rewrite cells_of_erase, (do_ev _ _ _ _ Hdo). unfold erased. by rewrite (sim_ev_eq _ _ Hp).
Qed.

Lemma sim_get_sector_law w fa off :
  sim_ok flash_params verify layout w → sim_area slots fa → 0 <= off →
  if decide (off < fa_size fa) then
    ∃ s, sector_at (sim_sizes slots fa) off s ∧ sim_area_get_sector slots fa off w = (Ret (0, s), w)
  else ∃ s, sim_area_get_sector slots fa off w = (Ret (-1, s), w).
Proof using Hwf verify.
  intros Hok Hfa Ho. destruct (sim_area_slot fa Hfa) as (i & sl & Hf & Hw & Hin & Hsz & Hawf).
  unfold sim_area_get_sector. rewrite Hf, Hsz, <- Hw.
  destruct (aw_layout _ _ _ Hawf) as (pre & post & Hl & _).
  pose proof (sw_pos _ _ _ Hwf _ _ Hl) as [_ [Hs _]%Forall_app]%Forall_app.
  pose proof (aw_size _ _ _ Hawf) as Hsum. pose proof (aw_bounds _ _ _ Hawf) as (? & ? & ?).
  pose proof (find_sector_spec (fa_off (whole sl)) (areas sl) (fa_size <$> areas sl) [] off) as Hspec.
  rewrite Hsum in Hspec. rewrite Z.add_0_r in Hspec.
  specialize (Hspec (aw_areas _ _ _ Hawf) eq_refl Hs ltac:(lia) ltac:(lia) Ho).
  case_decide.
  - destruct Hspec as (s & Hat & ->). by exists s.
  - destruct Hspec as (s & ->). by exists s.
Qed.

#[export] Instance sim_flash_map_ok : @FlashMapOk sim_world (sim_flash_map slots flash_params).
Proof using Hwf verify.
  refine (Build_FlashMapOk sim_world (sim_flash_map slots flash_params)
    (sim_ok flash_params verify layout) (sim_area slots) sim_cells (sim_sizes slots)
    (λ fa, verify (fa_device_id fa) = false) _ _ _ _ _ _ _ _ _ _ _ _).
  - intros fa Hfa. destruct (sim_area_slot fa Hfa) as (_ & s & _ & <- & _ & _ & Ha).
    apply (aw_bounds _ _ _ Ha).
  - intros fa Hfa. destruct (sim_area_slot fa Hfa) as (_ & s & _ & <- & _ & -> & Ha).
    destruct (aw_layout _ _ _ Ha) as (pre & post & Hl & _).
    pose proof (sw_pos _ _ _ Hwf _ _ Hl) as [_ [Hs _]%Forall_app]%Forall_app.
    split; [done|]. rewrite sector_off_full. apply (aw_size _ _ _ Ha).
  - intros fa Hfa. destruct (sim_area_slot fa Hfa) as (_ & s & _ & <- & _ & _ & Ha).
    destruct (aw_param _ _ _ Ha) as (p & k & Hp & Hk & Hpa & _).
    exists k. split; [done|]. cbn. by rewrite (sim_align_eq _ _ Hp).
  - intros fa Hfa. destruct (sim_area_slot fa Hfa) as (_ & s & _ & <- & _ & -> & Ha).
    destruct (aw_param _ _ _ Ha) as (p & k & Hp & Hk & Hpa & _ & Hal & _).
    cbn. by rewrite (sim_align_eq _ _ Hp), Hpa.
  - intros fa Hfa. destruct (sim_area_slot fa Hfa) as (_ & s & _ & <- & _ & _ & Ha).
    destruct (aw_param _ _ _ Ha) as (p & k & Hp & _ & _ & Hev & _). cbn. by rewrite (sim_ev_eq _ _ Hp).
  - intros w fa Hok Hfa. destruct (sim_area_dev w fa Hok Hfa) as (d & l & p & Hd & Hdo & _ & _ & ? & ? & ? & _).
    rewrite (sim_cells_eq _ _ _ Hd). apply zlen_slice; rewrite ?(zlen_dev_cells _ _ _ _ Hdo); lia.
  - intros w fa Hok Hfa. destruct (sim_area_dev w fa Hok Hfa) as (d & l & p & Hd & Hdo & _).
    rewrite (sim_cells_eq _ _ _ Hd), vals_slice, (vals_dev_cells _ _ _ _ Hdo).
    apply Forall_slice, (do_bytes _ _ _ _ Hdo).
  - apply sim_read_law.
  - apply sim_write_law.
  - apply sim_erase_law.
  - intros w fa off Hok Hfa Ho. pose proof (sim_get_sector_law w fa off Hok Hfa ltac:(lia)) as Hg.
    rewrite decide_True in Hg by lia. done.
  - intros w fa off Hok Hfa Ho.
    destruct (sim_area_dev w fa Hok Hfa) as (_ & _ & _ & _ & _ & _ & _ & _ & ? & _).
    pose proof (sim_get_sector_law w fa off Hok Hfa ltac:(lia)) as Hg.
    rewrite decide_False in Hg by lia. destruct Hg as (s & Hg). by exists (-1), s.
Defined.

End Laws.
