(* ===== verification/AnyFlash.v ===== *)
(** * Flash operations with arbitrary arguments

    The laws of FlashMap.v say what an operation does within its contract.  Code that
    runs on contents an attacker may have chosen can also call the driver outside of
    it; the laws here say what remains true then: the flash stays a flash, reads change
    nothing and deliver bytes, a write within an area does not touch the others.  They are proved for the simulator. *)

From stdpp Require Import gmap.
From S2P Require Import Prelude Effects Partial FlashMap SimFlash.
#[local] Open Scope mcu_scope.

Class AnyFlash (W : Type) `{FlashMapOk W} := {
  any_ok : W → Prop;
  any_fm_ok w : any_ok w → fm_ok w;
  any_open w id : any_ok w → snd (flash_area_open id w) = w;
  any_read w fa off len : any_ok w →
    ∃ rc b, flash_area_read fa off len w = (Ret (rc, b), w) ∧ Forall is_u8 b;
  any_write fa off d : Forall is_u8 d → keeps any_ok (flash_area_write fa off d) (λ _, True);
  any_erase fa off len : keeps any_ok (flash_area_erase fa off len) (λ _, True);
  any_get_sector w fa off : any_ok w → snd (flash_area_get_sector fa off w) = w;
  any_erased_val fa : is_u8 (flash_area_erased_val fa);
  any_write_frame w fa off d : any_ok w → fm_area fa → 0 <= off → off + zlen d <= fa_size fa → Forall is_u8 d →
    returns (flash_area_write fa off d)
      (λ _ w', ∀ fb, fm_area fb → fb ≠ fa → fm_cells w' fb = fm_cells w fb) w;
}.

(** A stronger invariant, for code that does not write. *)
Class Refines {W : Type} `{AnyFlash W} (I : W → Prop) : Prop := refines w : I w → any_ok w.

#[export] Instance refines_any {W} `{AnyFlash W} : Refines any_ok.
Proof. by intros w. Qed.

Section Readers.
  Context {W : Type} `{AnyFlash W} (I : W → Prop) `{!Refines I}.

Lemma keeps_same {A} (c : M W A) : (∀ w, any_ok w → snd (c w) = w) → keeps I c (λ _, True).
Proof using All.
  intros Hc w Hw. specialize (Hc w (refines w Hw)). unfold returns. destruct (c w) as [[] w']; try done.
  cbn in Hc. by subst.
Qed.

Lemma keeps_open id : keeps I (flash_area_open id) (λ _, True).
Proof using All. apply keeps_same. intros. by apply any_open. Qed.

Lemma keeps_get_sector fa off : keeps I (flash_area_get_sector fa off) (λ _, True).
Proof using All. apply keeps_same. intros. by apply any_get_sector. Qed.

Lemma keeps_read fa off len : keeps I (flash_area_read fa off len) (λ r, Forall is_u8 (snd r)).
Proof using All.
  intros w Hw. destruct (any_read w fa off len (refines w Hw)) as (rc & b & Heq & Hb). unfold returns. by rewrite Heq.
Qed.

End Readers.

#[export] Hint Resolve refines_any keeps_open keeps_get_sector keeps_read any_erase : keep.

(** ** The simulator *)

Lemma sf_get_sector_below l off r :
  Forall (λ n, 0 < n) l → sf_get_sector l off = Some r → off < zsum l.
Proof.
  revert off r. induction l as [|n l IH]; intros off r Hl; cbn [sf_get_sector]; [done|].
  inversion_clear Hl as [|? ? Hn Hl']. pose proof (zsum_nonneg _ Hl'). unfold zsum in *. cbn [foldr].
  destruct (off <? n) eqn:Hlt; zsimp; [lia|]. destruct (sf_get_sector l (off - n)) as [[k o]|] eqn:Hg; [|done].
  intros _. specialize (IH _ _ Hl' Hg). lia.
Qed.

(** The bytes of a device. *)
Record dev_bytes (d : sim_flash) : Prop := {
  db_data : Forall is_u8 (sf_data d);
  db_erased : is_u8 (sf_erased_val d);
}.

Definition splice_dev (d : sim_flash) off data safe : sim_flash :=
  SimFlash (splice (sf_data d) off data) (splice (sf_write_safe d) off safe)
    (sf_sectors d) (sf_align d) (sf_verify_writes d) (sf_erased_val d).

Lemma splice_dev_ok l p v d off data safe :
  dev_ok l p v d → 0 <= off → off + zlen data <= zsum l → zlen safe = zlen data → Forall is_u8 data →
  dev_ok l p v (splice_dev d off data safe).
Proof.
  intros [] ??? Hb. pose proof (zlen_nonneg data).
  constructor; cbn; try done; [rewrite zlen_splice; lia|rewrite zlen_splice; lia|by apply Forall_splice].
Qed.

Lemma splice_dev_bytes d off data safe :
  dev_bytes d → Forall is_u8 data → dev_bytes (splice_dev d off data safe).
Proof. intros [] ?. constructor; [by apply Forall_splice|done]. Qed.

Section Any.
  Context (slots : list area) (flash_params : gmap Z flash_param) (layout : gmap Z (list Z)).
  Context (verify : Z → bool) (Hwf : sim_wf slots flash_params layout).
  Hypothesis Hev : ∀ id p, flash_params !! id = Some p → is_u8 (p_erased_val p).

#[local] Existing Instance sim_flash_map.
#[local] Existing Instance sim_flash_map_ok.

Definition sim_any_ok (w : sim_world) : Prop :=
  sim_ok flash_params verify layout w ∧ map_Forall (λ _ d, dev_bytes d) (flash_map w).

Lemma sim_tick_keeps : keeps sim_any_ok sim_tick (λ _, True).
Proof using Type.
  intros w [Hw Hd]. unfold returns, sim_tick. case_if Hc; [done|]. split; [done|]. split; [by eapply sim_ok_map|done].
Qed.

(** Replacing a part of a device. *)
Lemma put_dev_ok w id d off data safe :
  sim_any_ok w → flash_map w !! id = Some d → 0 <= off → zlen safe = zlen data → Forall is_u8 data →
  (∀ l p, layout !! id = Some l → dev_ok l p (verify id) d → off + zlen data <= zsum l) →
  sim_any_ok (put_dev w id (splice_dev d off data safe)).
Proof using Type.
  intros [Hw Hall] Hd Ho Hlen Hb Hk. split.
  - intros id' l p Hl Hp. cbn [flash_map put_dev]. destruct (decide (id' = id)) as [->|Hne].
    + eexists. rewrite lookup_insert_eq. split; [done|].
      destruct (Hw id l p Hl Hp) as (d0 & Hd0 & Hdo). simplify_eq. by apply splice_dev_ok; eauto.
    + rewrite lookup_insert_ne by done. by apply Hw.
  - cbn [flash_map put_dev]. apply map_Forall_insert_2; [|done]. apply splice_dev_bytes; [by eapply Hall|done].
Qed.

Lemma sim_write_keeps fa off d :
  Forall is_u8 d → keeps sim_any_ok (sim_area_write fa off d) (λ _, True).
Proof using Type.
  intros Hb. unfold sim_area_write. eapply keeps_bind; [apply sim_tick_keeps|]. intros _ _ w Hw.
  unfold returns, sim_flash_write. destruct (flash_map w !! _) as [dv|] eqn:Hd; [|done]. unfold sf_write.
  set (o := fa_off fa ⊕ off) in *. assert (0 <= o) by (unfold o, u32; lia). pose proof (zlen_nonneg d).
  repeat (let Hc := fresh "Hc" in case_if Hc); try done. split; [done|]. eapply put_dev_ok; try done.
  - unfold zlen. by rewrite length_replicate.
  - intros l p _ Hdo. pose proof (do_data _ _ _ _ Hdo). lia.
Qed.

Lemma sim_erase_keeps fa off len : keeps sim_any_ok (sim_area_erase fa off len) (λ _, True).
Proof using Hwf.
  unfold sim_area_erase. eapply keeps_bind; [apply sim_tick_keeps|]. intros _ _ w Hw.
  unfold returns, sim_flash_erase. destruct (flash_map w !! _) as [dv|] eqn:Hd; [|done]. unfold sf_erase.
  set (o := fa_off fa ⊕ off) in *. assert (0 <= o) by (unfold o, u32; lia).
  destruct (sf_get_sector (sf_sectors dv) o) as [[? ?]|]; [|done]. case_if Hc; [done|].
  destruct (sf_get_sector (sf_sectors dv) (o + len - 1)) as [[? ?]|] eqn:Hend; [|done].
  repeat (let Hc := fresh "Hc" in case_if Hc); try done. split; [done|]. eapply put_dev_ok; try done.
  - unfold zlen. by rewrite !length_replicate.
  - apply Forall_replicate. by eapply db_erased, (proj2 Hw).
  - intros l p Hl Hdo. rewrite (do_sectors _ _ _ _ Hdo) in Hend.
    pose proof (sf_get_sector_below _ _ _ (sw_pos _ _ _ Hwf _ _ Hl) Hend).
    unfold zlen. rewrite length_replicate. lia.
Qed.

Lemma sim_write_frame w fa off d :
  sim_any_ok w → sim_area slots fa → 0 <= off → off + zlen d <= fa_size fa → Forall is_u8 d →
  returns (sim_area_write fa off d)
    (λ _ w', ∀ fb, sim_area slots fb → fb ≠ fa → sim_cells w' fb = sim_cells w fb) w.
Proof using Hwf.
  intros [Hok _] Hfa Ho Hend Hb. pose proof (zlen_nonneg d).
  destruct (sim_area_dev slots flash_params layout verify Hwf w fa Hok Hfa) as (dv & l & p & Hd & Hdo & Hly & Hp & ? & ? & ? & ?).
  unfold sim_area_write. eapply returns_bind, returns_wp, (sim_tick_wp _ (λ _, True)). intros w1 Hw1. split; [|done].
  unfold returns, sim_flash_write. rewrite Hw1, Hd. unfold sf_write. rewrite u32_small by (unfold_uint; lia).
  repeat (let Hc := fresh "Hc" in case_if Hc; [done|]).
  pose proof (do_data _ _ _ _ Hdo). pose proof (do_safe _ _ _ _ Hdo).
  eapply (sim_update slots flash_params layout verify Hwf w _ fa dv _ l p off (written d));
    [done..|cbn; by rewrite Hw1| |done|by rewrite zlen_written|done|done|].
  - apply (splice_dev_ok l p _ dv (fa_off fa + off) d); [done|lia|lia|by rewrite zlen_replicate|done].
  - unfold dev_cells. cbn. rewrite zip_splice; [by rewrite cells_of_bytes|lia| | |]; rewrite ?zlen_replicate; unfold zlen in *; lia.
Qed.

#[export] Instance sim_any_flash :
  @AnyFlash sim_world (sim_flash_map slots flash_params) (sim_flash_map_ok slots flash_params layout verify Hwf).
Proof using Hev.
  refine (Build_AnyFlash _ _ _ sim_any_ok _ _ _ _ _ _ _ _); cbn.
  - by intros w [].
  - intros w id _. unfold sim_area_open. by destruct (list_find _ _) as [[? ?]|].
  - intros w fa off len [_ Hw]. unfold sim_area_read, sim_flash_read, sf_read.
    destruct (flash_map w !! _) as [d|] eqn:Hd; [|by exists (-19), []]. case_if Hc; [by exists (-1), []|].
    exists 0, (slice (sf_data d) (fa_off fa ⊕ off) len). split; [done|]. by eapply Forall_slice, db_data, Hw.
  - apply sim_write_keeps.
  - by apply sim_erase_keeps.
  - intros w fa off _. unfold sim_area_get_sector. by destruct (list_find _ _) as [[? ?]|].
  - intros fa. unfold sim_area_erased_val.
    destruct (flash_params !! _) as [p|] eqn:Hp; cbn; [by eapply Hev|by vm_compute].
  - intros w fa off d Hw Hfa. by apply sim_write_frame.
Defined.

End Any.
