(* ===== verification/Uf2.v ===== *)
(** * UF2 blocks: data, extension tags, routing and processing

    The definitions translate boot/boot_uf2/include/boot_uf2/boot_uf2.h and
    boot/boot_uf2/src/boot_uf2.c.  The flash callbacks of [uf2_cfg] are fields
    of the configuration, computations over an arbitrary world [W]; a region
    context ([void *ctx]) is a value of an arbitrary type [Ctx].  A C string is
    the list of its bytes without the terminator, [None] the null pointer.
    [struct uf2_state] is passed and returned. *)

From S2P Require Import Prelude Effects.
#[local] Open Scope mcu_scope.

Definition UF2_MAGIC_START0 : Z := 0x0A324655.
Definition UF2_MAGIC_START1 : Z := 0x9E5D5157.
Definition UF2_MAGIC_END : Z := 0x0AB16F30.
Definition UF2_FLAG_FAMILY_ID : Z := 0x00002000.
Definition UF2_FLAG_EXTENSION_TAGS : Z := 0x00008000.
Definition UF2_BLOCK_SIZE : Z := 512.
Definition UF2_PAYLOAD_SIZE : Z := 256.
Definition UF2_DATA_SIZE : Z := 476.
Definition UF2_MAX_REGIONS : Z := 4.
Definition UF2_EXT_TAG_BOARD_ID : Z := 0x4D7C3A.
Definition UF2_EXT_TAG_PARTITION : Z := 0x1F0DA8.

Record uf2_block := Uf2Block {
  magic_start0 : Z;
  magic_start1 : Z;
  flags : Z;
  target_addr : Z;
  payload_size : Z;
  block_no : Z;
  num_blocks : Z;
  family_id : Z;
  data : list Z;
  magic_end : Z;
}.

#[export] Instance uf2_block_eq_dec : EqDecision uf2_block.
Proof. solve_decision. Defined.

Record uf2_region (Ctx : Type) := Uf2Region {
  base : Z;
  size : Z;
  ctx : Ctx;
  label : option (list Z);
  address_routed : bool;
}.
Arguments Uf2Region {Ctx}.
Arguments base {Ctx}.
Arguments size {Ctx}.
Arguments ctx {Ctx}.
Arguments label {Ctx}.
Arguments address_routed {Ctx}.

Record uf2_cfg (W Ctx : Type) := Uf2Cfg {
  (** offset, the whole data field, length, context *)
  cb_write : Z → list Z → Z → Ctx → M W Z;
  (** offset, length, context *)
  cb_erase : Z → Z → Ctx → M W Z;
  cb_ctx : Ctx;
  flash_base : Z;
  flash_size : Z;
  regions : option (list (uf2_region Ctx));
  num_regions : Z;
  cfg_family_id : Z;
  board_id : option (list Z);
  erase_size : Z;
  board_name : option (list Z);
  board_url : option (list Z);
  (** offset, the destination buffer's contents, length, context: return code
      and the buffer after the call *)
  cb_read : option (Z → list Z → Z → Ctx → M W (Z * list Z));
  read_ctx : Ctx;
  readback_base : Z;
  readback_size : Z;
}.
Arguments Uf2Cfg {W Ctx}.
Arguments cb_write {W Ctx}.
Arguments cb_erase {W Ctx}.
Arguments cb_ctx {W Ctx}.
Arguments flash_base {W Ctx}.
Arguments flash_size {W Ctx}.
Arguments regions {W Ctx}.
Arguments num_regions {W Ctx}.
Arguments cfg_family_id {W Ctx}.
Arguments board_id {W Ctx}.
Arguments erase_size {W Ctx}.
Arguments board_name {W Ctx}.
Arguments board_url {W Ctx}.
Arguments cb_read {W Ctx}.
Arguments read_ctx {W Ctx}.
Arguments readback_base {W Ctx}.
Arguments readback_size {W Ctx}.

Record uf2_state := Uf2State {
  st_num_blocks : Z;
  blocks_received : Z;
  erase_frontier : list Z;
  complete : bool;
  block_map : list Z;
}.

#[export] Instance uf2_state_eq_dec : EqDecision uf2_state.
Proof. solve_decision. Defined.

Definition set_st_num_blocks (n : Z) (st : uf2_state) : uf2_state :=
  Uf2State n (blocks_received st) (erase_frontier st) (complete st) (block_map st).
Definition set_erase_frontier (f : list Z) (st : uf2_state) : uf2_state :=
  Uf2State (st_num_blocks st) (blocks_received st) f (complete st) (block_map st).

Definition uf2_is_complete (st : uf2_state) : bool := complete st.

(** [memset] of the structure and of the bitmap behind it. *)
Definition uf2_init (max_blocks : Z) : uf2_state :=
  Uf2State 0 0 (replicate (Z.to_nat UF2_MAX_REGIONS) 0) false
    (replicate (Z.to_nat ((max_blocks ⊕ 7) / 8)) 0).

(** ** Extension tags *)

Section ExtTags.
  Context {W : Type}.
  Implicit Types (block : uf2_block).

(** One iteration of the scan; the result is the return code and the offset
    in [data] that [*payload] points to. *)
Definition ext_tag_step block (tag_type : Z) (off : Z) : M W (Z + Z * Z) :=
  if off ⊕ 4 <=? UF2_DATA_SIZE then
    sz ← array_get (data block) off;
    if sz =? 0 then mret (inr (-1, 0)) else
    if (sz <? 4) || (UF2_DATA_SIZE <? off ⊕ sz) then mret (inr (-2, 0)) else
    b1 ← array_get (data block) (off ⊕ 1);
    b2 ← array_get (data block) (off ⊕ 2);
    b3 ← array_get (data block) (off ⊕ 3);
    let type := Z.lor (Z.lor b1 (u32 (Z.shiftl b2 8))) (u32 (Z.shiftl b3 16)) in
    if type =? tag_type then mret (inr (sz - 4, off ⊕ 4)) else
    mret (inl (off ⊕ Z.land (sz ⊕ 3) (u32 (Z.lnot 3))))
  else mret (inr (-2, 0)).

(** Every iteration advances by at least four bytes of the 476-byte field, so
    120 iterations are enough. *)
Definition uf2_find_ext_tag block (tag_type : Z) : M W (Z * Z) :=
  if Z.land (flags block) UF2_FLAG_EXTENSION_TAGS =? 0 then mret (-1, 0) else
  loop 120 (ext_tag_step block tag_type) (payload_size block).

(** [memcmp(&data[p], s, n) == 0] for a string [s] of [n] bytes. *)
Definition tag_payload_is block (p : Z) (s : list Z) : bool :=
  bool_decide (slice (data block) p (zlen s) = s).

End ExtTags.

(** ** Regions *)

Section Regions.
  Context {W Ctx : Type}.
  Implicit Types (cfg : uf2_cfg W Ctx) (block : uf2_block).

(** The region table when [cfg->regions != NULL && cfg->num_regions > 0]. *)
Definition region_table cfg : option (list (uf2_region Ctx)) :=
  match regions cfg with
  | Some rs => if 0 <? num_regions cfg then Some rs else None
  | None => None
  end.

Definition uf2_num_regions cfg : Z :=
  match region_table cfg with Some _ => num_regions cfg | None => 1 end.

Definition uf2_region_base cfg (idx : Z) : M W Z :=
  match region_table cfg with
  | Some rs => r ← array_get rs idx; mret (base r)
  | None => mret (flash_base cfg)
  end.

Definition uf2_region_size cfg (idx : Z) : M W Z :=
  match region_table cfg with
  | Some rs => r ← array_get rs idx; mret (size r)
  | None => mret (flash_size cfg)
  end.

Definition uf2_region_ctx cfg (idx : Z) : M W Ctx :=
  match region_table cfg with
  | Some rs => r ← array_get rs idx; mret (ctx r)
  | None => mret (cb_ctx cfg)
  end.

(** [addr >= base && addr < base + size], the sum in 32 bits. *)
Definition region_contains cfg (i addr : Z) : M W bool :=
  b ← uf2_region_base cfg i;
  s ← uf2_region_size cfg i;
  mret ((b <=? addr) && (addr <? b ⊕ s)).

Definition find_region_step cfg (addr : Z) (i : Z) : M W (Z + Z) :=
  if i <? uf2_num_regions cfg then
    routed ← match regions cfg with
             | Some rs => r ← array_get rs i; mret (address_routed r)
             | None => mret true
             end;
    if negb routed then mret (inl (u8 (i + 1))) else
    hit ← region_contains cfg i addr;
    if hit : bool then mret (inr i) else mret (inl (u8 (i + 1)))
  else mret (inr (-1)).

Definition uf2_find_region cfg (addr : Z) : M W Z :=
  loop 256 (find_region_step cfg addr) 0.

Definition find_label_step cfg block (p len : Z) (i : Z) : M W (Z + Z) :=
  if i <? uf2_num_regions cfg then
    region_label ← match regions cfg with
                   | Some rs => r ← array_get rs i; mret (label r)
                   | None => mret None
                   end;
    match region_label with
    | None => mret (inl (u8 (i + 1)))
    | Some s =>
        if (zlen s =? len) && tag_payload_is block p s then mret (inr i)
        else mret (inl (u8 (i + 1)))
    end
  else mret (inr (-1)).

(** [p], [len]: where in the block's data the label bytes are. *)
Definition uf2_find_region_by_label cfg block (p len : Z) : M W Z :=
  loop 256 (find_label_step cfg block p len) 0.

Definition uf2_route_block cfg block : M W Z :=
  '(part_name_len, part_name) ← uf2_find_ext_tag block UF2_EXT_TAG_PARTITION;
  if part_name_len =? -2 then mret (-1) else
  if 0 <=? part_name_len then
    region ← uf2_find_region_by_label cfg block part_name part_name_len;
    if region <? 0 then mret (-1) else
    b ← uf2_region_base cfg region;
    s ← uf2_region_size cfg region;
    if (target_addr block <? b) || (b ⊕ s <=? target_addr block) then mret (-1) else
    mret region
  else
    region ← uf2_find_region cfg (target_addr block);
    if region <? 0 then mret (-1) else
    mret region.

(** ** Progressive erase *)

(** The loop state is [erase_frontier[region]]; the result is the return code
    with the frontier reached. *)
Definition erase_step cfg (region region_size erase_end : Z) (frontier : Z)
    : M W (Z + Z * Z) :=
  if frontier <? erase_end then
    let len := if region_size <? frontier ⊕ erase_size cfg
               then region_size ⊖ frontier else erase_size cfg in
    c ← uf2_region_ctx cfg region;
    rc ← cb_erase cfg frontier len c;
    if negb (rc =? 0) then mret (inr (rc, frontier)) else
    mret (inl (frontier ⊕ len))
  else mret (inr (0, frontier)).

(** One iteration per erase block of the region, the last one partial. *)
Definition erase_fuel cfg (region_size : Z) : nat :=
  Z.to_nat (region_size / erase_size cfg + 2).

Definition erase_up_to cfg (st : uf2_state) (region end_offset : Z)
    : M W (Z * uf2_state) :=
  region_size ← uf2_region_size cfg region;
  frontier ← array_get (erase_frontier st) region;
  q ← udiv end_offset (erase_size cfg);
  let erase_end := (q ⊕ 1) ⊗ erase_size cfg in
  let erase_end := if region_size <? erase_end then region_size else erase_end in
  '(rc, frontier') ← loop (erase_fuel cfg region_size)
                       (erase_step cfg region region_size erase_end) frontier;
  fs ← array_set (erase_frontier st) region frontier';
  mret (rc, set_erase_frontier fs st).

(** ** Processing a block *)

(** The family and board checks: [false] means "silently ignore". *)
Definition family_matches cfg block : bool :=
  (cfg_family_id cfg =? 0) ||
  (negb (Z.land (flags block) UF2_FLAG_FAMILY_ID =? 0) &&
   (family_id block =? cfg_family_id cfg)).

Definition board_matches cfg block : M W bool :=
  match board_id cfg with
  | Some ((_ :: _) as bid) =>
      '(len, p) ← uf2_find_ext_tag block UF2_EXT_TAG_BOARD_ID;
      mret (negb ((len <? 0) || negb (len =? zlen bid) ||
                  negb (tag_payload_is block p bid)))
  | _ => mret true
  end.

Definition mark_received (st : uf2_state) (block : uf2_block) : M W uf2_state :=
  let byte_idx := block_no block / 8 in
  let bit_mask := u8 (Z.shiftl 1 (block_no block mod 8)) in
  byte ← array_get (block_map st) byte_idx;
  map ← array_set (block_map st) byte_idx (Z.lor byte bit_mask);
  let received := blocks_received st ⊕ 1 in
  mret (Uf2State (st_num_blocks st) received (erase_frontier st)
          (if st_num_blocks st <=? received then true else complete st) map).

Definition uf2_process_block cfg (st : uf2_state) block (max_blocks : Z)
    : M W (Z * uf2_state) :=
  if negb (magic_start0 block =? UF2_MAGIC_START0) ||
     negb (magic_start1 block =? UF2_MAGIC_START1) ||
     negb (magic_end block =? UF2_MAGIC_END) then mret (-1, st) else
  if match regions cfg with Some _ => UF2_MAX_REGIONS <? num_regions cfg | None => false end
  then mret (-1, st) else
  if negb (family_matches cfg block) then mret (0, st) else
  board_ok ← board_matches cfg block;
  if negb board_ok then mret (0, st) else
  if (num_blocks block =? 0) || (num_blocks block <=? block_no block) then mret (-1, st) else
  if max_blocks <? num_blocks block then mret (-1, st) else
  if (UF2_PAYLOAD_SIZE <? payload_size block) || (payload_size block =? 0)
  then mret (-1, st) else
  region ← uf2_route_block cfg block;
  if region <? 0 then mret (-1, st) else
  rbase ← uf2_region_base cfg region;
  let offset := target_addr block ⊖ rbase in
  rsize ← uf2_region_size cfg region;
  if rsize <? offset ⊕ payload_size block then mret (-1, st) else
  if negb (st_num_blocks st =? 0) && negb (st_num_blocks st =? num_blocks block)
  then mret (-1, st) else
  let st := if st_num_blocks st =? 0 then set_st_num_blocks (num_blocks block) st else st in
  byte ← array_get (block_map st) (block_no block / 8);
  if negb (Z.land byte (u8 (Z.shiftl 1 (block_no block mod 8))) =? 0)
  then mret (0, st) else
  '(rc, st) ← erase_up_to cfg st (u8 region) (offset ⊕ payload_size block);
  if negb (rc =? 0) then mret (rc, st) else
  c ← uf2_region_ctx cfg (u8 region);
  rc ← cb_write cfg offset (data block) (payload_size block) c;
  if negb (rc =? 0) then mret (rc, st) else
  st ← mark_received st block;
  mret (0, st).

End Regions.
