(* ===== verification/Uf2Tags.v ===== *)
(** * Extension tags of a UF2 block

    The scan of boot_uf2.c over the record area behind the payload: it stays
    inside the data field and terminates on every block whose payload size does
    not wrap, and it finds exactly the record an encoder put there. *)

From S2P Require Import Prelude Effects Uf2.
#[local] Open Scope mcu_scope.

Lemma lookup_byte (l : list Z) i :
  Forall is_u8 l → 0 <= i < zlen l → ∃ b, l !! Z.to_nat i = Some b ∧ is_u8 b.
Proof.
  intros Hl Hi. unfold zlen in Hi.
  destruct (lookup_lt_is_Some_2 l (Z.to_nat i)) as [b Hb]; [lia|].
  exists b. split; [done|]. by eapply Forall_lookup_1.
Qed.

(** The padded record length. *)
Lemma pad4 sz : is_u8 sz → Z.land (sz ⊕ 3) (u32 (Z.lnot 3)) = 4 * ((sz + 3) / 4).
Proof.
  intros Hsz. change 3 with (2 ^ 2 - 1) at 2. unfold_uint.
  rewrite (land_mask _ 2); [|unfold_uint; apply Z.mod_pos_bound; lia|lia].
  rewrite Z.mod_small by lia. done.
Qed.

Lemma tag_type_lor b1 b2 b3 :
  is_u8 b1 → is_u8 b2 → is_u8 b3 →
  Z.lor (Z.lor b1 (u32 (Z.shiftl b2 8))) (u32 (Z.shiftl b3 16)) = le_dec [b1; b2; b3].
Proof.
  intros H1 H2 H3. unfold_uint. cbn [le_dec].
  rewrite !Z.shiftl_mul_pow2 by lia.
  rewrite !Z.mod_small by (cbn; lia).
  rewrite (lor_shift b1 b2 8) by (cbn; lia). rewrite lor_shift by (cbn; lia). lia.
Qed.

Section Scan.
  Context {W : Type}.
  Implicit Types (block : uf2_block) (w : W).

(** What the scan may return: "absent", "malformed" or a record inside the
    data field and behind the payload. *)
Definition tag_result block (r : Z * Z) : Prop :=
  r.1 = -1 ∨ r.1 = -2 ∨
  (0 <= r.1 <= 251 ∧ payload_size block + 4 <= r.2 ∧ r.2 + r.1 <= UF2_DATA_SIZE).

Lemma ext_tag_step_safe block ty off w C :
  zlen (data block) = UF2_DATA_SIZE → Forall is_u8 (data block) →
  payload_size block <= off < 4294967292 → 0 <= off →
  wp (ext_tag_step block ty off)
    (λ r w', w' = w ∧
       match r with
       | inl off' => payload_size block <= off' < 4294967292 ∧ off + 4 <= off' ∧ off <= 472
       | inr r => tag_result block r
       end) C w.
Proof.
  intros Hlen Hby Hoff H0. unfold ext_tag_step, UF2_DATA_SIZE in *.
  rewrite (u32_small (off + 4)) by (unfold_uint; lia).
  wp_if Hfit; [|apply wp_ret; split; [done|]; unfold tag_result; cbn; tauto].
  destruct (lookup_byte (data block) off) as (sz & Hsz & Hszb); [done|lia|].
  apply wp_bind. eapply wp_array_get; [lia|done|].
  wp_if Hz; [apply wp_ret; split; [done|]; unfold tag_result; cbn; tauto|].
  wp_if Hbad; [apply wp_ret; split; [done|]; unfold tag_result; cbn; tauto|].
  rewrite (u32_small (off + sz)) in * by (unfold_uint; lia).
  assert (Hget : ∀ k, 0 <= k < 4 → ∃ b, data block !! Z.to_nat (off ⊕ k) = Some b ∧ is_u8 b).
  { intros k Hk. rewrite u32_small by (unfold_uint; lia). apply lookup_byte; [done|lia]. }
  destruct (Hget 1) as (b1 & Hb1 & ?), (Hget 2) as (b2 & Hb2 & ?), (Hget 3) as (b3 & Hb3 & ?); try lia.
  do 3 (apply wp_bind; eapply wp_array_get; [apply u32_range|done|]).
  cbv zeta. wp_if Hty; apply wp_ret; (split; [done|]).
  - right. right. cbn. unfold UF2_DATA_SIZE. unfold_uint. lia.
  - clear Hty Hget Hb1 Hb2 Hb3. rewrite pad4 by done.
    rewrite u32_small by (unfold_uint; lia). unfold_uint. lia.
Qed.

Lemma ext_tag_scan block ty w C :
  zlen (data block) = UF2_DATA_SIZE → Forall is_u8 (data block) →
  0 <= payload_size block < 4294967292 →
  wp (uf2_find_ext_tag block ty) (λ r w', w' = w ∧ tag_result block r) C w.
Proof.
  intros Hlen Hby Hps. unfold uf2_find_ext_tag.
  wp_if Hf; [apply wp_ret; split; [done|]; unfold tag_result; cbn; tauto|].
  apply (wp_loop (λ off w', w' = w ∧ payload_size block <= off < 4294967292)
           (λ off, (479 - Z.min off 476) / 4)); [|split; [done|lia]|lia|lia].
  intros off w0 [-> Hoff].
  eapply wp_mono; [apply ext_tag_step_safe; [done|done|lia|lia]| |done].
  intros [off'|r] w'; cbn; [|tauto]. intros (-> & Ho & H4 & H472). split; [tauto|lia].
Qed.

(** ** Records written by an encoder *)

Definition ext_tag : Type := Z * list Z.

Definition tag_encode (t : ext_tag) : list Z :=
  (4 + zlen t.2) :: le_enc 3 t.1 ++ t.2 ++ replicate (Z.to_nat ((- zlen t.2) mod 4)) 0.

Definition tag_ok (t : ext_tag) : Prop := 0 <= t.1 < 16777216 ∧ zlen t.2 <= 251.

(** A block whose data field is the payload, the records and a terminator. *)
Definition tagged_block block (tags : list ext_tag) : Prop :=
  Z.land (flags block) UF2_FLAG_EXTENSION_TAGS ≠ 0 ∧ Forall tag_ok tags ∧
  zlen (data block) = UF2_DATA_SIZE ∧
  ∃ payload rest,
    zlen payload = payload_size block ∧
    data block = payload ++ concat (tag_encode <$> tags) ++ replicate 4 0 ++ rest.

Lemma zlen_tag_encode t : zlen (tag_encode t) = 4 * ((4 + zlen t.2 + 3) / 4).
Proof.
  unfold tag_encode. pose proof (zlen_nonneg t.2). change (?x :: ?l) with ([x] ++ l).
  rewrite !zlen_app, zlen_le_enc, zlen_replicate. change (zlen [_]) with 1. lia.
Qed.

Lemma lookup_at {A} (pre l : list A) k :
  0 <= k → (pre ++ l) !! Z.to_nat (zlen pre + k) = l !! Z.to_nat k.
Proof.
  intros Hk. unfold zlen. rewrite lookup_app_r by lia. f_equal. lia.
Qed.

Lemma ext_tag_step_record block ty pre t rest w :
  data block = pre ++ tag_encode t ++ rest → zlen (data block) = UF2_DATA_SIZE → tag_ok t →
  ext_tag_step block ty (zlen pre) w =
    (Ret (if t.1 =? ty then inr (zlen t.2, zlen pre + 4)
          else inl (zlen pre + zlen (tag_encode t))), w).
Proof.
  intros Hd Hlen [Hty Hsz]. unfold UF2_DATA_SIZE in *. pose proof (zlen_nonneg pre).
  pose proof (zlen_nonneg t.2). pose proof (zlen_nonneg rest).
  rewrite Hd, !zlen_app, zlen_tag_encode in Hlen.
  unfold ext_tag_step, UF2_DATA_SIZE. rewrite Hd.
  rewrite !(u32_small (zlen pre + _)) by (unfold_uint; lia).
  rewrite (proj2 (Z.leb_le _ _)) by lia.
  rewrite (bind_ret _ _ (4 + zlen t.2) w w).
  2: { apply array_get_ret; [done|]. rewrite <- (Z.add_0_r (zlen pre)). by rewrite lookup_at. }
  rewrite (proj2 (Z.eqb_neq _ _)), (proj2 (Z.ltb_ge _ 4)) by lia.
  rewrite !(u32_small (zlen pre + _)) by (unfold_uint; lia).
  rewrite (proj2 (Z.ltb_ge _ _)) by lia. cbn [orb].
  do 3 (erewrite bind_ret;
        [|apply array_get_ret; [lia|]; rewrite lookup_at by lia; reflexivity]).
  cbv zeta. rewrite tag_type_lor by (unfold_uint; apply Z.mod_pos_bound; lia).
  change (le_dec [_; _; _]) with (le_dec (le_enc 3 t.1)).
  rewrite le_dec_enc_small by (cbn; lia).
  replace (4 + zlen t.2 - 4) with (zlen t.2) by lia. destruct (t.1 =? ty); [done|].
  rewrite pad4 by (unfold_uint; lia). rewrite zlen_tag_encode, u32_small by (unfold_uint; lia).
  done.
Qed.

(** The first record of a type, as a reference definition. *)
Fixpoint first_tag (tags : list ext_tag) (ty : Z) : option (list Z) :=
  match tags with
  | [] => None
  | (t, p) :: tags => if t =? ty then Some p else first_tag tags ty
  end.

Lemma ext_tag_loop block ty tags pre rest w fuel :
  data block = pre ++ concat (tag_encode <$> tags) ++ replicate 4 0 ++ rest →
  zlen (data block) = UF2_DATA_SIZE → Forall tag_ok tags →
  (length tags < fuel)%nat →
  ∃ rc p, loop fuel (ext_tag_step block ty) (zlen pre) w = (Ret (rc, p), w) ∧
    match first_tag tags ty with
    | Some pl => rc = zlen pl ∧ slice (data block) p (zlen pl) = pl
    | None => rc = -1
    end.
Proof.
  revert pre fuel. induction tags as [|t tags IH]; intros pre fuel Hd Hlen Hok Hfuel;
    (destruct fuel as [|fuel]; [cbn in Hfuel; lia|]); cbn [fmap list_fmap concat] in Hd.
  - exists (-1), 0. split; [|done]. apply loop_exit. unfold ext_tag_step.
    pose proof (zlen_nonneg pre). pose proof (zlen_nonneg rest). unfold UF2_DATA_SIZE in *.
    assert (zlen (data block) = zlen pre + (4 + zlen rest)) by (by rewrite Hd, !zlen_app).
    rewrite u32_small by (unfold_uint; lia). rewrite (proj2 (Z.leb_le _ _)) by lia.
    rewrite (bind_ret _ _ 0 w w); [done|]. apply array_get_ret; [done|].
    rewrite Hd, <- (Z.add_0_r (zlen pre)), lookup_at by done. done.
  - rewrite <- app_assoc in Hd. inversion Hok as [|? ? Ht Hok']; subst.
    pose proof (ext_tag_step_record block ty pre t _ w Hd Hlen Ht) as Hstep.
    destruct t as [tty pl]. cbn [first_tag]. cbn [fst snd] in Hstep.
    destruct (tty =? ty) eqn:Heq.
    + exists (zlen pl), (zlen pre + 4). split; [by apply loop_exit|]. split; [done|].
      pose proof (zlen_nonneg pre).
      rewrite Hd, slice_app_r by lia. unfold tag_encode.
      rewrite Z.add_simpl_l. cbn [fst snd le_enc app]. unfold slice. cbn.
      rewrite <- app_assoc. unfold zlen. rewrite Nat2Z.id. apply take_app_length.
    + rewrite (loop_continue _ _ _ _ _ _ Hstep). rewrite <- zlen_app.
      apply IH; [|done|done|cbn in Hfuel; lia]. by rewrite <- app_assoc.
Qed.

End Scan.

(** The scan behind a well-formed record area, as a reference result. *)
Lemma find_ext_tag_spec {W} (block : uf2_block) tags ty (w : W) :
  tagged_block block tags →
  ∃ rc p, uf2_find_ext_tag block ty w = (Ret (rc, p), w) ∧
    match first_tag tags ty with
    | Some pl => rc = zlen pl ∧ slice (data block) p (zlen pl) = pl
    | None => rc = -1
    end.
Proof.
  intros (Hfl & Hok & Hlen & payload & rest & Hpl & Hd). unfold uf2_find_ext_tag.
  rewrite (proj2 (Z.eqb_neq _ _)) by done. rewrite <- Hpl.
  apply (ext_tag_loop block ty tags payload rest); [done..|].
  assert (Htags : 4 * zlen tags <= zlen (concat (tag_encode <$> tags))).
  { clear. induction tags as [|t tags IH]; [done|]. cbn [fmap list_fmap concat].
    rewrite zlen_app, zlen_cons, zlen_tag_encode. pose proof (zlen_nonneg t.2). lia. }
  rewrite Hd, !zlen_app in Hlen. unfold UF2_DATA_SIZE in Hlen.
  pose proof (zlen_nonneg payload). pose proof (zlen_nonneg rest).
  change (zlen (replicate 4 0)) with 4 in Hlen. unfold zlen in Htags at 1. lia.
Qed.

(** ** Theorems *)

(** A block carrying a board and a partition record, for the witnesses. *)
Definition demo_tags : list ext_tag :=
  [(UF2_EXT_TAG_BOARD_ID, [97; 98; 99; 100; 101]); (UF2_EXT_TAG_PARTITION, [115; 108; 48])].

Definition demo_block : uf2_block :=
  Uf2Block UF2_MAGIC_START0 UF2_MAGIC_START1 UF2_FLAG_EXTENSION_TAGS 0x1000 8 0 1 0
    ([1; 2; 3; 4; 5; 6; 7; 8] ++ concat (tag_encode <$> demo_tags) ++ replicate 4 0 ++
     replicate 444 0) UF2_MAGIC_END.

Lemma demo_block_tagged : tagged_block demo_block demo_tags.
Proof.
  split; [done|]. split; [|split; [done|]].
  - unfold demo_tags. repeat constructor; cbn; try lia; by vm_compute.
  - by exists [1; 2; 3; 4; 5; 6; 7; 8], (replicate 444 0).
Qed.

Lemma demo_block_bytes : zlen (data demo_block) = UF2_DATA_SIZE ∧ Forall is_u8 (data demo_block).
Proof.
  split; [done|]. apply Forall_forall. intros x Hx.
  assert (Hb : forallb (λ x, (0 <=? x) && (x <? 256)) (data demo_block) = true) by done.
  apply (proj1 (forallb_forall _ _) Hb) in Hx. unfold is_u8. zsimp. lia.
Qed.

(** The extension-tag scan is memory safe and terminates.  On a block with
    a 476-byte data field whose payload size does not wrap the offset sum, it
    returns without touching anything; a found record lies behind the payload
    and inside the data field, whatever bytes the field holds. *)
Theorem find_ext_tag_safe {W} (block : uf2_block) ty (w : W) :
  zlen (data block) = UF2_DATA_SIZE → Forall is_u8 (data block) →
  0 <= payload_size block < 4294967292 →
  ∃ r, uf2_find_ext_tag block ty w = (Ret r, w) ∧ tag_result block r.
Proof.
  intros Hlen Hby Hps.
  destruct (wp_returns _ _ _ (ext_tag_scan block ty w (λ _, False) Hlen Hby Hps)) as (r & w' & Hr & -> & Hres).
  eauto.
Qed.

Lemma find_ext_tag_safe_witness :
  ∃ r, uf2_find_ext_tag demo_block 1 tt = (Ret r, tt) ∧ tag_result demo_block r.
Proof.
  apply (find_ext_tag_safe demo_block 1 tt (proj1 demo_block_bytes) (proj2 demo_block_bytes)).
  cbn. lia.
Defined.

(** The scan finds what an encoder wrote.  On a data field made of the
    payload, any list of records in the UF2 layout and a terminator, the scan
    for a type returns the payload of the first record of that type, in place,
    and -1 when there is none. *)
Theorem find_ext_tag_first {W} (block : uf2_block) tags ty (w : W) :
  tagged_block block tags →
  ∃ rc p, uf2_find_ext_tag block ty w = (Ret (rc, p), w) ∧
    match first_tag tags ty with
    | Some pl => rc = zlen pl ∧ slice (data block) p (zlen pl) = pl
    | None => rc = -1
    end.
Proof. apply find_ext_tag_spec. Qed.

