(* ===== verification/Uf2Route.v ===== *)
(** * Routing of UF2 blocks to regions

    A uniform view of the two configuration modes of boot_uf2.c (a region
    table, or the single region [flash_base]/[flash_size]) and the functional
    specification of [uf2_route_block] over it. *)

From S2P Require Import Prelude Effects Uf2 Uf2Tags.
#[local] Open Scope mcu_scope.

Section Route.
  Context {W Ctx : Type}.
  Implicit Types (cfg : uf2_cfg W Ctx) (r : uf2_region Ctx) (block : uf2_block) (w : W).

(** The regions of a configuration: the used part of the table, or the one
    legacy region. *)
Definition all_regions cfg : list (uf2_region Ctx) :=
  match regions cfg with
  | Some rs => take (Z.to_nat (num_regions cfg)) rs
  | None => [Uf2Region (flash_base cfg) (flash_size cfg) (cb_ctx cfg) None true]
  end.

Definition wf_region (esize : Z) r : Prop :=
  0 <= base r ∧ 0 <= size r ∧ base r + size r < 4294967296 ∧ size r + esize < 4294967296.

(** What a caller of [uf2_process_block] sets up: between one and four regions
    that do not wrap, and a non-zero erase size. *)
Record wf_cfg cfg : Prop := {
  wf_num : match regions cfg with Some rs => 0 < num_regions cfg <= zlen rs | None => True end;
  wf_max : 0 < zlen (all_regions cfg) <= UF2_MAX_REGIONS;
  wf_each : Forall (wf_region (erase_size cfg)) (all_regions cfg);
  wf_esize : 0 < erase_size cfg;
}.

Lemma region_table_wf cfg : wf_cfg cfg → region_table cfg = regions cfg.
Proof.
  intros [Hn Hm _ _]. unfold region_table, all_regions in *.
  destruct (regions cfg) as [rs|]; [|done]. by rewrite (proj2 (Z.ltb_lt _ _)) by lia.
Qed.

Lemma uf2_num_regions_wf cfg : wf_cfg cfg → uf2_num_regions cfg = zlen (all_regions cfg).
Proof.
  intros Hwf. unfold uf2_num_regions. rewrite region_table_wf by done.
  destruct Hwf as [Hn _ _ _]. unfold all_regions, zlen in *. destruct (regions cfg) as [rs|]; [|done].
  rewrite length_take. lia.
Qed.

(** The accessors at a valid index. *)
Lemma region_access {X} cfg (i : nat) r w (f : uf2_region Ctx → X) (d : X) :
  wf_cfg cfg → all_regions cfg !! i = Some r →
  (regions cfg = None → f r = d) →
  (match region_table cfg with
   | Some rs => r ← array_get rs (Z.of_nat i); mret (f r)
   | None => mret d
   end) w = (Ret (f r), w).
Proof.
  intros Hwf Hr Hd. rewrite region_table_wf by done. unfold all_regions in Hr.
  destruct (regions cfg) as [rs|]; [|by rewrite <- Hd].
  apply lookup_take_Some in Hr as [Hr _]. erewrite bind_ret; [done|]. apply array_get_ret; [lia|]. by rewrite Nat2Z.id.
Qed.

Lemma single_region cfg (i : nat) r :
  regions cfg = None → all_regions cfg !! i = Some r →
  r = Uf2Region (flash_base cfg) (flash_size cfg) (cb_ctx cfg) None true.
Proof. unfold all_regions. intros ->. destruct i; cbn; naive_solver. Qed.

Lemma uf2_region_base_ret cfg (i : nat) r w :
  wf_cfg cfg → all_regions cfg !! i = Some r →
  uf2_region_base cfg (Z.of_nat i) w = (Ret (base r), w).
Proof.
  intros Hwf Hr. apply region_access; [done..|]. intros H.
  by rewrite (single_region cfg i r H Hr).
Qed.

Lemma uf2_region_size_ret cfg (i : nat) r w :
  wf_cfg cfg → all_regions cfg !! i = Some r →
  uf2_region_size cfg (Z.of_nat i) w = (Ret (size r), w).
Proof.
  intros Hwf Hr. apply region_access; [done..|]. intros H.
  by rewrite (single_region cfg i r H Hr).
Qed.

Lemma uf2_region_ctx_ret cfg (i : nat) r w :
  wf_cfg cfg → all_regions cfg !! i = Some r →
  uf2_region_ctx cfg (Z.of_nat i) w = (Ret (ctx r), w).
Proof.
  intros Hwf Hr. apply region_access; [done..|]. intros H.
  by rewrite (single_region cfg i r H Hr).
Qed.

Lemma wf_region_lookup cfg (i : nat) r :
  wf_cfg cfg → all_regions cfg !! i = Some r →
  wf_region (erase_size cfg) r ∧ Z.of_nat i < UF2_MAX_REGIONS.
Proof.
  intros [_ Hm Hall _] Hr. split; [by eapply Forall_lookup_1|].
  apply lookup_lt_Some in Hr. unfold zlen in Hm. lia.
Qed.

(** ** The reference routing function *)

Definition in_region r (addr : Z) : bool :=
  (base r <=? addr) && (addr <? base r + size r).

Definition routed_by_address (addr : Z) r : bool := address_routed r && in_region r addr.

Definition labelled (name : list Z) r : bool := bool_decide (label r = Some name).

Definition route_spec (rs : list (uf2_region Ctx)) (addr : Z) (part : option (list Z)) : Z :=
  match part with
  | Some name =>
      match list_find (λ r, labelled name r = true) rs with
      | Some (i, r) => if in_region r addr then Z.of_nat i else -1
      | None => -1
      end
  | None => find_index (routed_by_address addr) rs
  end.

Lemma region_contains_ret cfg (i : nat) r addr w :
  wf_cfg cfg → all_regions cfg !! i = Some r →
  region_contains cfg (Z.of_nat i) addr w = (Ret (in_region r addr), w).
Proof.
  intros Hwf Hr. unfold region_contains.
  erewrite bind_ret by by apply uf2_region_base_ret.
  erewrite bind_ret by by apply uf2_region_size_ret.
  destruct (wf_region_lookup cfg i r Hwf Hr) as [(? & ? & ? & ?) _].
  rewrite u32_small by (unfold_uint; lia). done.
Qed.

Lemma find_index_norm {A} (P : A → bool) l :
  (if find_index P l <? 0 then -1 else 0 + find_index P l) = find_index P l.
Proof. pose proof (find_index_range P l). destruct (find_index P l <? 0) eqn:H0; zsimp; lia. Qed.

Lemma small_regions cfg : wf_cfg cfg → (length (all_regions cfg) < 256)%nat.
Proof. intros [_ Hm _ _]. unfold zlen, UF2_MAX_REGIONS in Hm. lia. Qed.

Lemma uf2_find_region_ret cfg addr w :
  wf_cfg cfg →
  uf2_find_region cfg addr w = (Ret (find_index (routed_by_address addr) (all_regions cfg)), w).
Proof.
  intros Hwf. unfold uf2_find_region. rewrite <- find_index_norm.
  apply (scan_loop _ (find_region_step cfg addr) []); [|
    |by apply small_regions]; cbn [app]; unfold find_region_step;
    rewrite uf2_num_regions_wf by done; [|by rewrite Z.ltb_irrefl].
  intros i r Hr. pose proof (proj2 (wf_region_lookup cfg i r Hwf Hr)) as Hi.
  rewrite (proj2 (Z.ltb_lt _ _)) by (apply lookup_lt_Some in Hr; unfold zlen; lia).
  rewrite u8_small by (unfold_uint; unfold UF2_MAX_REGIONS in Hi; lia).
  rewrite (bind_ret _ _ (address_routed r) w w).
  2: { rewrite <- (region_access cfg i r w address_routed true Hwf Hr).
       - by rewrite region_table_wf.
       - intros H. by rewrite (single_region cfg i r H Hr). }
  unfold routed_by_address. destruct (address_routed r); cbn [negb andb]; [|done].
  erewrite bind_ret by by apply region_contains_ret. by destruct (in_region r addr).
Qed.

Lemma uf2_find_region_by_label_ret cfg block p len name w :
  wf_cfg cfg → zlen name = len → slice (data block) p len = name →
  uf2_find_region_by_label cfg block p len w =
    (Ret (find_index (labelled name) (all_regions cfg)), w).
Proof.
  intros Hwf Hl Hsl. unfold uf2_find_region_by_label. rewrite <- find_index_norm.
  apply (scan_loop _ (find_label_step cfg block p len) []); [|
    |by apply small_regions]; cbn [app]; unfold find_label_step;
    rewrite uf2_num_regions_wf by done; [|by rewrite Z.ltb_irrefl].
  intros i r Hr. pose proof (proj2 (wf_region_lookup cfg i r Hwf Hr)) as Hi.
  rewrite (proj2 (Z.ltb_lt _ _)) by (apply lookup_lt_Some in Hr; unfold zlen; lia).
  rewrite u8_small by (unfold_uint; unfold UF2_MAX_REGIONS in Hi; lia).
  rewrite (bind_ret _ _ (label r) w w).
  2: { rewrite <- (region_access cfg i r w label None Hwf Hr).
       - by rewrite region_table_wf.
       - intros H. by rewrite (single_region cfg i r H Hr). }
  unfold labelled, tag_payload_is. destruct (label r) as [s|]; [|done].
  destruct (zlen s =? len) eqn:Hlen; zsimp; cbn [andb].
  - rewrite Hlen, Hsl. destruct (decide (name = s)) as [->|Hne].
    + by rewrite !bool_decide_true.
    + rewrite !bool_decide_false by congruence. done.
  - rewrite bool_decide_false; [done|]. intros [= ->]. done.
Qed.

Lemma find_index_list_find {A} (P : A → bool) l :
  find_index P l =
    match list_find (λ x, P x = true) l with Some (i, _) => Z.of_nat i | None => -1 end.
Proof. done. Qed.

(** The routing decision in terms of the outcome of the tag scan. *)
Lemma uf2_route_block_scan cfg block rc p w :
  wf_cfg cfg → zlen (data block) = UF2_DATA_SIZE → 0 <= payload_size block →
  uf2_find_ext_tag block UF2_EXT_TAG_PARTITION w = (Ret (rc, p), w) →
  tag_result block (rc, p) →
  uf2_route_block cfg block w =
    (Ret (if rc =? -2 then -1 else
          route_spec (all_regions cfg) (target_addr block)
            (if 0 <=? rc then Some (slice (data block) p rc) else None)), w).
Proof.
  intros Hwf Hlen Hps Hscan Hres. unfold uf2_route_block. rewrite (bind_ret _ _ _ _ _ Hscan).
  destruct (rc =? -2) eqn:Hbad; [done|]. destruct (0 <=? rc) eqn:Hrc; zsimp.
  - destruct Hres as [?|[?|(? & ? & ?)]]; cbn in *; [lia|lia|].
    erewrite bind_ret.
    2: { apply uf2_find_region_by_label_ret; [done| |reflexivity]. apply zlen_slice; lia. }
    rewrite find_index_list_find. unfold route_spec.
    destruct (list_find _ _) as [[i r]|] eqn:Hf; [|done].
    apply list_find_Some in Hf as (Hr & _).
    rewrite (proj2 (Z.ltb_ge _ _)) by lia.
    erewrite bind_ret by by apply uf2_region_base_ret.
    erewrite bind_ret by by apply uf2_region_size_ret.
    destruct (wf_region_lookup cfg i r Hwf Hr) as [(? & ? & ? & ?) _].
    rewrite u32_small by (unfold_uint; lia). unfold in_region.
    rewrite (Z.ltb_antisym (base r)), (Z.leb_antisym (target_addr block) (base r + size r)).
    rewrite <- negb_andb.
    by destruct (_ && _).
  - erewrite bind_ret by by apply uf2_find_region_ret. cbn [route_spec].
    pose proof (find_index_range (routed_by_address (target_addr block)) (all_regions cfg)).
    destruct (find_index _ _ <? 0) eqn:Hneg; zsimp; [|done]. unfold mret, M_ret. do 2 f_equal. lia.
Qed.

(** A non-negative routing result names a region that holds the address. *)
Lemma route_spec_sound rs addr part i :
  route_spec rs addr part = i → 0 <= i →
  ∃ r : uf2_region Ctx, rs !! Z.to_nat i = Some r ∧ in_region r addr = true ∧
    match part with Some name => label r = Some name | None => address_routed r = true end.
Proof.
  destruct part as [name|]; cbn [route_spec].
  - destruct (list_find _ rs) as [[k r]|] eqn:Hf; [|lia].
    apply list_find_Some in Hf as (Hk & HP & _). destruct (in_region r addr) eqn:Hin; [|lia].
    intros <- _. exists r. rewrite Nat2Z.id. unfold labelled in HP.
    by apply bool_decide_eq_true in HP.
  - intros Hi H0. destruct (find_index_Some _ _ _ Hi H0) as (r & Hr & HP).
    exists r. unfold routed_by_address in HP. by zsimp.
Qed.

(** What every caller relies on: routing returns, changes nothing, and a
    non-negative result is a region containing the target address. *)
Lemma uf2_route_block_wp cfg block w C :
  wf_cfg cfg → zlen (data block) = UF2_DATA_SIZE → Forall is_u8 (data block) →
  0 <= payload_size block < 4294967292 →
  wp (uf2_route_block cfg block)
    (λ i w', w' = w ∧ (i = -1 ∨ 0 <= i ∧ ∃ r, all_regions cfg !! Z.to_nat i = Some r ∧
                        in_region r (target_addr block) = true)) C w.
Proof.
  intros Hwf Hlen Hby Hps.
  destruct (wp_returns _ _ _ (ext_tag_scan block UF2_EXT_TAG_PARTITION w (λ _, False) Hlen Hby Hps))
    as ([rc p] & w' & Hscan & -> & Hres).
  eapply wp_pure; [apply (uf2_route_block_scan cfg block rc p); [done|done|lia|done|done]|].
  split; [done|]. destruct (rc =? -2); [by left|].
  destruct (decide (0 <= route_spec (all_regions cfg) (target_addr block)
              (if 0 <=? rc then Some (slice (data block) p rc) else None))) as [H0|H0].
  - right. split; [done|]. edestruct route_spec_sound as (r & ? & ? & _); [reflexivity|done|eauto].
  - left. destruct (0 <=? rc); cbn [route_spec] in *.
    + destruct (list_find _ _) as [[k r]|]; [|done]. destruct (in_region _ _); [lia|done].
    + pose proof (find_index_range (routed_by_address (target_addr block)) (all_regions cfg)). lia.
Qed.

End Route.

(** ** Theorems *)

(** Two regions on the primary device and one reachable by name only. *)
Definition demo_regions : list (uf2_region Z) :=
  [Uf2Region 0x1000 0x4000 0 (Some [115; 108; 48]) true;
   Uf2Region 0x8000 0x2000 1 (Some [115; 116]) true;
   Uf2Region 0x1000 0x1000 2 (Some [101; 120; 116]) false].

Definition demo_cfg : uf2_cfg unit Z :=
  Uf2Cfg (λ _ _ _ _, mret 0) (λ _ _ _, mret 0) 0 0 0 (Some demo_regions) 3 0 None 0x1000 None None
    None 0 0 0.

Lemma demo_cfg_wf : wf_cfg demo_cfg.
Proof.
  split; [done|by vm_compute| |done]. unfold demo_cfg, demo_regions. cbn.
  repeat constructor; cbn; lia.
Qed.

(** Routing is correct and complete.  A block without a partition record
    goes to the first region reachable by address that contains its target
    address; a block with one goes to the first region of that name, and only
    if that region contains the address; everything else is rejected.  The
    regions may come from the table or be the single legacy region. *)
Theorem uf2_route_block_correct {W Ctx} (cfg : uf2_cfg W Ctx) block tags w :
  wf_cfg cfg → tagged_block block tags → Forall is_u8 (data block) →
  payload_size block <= UF2_PAYLOAD_SIZE →
  uf2_route_block cfg block w =
    (Ret (route_spec (all_regions cfg) (target_addr block) (first_tag tags UF2_EXT_TAG_PARTITION)), w).
Proof.
  intros Hwf Htag Hby Hps. unfold UF2_PAYLOAD_SIZE in Hps.
  destruct (find_ext_tag_spec block tags UF2_EXT_TAG_PARTITION w Htag) as (rc & p & Hscan & Hres).
  destruct Htag as (_ & _ & Hlen & payload & rest & Hpl & _). pose proof (zlen_nonneg payload).
  destruct (wp_returns _ _ _ (ext_tag_scan block UF2_EXT_TAG_PARTITION w (λ _, False) Hlen Hby ltac:(lia)))
    as (r & w' & Hr & -> & Hok).
  rewrite Hscan in Hr. injection Hr as <-.
  rewrite (uf2_route_block_scan cfg block rc p w Hwf Hlen ltac:(lia) Hscan Hok).
  destruct (first_tag tags _) as [pl|]; [|by subst rc].
  destruct Hres as [-> Hsl]. pose proof (zlen_nonneg pl).
  rewrite (proj2 (Z.eqb_neq _ _)), (proj2 (Z.leb_le _ _)), Hsl by lia. done.
Qed.

Lemma uf2_route_block_correct_witness : uf2_route_block demo_cfg demo_block tt = (Ret 0, tt).
Proof.
  exact (uf2_route_block_correct demo_cfg demo_block demo_tags tt demo_cfg_wf demo_block_tagged
           (proj2 demo_block_bytes) ltac:(vm_compute; discriminate)).
Defined.
