(* ===== verification/Uf2Process.v ===== *)
(** * Processing one UF2 block

    The contract the flash callbacks of [uf2_cfg] have to honour ([Uf2Flash]),
    and what [erase_up_to], the received-block bitmap and
    [uf2_process_block] do under it. *)

From S2P Require Import Prelude Effects FlashMap Uf2 Uf2Tags Uf2Route.
#[local] Open Scope mcu_scope.

(** ** The received-block bitmap *)

Definition map_bit (map : list Z) (k : Z) : bool :=
  Z.testbit (default 0 (map !! Z.to_nat (k / 8))) (k mod 8).

Lemma testbit_mask m n :
  0 <= n → 0 <= m < 8 → Z.testbit (u8 (Z.shiftl 1 m)) n = (n =? m).
Proof.
  intros Hn Hm. unfold u8. rewrite Z.shiftl_1_l, Z.mod_small.
  - rewrite Z.pow2_bits_eqb by lia. by rewrite Z.eqb_sym.
  - split; [apply Z.pow_nonneg; lia|]. change 256 with (2 ^ 8). apply Z.pow_lt_mono_r; lia.
Qed.

Lemma land_bit_zero byte m :
  0 <= m < 8 → (Z.land byte (u8 (Z.shiftl 1 m)) =? 0) = negb (Z.testbit byte m).
Proof.
  intros Hm. destruct (Z.testbit byte m) eqn:Hb; cbn.
  - apply Z.eqb_neq. intros H0.
    assert (Z.testbit (Z.land byte (u8 (Z.shiftl 1 m))) m = false) as Hc by (by rewrite H0, Z.bits_0).
    rewrite Z.land_spec, Hb, testbit_mask, Z.eqb_refl in Hc by lia. done.
  - apply Z.eqb_eq. apply Z.bits_inj'. intros n Hn.
    rewrite Z.land_spec, testbit_mask, Z.bits_0 by lia.
    destruct (n =? m) eqn:E; zsimp; [by subst; rewrite Hb|apply andb_false_r].
Qed.

Lemma map_bit_set map j k byte :
  0 <= j → 0 <= k → map !! Z.to_nat (j / 8) = Some byte →
  map_bit (<[Z.to_nat (j / 8) := Z.lor byte (u8 (Z.shiftl 1 (j mod 8)))]> map) k =
    (k =? j) || map_bit map k.
Proof.
  intros Hj Hk Hb. unfold map_bit.
  destruct (decide (k / 8 = j / 8)) as [Heq|Hne].
  - rewrite Heq, list_lookup_insert_eq by (by eapply lookup_lt_Some). rewrite Hb. cbn.
    rewrite Z.lor_spec, testbit_mask by lia.
    destruct (k =? j) eqn:E; zsimp.
    + subst. rewrite Z.eqb_refl. by rewrite orb_true_r.
    + rewrite (proj2 (Z.eqb_neq _ _)) by lia. by rewrite orb_false_r.
  - rewrite list_lookup_insert_ne by lia.
    rewrite (proj2 (Z.eqb_neq _ _)); [done|]. by intros ->.
Qed.

Section Process.
  Context {W Ctx : Type}.
  Implicit Types (r : uf2_region Ctx) (block : uf2_block) (w : W).

(** ** The callback contract

    [uf_cells w c] is the flash behind context [c]; [uf_wlen r off len] is the
    number of bytes a write of [len] bytes at [off] really programs (drivers
    round a short payload up to their write block). *)
Class Uf2Flash (cfg : uf2_cfg W Ctx) := {
  uf_ok : W → Prop;
  uf_cells : W → Ctx → list cell;
  uf_ev : uf2_region Ctx → Z;
  uf_aligned : uf2_region Ctx → Z → Prop;
  uf_wlen : uf2_region Ctx → Z → Z → Z;
  uf_len w r : uf_ok w → r ∈ all_regions cfg → zlen (uf_cells w (ctx r)) = size r;
  uf_wlen_bounds r off len :
    r ∈ all_regions cfg → 0 <= off → uf_aligned r off → 0 < len <= UF2_PAYLOAD_SIZE →
    off + len <= size r →
    len <= uf_wlen r off len <= UF2_DATA_SIZE ∧
    off + uf_wlen r off len <=
      Z.min (size r) (((off + len) / erase_size cfg + 1) * erase_size cfg);
  uf_erase w r off len :
    uf_ok w → r ∈ all_regions cfg → 0 <= off → 0 < len → off + len <= size r →
    off mod erase_size cfg = 0 → (len = erase_size cfg ∨ off + len = size r) →
    wp (cb_erase cfg off len (ctx r))
      (λ rc w', rc = 0 ∧ uf_ok w' ∧
         uf_cells w' (ctx r) = splice (uf_cells w (ctx r)) off (erased (uf_ev r) len) ∧
         ∀ r', r' ∈ all_regions cfg → ctx r' ≠ ctx r → uf_cells w' (ctx r') = uf_cells w (ctx r'))
      (λ _, True) w;
  uf_write w r off d len :
    uf_ok w → r ∈ all_regions cfg → 0 <= off → uf_aligned r off →
    0 < len <= UF2_PAYLOAD_SIZE → off + len <= size r →
    zlen d = UF2_DATA_SIZE → Forall is_u8 d →
    all_fresh (slice (uf_cells w (ctx r)) off (uf_wlen r off len)) →
    wp (cb_write cfg off d len (ctx r))
      (λ rc w', rc = 0 ∧ uf_ok w' ∧
         uf_cells w' (ctx r) =
           splice (uf_cells w (ctx r)) off (written (slice d 0 (uf_wlen r off len))) ∧
         ∀ r', r' ∈ all_regions cfg → ctx r' ≠ ctx r → uf_cells w' (ctx r') = uf_cells w (ctx r'))
      (λ _, True) w;
}.

Context (cfg : uf2_cfg W Ctx) `{!Uf2Flash cfg} (Hwf : wf_cfg cfg).

(** ** Progressive erase *)

(** A frontier is an erase-block boundary of the region, or its end. *)
Definition frontier_ok r (f : Z) : Prop :=
  0 <= f <= size r ∧ (f mod erase_size cfg = 0 ∨ f = size r).

(** The frontier [erase_up_to] leaves behind. *)
Definition new_frontier r (f end_offset : Z) : Z :=
  Z.max f (Z.min (size r) ((end_offset / erase_size cfg + 1) * erase_size cfg)).

(** An erase step from a good frontier stays within the target. *)
Lemma erase_len_ok r f e :
  wf_region (erase_size cfg) r → frontier_ok r f → f < e →
  (e mod erase_size cfg = 0 ∨ e = size r) → e <= size r →
  let len := if size r <? f ⊕ erase_size cfg then size r ⊖ f else erase_size cfg in
  0 < len ∧ f + len <= e ∧ f mod erase_size cfg = 0 ∧
  (len = erase_size cfg ∨ f + len = size r) ∧ f ⊕ len = f + len ∧ frontier_ok r (f + len).
Proof using Hwf.
  intros (? & ? & ? & ?) ((? & ?) & Hfo) Hfe Heo Hes. pose proof (wf_esize _ Hwf) as Hes0.
  assert (Hfm : f mod erase_size cfg = 0) by (destruct Hfo; [done|lia]).
  rewrite u32_small by (unfold_uint; lia). cbv zeta. destruct (size r <? _) eqn:Hc; zsimp.
  - rewrite u32_small by (unfold_uint; lia). rewrite u32_small by (unfold_uint; lia).
    assert (e = size r).
    { destruct Heo as [He|]; [|done].
      apply Z.mod_divide in He as [a ->]; [|lia]. apply Z.mod_divide in Hfm as [b ->]; [|lia].
      assert (b < a) by nia. nia. }
    unfold frontier_ok. repeat split; try lia.
  - rewrite u32_small by (unfold_uint; lia).
    assert (Hm : (f + erase_size cfg) mod erase_size cfg = 0).
    { rewrite <- (Z.mul_1_l (erase_size cfg)) at 1. by rewrite Z.mod_add by lia. }
    assert (f + erase_size cfg <= e).
    { destruct Heo as [He|]; [|lia].
      apply Z.mod_divide in He as [a ->]; [|lia]. apply Z.mod_divide in Hfm as [b ->]; [|lia].
      assert (b < a) by nia. nia. }
    unfold frontier_ok. repeat split; try lia; auto.
Qed.

(** The erase loop: it erases from the frontier to the target, nothing else. *)
Lemma erase_loop_wp (i : nat) r f e w :
  uf_ok w → all_regions cfg !! i = Some r → frontier_ok r f →
  e <= size r → (e mod erase_size cfg = 0 ∨ e = size r) →
  wp (loop (erase_fuel cfg (size r)) (erase_step cfg (Z.of_nat i) (size r) e) f)
    (λ '(rc, f') w', rc = 0 ∧ f' = Z.max f e ∧ uf_ok w' ∧
       uf_cells w' (ctx r) =
         splice (uf_cells w (ctx r)) f (erased (uf_ev r) (Z.max f e - f)) ∧
       ∀ r', r' ∈ all_regions cfg → ctx r' ≠ ctx r → uf_cells w' (ctx r') = uf_cells w (ctx r')) (λ _, True) w.
Proof using Hwf.
  intros Hok Hr Hf He Heo. destruct (wf_region_lookup cfg i r Hwf Hr) as [Hreg _].
  pose proof (list_elem_of_lookup_2 _ _ _ Hr) as Hin. pose proof (wf_esize _ Hwf) as Hes0.
  pose proof (proj1 Hf) as Hf0. pose proof (uf_len w r Hok Hin) as Hlen.
  apply (wp_loop (λ g w', f <= g <= Z.max f e ∧ frontier_ok r g ∧ uf_ok w' ∧
      uf_cells w' (ctx r) = splice (uf_cells w (ctx r)) f (erased (uf_ev r) (g - f)) ∧
      ∀ r', r' ∈ all_regions cfg → ctx r' ≠ ctx r → uf_cells w' (ctx r') = uf_cells w (ctx r'))
    (λ g, (size r - g + erase_size cfg - 1) / erase_size cfg)).
  2: { rewrite Z.sub_diag. change (erased (uf_ev r) 0) with (@nil cell).
       rewrite splice_nil by lia. split_and!; try done; lia. }
  2: { unfold erase_fuel. apply Z.lt_le_trans with (size r / erase_size cfg + 2); [|lia].
       replace (size r - f + erase_size cfg - 1) with (size r - f - 1 + 1 * erase_size cfg) by lia.
       rewrite Z.div_add by lia.
       assert ((size r - f - 1) / erase_size cfg <= size r / erase_size cfg); [|lia].
       apply Z.div_le_mono; lia. }
  2: { apply Z.div_pos; lia. }
  intros g w' (Hg & Hgo & Hok' & Hcells & Hframe). unfold erase_step.
  wp_if Hlt; [|apply wp_ret; replace (Z.max f e) with g by lia; done].
  destruct (erase_len_ok r g e Hreg Hgo Hlt Heo He) as (Hl0 & Hle & Hgm & Hlen' & Hu & Hgo').
  cbv zeta. set (len := if size r <? _ then _ else _) in *.
  apply wp_bind. eapply wp_pure; [by apply uf2_region_ctx_ret|].
  apply wp_bind. eapply wp_mono; [apply uf_erase; try done; lia| |done].
  intros rc w'' (-> & Hok'' & Hc'' & Hfr''). cbn [negb Z.eqb]. apply wp_ret. cbv beta iota.
  rewrite Hu. split; [split_and!; try done; try lia|].
  - rewrite Hc'', Hcells. replace g with (f + zlen (erased (uf_ev r) (g - f))) at 2
      by (rewrite zlen_erased by lia; lia).
    rewrite splice_app by (rewrite ?zlen_erased by lia; lia).
    rewrite erased_app by lia. do 2 f_equal. lia.
  - intros r' Hr' Hc. by rewrite Hfr'', Hframe.
  - clear -Hl0 Hlen' Hgo' Hes0. destruct Hgo' as [? _].
    assert (Hd : ∀ x, 0 <= x → (x + len + erase_size cfg - 1) / erase_size cfg > (x + erase_size cfg - 1) / erase_size cfg ∨ len < erase_size cfg).
    { intros x Hx. destruct (decide (len < erase_size cfg)); [by right|left].
      assert ((x + erase_size cfg - 1 + 1 * erase_size cfg) / erase_size cfg <= (x + len + erase_size cfg - 1) / erase_size cfg) by (apply Z.div_le_mono; lia).
      rewrite Z.div_add in * by lia. lia. }
    split; [apply Z.div_pos; lia|].
    destruct (Hd (size r - (g + len))) as [Hx|Hx]; [lia| |].
    + replace (size r - (g + len) + len) with (size r - g) in Hx by lia. lia.
    + assert (g + len = size r) as -> by lia. rewrite Z.sub_diag, Z.div_small by lia.
      apply Z.div_str_pos. lia.
Qed.

Lemma erase_up_to_wp (i : nat) r st f x w :
  uf_ok w → all_regions cfg !! i = Some r → erase_frontier st !! i = Some f →
  frontier_ok r f → 0 <= x <= size r →
  wp (erase_up_to cfg st (Z.of_nat i) x)
    (λ '(rc, st') w', rc = 0 ∧ uf_ok w' ∧
       st' = set_erase_frontier (<[i := new_frontier r f x]> (erase_frontier st)) st ∧
       uf_cells w' (ctx r) =
         splice (uf_cells w (ctx r)) f (erased (uf_ev r) (new_frontier r f x - f)) ∧
       ∀ r', r' ∈ all_regions cfg → ctx r' ≠ ctx r → uf_cells w' (ctx r') = uf_cells w (ctx r')) (λ _, True) w.
Proof using Hwf.
  intros Hok Hr Hf Hfo Hx. destruct (wf_region_lookup cfg i r Hwf Hr) as [(?&?&?&?) _].
  pose proof (wf_esize _ Hwf) as Hes0. unfold erase_up_to.
  apply wp_bind. eapply wp_pure; [by apply uf2_region_size_ret|].
  apply wp_bind. eapply wp_array_get; [lia|by rewrite Nat2Z.id|].
  apply wp_bind. apply wp_udiv; [lia|]. cbv zeta.
  assert (Hq : 0 <= x / erase_size cfg) by (apply Z.div_pos; lia).
  assert (Hq' : (x / erase_size cfg) * erase_size cfg <= x) by (rewrite Z.mul_comm; apply Z.mul_div_le; lia).
  rewrite (u32_small (x / _ + 1)) by (unfold_uint; nia).
  rewrite u32_small by (unfold_uint; nia).
  set (e := if _ <? _ then _ else _).
  assert (He : e = Z.min (size r) ((x / erase_size cfg + 1) * erase_size cfg))
    by (subst e; destruct (_ <? _) eqn:?; zsimp; lia).
  apply wp_bind. eapply wp_mono; [apply (erase_loop_wp i r f e w Hok Hr Hfo)| |done].
  - lia.
  - destruct (Z.min_spec (size r) ((x / erase_size cfg + 1) * erase_size cfg)) as [[_ Hm]|[_ Hm]];
      rewrite He, Hm; [by right|left]. by apply Z.mod_mul; lia.
  - intros [rc f'] w' (-> & -> & Hok' & Hcells & Hframe). rewrite He in Hcells.
    apply wp_bind, wp_array_set.
    { unfold zlen. apply lookup_lt_Some in Hf. lia. }
    apply wp_ret. rewrite Nat2Z.id, He. unfold new_frontier. done.
Qed.

(** ** Blocks the configuration takes *)

Definition uf2_magic_ok block : bool :=
  (magic_start0 block =? UF2_MAGIC_START0) && (magic_start1 block =? UF2_MAGIC_START1) &&
  (magic_end block =? UF2_MAGIC_END).

(** The region-relative offset of a block. *)
Definition boff r block : Z := target_addr block - base r.

(** A block of an [n]-block file that is meant for this board and lies in
    region [i]. *)
Record accepted (max_blocks n : Z) block (i : nat) r : Prop := {
  acc_magic : uf2_magic_ok block = true;
  acc_family : family_matches cfg block = true;
  acc_board : ∀ w, board_matches cfg block w = (Ret true, w);
  acc_total : num_blocks block = n ∧ n <= max_blocks ∧ max_blocks < 4294967288;
  acc_no : 0 <= block_no block < n;
  acc_payload : 0 < payload_size block <= UF2_PAYLOAD_SIZE;
  acc_data : zlen (data block) = UF2_DATA_SIZE ∧ Forall is_u8 (data block);
  acc_route : ∀ w, uf2_route_block cfg block w = (Ret (Z.of_nat i), w);
  acc_region : all_regions cfg !! i = Some r;
  acc_addr : is_u32 (target_addr block) ∧ 0 <= boff r block;
  acc_fits : boff r block + payload_size block <= size r;
  acc_aligned : uf_aligned r (boff r block);
}.

(** A block for another family or another board. *)
Definition ignored block : Prop :=
  uf2_magic_ok block = true ∧
  (family_matches cfg block = false ∨
   family_matches cfg block = true ∧ ∀ w, board_matches cfg block w = (Ret false, w)).

Lemma magic_guard block :
  uf2_magic_ok block = true →
  negb (magic_start0 block =? UF2_MAGIC_START0) ||
  negb (magic_start1 block =? UF2_MAGIC_START1) ||
  negb (magic_end block =? UF2_MAGIC_END) = false.
Proof. unfold uf2_magic_ok. intros. zsimp. rewrite H, H0, H1. by rewrite !Z.eqb_refl. Qed.

Lemma table_guard :
  match regions cfg with Some _ => UF2_MAX_REGIONS <? num_regions cfg | None => false end = false.
Proof using Hwf.
  destruct Hwf as [Hn Hm _ _]. unfold all_regions, zlen in *. destruct (regions cfg); [|done].
  rewrite length_take in Hm. apply Z.ltb_ge. lia.
Qed.

Lemma process_ignored block st max_blocks w :
  ignored block → uf2_process_block cfg st block max_blocks w = (Ret (0, st), w).
Proof using Hwf.
  intros [Hm Hig]. unfold uf2_process_block. rewrite magic_guard by done.
  rewrite table_guard. destruct Hig as [->|[-> Hb]]; [done|]. cbn [negb].
  by rewrite (bind_ret _ _ _ _ _ (Hb w)).
Qed.

(** The state after the first [accepted] block fixed the total. *)
Definition start_state (n : Z) (st : uf2_state) : uf2_state :=
  if st_num_blocks st =? 0 then set_st_num_blocks n st else st.

(** Up to the duplicate check, an accepted block passes every guard. *)
Lemma process_accepted_prefix max_blocks n block i r st byte w :
  accepted max_blocks n block i r →
  st_num_blocks st = 0 ∨ st_num_blocks st = n →
  block_map st !! Z.to_nat (block_no block / 8) = Some byte →
  uf2_process_block cfg st block max_blocks w =
    (if Z.testbit byte (block_no block mod 8) then mret (0, start_state n st) else
     '(rc, st) ← erase_up_to cfg (start_state n st) (Z.of_nat i) (boff r block + payload_size block);
     if negb (rc =? 0) then mret (rc, st) else
     c ← uf2_region_ctx cfg (Z.of_nat i);
     rc ← cb_write cfg (boff r block) (data block) (payload_size block) c;
     if negb (rc =? 0) then mret (rc, st) else
     st ← mark_received st block;
     mret (0, st)) w.
Proof using Hwf.
  intros [Hm Hfam Hbd [Hn [Hmax ?]] Hno Hps _ Hrt Hr [Ha Hb] Hfit _] Hst Hbyte.
  destruct (wf_region_lookup cfg i r Hwf Hr) as [(?&?&?&?) Hi]. unfold UF2_MAX_REGIONS in Hi.
  unfold boff, UF2_PAYLOAD_SIZE in *. unfold uf2_process_block.
  rewrite magic_guard, table_guard, Hfam by done. cbn [negb].
  rewrite (bind_ret _ _ _ _ _ (Hbd w)). cbn [negb].
  rewrite (proj2 (Z.eqb_neq (num_blocks block) _)), (proj2 (Z.leb_gt _ _)) by lia. cbn [orb].
  rewrite (proj2 (Z.ltb_ge _ _)) by lia.
  rewrite (proj2 (Z.ltb_ge _ _)) by (unfold UF2_PAYLOAD_SIZE; lia).
  rewrite (proj2 (Z.eqb_neq (payload_size block) _)) by lia. cbn [orb].
  rewrite (bind_ret _ _ _ _ _ (Hrt w)). rewrite (proj2 (Z.ltb_ge _ _)) by lia.
  erewrite bind_ret by by apply uf2_region_base_ret. cbv zeta.
  erewrite bind_ret by by apply uf2_region_size_ret.
  rewrite (u32_small (target_addr block - base r)) by (unfold_uint; lia).
  rewrite u32_small by (unfold_uint; lia).
  rewrite (proj2 (Z.ltb_ge _ _)) by lia. rewrite (u8_small (Z.of_nat i)) by (unfold_uint; lia).
  assert (negb (st_num_blocks st =? 0) && negb (st_num_blocks st =? num_blocks block) = false) as ->.
  { destruct Hst as [->| ->]; [done|]. rewrite Hn, Z.eqb_refl. apply andb_false_r. }
  rewrite Hn. fold (start_state n st).
  rewrite (bind_ret _ _ byte w w).
  2: { apply array_get_ret; [apply Z.div_pos; lia|].
       unfold start_state. by destruct (st_num_blocks st =? 0). }
  rewrite land_bit_zero, negb_involutive by lia. done.
Qed.

(** The state after an accepted block was written. *)
Definition received_state (n : Z) block (i : nat) r (f byte : Z) (st : uf2_state) : uf2_state :=
  Uf2State n (blocks_received st ⊕ 1)
    (<[i := new_frontier r f (boff r block + payload_size block)]> (erase_frontier st))
    (if n <=? blocks_received st ⊕ 1 then true else complete st)
    (<[Z.to_nat (block_no block / 8) :=
         Z.lor byte (u8 (Z.shiftl 1 (block_no block mod 8)))]> (block_map st)).

Definition block_cells r block : list cell :=
  written (slice (data block) 0 (uf_wlen r (boff r block) (payload_size block))).

Lemma process_new max_blocks n block i r st byte f w :
  accepted max_blocks n block i r → uf_ok w →
  st_num_blocks st = 0 ∨ st_num_blocks st = n →
  block_map st !! Z.to_nat (block_no block / 8) = Some byte →
  Z.testbit byte (block_no block mod 8) = false →
  erase_frontier st !! i = Some f → frontier_ok r f →
  let nf := new_frontier r f (boff r block + payload_size block) in
  let cells := splice (uf_cells w (ctx r)) f (erased (uf_ev r) (nf - f)) in
  all_fresh (slice cells (boff r block) (uf_wlen r (boff r block) (payload_size block))) →
  wp (uf2_process_block cfg st block max_blocks)
    (λ '(rc, st') w', rc = 0 ∧ uf_ok w' ∧ st' = received_state n block i r f byte st ∧
       uf_cells w' (ctx r) = splice cells (boff r block) (block_cells r block) ∧
       ∀ r', r' ∈ all_regions cfg → ctx r' ≠ ctx r → uf_cells w' (ctx r') = uf_cells w (ctx r')) (λ _, True) w.
Proof using Hwf.
  intros Hacc Hok Hst Hbyte Hbit Hf Hfo nf cells Hfresh.
  eapply wp_eq; [by apply (process_accepted_prefix max_blocks n block i r st byte)|].
  rewrite Hbit.
  destruct Hacc as [_ _ _ [Hn [Hmax ?]] Hno Hps [Hdl Hdb] _ Hr [Ha Hb] Hfit Hal].
  pose proof (list_elem_of_lookup_2 _ _ _ Hr) as Hin. apply wp_bind.
  eapply wp_mono; [apply (erase_up_to_wp i r _ f); try done; [|lia]| |done].
  { unfold start_state. by destruct (st_num_blocks st =? 0). }
  intros [rc st'] w' (-> & Hok' & -> & Hcells & Hframe). cbn [negb Z.eqb].
  fold nf in Hcells. fold cells in Hcells.
  apply wp_bind. eapply wp_pure; [by apply uf2_region_ctx_ret|].
  apply wp_bind. eapply wp_mono; [apply uf_write; try done; by rewrite Hcells| |done].
  intros rc w'' (-> & Hok'' & Hcells' & Hframe'). cbn [negb Z.eqb].
  assert (Hst0 : st_num_blocks (start_state n st) = n ∧
    blocks_received (start_state n st) = blocks_received st ∧
    erase_frontier (start_state n st) = erase_frontier st ∧
    complete (start_state n st) = complete st ∧ block_map (start_state n st) = block_map st).
  { unfold start_state. destruct (st_num_blocks st =? 0) eqn:E; zsimp; [done|].
    destruct Hst; [done|]. done. }
  destruct Hst0 as (E1 & E2 & E3 & E4 & E5).
  unfold mark_received, set_erase_frontier. cbn [block_map st_num_blocks blocks_received erase_frontier complete].
  rewrite E1, E2, E3, E4, E5. apply wp_bind. apply wp_bind.
  eapply wp_array_get; [apply Z.div_pos; lia|done|].
  apply wp_bind, wp_array_set.
  { unfold zlen. apply lookup_lt_Some in Hbyte. split; [apply Z.div_pos; lia|]. lia. }
  apply wp_ret, wp_ret. split_and!; try done.
  - rewrite Hcells', Hcells. done.
  - intros r' Hr' Hc. by rewrite Hframe', Hframe.
Qed.

Lemma process_duplicate max_blocks n block i r st byte w :
  accepted max_blocks n block i r →
  st_num_blocks st = 0 ∨ st_num_blocks st = n →
  block_map st !! Z.to_nat (block_no block / 8) = Some byte →
  Z.testbit byte (block_no block mod 8) = true →
  uf2_process_block cfg st block max_blocks w = (Ret (0, start_state n st), w).
Proof using Hwf.
  intros Hacc Hst Hbyte Hbit.
  rewrite (process_accepted_prefix max_blocks n block i r st byte w Hacc Hst Hbyte).
  by rewrite Hbit.
Qed.

End Process.

(** ** Theorems *)

(** C39: The board-identity check reads the extension tags before the payload
    size is validated.  A block for the right family with the extension flag
    and a payload size of 2^32-4 or more makes the scan start past the end of
    the data field: an out-of-bounds read, where any other oversized payload is
    rejected. *)
Theorem process_block_wrapped_payload {W Ctx} (cfg : uf2_cfg W Ctx) st block max_blocks c bid w :
  wf_cfg cfg → uf2_magic_ok block = true → family_matches cfg block = true →
  board_id cfg = Some (c :: bid) → zlen (data block) = UF2_DATA_SIZE →
  Z.land (flags block) UF2_FLAG_EXTENSION_TAGS ≠ 0 →
  4294967292 <= payload_size block < 4294967296 →
  uf2_process_block cfg st block max_blocks w = (Fault, w).
Proof.
  intros Hwf Hm Hfam Hbid Hlen Hfl Hps. unfold uf2_process_block, UF2_DATA_SIZE in *.
  rewrite magic_guard, table_guard, Hfam by done. cbn [negb].
  unfold board_matches. rewrite Hbid. unfold uf2_find_ext_tag.
  rewrite (proj2 (Z.eqb_neq (Z.land (flags block) UF2_FLAG_EXTENSION_TAGS) _)) by done.
  assert (Hstep : ext_tag_step block UF2_EXT_TAG_BOARD_ID (payload_size block) w = (Fault, w)).
  { unfold ext_tag_step, UF2_DATA_SIZE. unfold_uint.
    rewrite (proj2 (Z.leb_le _ _)) by lia. unfold mbind, M_bind, array_get.
    rewrite (proj2 (Z.ltb_ge _ _)) by lia. rewrite lookup_ge_None_2; [done|unfold zlen in Hlen; lia]. }
  unfold mbind, M_bind. cbn [loop]. unfold mbind, M_bind. by rewrite Hstep.
Qed.

Lemma process_block_wrapped_payload_witness :
  uf2_process_block
    (Uf2Cfg (λ _ _ _ _, mret 0) (λ _ _ _, mret 0) 0 0 0x1000 None 0 0 (Some [97]) 0x1000 None None
       None 0 0 0 : uf2_cfg unit Z)
    (uf2_init 16)
    (Uf2Block UF2_MAGIC_START0 UF2_MAGIC_START1 UF2_FLAG_EXTENSION_TAGS 0 0xFFFFFFFF 0 1 0
       (replicate 476 0) UF2_MAGIC_END) 16 tt = (Fault, tt).
Proof.
  eapply process_block_wrapped_payload; try done.
  split; [done|by vm_compute| |done]. cbn. repeat constructor; cbn; lia.
Defined.
