(* ===== verification/Uf2Transfer.v ===== *)
(** * A whole UF2 file

    The blocks of a file may reach the device in any order, repeatedly, and
    mixed with blocks for other devices.  The invariant of such a transfer
    relates the bitmap, the counter and the erase frontiers to the set of
    received blocks and to the contents of every region. *)

From S2P Require Import Prelude Effects FlashMap Uf2 Uf2Tags Uf2Route Uf2Process.
#[local] Open Scope mcu_scope.

(** The caller's loop: one call per sector, stopping at the first error. *)
Fixpoint uf2_deliver {W Ctx} (cfg : uf2_cfg W Ctx) (st : uf2_state) (bs : list uf2_block)
    (max_blocks : Z) : M W (Z * uf2_state) :=
  match bs with
  | [] => mret (0, st)
  | b :: bs =>
      '(rc, st) ← uf2_process_block cfg st b max_blocks;
      if negb (rc =? 0) then mret (rc, st) else uf2_deliver cfg st bs max_blocks
  end.

Section Transfer.
  Context {W Ctx : Type} (cfg : uf2_cfg W Ctx) `{!Uf2Flash cfg}.
  Context (Hwf : wf_cfg cfg) (Hctx : NoDup (ctx <$> all_regions cfg)).
  Context (file : list uf2_block) (reg : uf2_block → nat) (max_blocks : Z).
  Implicit Types (b : uf2_block) (r : uf2_region Ctx) (R : list uf2_block) (w : W).

Definition wl r b : Z := uf_wlen r (boff r b) (payload_size b).

(** The file is addressed to this device, numbered in order, and its blocks do
    not overlap. *)
Record file_ok : Prop := {
  fo_nonempty : file ≠ [];
  fo_acc b : b ∈ file → ∃ r, accepted cfg max_blocks (zlen file) b (reg b) r;
  fo_no (k : nat) b : file !! k = Some b → block_no b = Z.of_nat k;
  fo_disj b b' r :
    b ∈ file → b' ∈ file → b ≠ b' → reg b = reg b' → all_regions cfg !! reg b = Some r →
    boff r b + wl r b <= boff r b' ∨ boff r b' + wl r b' <= boff r b;
}.

Context (Hfile : file_ok).

Lemma block_no_inj b b' : b ∈ file → b' ∈ file → block_no b = block_no b' → b = b'.
Proof using Hfile.
  intros [k Hk]%list_elem_of_lookup [k' Hk']%list_elem_of_lookup Heq.
  rewrite (fo_no Hfile _ _ Hk), (fo_no Hfile _ _ Hk') in Heq.
  assert (k = k') by lia. subst. congruence.
Qed.

Lemma file_NoDup : NoDup file.
Proof using Hfile.
  apply NoDup_alt. intros k k' b Hk Hk'.
  pose proof (fo_no Hfile _ _ Hk). pose proof (fo_no Hfile _ _ Hk'). lia.
Qed.

(** ** The invariant of one region *)

Record region_inv (c0 : list cell) R (i : nat) r (f : Z) (cs : list cell) : Prop := {
  ri_frontier : frontier_ok cfg r f;
  ri_len : zlen cs = size r;
  ri_written b : b ∈ R → reg b = i →
    boff r b + wl r b <= f ∧ slice cs (boff r b) (wl r b) = block_cells cfg r b;
  ri_fresh (k : nat) : Z.of_nat k < f →
    (∀ b, b ∈ R → reg b = i → ¬ boff r b <= Z.of_nat k < boff r b + wl r b) →
    cs !! k = Some (Cell (uf_ev r) true);
  ri_rest (k : nat) : f <= Z.of_nat k → cs !! k = c0 !! k;
}.

(** Facts about the byte range a block of the file occupies. *)
Lemma block_range b r :
  b ∈ file → all_regions cfg !! reg b = Some r →
  0 <= boff r b ∧ 0 < payload_size b <= wl r b ∧ zlen (block_cells cfg r b) = wl r b ∧
  boff r b + payload_size b <= size r ∧
  boff r b + wl r b <=
    Z.min (size r) (((boff r b + payload_size b) / erase_size cfg + 1) * erase_size cfg).
Proof using Hfile.
  intros Hb Hr. destruct (fo_acc Hfile b Hb) as [r' Ha].
  pose proof (acc_region _ _ _ _ _ _ Ha) as Hr'. rewrite Hr in Hr'. injection Hr' as <-.
  destruct Ha as [_ _ _ _ _ Hps [Hdl _] _ _ [_ Hoff] Hfit Hal].
  pose proof (list_elem_of_lookup_2 _ _ _ Hr) as Hin.
  destruct (uf_wlen_bounds r _ _ Hin Hoff Hal Hps Hfit) as [Hw Hend]. unfold wl.
  split_and!; try lia. unfold block_cells. rewrite zlen_written, zlen_slice; lia.
Qed.

Lemma new_frontier_ok r f x :
  wf_region (erase_size cfg) r → frontier_ok cfg r f → frontier_ok cfg r (new_frontier cfg r f x).
Proof using Hwf.
  intros (_ & Hs & _ & _) [Hf Ho]. pose proof (wf_esize _ Hwf). unfold new_frontier.
  destruct (Z.max_spec f (Z.min (size r) ((x / erase_size cfg + 1) * erase_size cfg))) as [[? ->]|[? ->]];
    [|done].
  destruct (Z.min_spec (size r) ((x / erase_size cfg + 1) * erase_size cfg)) as [[? Hm]|[? Hm]];
    rewrite Hm in *; (split; [lia|]); [by right|left]. apply Z.mod_mul. lia.
Qed.

Lemma region_inv_erase c0 R i r f f' cs :
  all_regions cfg !! i = Some r → (∀ b, b ∈ R → b ∈ file) →
  region_inv c0 R i r f cs → f <= f' → frontier_ok cfg r f' →
  region_inv c0 R i r f' (splice cs f (erased (uf_ev r) (f' - f))).
Proof using Hfile.
  intros Hr HR [Hf Hlen Hw Hfr Hre] Hle Hf'. destruct Hf as [Hf0 _]. pose proof (proj1 Hf') as Hf0'.
  assert (Hz : zlen (erased (uf_ev r) (f' - f)) = f' - f) by (apply zlen_erased; lia).
  split; [done|by rewrite zlen_splice by lia|..].
  - intros b Hb Hi. destruct (Hw b Hb Hi) as [Hend Hsl]. split; [lia|].
    rewrite <- Hi in Hr. pose proof (block_range b r (HR b Hb) Hr) as (? & ? & _).
    rewrite <- Hsl. apply slice_splice_disj; lia.
  - intros k Hk Hno. rewrite lookup_splice by lia. destruct (decide _) as [Hin|Hout].
    + unfold erased. apply lookup_replicate_2. lia.
    + apply Hfr; [lia|done].
  - intros k Hk. rewrite lookup_splice by lia. rewrite decide_False by lia. apply Hre. lia.
Qed.

Lemma region_inv_fresh c0 R r f cs b :
  all_regions cfg !! reg b = Some r → b ∈ file → b ∉ R → (∀ b, b ∈ R → b ∈ file) →
  region_inv c0 R (reg b) r f cs → boff r b + wl r b <= f →
  all_fresh (slice cs (boff r b) (wl r b)).
Proof using Hfile.
  intros Hr Hb HbR HR [_ _ _ Hfr _] Hend. pose proof (block_range b r Hb Hr) as (? & ? & _).
  apply Forall_lookup. intros k c Hk. rewrite lookup_slice in Hk.
  destruct (decide _) as [Hlt|]; [|done]. rewrite Hfr in Hk; [by injection Hk as <-|lia|].
  intros b' Hb' Hreg Hin. rewrite <- Hreg in Hr.
  destruct (fo_disj Hfile b' b r) as [?|?]; [by apply HR|done| |done|done|lia|lia].
  by intros ->.
Qed.

Lemma region_inv_write c0 R r f cs b :
  all_regions cfg !! reg b = Some r → b ∈ file → b ∉ R → (∀ b, b ∈ R → b ∈ file) →
  region_inv c0 R (reg b) r f cs → boff r b + wl r b <= f →
  region_inv c0 (b :: R) (reg b) r f (splice cs (boff r b) (block_cells cfg r b)).
Proof using Hfile.
  intros Hr Hb HbR HR [Hf Hlen Hw Hfr Hre] Hend.
  pose proof (block_range b r Hb Hr) as (Ho & Hwl & Hz & Hs1 & Hs2).
  split; [done|by rewrite zlen_splice by lia|..].
  - intros b' [->|Hb']%elem_of_cons Hreg.
    + split; [done|]. apply slice_splice_eq; lia.
    + destruct (Hw b' Hb' Hreg) as [Hend' Hsl]. split; [done|].
      rewrite <- Hreg in Hr. pose proof (block_range b' r (HR _ Hb') Hr) as (? & ? & _).
      rewrite <- Hsl. apply slice_splice_disj; [lia|lia|lia|].
      destruct (fo_disj Hfile b' b r) as [?|?]; [by apply HR|done| |done|done|lia|lia].
      by intros ->.
  - intros k Hk Hno. rewrite lookup_splice by lia. rewrite decide_False.
    + apply Hfr; [done|]. intros b' Hb'. apply Hno. by right.
    + rewrite Hz. apply Hno; [by left|done].
  - intros k Hk. rewrite lookup_splice by lia. rewrite decide_False by lia. by apply Hre.
Qed.

(** ** The invariant of the transfer *)

Record inv (w0 : W) R (st : uf2_state) w : Prop := {
  inv_nodup : NoDup R;
  inv_sub b : b ∈ R → b ∈ file;
  inv_total : st_num_blocks st = zlen file ∨ (st_num_blocks st = 0 ∧ R = []);
  inv_maplen : zlen (block_map st) = (max_blocks + 7) / 8;
  inv_bits k : 0 <= k → map_bit (block_map st) k = bool_decide (k ∈ block_no <$> R);
  inv_count : blocks_received st = zlen R;
  inv_complete : complete st = (zlen file <=? zlen R);
  inv_frontiers : zlen (erase_frontier st) = UF2_MAX_REGIONS;
  inv_untouched (i : nat) f :
    erase_frontier st !! i = Some f → (∀ b, b ∈ R → reg b ≠ i) → f = 0;
  inv_ok : uf_ok w;
  inv_region (i : nat) r f :
    all_regions cfg !! i = Some r → erase_frontier st !! i = Some f →
    region_inv (uf_cells w0 (ctx r)) R i r f (uf_cells w (ctx r));
}.

Lemma file_pos : 0 < zlen file.
Proof using Hfile. pose proof (fo_nonempty Hfile). unfold zlen. destruct file; [done|cbn; lia]. Qed.

Lemma max_blocks_bounds : zlen file <= max_blocks < 4294967288.
Proof using Hfile.
  pose proof (fo_nonempty Hfile). destruct file as [|b bs] eqn:E; [done|]. rewrite <- E in *.
  destruct (fo_acc Hfile b) as [r Ha]; [rewrite E; by left|].
  destruct (acc_total _ _ _ _ _ _ Ha) as (_ & ? & ?). lia.
Qed.

Lemma inv_init w : uf_ok w → inv w [] (uf2_init max_blocks) w.
Proof using Hwf Hfile.
  intros Hok. pose proof file_pos. pose proof max_blocks_bounds. split; cbn; try done.
  - apply NoDup_nil_2.
  - by intros b ?%not_elem_of_nil.
  - by right.
  - rewrite zlen_replicate, u32_small by (unfold_uint; lia). lia.
  - intros k Hk. rewrite bool_decide_false by apply not_elem_of_nil. unfold map_bit.
    destruct (replicate _ 0 !! _) as [x|] eqn:Hx; [|apply Z.bits_0].
    apply lookup_replicate in Hx as [-> _]. apply Z.bits_0.
  - symmetry. apply Z.leb_gt. exact file_pos.
  - intros i f Hf _. change (replicate (Z.to_nat UF2_MAX_REGIONS) 0 !! i = Some f) in Hf.
    by apply lookup_replicate in Hf as [-> _].
  - intros i r f Hr Hf. change (replicate (Z.to_nat UF2_MAX_REGIONS) 0 !! i = Some f) in Hf.
    apply lookup_replicate in Hf as [-> _]. pose proof (list_elem_of_lookup_2 _ _ _ Hr) as Hin.
    destruct (wf_region_lookup cfg i r Hwf Hr) as [(?&?&_) _].
    split; [split; [lia|left; apply Z.mod_0_l; pose proof (wf_esize _ Hwf); lia]|by apply uf_len|..].
    + by intros b ?%not_elem_of_nil.
    + lia.
    + done.
Qed.

(** The bitmap has a byte for every block of the file. *)
Lemma inv_byte w0 R st w b :
  inv w0 R st w → b ∈ file →
  ∃ byte, block_map st !! Z.to_nat (block_no b / 8) = Some byte ∧
    Z.testbit byte (block_no b mod 8) = bool_decide (b ∈ R).
Proof using Hfile.
  intros Hinv Hb. pose proof max_blocks_bounds.
  destruct (fo_acc Hfile b Hb) as [r Ha]. pose proof (acc_no _ _ _ _ _ _ Ha) as Hno.
  pose proof (inv_maplen _ _ _ _ Hinv) as Hlen. unfold zlen in Hlen at 1.
  destruct (lookup_lt_is_Some_2 (block_map st) (Z.to_nat (block_no b / 8))) as [byte Hbyte]; [lia|].
  exists byte. split; [done|].
  pose proof (inv_bits _ _ _ _ Hinv (block_no b) ltac:(lia)) as Hbit. unfold map_bit in Hbit.
  rewrite Hbyte in Hbit. cbn in Hbit. rewrite Hbit. apply bool_decide_ext. split.
  - intros (b' & Heq & Hb')%list_elem_of_fmap.
    by rewrite (block_no_inj b b' Hb (inv_sub _ _ _ _ Hinv _ Hb') Heq).
  - intros. by apply list_elem_of_fmap_2.
Qed.

Lemma inv_total_cases w0 R st w :
  inv w0 R st w → st_num_blocks st = 0 ∨ st_num_blocks st = zlen file.
Proof using Type. intros Hinv. destruct (inv_total _ _ _ _ Hinv) as [?|[? _]]; auto. Qed.

Lemma inv_frontier w0 R st w (i : nat) r :
  inv w0 R st w → all_regions cfg !! i = Some r → ∃ f, erase_frontier st !! i = Some f.
Proof using Hwf.
  intros Hinv Hr. destruct (wf_region_lookup cfg i r Hwf Hr) as [_ Hi].
  pose proof (inv_frontiers _ _ _ _ Hinv) as Hlen. unfold zlen in Hlen.
  apply lookup_lt_is_Some_2. lia.
Qed.

Lemma inv_start w0 R st w : inv w0 R st w → inv w0 R (start_state (zlen file) st) w.
Proof using Type.
  intros Hinv. unfold start_state. destruct (st_num_blocks st =? 0); [|done].
  destruct Hinv. split; try done. by left.
Qed.

Lemma ctx_inj (i j : nat) r r' :
  all_regions cfg !! i = Some r → all_regions cfg !! j = Some r' → ctx r = ctx r' → i = j.
Proof using Hctx.
  intros Hi Hj Heq. apply (proj1 (NoDup_alt _) Hctx i j (ctx r)).
  - by rewrite list_lookup_fmap, Hi.
  - by rewrite list_lookup_fmap, Hj, Heq.
Qed.

(** A new block extends the received set. *)
Lemma inv_new w0 R st w w' b r f byte :
  inv w0 R st w → b ∈ file → b ∉ R →
  all_regions cfg !! reg b = Some r → erase_frontier st !! reg b = Some f →
  block_map st !! Z.to_nat (block_no b / 8) = Some byte →
  uf_ok w' →
  region_inv (uf_cells w0 (ctx r)) (b :: R) (reg b) r
    (new_frontier cfg r f (boff r b + payload_size b)) (uf_cells w' (ctx r)) →
  (∀ r', r' ∈ all_regions cfg → ctx r' ≠ ctx r → uf_cells w' (ctx r') = uf_cells w (ctx r')) →
  inv w0 (b :: R) (received_state cfg (zlen file) b (reg b) r f byte st) w'.
Proof using Hwf Hctx Hfile.
  intros Hinv Hb HbR Hr Hf Hbyte Hok' Hri Hframe.
  pose proof (inv_sub _ _ _ _ Hinv) as HR. pose proof file_pos. pose proof max_blocks_bounds.
  destruct (fo_acc Hfile b Hb) as [r0 Ha]. pose proof (acc_no _ _ _ _ _ _ Ha) as Hno.
  assert (Hcnt : zlen R + 1 <= zlen file).
  { assert (Hsub : b :: R ⊆+ file).
    - apply NoDup_submseteq; [by constructor; [|apply (inv_nodup _ _ _ _ Hinv)]|].
      intros b' [->|?]%elem_of_cons; auto.
    - apply submseteq_length in Hsub. unfold zlen. cbn in Hsub. lia. }
  assert (Hcr : blocks_received st ⊕ 1 = zlen R + 1).
  { rewrite (inv_count _ _ _ _ Hinv), u32_small; [done|]. pose proof (zlen_nonneg R). unfold_uint. lia. }
  assert (Hcons : zlen (b :: R) = zlen R + 1) by (unfold zlen; cbn [length]; lia).
  split; unfold received_state; cbn [st_num_blocks block_map blocks_received complete erase_frontier].
  - constructor; [done|apply (inv_nodup _ _ _ _ Hinv)].
  - intros b' [->|?]%elem_of_cons; auto.
  - by left.
  - unfold zlen. rewrite length_insert. apply (inv_maplen _ _ _ _ Hinv).
  - intros k Hk. rewrite map_bit_set by (done || lia). rewrite (inv_bits _ _ _ _ Hinv) by done.
    cbn [fmap list_fmap]. destruct (k =? block_no b) eqn:E; zsimp; cbn [orb].
    + rewrite bool_decide_true; [done|]. subst. by left.
    + apply bool_decide_ext. rewrite elem_of_cons. tauto.
  - by rewrite Hcr, Hcons.
  - rewrite Hcr, Hcons. destruct (zlen file <=? _) eqn:E; [done|]. zsimp.
    rewrite (inv_complete _ _ _ _ Hinv). apply Z.leb_gt. lia.
  - unfold zlen. rewrite length_insert. apply (inv_frontiers _ _ _ _ Hinv).
  - intros j f' Hf' Hrj. assert (reg b ≠ j) by (apply Hrj; by left).
    rewrite list_lookup_insert_ne in Hf' by done.
    apply (inv_untouched _ _ _ _ Hinv j); [done|]. intros b' Hb'. apply Hrj. by right.
  - done.
  - intros j r' f' Hr' Hf'. destruct (decide (reg b = j)) as [<-|Hne].
    + rewrite Hr in Hr'. injection Hr' as <-.
      rewrite list_lookup_insert_eq in Hf' by (by eapply lookup_lt_Some). by injection Hf' as <-.
    + rewrite list_lookup_insert_ne in Hf' by done.
      rewrite Hframe by (by eapply list_elem_of_lookup_2) ||
        (intros Heq; by apply Hne, eq_sym, (ctx_inj j (reg b) r' r)).
      destruct (inv_region _ _ _ _ Hinv j r' f' Hr' Hf') as [H1 H2 H3 H4 H5].
      split; try done.
      * intros b' [->|Hb']%elem_of_cons Hreg; [done|by apply H3].
      * intros k Hk Hn. apply H4; [done|]. intros b' Hb'. apply Hn. by right.
Qed.

Lemma inv_process w0 R st w b :
  inv w0 R st w → b ∈ file →
  wp (uf2_process_block cfg st b max_blocks)
    (λ '(rc, st') w', rc = 0 ∧ inv w0 (if bool_decide (b ∈ R) then R else b :: R) st' w')
    (λ _, True) w.
Proof using Hwf Hctx Hfile.
  intros Hinv Hb. destruct (fo_acc Hfile b Hb) as [r Ha].
  pose proof (acc_region _ _ _ _ _ _ Ha) as Hr.
  pose proof (inv_total_cases _ _ _ _ Hinv) as Hst.
  destruct (inv_byte _ _ _ _ b Hinv Hb) as (byte & Hbyte & Hbit).
  destruct (bool_decide (b ∈ R)) eqn:HbR.
  - eapply wp_pure; [by eapply process_duplicate|]. split; [done|]. by apply inv_start.
  - apply bool_decide_eq_false in HbR.
    destruct (inv_frontier _ _ _ _ _ _ Hinv Hr) as [f Hf].
    pose proof (inv_region _ _ _ _ Hinv _ _ _ Hr Hf) as Hri.
    pose proof (ri_frontier _ _ _ _ _ _ Hri) as Hfo.
    pose proof (inv_sub _ _ _ _ Hinv) as HR.
    pose proof (proj1 (wf_region_lookup cfg _ _ Hwf Hr)) as Hreg.
    pose proof (block_range b r Hb Hr) as (_ & _ & _ & _ & Hend).
    pose proof (new_frontier_ok r f (boff r b + payload_size b) Hreg Hfo) as Hfo'.
    apply (region_inv_erase _ _ _ _ _ (new_frontier cfg r f (boff r b + payload_size b))) in Hri;
      [|done|done|unfold new_frontier; lia|done].
    assert (Hle : boff r b + wl r b <= new_frontier cfg r f (boff r b + payload_size b))
      by (unfold new_frontier; lia).
    eapply wp_mono; [apply (process_new cfg Hwf max_blocks (zlen file) b (reg b) r st byte f)| |done];
      [done|apply (inv_ok _ _ _ _ Hinv)|done|done|done|done|done
      |by eapply region_inv_fresh|].
    intros [rc st'] w' (-> & Hok' & -> & Hcells & Hframe). split; [done|].
    eapply inv_new; try done. rewrite Hcells. by apply region_inv_write.
Qed.

Lemma inv_deliver w0 R st w xs :
  inv w0 R st w → (∀ b, b ∈ xs → b ∈ file ∨ ignored cfg b) →
  wp (uf2_deliver cfg st xs max_blocks)
    (λ '(rc, st') w', rc = 0 ∧
       ∃ R', inv w0 R' st' w' ∧ ∀ b, b ∈ R' ↔ b ∈ R ∨ (b ∈ xs ∧ b ∈ file)) (λ _, True) w.
Proof using Hwf Hctx Hfile.
  revert R st w. induction xs as [|b xs IH]; intros R st w Hinv Hxs; cbn [uf2_deliver].
  { apply wp_ret. split; [done|]. exists R. split; [done|].
    intros b. split; [auto|]. intros [?|[?%not_elem_of_nil _]]; done. }
  assert (Hxs' : ∀ b, b ∈ xs → b ∈ file ∨ ignored cfg b) by (intros; apply Hxs; by right).
  apply wp_bind. destruct (decide (b ∈ file)) as [Hb|Hb].
  - eapply wp_mono; [by apply inv_process| |done].
    intros [rc st'] w' [-> Hinv']. cbn [negb Z.eqb].
    eapply wp_mono; [by apply IH| |done]. intros [rc st''] w'' (-> & R' & HR' & Hiff).
    split; [done|]. exists R'. split; [done|]. intros b'. rewrite Hiff, elem_of_cons.
    destruct (bool_decide (b ∈ R)) eqn:Hd.
    + apply bool_decide_eq_true in Hd. clear -Hd Hb.
      split; intuition congruence.
    + rewrite elem_of_cons. clear -Hb. split; intuition congruence.
  - destruct (Hxs b) as [?|Hig]; [by left|done|].
    eapply wp_pure; [by apply process_ignored|]. cbn [negb Z.eqb].
    eapply wp_mono; [by apply IH| |done]. intros [rc st''] w'' (-> & R' & HR' & Hiff).
    split; [done|]. exists R'. split; [done|]. intros b'. rewrite Hiff, elem_of_cons.
    clear -Hb. split; intuition congruence.
Qed.

Lemma received_payload w0 R st w b r :
  inv w0 R st w → b ∈ R → all_regions cfg !! reg b = Some r →
  slice (vals (uf_cells w (ctx r))) (boff r b) (payload_size b) = slice (data b) 0 (payload_size b).
Proof using Hwf Hfile.
  intros Hinv HbR Hr. destruct (inv_frontier _ _ _ _ _ _ Hinv Hr) as [f Hf].
  destruct (ri_written _ _ _ _ _ _ (inv_region _ _ _ _ Hinv _ _ _ Hr Hf) b HbR eq_refl) as [_ Hsl].
  pose proof (block_range b r (inv_sub _ _ _ _ Hinv _ HbR) Hr) as (? & ? & ? & _).
  rewrite <- (Z.add_0_r (boff r b)), <- (slice_slice _ _ (wl r b)) by lia.
  rewrite <- vals_slice, Hsl. unfold block_cells. rewrite vals_written.
  unfold wl in *. by rewrite slice_slice by lia.
Qed.

Lemma complete_iff w0 R st w :
  inv w0 R st w → uf2_is_complete st = true ↔ ∀ b, b ∈ file → b ∈ R.
Proof using Hfile.
  intros Hinv. unfold uf2_is_complete. rewrite (inv_complete _ _ _ _ Hinv), Z.leb_le. split.
  - intros Hle. assert (Hperm : R ≡ₚ file).
    { apply submseteq_length_Permutation; [|unfold zlen in Hle; lia].
      apply NoDup_submseteq; [apply (inv_nodup _ _ _ _ Hinv)|apply (inv_sub _ _ _ _ Hinv)]. }
    intros b. by rewrite Hperm.
  - intros Hall. unfold zlen. apply inj_le, submseteq_length, NoDup_submseteq; [apply file_NoDup|done].
Qed.

(** A region no received block goes to keeps its contents. *)
Lemma untouched_region w0 R st w (i : nat) r :
  inv w0 R st w → all_regions cfg !! i = Some r → (∀ b, b ∈ R → reg b ≠ i) →
  uf_cells w (ctx r) = uf_cells w0 (ctx r).
Proof using Hwf.
  intros Hinv Hr Hno. destruct (inv_frontier _ _ _ _ _ _ Hinv Hr) as [f Hf].
  pose proof (inv_untouched _ _ _ _ Hinv i f Hf Hno) as ->. apply list_eq. intros k.
  apply (ri_rest _ _ _ _ _ _ (inv_region _ _ _ _ Hinv _ _ _ Hr Hf)). lia.
Qed.

(** C31: A UF2 file is transferred correctly whatever the order of its sectors.
    Deliver to [uf2_process_block], starting from [uf2_init], any sequence of
    blocks each of which belongs to the file or is meant for another board or
    family, with repetitions: every call returns 0; every delivered payload is
    in flash at its target address; the transfer is reported complete exactly
    when every block of the file was delivered; a region the file does not
    address is unchanged. *)
Theorem uf2_transfer_correct w0 xs :
  uf_ok w0 → (∀ b, b ∈ xs → b ∈ file ∨ ignored cfg b) →
  wp (uf2_deliver cfg (uf2_init max_blocks) xs max_blocks)
    (λ '(rc, st) w, rc = 0 ∧
       (uf2_is_complete st = true ↔ ∀ b, b ∈ file → b ∈ xs) ∧
       (∀ b r, b ∈ file → b ∈ xs → all_regions cfg !! reg b = Some r →
          slice (vals (uf_cells w (ctx r))) (boff r b) (payload_size b) =
            slice (data b) 0 (payload_size b)) ∧
       (∀ i r, all_regions cfg !! i = Some r → (∀ b, b ∈ file → reg b ≠ i) →
          uf_cells w (ctx r) = uf_cells w0 (ctx r)))
    (λ _, True) w0.
Proof using Hwf Hctx Hfile.
  intros Hok Hxs. eapply wp_mono; [apply inv_deliver; [by apply inv_init|done]| |done].
  intros [rc st] w (-> & R & Hinv & Hiff). split; [done|]. split_and!.
  - rewrite (complete_iff _ _ _ _ Hinv). split; intros Hall b Hb; specialize (Hall b Hb).
    + apply Hiff in Hall as [?%not_elem_of_nil|[? _]]; done.
    + apply Hiff. by right.
  - intros b r Hb Hbx Hr. eapply received_payload; [done| |done]. apply Hiff. by right.
  - intros i r Hr Hno. eapply untouched_region; [done..|]. intros b Hb. apply Hno.
    by apply (inv_sub _ _ _ _ Hinv).
Qed.

End Transfer.
