(* ===== verification/GhostFat.v ===== *)
(** * The virtual FAT16 disk

    Translation of boot/boot_uf2/src/ghostfat.c: every sector of the disk is
    generated when it is read, and a sector written to the data area is handed
    to [uf2_process_block] when it carries the UF2 magic numbers.  A sector
    buffer is a list of 512 bytes; stores through a pointer into it are
    [splice]s. *)

From Stdlib Require Import String Ascii.
From S2P Require Import Prelude Effects FlashMap Uf2.
#[local] Open Scope mcu_scope.

Definition SECTOR_SIZE : Z := 512.
Definition NUM_FAT_SECTORS : Z := 64.
Definition NUM_ROOT_DIR_SECTORS : Z := 4.
Definition ROOT_DIR_ENTRIES : Z := NUM_ROOT_DIR_SECTORS * (SECTOR_SIZE / 32).
Definition RESERVED_SECTORS : Z := 1.
Definition NUM_FATS : Z := 2.
Definition DATA_START_SECTOR : Z :=
  RESERVED_SECTORS + (NUM_FATS * NUM_FAT_SECTORS) + NUM_ROOT_DIR_SECTORS.
Definition TOTAL_SECTORS : Z := 65535.
Definition FAT_ENTRIES_PER_SECTOR : Z := SECTOR_SIZE / 2.
Definition CLUSTER_INFO_UF2 : Z := 2.
Definition CLUSTER_INDEX_HTM : Z := 3.
Definition CLUSTER_CURRENT_UF2 : Z := 4.
Definition INFO_UF2_TXT_MAX : Z := 256.
Definition INDEX_HTM_MAX : Z := 256.

(** The bytes of a string literal. *)
Fixpoint str (s : string) : list Z :=
  match s with
  | EmptyString => []
  | String c s => Z.of_nat (nat_of_ascii c) :: str s
  end.

Definition crlf : list Z := [13; 10].
Definition quote : list Z := [34].

Definition zeros (n : Z) : list Z := replicate (Z.to_nat n) 0.

(** [write_u16_le(&buf[off], val)] and [write_u32_le(&buf[off], val)] *)
Definition write_u16_le (buf : list Z) (off val : Z) : list Z :=
  splice buf off [Z.land val 255; u8 (Z.shiftr val 8)].
Definition write_u32_le (buf : list Z) (off val : Z) : list Z :=
  splice buf off [Z.land val 255; Z.land (Z.shiftr val 8) 255;
                  Z.land (Z.shiftr val 16) 255; Z.land (Z.shiftr val 24) 255].
(** [buf[off] = val] *)
Definition put8 (buf : list Z) (off val : Z) : list Z := splice buf off [val].

(** [snprintf(buf, max_len, ...)] of an output [out]: at most [max_len - 1]
    bytes and a terminator; the result is the length of the whole output. *)
Definition snprintf (buf : list Z) (max_len : Z) (out : list Z) : Z * list Z :=
  (zlen out, splice buf 0 (slice out 0 (Z.min (zlen out) (max_len - 1)) ++ [0])).

Definition build_boot_sector : list Z :=
  let buf := zeros SECTOR_SIZE in
  let buf := put8 buf 0 0xEB in
  let buf := put8 buf 1 0x3C in
  let buf := put8 buf 2 0x90 in
  let buf := splice buf 3 (str "UF2 UF2 ") in
  let buf := write_u16_le buf 11 SECTOR_SIZE in
  let buf := put8 buf 13 1 in
  let buf := write_u16_le buf 14 RESERVED_SECTORS in
  let buf := put8 buf 16 NUM_FATS in
  let buf := write_u16_le buf 17 ROOT_DIR_ENTRIES in
  let buf := write_u16_le buf 19 TOTAL_SECTORS in
  let buf := put8 buf 21 0xF8 in
  let buf := write_u16_le buf 22 NUM_FAT_SECTORS in
  let buf := write_u16_le buf 24 1 in
  let buf := write_u16_le buf 26 1 in
  let buf := write_u32_le buf 28 0 in
  let buf := write_u32_le buf 32 TOTAL_SECTORS in
  let buf := put8 buf 36 0x80 in
  let buf := put8 buf 38 0x29 in
  let buf := write_u32_le buf 39 0x00420042 in
  let buf := splice buf 43 (str "ADABOOT    ") in
  let buf := splice buf 54 (str "FAT16   ") in
  let buf := put8 buf 446 0x80 in
  let buf := put8 buf 447 0x01 in
  let buf := put8 buf 448 0x01 in
  let buf := put8 buf 449 0x00 in
  let buf := put8 buf 450 0x0E in
  let buf := put8 buf 451 0xFE in
  let buf := put8 buf 452 0xFF in
  let buf := put8 buf 453 0xFF in
  let buf := write_u32_le buf 454 0 in
  let buf := write_u32_le buf 458 TOTAL_SECTORS in
  let buf := put8 buf 510 0x55 in
  let buf := put8 buf 511 0xAA in
  buf.

(** A 512-byte sector seen as a [struct uf2_block]. *)
Definition parse_block (buf : list Z) : uf2_block := {|
  magic_start0 := le_dec (slice buf 0 4);
  magic_start1 := le_dec (slice buf 4 4);
  flags := le_dec (slice buf 8 4);
  target_addr := le_dec (slice buf 12 4);
  payload_size := le_dec (slice buf 16 4);
  block_no := le_dec (slice buf 20 4);
  num_blocks := le_dec (slice buf 24 4);
  family_id := le_dec (slice buf 28 4);
  data := slice buf 32 UF2_DATA_SIZE;
  magic_end := le_dec (slice buf 508 4);
|}.

Section GhostFat.
  Context {W Ctx : Type} (UF2_VERSION_STRING : list Z).
  Implicit Types (cfg : uf2_cfg W Ctx).

Definition current_uf2_num_blocks cfg : Z :=
  match cb_read cfg with
  | None => 0
  | Some _ =>
      if readback_size cfg =? 0 then 0
      else (readback_size cfg ⊕ UF2_PAYLOAD_SIZE ⊖ 1) / UF2_PAYLOAD_SIZE
  end.

(** The FAT entry of a cluster. *)
Definition fat_value cfg (cluster : Z) : Z :=
  let num_current := current_uf2_num_blocks cfg in
  if cluster =? 0 then 0xFFF8 else
  if cluster =? 1 then 0xFFFF else
  if (cluster =? CLUSTER_INFO_UF2) || (cluster =? CLUSTER_INDEX_HTM) then 0xFFFF else
  if (0 <? num_current) && (CLUSTER_CURRENT_UF2 <=? cluster) &&
     (cluster <? CLUSTER_CURRENT_UF2 ⊕ num_current) then
    if cluster =? CLUSTER_CURRENT_UF2 ⊕ num_current ⊖ 1 then 0xFFFF else u16 (cluster + 1)
  else 0.

Definition build_fat_sector cfg (fat_sector_idx : Z) : list Z :=
  let first_entry := fat_sector_idx ⊗ FAT_ENTRIES_PER_SECTOR in
  foldl (λ buf i,
    let val := fat_value cfg (first_entry ⊕ i) in
    if val =? 0 then buf else write_u16_le buf (i * 2) val)
    (zeros SECTOR_SIZE) (seqZ 0 FAT_ENTRIES_PER_SECTOR).

(** The entry at [&buf[off]]. *)
Definition build_dir_entry (buf : list Z) (off : Z) (name11 : list Z) (attr cluster size : Z)
    : list Z :=
  let buf := splice buf off (zeros 32) in
  let buf := splice buf off name11 in
  let buf := put8 buf (off + 11) attr in
  let buf := write_u16_le buf (off + 26) cluster in
  write_u32_le buf (off + 28) size.

Definition info_uf2_txt cfg : list Z :=
  let name := default (str "MCUboot") (board_name cfg) in
  str "UF2 Bootloader " ++ UF2_VERSION_STRING ++ crlf ++
  str "Model: " ++ name ++ crlf ++
  str "Board-ID: " ++ name ++ crlf.

Definition build_info_uf2_txt cfg (buf : list Z) (max_len : Z) : Z * list Z :=
  let '(len, buf) := snprintf buf max_len (info_uf2_txt cfg) in
  (if (len <? 0) || (max_len <=? len) then max_len - 1 else len, buf).

Definition index_htm cfg : list Z :=
  let url := default (str "https://mcuboot.com") (board_url cfg) in
  str "<!doctype html>" ++ crlf ++
  str "<html><head>" ++
  str "<meta http-equiv=" ++ quote ++ str "refresh" ++ quote ++ str " content=" ++ quote ++
  str "0;URL='" ++ url ++ str "'" ++ quote ++ str ">" ++
  str "</head><body>Redirecting to <a href=" ++ quote ++ url ++ quote ++ str ">" ++ url ++
  str "</a>" ++
  str "</body></html>" ++ crlf.

Definition build_index_htm cfg (buf : list Z) (max_len : Z) : Z * list Z :=
  let '(len, buf) := snprintf buf max_len (index_htm cfg) in
  (if (len <? 0) || (max_len <=? len) then max_len - 1 else len, buf).

Definition build_root_dir_sector cfg (dir_sector_idx : Z) : list Z :=
  let buf := zeros SECTOR_SIZE in
  if negb (dir_sector_idx =? 0) then buf else
  let info_len := (build_info_uf2_txt cfg (zeros INFO_UF2_TXT_MAX) INFO_UF2_TXT_MAX).1 in
  let index_len := (build_index_htm cfg (zeros INDEX_HTM_MAX) INDEX_HTM_MAX).1 in
  let buf := build_dir_entry buf 0 (str "ADABOOT    ") 0x08 0 0 in
  let buf := build_dir_entry buf 32 (str "INFO_UF2TXT") 0x01 CLUSTER_INFO_UF2 info_len in
  let buf := build_dir_entry buf 64 (str "INDEX   HTM") 0x01 CLUSTER_INDEX_HTM index_len in
  let num_current := current_uf2_num_blocks cfg in
  if 0 <? num_current then
    let file_size := num_current ⊗ UF2_BLOCK_SIZE in
    build_dir_entry buf 96 (str "CURRENT UF2") 0x01 CLUSTER_CURRENT_UF2 file_size
  else buf.

(** [cfg->board_id != NULL && cfg->board_id[0] != '\0'] *)
Definition has_board_id cfg : bool :=
  match board_id cfg with Some (_ :: _) => true | _ => false end.

(** The board identity record behind the payload. *)
Definition put_board_tag (bid : list Z) (buf : list Z) (payload_len : Z) : list Z :=
  let blen := zlen bid in
  let ext_off := 32 ⊕ payload_len in
  let sz := u8 (4 + blen) in
  let padded := Z.land (sz ⊕ 3) (u32 (Z.lnot 3)) in
  if (blen <=? 251) && (ext_off ⊕ padded ⊕ 4 <=? 508) then
    let buf := put8 buf ext_off sz in
    let buf := put8 buf (ext_off + 1) (Z.land (Z.shiftr UF2_EXT_TAG_BOARD_ID 0) 255) in
    let buf := put8 buf (ext_off + 2) (Z.land (Z.shiftr UF2_EXT_TAG_BOARD_ID 8) 255) in
    let buf := put8 buf (ext_off + 3) (Z.land (Z.shiftr UF2_EXT_TAG_BOARD_ID 16) 255) in
    splice buf (ext_off + 4) bid
  else buf.

Definition build_current_uf2_block cfg (block_index num_blocks : Z) : M W (list Z) :=
  let offset := block_index ⊗ UF2_PAYLOAD_SIZE in
  let payload_len :=
    if readback_size cfg <? offset ⊕ UF2_PAYLOAD_SIZE then readback_size cfg ⊖ offset
    else UF2_PAYLOAD_SIZE in
  let buf := zeros SECTOR_SIZE in
  let buf := write_u32_le buf 0 UF2_MAGIC_START0 in
  let buf := write_u32_le buf 4 UF2_MAGIC_START1 in
  let buf := write_u32_le buf 8
               (Z.lor (if cfg_family_id cfg =? 0 then 0 else UF2_FLAG_FAMILY_ID)
                      (if has_board_id cfg then UF2_FLAG_EXTENSION_TAGS else 0)) in
  let buf := write_u32_le buf 12 (readback_base cfg ⊕ offset) in
  let buf := write_u32_le buf 16 payload_len in
  let buf := write_u32_le buf 20 block_index in
  let buf := write_u32_le buf 24 num_blocks in
  let buf := write_u32_le buf 28 (cfg_family_id cfg) in
  match cb_read cfg with
  | None => fault
  | Some read =>
      '(_, payload) ← read offset (slice buf 32 payload_len) payload_len (read_ctx cfg);
      let buf := splice buf 32 payload in
      let buf := match board_id cfg with
                 | Some ((_ :: _) as bid) => put_board_tag bid buf payload_len
                 | _ => buf
                 end in
      mret (write_u32_le buf 508 UF2_MAGIC_END)
  end.

Definition ghostfat_get_sector_count : Z := TOTAL_SECTORS.

Definition ghostfat_read_sector cfg (sector : Z) : M W (list Z) :=
  if sector =? 0 then mret build_boot_sector else
  if (RESERVED_SECTORS <=? sector) && (sector <? RESERVED_SECTORS + NUM_FAT_SECTORS)
  then mret (build_fat_sector cfg (sector - RESERVED_SECTORS)) else
  if (RESERVED_SECTORS + NUM_FAT_SECTORS <=? sector) &&
     (sector <? RESERVED_SECTORS + 2 * NUM_FAT_SECTORS)
  then mret (build_fat_sector cfg (sector - RESERVED_SECTORS - NUM_FAT_SECTORS)) else
  let root_start := RESERVED_SECTORS + 2 * NUM_FAT_SECTORS in
  if (root_start <=? sector) && (sector <? root_start + NUM_ROOT_DIR_SECTORS)
  then mret (build_root_dir_sector cfg (sector - root_start)) else
  if DATA_START_SECTOR <=? sector then
    let cluster := (sector - DATA_START_SECTOR) ⊕ 2 in
    if cluster =? CLUSTER_INFO_UF2
    then mret (build_info_uf2_txt cfg (zeros SECTOR_SIZE) SECTOR_SIZE).2 else
    if cluster =? CLUSTER_INDEX_HTM
    then mret (build_index_htm cfg (zeros SECTOR_SIZE) SECTOR_SIZE).2 else
    let num_current := current_uf2_num_blocks cfg in
    if (0 <? num_current) && (CLUSTER_CURRENT_UF2 <=? cluster) &&
       (cluster <? CLUSTER_CURRENT_UF2 ⊕ num_current)
    then build_current_uf2_block cfg (cluster - CLUSTER_CURRENT_UF2) num_current
    else mret (zeros SECTOR_SIZE)
  else mret (zeros SECTOR_SIZE).

Definition ghostfat_write_sector cfg (st : uf2_state) (sector : Z) (buf : list Z)
    (max_blocks : Z) : M W (Z * uf2_state) :=
  if sector <? DATA_START_SECTOR then mret (0, st) else
  let block := parse_block buf in
  if negb (magic_start0 block =? UF2_MAGIC_START0) ||
     negb (magic_start1 block =? UF2_MAGIC_START1) ||
     negb (magic_end block =? UF2_MAGIC_END) then mret (0, st) else
  uf2_process_block cfg st block max_blocks.

End GhostFat.
