(* ===== verification/GhostFatProps.v ===== *)
(** * Properties of the virtual FAT16 disk

    The disk as a host sees it: the allocation table, the directory and the
    CURRENT.UF2 file, whose blocks are accepted again by the UF2 parser. *)

From Stdlib Require Import String Ascii.
From S2P Require Import Prelude Effects FlashMap Uf2 Uf2Tags Uf2Route Uf2Process GhostFat.
#[local] Open Scope mcu_scope.

(** ** Little-endian stores *)

Lemma land255 x : Z.land x 255 = x mod 256.
Proof. change 255 with (Z.ones 8). by rewrite Z.land_ones. Qed.

Lemma write_u16_le_enc buf off v : write_u16_le buf off v = splice buf off (le_enc 2 v).
Proof.
  unfold write_u16_le, u8. rewrite land255, Z.shiftr_div_pow2 by lia. done.
Qed.

Lemma write_u32_le_enc buf off v : write_u32_le buf off v = splice buf off (le_enc 4 v).
Proof.
  unfold write_u32_le. rewrite !land255, !Z.shiftr_div_pow2 by lia. cbn [le_enc].
  rewrite !Z.div_div by lia. done.
Qed.

(** A store into a buffer known as a concatenation. *)
Lemma splice_at {A} (a z c d : list A) off :
  off = zlen a → zlen d = zlen z → splice (a ++ z ++ c) off d = a ++ d ++ c.
Proof.
  intros -> Hd. unfold splice, zlen in *. rewrite Nat2Z.id, take_app_length.
  rewrite drop_app_add. f_equal. f_equal. assert (length d = length z) as -> by lia.
  apply drop_app_length.
Qed.

Lemma slice_at {A} (a b c : list A) off n :
  off = zlen a → n = zlen b → slice (a ++ b ++ c) off n = b.
Proof.
  intros -> ->. unfold slice, zlen. rewrite !Nat2Z.id, drop_app_length. apply take_app_length.
Qed.

Lemma zlen_zeros n : 0 <= n → zlen (zeros n) = n.
Proof. intros. unfold zeros. rewrite zlen_replicate. lia. Qed.

Lemma zeros_app a b : 0 <= a → 0 <= b → zeros (a + b) = zeros a ++ zeros b.
Proof. intros. unfold zeros. rewrite <- replicate_add. f_equal. lia. Qed.

(** ** UF2 blocks on the wire *)

Definition words (ws : list Z) : list Z := concat (le_enc 4 <$> ws).

Lemma zlen_words ws : zlen (words ws) = 4 * zlen ws.
Proof.
  induction ws as [|v ws IH]; [done|]. unfold words in *. cbn [fmap list_fmap concat].
  rewrite zlen_app, zlen_le_enc, IH. unfold zlen. cbn [length]. lia.
Qed.

Lemma slice_words ws rest (k : nat) v :
  ws !! k = Some v → slice (words ws ++ rest) (4 * Z.of_nat k) 4 = le_enc 4 v.
Proof.
  intros Hk. rewrite <- (take_drop_middle ws k v Hk). unfold words.
  rewrite fmap_app, concat_app, fmap_cons. cbn [concat]. rewrite <- !app_assoc.
  apply slice_at; [|done]. change (concat _) with (words (take k ws)).
  rewrite zlen_words. unfold zlen. rewrite length_take_le; [lia|].
  apply lookup_lt_Some in Hk. lia.
Qed.

Definition header (b : uf2_block) : list Z :=
  [magic_start0 b; magic_start1 b; flags b; target_addr b;
   payload_size b; block_no b; num_blocks b; family_id b].

Definition encode_block (b : uf2_block) : list Z :=
  words (header b) ++ data b ++ le_enc 4 (magic_end b).

Record wf_block (b : uf2_block) : Prop := {
  wb_fields : Forall is_u32 (header b);
  wb_end : is_u32 (magic_end b);
  wb_data : zlen (data b) = UF2_DATA_SIZE;
}.

Lemma parse_encode b : wf_block b → parse_block (encode_block b) = b.
Proof.
  intros [Hf He Hd]. unfold parse_block.
  assert (Hw : ∀ (k : nat) off v, header b !! k = Some v → off = 4 * Z.of_nat k →
    le_dec (slice (encode_block b) off 4) = v).
  { intros k off v Hk ->. unfold encode_block. rewrite (slice_words _ _ _ v Hk).
    apply le_dec_enc_u32. by apply (Forall_lookup_1 _ _ _ _ Hf Hk). }
  rewrite (Hw 0%nat 0 (magic_start0 b)), (Hw 1%nat 4 (magic_start1 b)), (Hw 2%nat 8 (flags b)),
    (Hw 3%nat 12 (target_addr b)), (Hw 4%nat 16 (payload_size b)), (Hw 5%nat 20 (block_no b)),
    (Hw 6%nat 24 (num_blocks b)), (Hw 7%nat 28 (family_id b)) by done.
  unfold encode_block. rewrite (slice_at (words _) (data b)) by done.
  rewrite app_assoc. rewrite <- (app_nil_r (le_enc 4 (magic_end b))).
  rewrite slice_at; [|by rewrite zlen_app, zlen_words, Hd|done].
  rewrite le_dec_enc_u32 by done. by destruct b.
Qed.

(** ** The allocation table *)

Section Fat.
  Context {W Ctx : Type} (version : list Z).
  Implicit Types (cfg : uf2_cfg W Ctx) (w : W).

Lemma fat_value_range cfg c : is_u16 (fat_value cfg c).
Proof.
  unfold fat_value. cbv zeta. repeat case_match; try (unfold_uint; lia).
Qed.

Lemma ltb_S k n : k ≠ Z.of_nat n → (k <? Z.of_nat (S n)) = (k <? Z.of_nat n).
Proof. intros. destruct (Z.ltb_spec k (Z.of_nat n)), (Z.ltb_spec k (Z.of_nat (S n))); done || lia. Qed.

(** After [n] entries, the first [n] are in place and the others are zero. *)
Lemma fat_entries cfg first (n : nat) :
  (n <= 256)%nat →
  let buf := foldl (λ buf i, let val := fat_value cfg (first ⊕ i) in
                   if val =? 0 then buf else write_u16_le buf (i * 2) val)
                   (zeros SECTOR_SIZE) (seqZ 0 (Z.of_nat n)) in
  zlen buf = SECTOR_SIZE ∧
  ∀ k, 0 <= k < 256 → le_dec (slice buf (k * 2) 2) = if k <? Z.of_nat n then fat_value cfg (first ⊕ k) else 0.
Proof.
  unfold SECTOR_SIZE. induction n as [|n IH]; intros Hn.
  - split; [done|]. intros k Hk. rewrite (proj2 (Z.ltb_ge _ _)) by lia. cbn [foldl seqZ].
    change (foldl _ _ _) with (zeros 512). unfold zeros. by rewrite slice_replicate by lia.
  - destruct IH as [Hlen Hent]; [lia|].
    rewrite seqZ_S. cbv zeta. rewrite foldl_app. cbn [foldl].
    set (buf := foldl _ _ (seqZ 0 (Z.of_nat n))) in *. rewrite Z.add_0_l.
    pose proof (fat_value_range cfg (first ⊕ Z.of_nat n)) as Hv.
    destruct (fat_value cfg (first ⊕ Z.of_nat n) =? 0) eqn:Hz; zsimp.
    + split; [done|]. intros k Hk. rewrite Hent by done.
      destruct (decide (k = Z.of_nat n)) as [->|]; [|by rewrite ltb_S].
      rewrite Z.ltb_irrefl, (proj2 (Z.ltb_lt _ _)) by lia. done.
    + rewrite write_u16_le_enc. split; [rewrite zlen_splice; rewrite ?zlen_le_enc; lia|].
      intros k Hk. destruct (decide (k = Z.of_nat n)) as [->|].
      * rewrite slice_splice_eq; rewrite ?zlen_le_enc; [|lia..].
        rewrite (proj2 (Z.ltb_lt _ _)) by lia. by apply le_dec_enc_u16.
      * rewrite slice_splice_disj; rewrite ?zlen_le_enc; [|lia..]. rewrite Hent by done.
        by rewrite ltb_S.
Qed.

Lemma build_fat_sector_entry cfg s k :
  0 <= s < NUM_FAT_SECTORS → 0 <= k < 256 →
  le_dec (slice (build_fat_sector cfg s) (k * 2) 2) = fat_value cfg (s * 256 + k).
Proof.
  intros Hs Hk. unfold build_fat_sector, NUM_FAT_SECTORS in *.
  change FAT_ENTRIES_PER_SECTOR with (Z.of_nat 256).
  destruct (fat_entries cfg (s ⊗ Z.of_nat 256) 256) as [_ He]; [lia|].
  rewrite He by done. rewrite (proj2 (Z.ltb_lt _ _)) by lia.
  rewrite (u32_small (s * _)) by (unfold_uint; lia). by rewrite u32_small by (unfold_uint; lia).
Qed.

(** ** The host's view *)

(** The FAT entry of a cluster, as a host computes it from the disk: FAT number
    [fat] (0 or 1), 256 entries to a sector. *)
Definition host_fat_entry cfg (fat c : Z) : M W Z :=
  buf ← ghostfat_read_sector version cfg (RESERVED_SECTORS + fat * NUM_FAT_SECTORS + c / 256);
  mret (le_dec (slice buf (c mod 256 * 2) 2)).

(** The clusters of the file starting at [c]. *)
Fixpoint host_chain cfg (fuel : nat) (c : Z) : M W (list Z) :=
  match fuel with
  | O => fault
  | S fuel =>
      e ← host_fat_entry cfg 0 c;
      if 0xFFF8 <=? e then mret [c] else
      rest ← host_chain cfg fuel e;
      mret (c :: rest)
  end.

Lemma host_fat_entry_ret cfg fat c w :
  0 <= fat <= 1 → 0 <= c < 16384 → host_fat_entry cfg fat c w = (Ret (fat_value cfg c), w).
Proof.
  intros Hf Hc. unfold host_fat_entry. rewrite (bind_ret _ _ (build_fat_sector cfg (c / 256)) w w).
  - unfold mret, M_ret. do 2 f_equal. rewrite build_fat_sector_entry by (unfold NUM_FAT_SECTORS; lia).
    f_equal. lia.
  - unfold ghostfat_read_sector, RESERVED_SECTORS, NUM_FAT_SECTORS.
    rewrite (proj2 (Z.eqb_neq _ _)) by lia.
    rewrite (proj2 (Z.leb_le 1 _)) by lia. cbn [andb].
    destruct (_ <? 1 + 64) eqn:H1; zsimp.
    + unfold mret, M_ret. do 2 f_equal. f_equal. lia.
    + rewrite (proj2 (Z.leb_le _ _)), (proj2 (Z.ltb_lt _ _)) by lia. cbn [andb].
      unfold mret, M_ret. do 2 f_equal. f_equal. lia.
Qed.

(** The links of CURRENT.UF2. *)
Lemma fat_value_current cfg c n :
  current_uf2_num_blocks cfg = n → 0 < n <= 16380 → 4 <= c < 4 + n →
  fat_value cfg c = if c =? 3 + n then 0xFFFF else c + 1.
Proof.
  intros Hn Hr Hc. unfold fat_value, CLUSTER_INFO_UF2, CLUSTER_INDEX_HTM, CLUSTER_CURRENT_UF2.
  rewrite Hn. rewrite !(proj2 (Z.eqb_neq c _)) by lia. cbn [orb].
  rewrite (u32_small (4 + n)) by (unfold_uint; lia). rewrite u32_small by (unfold_uint; lia).
  rewrite (proj2 (Z.ltb_lt 0 n)), (proj2 (Z.leb_le 4 c)), (proj2 (Z.ltb_lt c _)) by lia. cbn [andb].
  replace (4 + n - 1) with (3 + n) by lia. destruct (c =? 3 + n); [done|].
  apply u16_small. unfold_uint. lia.
Qed.

Lemma host_chain_current cfg (fuel : nat) c n w :
  current_uf2_num_blocks cfg = n → 0 < n <= 16380 → 4 <= c < 4 + n → fuel = Z.to_nat (4 + n - c) →
  host_chain cfg fuel c w = (Ret (seqZ c (4 + n - c)), w).
Proof.
  intros Hn Hr. revert c. induction fuel as [|fuel IH]; intros c Hc Hfuel; [lia|].
  cbn [host_chain]. erewrite bind_ret by (apply host_fat_entry_ret; lia).
  rewrite (fat_value_current cfg c n) by done. rewrite seqZ_cons by lia.
  destruct (c =? 3 + n) eqn:He; zsimp.
  - subst c. by replace (Z.pred (4 + n - (3 + n))) with 0 by lia.
  - rewrite (proj2 (Z.leb_gt _ _)) by lia.
    erewrite bind_ret by (apply IH; lia).
    by replace (4 + n - (c + 1)) with (Z.pred (4 + n - c)) by lia.
Qed.

Lemma read_current_sector cfg i n w :
  current_uf2_num_blocks cfg = n → 0 <= i < n → n < 4294967000 →
  ghostfat_read_sector version cfg (DATA_START_SECTOR + (CLUSTER_CURRENT_UF2 + i - 2)) w =
    build_current_uf2_block cfg i n w.
Proof.
  intros Hn Hi Hb. unfold ghostfat_read_sector, DATA_START_SECTOR, RESERVED_SECTORS, NUM_FATS,
    NUM_FAT_SECTORS, NUM_ROOT_DIR_SECTORS, CLUSTER_CURRENT_UF2, CLUSTER_INFO_UF2, CLUSTER_INDEX_HTM.
  rewrite Hn. cbv zeta. rewrite (proj2 (Z.eqb_neq _ 0)) by lia.
  rewrite (proj2 (Z.ltb_ge _ (1 + 64))), andb_false_r by lia.
  rewrite (proj2 (Z.ltb_ge _ (1 + 2 * 64))), andb_false_r by lia.
  rewrite (proj2 (Z.ltb_ge _ (1 + 2 * 64 + 4))), andb_false_r by lia.
  rewrite (proj2 (Z.leb_le (1 + 2 * 64 + 4) _)) by lia.
  rewrite (u32_small (_ - _ + 2)) by (unfold_uint; lia).
  rewrite (proj2 (Z.eqb_neq _ 2)), (proj2 (Z.eqb_neq _ 3)) by lia.
  rewrite u32_small by (unfold_uint; lia).
  rewrite (proj2 (Z.ltb_lt 0 n)), (proj2 (Z.leb_le 4 _)), (proj2 (Z.ltb_lt _ (4 + n))) by lia.
  cbn [andb]. f_equal. lia.
Qed.

End Fat.

(** ** CURRENT.UF2 *)

Lemma splice_words ws rest (k : nat) off v :
  (k < length ws)%nat → off = 4 * Z.of_nat k →
  splice (words ws ++ rest) off (le_enc 4 v) = words (<[k := v]> ws) ++ rest.
Proof.
  intros Hk ->. destruct (lookup_lt_is_Some_2 ws k Hk) as [u Hu].
  rewrite <- (take_drop_middle ws k u Hu) at 1. rewrite insert_take_drop by done.
  unfold words. rewrite !fmap_app, !concat_app, !fmap_cons. cbn [concat]. rewrite <- !app_assoc.
  apply splice_at; [|done]. change (concat _) with (words (take k ws)).
  rewrite zlen_words. unfold zlen. rewrite length_take_le by lia. done.
Qed.

(** The record fits behind a payload of this length. *)
Definition tag_fits (bid : list Z) (payload_len : Z) : bool :=
  (zlen bid <=? 251) && (32 + payload_len + 4 * ((4 + zlen bid + 3) / 4) + 4 <=? 508).

Lemma put_board_tag_spec bid (h p e : list Z) m :
  zlen h = 32 → zlen p + m = 476 → 0 <= m → 0 < zlen bid → zlen e = 4 →
  put_board_tag bid (h ++ p ++ zeros m ++ e) (zlen p) =
    h ++ p ++ (if tag_fits bid (zlen p)
               then tag_encode (UF2_EXT_TAG_BOARD_ID, bid) ++
                    zeros (m - zlen (tag_encode (UF2_EXT_TAG_BOARD_ID, bid)))
               else zeros m) ++ e.
Proof.
  intros Hh Hm H0 Hb He. pose proof (zlen_nonneg p). unfold put_board_tag, tag_fits.
  destruct (zlen bid <=? 251) eqn:Hb1; zsimp; cbn [andb]; [|done].
  rewrite (u8_small (4 + zlen bid)) by (unfold_uint; lia). rewrite pad4 by (unfold_uint; lia).
  rewrite (u32_small (32 + zlen p)) by (unfold_uint; lia).
  rewrite (u32_small (32 + zlen p + _)) by (unfold_uint; lia).
  rewrite u32_small by (unfold_uint; lia).
  destruct (_ <=? 508) eqn:Hf; zsimp; [|done].
  assert (Htl : zlen (tag_encode (UF2_EXT_TAG_BOARD_ID, bid)) = 4 * ((4 + zlen bid + 3) / 4))
    by apply zlen_tag_encode.
  set (buf := h ++ p ++ zeros m ++ e).
  assert (Hbuf : zlen buf = 512) by (unfold buf; rewrite !zlen_app, zlen_zeros by lia; lia).
  unfold put8.
  do 4 (rewrite (splice_append buf); [|rewrite ?zlen_app, ?zlen_cons, ?zlen_nil; lia..]).
  unfold buf. rewrite (app_assoc h p).
  set (t := (((_ ++ _) ++ _) ++ _) ++ bid).
  assert (Ht : zlen t = 4 + zlen bid) by (unfold t; rewrite !zlen_app, !zlen_cons, zlen_nil; lia).
  replace m with (zlen t + (m - zlen t)) at 1 by lia. rewrite zeros_app by lia.
  rewrite <- (app_assoc (zeros (zlen t))), splice_at; [|rewrite zlen_app; lia|by rewrite zlen_zeros by lia].
  rewrite <- !app_assoc. do 2 f_equal. rewrite Htl.
  unfold tag_encode. cbn [fst snd].
  rewrite app_comm_cons, !app_assoc. f_equal.
  rewrite <- (app_assoc _ (replicate _ _)). fold (zeros ((- zlen bid) mod 4)).
  rewrite <- zeros_app by lia. f_equal. f_equal. lia.
Qed.

Section Current.
  Context {W Ctx : Type}.
  Implicit Types (cfg : uf2_cfg W Ctx) (w : W).

(** What follows the payload in the data field. *)
Definition current_tail cfg (payload_len : Z) : list Z :=
  let m := UF2_DATA_SIZE - payload_len in
  match board_id cfg with
  | Some ((_ :: _) as bid) =>
      if tag_fits bid payload_len
      then tag_encode (UF2_EXT_TAG_BOARD_ID, bid) ++
           zeros (m - zlen (tag_encode (UF2_EXT_TAG_BOARD_ID, bid)))
      else zeros m
  | _ => zeros m
  end.

(** Block [i] of CURRENT.UF2 as a UF2 block. *)
Definition current_block cfg (i n : Z) (payload : list Z) : uf2_block := {|
  magic_start0 := UF2_MAGIC_START0;
  magic_start1 := UF2_MAGIC_START1;
  flags := Z.lor (if cfg_family_id cfg =? 0 then 0 else UF2_FLAG_FAMILY_ID)
                 (if has_board_id cfg then UF2_FLAG_EXTENSION_TAGS else 0);
  target_addr := readback_base cfg ⊕ (i * 256);
  payload_size := zlen payload;
  block_no := i;
  num_blocks := n;
  family_id := cfg_family_id cfg;
  data := payload ++ current_tail cfg (zlen payload);
  magic_end := UF2_MAGIC_END;
|}.

Lemma zlen_current_tail cfg len :
  0 <= len <= UF2_PAYLOAD_SIZE → zlen (current_tail cfg len) = UF2_DATA_SIZE - len.
Proof.
  unfold UF2_PAYLOAD_SIZE. intros Hl. unfold current_tail, UF2_DATA_SIZE.
  destruct (board_id cfg) as [[|c bid]|]; try (apply zlen_zeros; lia).
  destruct (tag_fits (c :: bid) len) eqn:Hf; [|apply zlen_zeros; lia].
  unfold tag_fits in Hf. zsimp. pose proof (zlen_tag_encode (UF2_EXT_TAG_BOARD_ID, c :: bid)) as Ht.
  cbn [snd] in Ht. pose proof (zlen_nonneg (c :: bid)).
  rewrite zlen_app, zlen_zeros; lia.
Qed.

Lemma build_current_spec cfg rd i n p rc w w' :
  cb_read cfg = Some rd → 0 <= i → i * 256 < readback_size cfg → readback_size cfg < 4294967040 →
  let len := Z.min 256 (readback_size cfg - i * 256) in
  rd (i * 256) (zeros len) len (read_ctx cfg) w = (Ret (rc, p), w') → zlen p = len →
  build_current_uf2_block cfg i n w = (Ret (encode_block (current_block cfg i n p)), w').
Proof.
  intros Hrd Hi Hsz Hb len Hread Hp. unfold build_current_uf2_block.
  rewrite (u32_small (i * _)) by (unfold_uint; unfold UF2_PAYLOAD_SIZE; lia).
  change UF2_PAYLOAD_SIZE with 256. rewrite (u32_small (_ + 256)) by (unfold_uint; lia).
  assert (Hlen : (if readback_size cfg <? i * 256 + 256 then readback_size cfg ⊖ i * 256 else 256) = len).
  { unfold len. destruct (_ <? _) eqn:E; zsimp; [rewrite u32_small by (unfold_uint; lia)|]; lia. }
  rewrite Hlen. rewrite !write_u32_le_enc.
  change (zeros SECTOR_SIZE) with (words [0; 0; 0; 0; 0; 0; 0; 0] ++ zeros 480).
  rewrite (splice_words _ _ 0), (splice_words _ _ 1), (splice_words _ _ 2), (splice_words _ _ 3),
    (splice_words _ _ 4), (splice_words _ _ 5), (splice_words _ _ 6), (splice_words _ _ 7)
    by (done || (cbn; lia)).
  cbn [insert list_insert]. rewrite Hrd.
  set (h := words _). assert (Hh : zlen h = 32) by done.
  replace (zeros 480) with (zeros len ++ zeros (476 - len) ++ zeros 4)
    by (rewrite <- !zeros_app by lia; f_equal; lia).
  rewrite slice_at by (rewrite ?zlen_zeros by lia; done).
  erewrite bind_ret by done. cbv beta iota zeta. rewrite write_u32_le_enc, splice_at by (rewrite ?zlen_zeros by lia; done).
  unfold encode_block. cbn [data magic_end current_block].
  change (words (header (current_block cfg i n p))) with (words [UF2_MAGIC_START0; UF2_MAGIC_START1;
    Z.lor (if cfg_family_id cfg =? 0 then 0 else UF2_FLAG_FAMILY_ID)
      (if has_board_id cfg then UF2_FLAG_EXTENSION_TAGS else 0);
    readback_base cfg ⊕ (i * 256); zlen p; i; n; cfg_family_id cfg]).
  rewrite Hp. fold h.
  assert (Hbuf : match board_id cfg with
                 | Some ((_ :: _) as bid) =>
                     put_board_tag bid (h ++ p ++ zeros (476 - len) ++ zeros 4) len
                 | _ => h ++ p ++ zeros (476 - len) ++ zeros 4
                 end = h ++ p ++ current_tail cfg len ++ zeros 4).
  { unfold current_tail, UF2_DATA_SIZE. destruct (board_id cfg) as [[|c bid]|]; [done| |done].
    rewrite <- Hp. rewrite put_board_tag_spec; [done|done|lia|lia|rewrite zlen_cons; pose proof (zlen_nonneg bid); lia|done]. }
  rewrite Hbuf. unfold mret, M_ret. do 2 f_equal. rewrite <- !app_assoc. 
  rewrite !app_assoc. rewrite <- (app_nil_r (zeros 4)), splice_at; [by rewrite app_nil_r| |done].
  rewrite !zlen_app, zlen_current_tail by (unfold UF2_PAYLOAD_SIZE; lia).
  unfold UF2_DATA_SIZE. lia.
Qed.

Lemma current_block_wf cfg i n p :
  is_u32 i → is_u32 n → is_u32 (cfg_family_id cfg) → 0 < zlen p <= UF2_PAYLOAD_SIZE →
  wf_block (current_block cfg i n p).
Proof.
  intros Hi Hn Hf Hp. unfold UF2_PAYLOAD_SIZE in Hp. split.
  - unfold header. repeat constructor; cbn [magic_start0 magic_start1 flags target_addr
      payload_size block_no num_blocks family_id current_block];
      unfold UF2_MAGIC_START0, UF2_MAGIC_START1; try (unfold_uint; lia).
    all: destruct (_ =? 0), (has_board_id cfg); by vm_compute.
  - done.
  - cbn. rewrite zlen_app, zlen_current_tail by (unfold UF2_PAYLOAD_SIZE; lia). lia.
Qed.

Lemma current_block_family cfg i n p : family_matches cfg (current_block cfg i n p) = true.
Proof.
  unfold family_matches. cbn. destruct (cfg_family_id cfg =? 0); [done|]. rewrite Z.eqb_refl.
  by destruct (has_board_id cfg).
Qed.

(** The board's own name fits behind every payload, or there is none. *)
Definition board_id_fits cfg : bool :=
  match board_id cfg with Some ((_ :: _) as bid) => tag_fits bid UF2_PAYLOAD_SIZE | _ => true end.

Lemma current_block_board cfg i n p w :
  board_id_fits cfg = true → 0 < zlen p <= UF2_PAYLOAD_SIZE →
  board_matches cfg (current_block cfg i n p) w = (Ret true, w).
Proof.
  intros Hfit Hp. unfold board_matches, board_id_fits in *.
  destruct (board_id cfg) as [[|c bid']|] eqn:Hbid; [done| |done].
  set (bid := c :: bid') in *. unfold tag_fits, UF2_PAYLOAD_SIZE in *. zsimp.
  assert (Hpl : tag_fits bid (zlen p) = true).
  { unfold tag_fits. rewrite !(proj2 (Z.leb_le _ _)) by lia. done. }
  pose proof (zlen_tag_encode (UF2_EXT_TAG_BOARD_ID, bid)) as Htl. cbn [snd] in Htl.
  destruct (ext_tag_loop (current_block cfg i n p) UF2_EXT_TAG_BOARD_ID
    [(UF2_EXT_TAG_BOARD_ID, bid)] p (zeros (472 - zlen p - zlen (tag_encode (UF2_EXT_TAG_BOARD_ID, bid)))) w 120)
    as (rc & q & Hloop & Hrc & Hq).
  - cbn [data current_block fmap list_fmap concat]. f_equal. unfold current_tail. rewrite Hbid.
    fold bid. rewrite Hpl, app_nil_r. f_equal. change (replicate 4 0) with (zeros 4).
    rewrite <- zeros_app by (unfold UF2_DATA_SIZE; lia). f_equal. unfold UF2_DATA_SIZE. lia.
  - cbn. rewrite zlen_app, zlen_current_tail by (unfold UF2_PAYLOAD_SIZE; lia). lia.
  - apply Forall_singleton. split; [done|cbn; lia].
  - cbn. lia.
  - unfold uf2_find_ext_tag.
    assert ((Z.land (flags (current_block cfg i n p)) UF2_FLAG_EXTENSION_TAGS =? 0) = false) as ->.
    { cbn. unfold has_board_id. rewrite Hbid. unfold bid. by destruct (cfg_family_id cfg =? 0). }
    rewrite (bind_ret _ _ _ _ _ Hloop). unfold tag_payload_is. rewrite Hrc, Hq, Z.eqb_refl.
    rewrite bool_decide_true by done. pose proof (zlen_nonneg bid).
    by rewrite (proj2 (Z.ltb_ge _ _)) by lia.
Qed.

End Current.

(** ** The disk as a whole *)

(** The fields of the boot sector a host lays the volume out with. *)
Record bpb := Bpb {
  bytes_per_sector : Z; sectors_per_cluster : Z; reserved : Z; num_fats : Z;
  root_entries : Z; total_sectors : Z; sectors_per_fat : Z; total_sectors32 : Z;
}.

Definition read_bpb (buf : list Z) : bpb :=
  Bpb (le_dec (slice buf 11 2)) (le_dec (slice buf 13 1)) (le_dec (slice buf 14 2))
      (le_dec (slice buf 16 1)) (le_dec (slice buf 17 2)) (le_dec (slice buf 19 2))
      (le_dec (slice buf 22 2)) (le_dec (slice buf 32 4)).

Definition root_start (b : bpb) : Z := reserved b + num_fats b * sectors_per_fat b.
Definition data_start (b : bpb) : Z := root_start b + root_entries b * 32 / bytes_per_sector b.

(** A directory entry as a host reads it: name, attribute, first cluster, size. *)
Definition read_dir_entry (buf : list Z) (k : Z) : list Z * Z * Z * Z :=
  (slice buf (32 * k) 11, le_dec (slice buf (32 * k + 11) 1),
   le_dec (slice buf (32 * k + 26) 2), le_dec (slice buf (32 * k + 28) 4)).

Definition dir_entry (name : list Z) (attr cluster size : Z) : list Z :=
  name ++ [attr] ++ zeros 14 ++ le_enc 2 cluster ++ le_enc 4 size.

Lemma zlen_dir_entry name attr c sz : zlen name = 11 → zlen (dir_entry name attr c sz) = 32.
Proof. intros Hn. unfold dir_entry. by rewrite !zlen_app, Hn. Qed.

Lemma build_dir_entry_spec buf off name attr c sz :
  0 <= off → off + 32 <= zlen buf → zlen name = 11 →
  build_dir_entry buf off name attr c sz = splice buf off (dir_entry name attr c sz).
Proof.
  intros Ho Hend Hn. unfold build_dir_entry, put8. rewrite write_u16_le_enc, write_u32_le_enc.
  rewrite <- (Z.add_0_r off) at 2.
  assert (E1 : splice (zeros 32) 0 name = name ++ zeros 1 ++ zeros 14 ++ zeros 2 ++ zeros 4).
  { rewrite <- !zeros_app by lia. change 32 with (11 + (1 + (14 + (2 + 4)))) at 1.
    rewrite zeros_app by lia. apply (splice_at [] (zeros 11)); [done|]. by rewrite Hn. }
  rewrite splice_inside, E1 by (rewrite ?zlen_zeros by lia; lia).
  assert (L : zlen (name ++ zeros 1 ++ zeros 14 ++ zeros 2 ++ zeros 4) = 32) by (by rewrite !zlen_app, Hn).
  rewrite splice_inside by (rewrite ?L, ?zlen_cons, ?zlen_nil; lia).
  rewrite splice_at by done.
  rewrite splice_inside by (rewrite ?zlen_app, ?zlen_le_enc, ?Hn, ?zlen_cons, ?zlen_nil, ?zlen_zeros by lia; lia).
  rewrite (app_assoc name), (app_assoc (name ++ _)), splice_at by (by rewrite ?zlen_app, ?Hn).
  rewrite splice_inside by (rewrite ?zlen_app, ?zlen_le_enc, ?Hn, ?zlen_cons, ?zlen_nil, ?zlen_zeros by lia; lia).
  rewrite app_assoc, <- (app_nil_r (zeros 4)), splice_at by (by rewrite ?zlen_app, ?zlen_le_enc, ?Hn).
  unfold dir_entry. by rewrite app_nil_r, <- !app_assoc.
Qed.

(** An entry reads back as written; the other entries are not affected. *)
Lemma read_dir_entry_splice buf k j name attr c sz :
  zlen buf = 512 → 0 <= k < 16 → 0 <= j < 16 → zlen name = 11 →
  is_u8 attr → is_u16 c → is_u32 sz →
  read_dir_entry (splice buf (32 * k) (dir_entry name attr c sz)) j =
    if j =? k then (name, attr, c, sz) else read_dir_entry buf j.
Proof.
  intros Hb Hk Hj Hn Ha Hc Hs. pose proof (zlen_dir_entry name attr c sz Hn) as Hl.
  unfold read_dir_entry. destruct (j =? k) eqn:E; zsimp.
  - subst j. rewrite !slice_splice_inside by lia.
    rewrite Z.sub_diag, !Z.add_simpl_l. unfold dir_entry.
    assert (H0 : ∀ r, slice (name ++ r) 0 11 = name) by (intros; by apply (slice_at [])).
    rewrite H0, (slice_at name [attr]) by done.
    rewrite (app_assoc name), (app_assoc (name ++ _)), slice_at by (by rewrite ?zlen_app, ?Hn).
    rewrite app_assoc, <- (app_nil_r (le_enc 4 sz)), slice_at by (by rewrite ?zlen_app, ?zlen_le_enc, ?Hn).
    rewrite le_dec_enc_u16, le_dec_enc_u32 by done. cbn. by rewrite Z.add_0_r.
  - rewrite !slice_splice_disj by lia. done.
Qed.

(** The directory a host finds in the first root sector. *)
Lemma root_dir_entries {W Ctx} version (cfg : uf2_cfg W Ctx) n :
  current_uf2_num_blocks cfg = n → 0 < n → n * 512 < 4294967296 →
  let buf := build_root_dir_sector version cfg 0 in
  read_dir_entry buf 1 =
    (str "INFO_UF2TXT", 1, CLUSTER_INFO_UF2, Z.min (zlen (info_uf2_txt version cfg)) 255) ∧
  read_dir_entry buf 2 =
    (str "INDEX   HTM", 1, CLUSTER_INDEX_HTM, Z.min (zlen (index_htm cfg)) 255) ∧
  read_dir_entry buf 3 = (str "CURRENT UF2", 1, CLUSTER_CURRENT_UF2, n * 512).
Proof.
  intros Hn H0 Hsz buf.
  assert (Hb : buf = build_root_dir_sector version cfg 0) by done. clearbody buf.
  unfold build_root_dir_sector in Hb. rewrite Z.eqb_refl in Hb. cbn [negb] in Hb.
  rewrite Hn, (proj2 (Z.ltb_lt _ _)) in Hb by done. change UF2_BLOCK_SIZE with 512 in Hb.
  rewrite (u32_small (n * 512)) in Hb by (unfold_uint; lia).
  assert (Hi : (build_info_uf2_txt version cfg (zeros INFO_UF2_TXT_MAX) INFO_UF2_TXT_MAX).1 =
    Z.min (zlen (info_uf2_txt version cfg)) 255).
  { unfold build_info_uf2_txt, snprintf, INFO_UF2_TXT_MAX. pose proof (zlen_nonneg (info_uf2_txt version cfg)).
    cbn [fst]. destruct (_ || _) eqn:E; zsimp; [|lia]. apply orb_true_iff in E as [?|?]; zsimp; lia. }
  assert (Hx : (build_index_htm cfg (zeros INDEX_HTM_MAX) INDEX_HTM_MAX).1 = Z.min (zlen (index_htm cfg)) 255).
  { unfold build_index_htm, snprintf, INDEX_HTM_MAX. pose proof (zlen_nonneg (index_htm cfg)).
    cbn [fst]. destruct (_ || _) eqn:E; zsimp; [|lia]. apply orb_true_iff in E as [?|?]; zsimp; lia. }
  rewrite Hi, Hx in Hb.
  pose proof (zlen_nonneg (info_uf2_txt version cfg)). pose proof (zlen_nonneg (index_htm cfg)).
  set (b0 := zeros SECTOR_SIZE) in Hb. assert (L0 : zlen b0 = 512) by done.
  rewrite (build_dir_entry_spec b0) in Hb by (done || lia).
  set (b1 := splice b0 _ _) in Hb.
  assert (L1 : zlen b1 = 512) by (unfold b1; rewrite zlen_splice; rewrite ?zlen_dir_entry by done; lia).
  rewrite (build_dir_entry_spec b1) in Hb by (done || lia). change 32 with (32 * 1) in Hb at 1.
  set (b2 := splice b1 _ _) in Hb.
  assert (L2 : zlen b2 = 512) by (unfold b2; rewrite zlen_splice; rewrite ?zlen_dir_entry by done; lia).
  rewrite (build_dir_entry_spec b2) in Hb by (done || lia). change 64 with (32 * 2) in Hb at 1.
  set (b3 := splice b2 _ _) in Hb.
  assert (L3 : zlen b3 = 512) by (unfold b3; rewrite zlen_splice; rewrite ?zlen_dir_entry by done; lia).
  rewrite (build_dir_entry_spec b3) in Hb by (done || lia). change 96 with (32 * 3) in Hb at 1.
  rewrite Hb, !(read_dir_entry_splice b3) by (done || (unfold_uint; lia)). cbn [Z.eqb Pos.eqb].
  unfold b3. rewrite !(read_dir_entry_splice b2) by (done || (unfold_uint; lia)). cbn [Z.eqb Pos.eqb].
  unfold b2. rewrite !(read_dir_entry_splice b1) by (done || (unfold_uint; lia)). done.
Qed.

(** ** Theorems *)

Section DiskTheorems.
  Context {W Ctx : Type} (version : list Z) (cfg : uf2_cfg W Ctx).

(** The read callback delivers the flash contents [img]. *)
Definition reads_image (rd : Z → list Z → Z → Ctx → M W (Z * list Z)) (img : list Z) : Prop :=
  ∀ off buf len w, 0 <= off → 0 <= len → off + len <= zlen img →
    rd off buf len (read_ctx cfg) w = (Ret (0, slice img off len), w).

(** A host that follows the allocation table from the first cluster of
    CURRENT.UF2 visits clusters 4, 5, ..., 3+n, one per UF2 block, and stops
    there; both copies of the table agree.  The file must fit the entries the
    table has room for. *)
Theorem current_uf2_chain n w :
  current_uf2_num_blocks cfg = n → 0 < n <= 16380 →
  host_chain version cfg (Z.to_nat n) CLUSTER_CURRENT_UF2 w = (Ret (seqZ 4 n), w) ∧
  ∀ c, 0 <= c < 16384 → host_fat_entry version cfg 1 c w = host_fat_entry version cfg 0 c w.
Proof.
  intros Hn Hr. unfold CLUSTER_CURRENT_UF2. split.
  - rewrite (host_chain_current version cfg _ 4 n) by (done || lia). do 3 f_equal. lia.
  - intros c Hc. by rewrite !host_fat_entry_ret by lia.
Qed.

(** CURRENT.UF2 can be written back to the board it was read from.  Sector
    [i] of the file, read from the disk, parses as block [i] of [n], carries
    the configured family and board identity, so [uf2_process_block] does not
    reject it for either, is addressed at the readback base, and holds the
    flash contents of its 256-byte window. *)
Theorem current_uf2_reflashable rd img n i w :
  cb_read cfg = Some rd → reads_image rd img → zlen img = readback_size cfg →
  0 < readback_size cfg < 4294967040 → is_u32 (cfg_family_id cfg) → board_id_fits cfg = true →
  current_uf2_num_blocks cfg = n → 0 <= i < n →
  ∃ buf, ghostfat_read_sector version cfg (DATA_START_SECTOR + (CLUSTER_CURRENT_UF2 + i - 2)) w =
           (Ret buf, w) ∧
    let b := parse_block buf in
    uf2_magic_ok b = true ∧ family_matches cfg b = true ∧
    (∀ w, board_matches cfg b w = (Ret true, w)) ∧
    block_no b = i ∧ num_blocks b = n ∧ target_addr b = readback_base cfg ⊕ (i * 256) ∧
    payload_size b = Z.min 256 (readback_size cfg - i * 256) ∧
    slice (data b) 0 (payload_size b) = slice img (i * 256) (payload_size b).
Proof.
  intros Hrd Himg Hlen Hsz Hfam Hfit Hn Hi.
  assert (Hn' : n = (readback_size cfg + 255) / 256).
  { rewrite <- Hn. unfold current_uf2_num_blocks, UF2_PAYLOAD_SIZE. rewrite Hrd.
    rewrite (proj2 (Z.eqb_neq _ _)) by lia. rewrite (u32_small (_ + 256)) by (unfold_uint; lia).
    rewrite u32_small by (unfold_uint; lia). f_equal. lia. }
  set (len := Z.min 256 (readback_size cfg - i * 256)).
  assert (Hp : zlen (slice img (i * 256) len) = len) by (apply zlen_slice; lia).
  assert (Hpb : 0 < zlen (slice img (i * 256) len) <= UF2_PAYLOAD_SIZE)
    by (rewrite Hp; unfold UF2_PAYLOAD_SIZE; lia).
  exists (encode_block (current_block cfg i n (slice img (i * 256) len))).
  rewrite (read_current_sector version cfg i n) by (done || lia).
  rewrite (build_current_spec cfg rd i n (slice img (i * 256) len) 0 w w) by
    (done || lia || (apply Himg; lia)).
  split; [done|]. cbv zeta. rewrite parse_encode by (apply current_block_wf; done || (unfold_uint; lia)).
  split_and!; try done.
  - apply current_block_family.
  - intros w'. by apply current_block_board.
  - cbn [data payload_size current_block]. rewrite slice_app_l, slice_full by lia. by rewrite Hp.
Qed.

End DiskTheorems.

(** The boot sector describes the disk [ghostfat_read_sector] serves: a
    host that takes the layout from its fields finds 512-byte sectors, one per
    cluster, the first table at sector 1, the root directory and the data area
    where the code serves them, and the same sector count in both fields, which
    is the size the disk reports. *)
Theorem boot_sector_layout :
  let b := read_bpb build_boot_sector in
  bytes_per_sector b = SECTOR_SIZE ∧ sectors_per_cluster b = 1 ∧
  reserved b = RESERVED_SECTORS ∧
  root_start b = RESERVED_SECTORS + 2 * NUM_FAT_SECTORS ∧
  data_start b = DATA_START_SECTOR ∧
  total_sectors b = ghostfat_get_sector_count ∧ total_sectors32 b = ghostfat_get_sector_count ∧
  slice build_boot_sector 510 2 = [0x55; 0xAA] ∧ zlen build_boot_sector = SECTOR_SIZE.
Proof. by vm_compute. Qed.

(** The allocation table is too small for the volume the boot sector
    declares: its sectors hold fewer entries than the data area has clusters,
    so a file that uses clusters past the table (a CURRENT.UF2 of more than
    16380 blocks, about 4 MB of flash) has no chain a host can follow. *)
Theorem fat_smaller_than_volume :
  let b := read_bpb build_boot_sector in
  let clusters := total_sectors b - data_start b in
  sectors_per_fat b * FAT_ENTRIES_PER_SECTOR < clusters + 2.
Proof. by vm_compute. Qed.

(** The root directory lists INFO_UF2.TXT, INDEX.HTM and CURRENT.UF2 with
    the clusters the data area serves them from; CURRENT.UF2 has 512 bytes per
    block, and the sizes of the two text files are their lengths cut off at 255
    bytes. *)
Theorem root_directory {W Ctx} version (cfg : uf2_cfg W Ctx) n w :
  current_uf2_num_blocks cfg = n → 0 < n → n * 512 < 4294967296 →
  ∃ buf, ghostfat_read_sector version cfg (RESERVED_SECTORS + 2 * NUM_FAT_SECTORS) w = (Ret buf, w) ∧
    read_dir_entry buf 1 =
      (str "INFO_UF2TXT", 1, CLUSTER_INFO_UF2, Z.min (zlen (info_uf2_txt version cfg)) 255) ∧
    read_dir_entry buf 2 =
      (str "INDEX   HTM", 1, CLUSTER_INDEX_HTM, Z.min (zlen (index_htm cfg)) 255) ∧
    read_dir_entry buf 3 = (str "CURRENT UF2", 1, CLUSTER_CURRENT_UF2, n * 512).
Proof.
  intros Hn H0 Hsz. exists (build_root_dir_sector version cfg 0).
  split; [done|]. by apply root_dir_entries.
Qed.

(** The page is the URL three times and 134 bytes of markup. *)
Lemma zlen_index_htm {W Ctx} (cfg : uf2_cfg W Ctx) url :
  board_url cfg = Some url → zlen (index_htm cfg) = 134 + 3 * zlen url.
Proof.
  intros Hurl. unfold index_htm. rewrite Hurl.
  change (default (str "https://mcuboot.com") (Some url)) with url. cbv zeta. rewrite !zlen_app.
  repeat match goal with
  | |- context [zlen (str ?s)] =>
      let v := eval vm_compute in (zlen (str s)) in change (zlen (str s)) with v
  end.
  change (zlen crlf) with 2. change (zlen quote) with 1. lia.
Qed.

(** INDEX.HTM is truncated for longer board URLs.  The directory gives a
    file of 255 bytes as soon as the page is longer, although the data sector
    holds the whole page: from 41 bytes of URL on, the end of the document is
    cut off. *)
Theorem index_htm_truncated {W Ctx} version (cfg : uf2_cfg W Ctx) n url :
  current_uf2_num_blocks cfg = n → 0 < n → n * 512 < 4294967296 →
  board_url cfg = Some url → 41 <= zlen url <= 125 →
  (read_dir_entry (build_root_dir_sector version cfg 0) 2).2 < zlen (index_htm cfg) < SECTOR_SIZE.
Proof.
  intros Hn H0 Hsz Hurl Hlen. destruct (root_dir_entries version cfg n Hn H0 Hsz) as (_ & -> & _).
  cbn [snd]. rewrite (zlen_index_htm cfg url Hurl). unfold SECTOR_SIZE. lia.
Qed.

(** ** Witnesses *)

(** A 600-byte flash, read back in three blocks. *)
Definition demo_img : list Z := replicate 600 7.

Definition demo_read (off : Z) (buf : list Z) (len : Z) (c : unit) : M unit (Z * list Z) :=
  mret (0, slice demo_img off len).

Definition demo_fat_cfg : uf2_cfg unit unit :=
  Uf2Cfg (λ _ _ _ _, mret 0) (λ _ _ _, mret 0) tt 0 0 None 0 0x1234 (Some (str "adafruit_demo")) 4096
    None (Some (str "https://circuitpython.org/board/demo_board_2040/")) (Some demo_read) tt 0x1000 600.

Lemma current_uf2_reflashable_witness :
  ∃ buf, ghostfat_read_sector [] demo_fat_cfg 137 tt = (Ret buf, tt) ∧
    block_no (parse_block buf) = 2 ∧ payload_size (parse_block buf) = 88.
Proof.
  destruct (current_uf2_reflashable [] demo_fat_cfg demo_read demo_img 3 2 tt) as (buf & Hr & H).
  - reflexivity.
  - intros off buf len w _ _ _. reflexivity.
  - reflexivity.
  - cbn. lia.
  - unfold_uint. cbn. lia.
  - reflexivity.
  - reflexivity.
  - lia.
  - exists buf. split; [exact Hr|]. destruct H as (_ & _ & _ & H4 & _ & _ & H7 & _).
    split; [exact H4|exact H7].
Defined.

