(* ===== verification/Uf2Disk.v ===== *)
(** * The UF2 disk of the Zephyr port

    Translation of boot/zephyr/uf2_disk.c: the static tables that tie UF2
    regions to flash areas, the flash callbacks, the disk-access operations and
    registration.  The Zephyr calls it makes beyond the flash map (devices,
    disk registration, raw device reads) are a class of operations; Kconfig
    options are a record. *)

From S2P Require Import Prelude Effects FlashMap Uf2 GhostFat.
#[local] Open Scope mcu_scope.

Definition ENOSPC : Z := 28.
Definition EINVAL : Z := 22.

(** A [void *] context: a flash area, a flash device, or null. *)
Inductive ctx_ptr :=
| CtxArea (fap : flash_area)
| CtxDevice (dev : Z)
| CtxNull.

#[export] Instance ctx_ptr_eq_dec : EqDecision ctx_ptr.
Proof. solve_decision. Defined.

(** Zephyr services outside the flash map. *)
Class Zephyr (W : Type) := {
  (** the device of an area, if any *)
  flash_area_get_device : flash_area → option Z;
  (** [flash_get_parameters(dev)->write_block_size], if there are parameters *)
  flash_get_write_block_size : Z → option Z;
  flash_device_base : Z → Z;
  flash_area_get_device_id : flash_area → Z;
  (** offset, length: return code and the destination afterwards *)
  flash_read : Z → Z → list Z → Z → M W (Z * list Z);
  disk_access_register : M W Z;
  disk_access_unregister : M W unit;
}.

Record kconfig := Kconfig {
  CONFIG_MCUBOOT_UF2_MAX_BLOCKS : Z;
  CONFIG_MCUBOOT_UF2_FAMILY_ID : Z;
  CONFIG_MCUBOOT_UF2_BOARD_ID : list Z;
  CONFIG_MCUBOOT_UF2_BOARD_NAME : list Z;
  CONFIG_MCUBOOT_UF2_BOARD_URL : list Z;
  FLASH_AREA_IMAGE_PRIMARY_0 : Z;
  (** [PARTITION_ID(storage_partition)] when CONFIG_MCUBOOT_UF2_WRITABLE_STORAGE
      is set and the partition exists *)
  storage_partition : option Z;
  (** the same for CONFIG_MCUBOOT_UF2_WRITABLE_BOOTLOADER *)
  mcuboot_partition : option Z;
}.

Record uf2_disk_region := DiskRegion {
  dr_fap : option flash_area;
  write_block_size : Z;
  bytes_written : Z;
}.

(** The static variables of the file.  [uf2_cfg] is represented by the fields
    registration computes; the others are constants. *)
Record disk := Disk {
  disk_regions : list uf2_disk_region;
  uf2_regions : list (uf2_region ctx_ptr);
  num_disk_regions : Z;
  primary_flash_dev : option Z;
  dc_num_regions : Z;
  dc_read_ctx : ctx_ptr;
  dc_readback_base : Z;
  dc_readback_size : Z;
  dstate : uf2_state;
  disk_registered : bool;
}.

Definition set_disk_regions (l : list uf2_disk_region) (d : disk) : disk :=
  Disk l (uf2_regions d) (num_disk_regions d) (primary_flash_dev d) (dc_num_regions d)
    (dc_read_ctx d) (dc_readback_base d) (dc_readback_size d) (dstate d) (disk_registered d).
Definition set_dstate (s : uf2_state) (d : disk) : disk :=
  Disk (disk_regions d) (uf2_regions d) (num_disk_regions d) (primary_flash_dev d)
    (dc_num_regions d) (dc_read_ctx d) (dc_readback_base d) (dc_readback_size d) s
    (disk_registered d).
Definition set_registered (b : bool) (d : disk) : disk :=
  Disk (disk_regions d) (uf2_regions d) (num_disk_regions d) (primary_flash_dev d)
    (dc_num_regions d) (dc_read_ctx d) (dc_readback_base d) (dc_readback_size d) (dstate d) b.

(** The zero-initialised image of the statics. *)
Definition disk_init : disk :=
  Disk (replicate 4 (DiskRegion None 0 0)) (replicate 4 (Uf2Region 0 0 CtxNull None false)) 0 None
    0 CtxNull 0 0 (Uf2State 0 0 (replicate 4 0) false []) false.

Section Disk.
  Context {W : Type} `{!FlashMap W, !Zephyr W} (kc : kconfig) (version : list Z).

(** The statics and the rest of the world. *)
Definition dworld : Type := disk * W.

Definition lift {A} (c : M W A) : M dworld A := λ '(d, w),
  match c w with
  | (Ret a, w') => (Ret a, (d, w'))
  | (Reset, w') => (Reset, (d, w'))
  | (Abort, w') => (Abort, (d, w'))
  | (Fault, w') => (Fault, (d, w'))
  | (Diverge, w') => (Diverge, (d, w'))
  end.
Definition get_disk : M dworld disk := λ '(d, w), (Ret d, (d, w)).
Definition put_disk (d : disk) : M dworld unit := λ '(_, w), (Ret (), (d, w)).

(** The index of the region whose [fap] is this area; -1 is the null result. *)
Definition uf2_disk_region_of (d : disk) (fap : flash_area) : Z :=
  find_index (λ r, bool_decide (dr_fap r = Some fap))
    (take (Z.to_nat (num_disk_regions d)) (disk_regions d)).

Definition uf2_flash_write (offset : Z) (data : list Z) (len : Z) (ctx : ctx_ptr) : M dworld Z :=
  match ctx with
  | CtxArea fap =>
      d ← get_disk;
      let i := uf2_disk_region_of d fap in
      wbs ← (if i <? 0 then mret 0
             else r ← array_get (disk_regions d) i; mret (write_block_size r));
      let aligned_len :=
        if (0 <=? i) && (1 <? wbs) then
          let mask := wbs ⊖ 1 in
          let a := Z.land (len ⊕ mask) (u32 (Z.lnot mask)) in
          if fa_size fap <? offset ⊕ a then len else a
        else len in
      if zlen data <? aligned_len then fault else
      rc ← lift (flash_area_write fap offset (slice data 0 aligned_len));
      if (rc =? 0) && (0 <=? i) then
        d ← get_disk;
        r ← array_get (disk_regions d) i;
        l ← array_set (disk_regions d) i
              (DiskRegion (dr_fap r) (write_block_size r) (bytes_written r ⊕ len));
        _ ← put_disk (set_disk_regions l d);
        mret rc
      else mret rc
  | _ => fault
  end.

Definition uf2_flash_erase (offset len : Z) (ctx : ctx_ptr) : M dworld Z :=
  match ctx with
  | CtxArea fap => lift (flash_area_erase fap offset len)
  | _ => fault
  end.

Definition uf2_flash_read (offset : Z) (buf : list Z) (len : Z) (ctx : ctx_ptr)
    : M dworld (Z * list Z) :=
  match ctx with
  | CtxDevice dev => lift (flash_read dev offset buf len)
  | _ => fault
  end.

(** [uf2_cfg] as registration fills it in. *)
Definition disk_cfg (d : disk) : uf2_cfg dworld ctx_ptr := {|
  cb_write := uf2_flash_write;
  cb_erase := uf2_flash_erase;
  cb_ctx := CtxNull;
  flash_base := 0;
  flash_size := 0;
  regions := Some (uf2_regions d);
  num_regions := dc_num_regions d;
  cfg_family_id := CONFIG_MCUBOOT_UF2_FAMILY_ID kc;
  board_id := Some (CONFIG_MCUBOOT_UF2_BOARD_ID kc);
  erase_size := 4096;
  board_name := Some (CONFIG_MCUBOOT_UF2_BOARD_NAME kc);
  board_url := Some (CONFIG_MCUBOOT_UF2_BOARD_URL kc);
  cb_read := Some uf2_flash_read;
  read_ctx := dc_read_ctx d;
  readback_base := dc_readback_base d;
  readback_size := dc_readback_size d;
|}.

(** ** Disk operations *)

Definition uf2_disk_access_init : M dworld Z := mret 0.
Definition uf2_disk_access_status : M dworld Z := mret 0.

(** The sectors, concatenated in the caller's buffer. *)
Definition uf2_disk_access_read (sector count : Z) : M dworld (Z * list Z) :=
  d ← get_disk;
  buf ← loop (Z.to_nat (count + 1))
    (λ '(i, buf),
       if i <? count then
         s ← ghostfat_read_sector version (disk_cfg d) (sector ⊕ i);
         mret (inl (i + 1, buf ++ s))
       else mret (inr buf)) (0, []);
  mret (0, buf).

(** One sector of the caller's buffer per iteration; the state is a static. *)
Definition uf2_disk_access_write (buf : list Z) (sector count : Z) : M dworld Z :=
  loop (Z.to_nat (count + 1))
    (λ i,
       if i <? count then
         d ← get_disk;
         '(rc, st) ← ghostfat_write_sector (disk_cfg d) (dstate d) (sector ⊕ i)
                       (slice buf (i * UF2_BLOCK_SIZE) UF2_BLOCK_SIZE)
                       (CONFIG_MCUBOOT_UF2_MAX_BLOCKS kc);
         d ← get_disk;
         _ ← put_disk (set_dstate st d);
         if negb (rc =? 0) then mret (inr rc) else mret (inl (i + 1))
       else mret (inr 0)) 0.

Definition uf2_disk_access_erase (start_sector num_sector : Z) : M dworld Z := mret 0.

Inductive disk_ioctl :=
| DISK_IOCTL_GET_SECTOR_COUNT
| DISK_IOCTL_GET_SECTOR_SIZE
| DISK_IOCTL_GET_ERASE_BLOCK_SZ
| DISK_IOCTL_CTRL_SYNC
| DISK_IOCTL_CTRL_INIT
| DISK_IOCTL_CTRL_DEINIT
| DISK_IOCTL_OTHER (cmd : Z).

(** The return code, and the word stored through [buf] if any. *)
Definition uf2_disk_access_ioctl (cmd : disk_ioctl) : Z * option Z :=
  match cmd with
  | DISK_IOCTL_GET_SECTOR_COUNT => (0, Some ghostfat_get_sector_count)
  | DISK_IOCTL_GET_SECTOR_SIZE => (0, Some UF2_BLOCK_SIZE)
  | DISK_IOCTL_GET_ERASE_BLOCK_SZ => (0, Some 1)
  | DISK_IOCTL_CTRL_SYNC => (0, None)
  | DISK_IOCTL_CTRL_INIT => (0, None)
  | DISK_IOCTL_CTRL_DEINIT => (0, None)
  | DISK_IOCTL_OTHER _ => (- EINVAL, None)
  end.

(** ** Registration *)

(** [flash_area_close] has no effect on the flash map; closing drops the
    pointers. *)
Definition uf2_disk_close_regions (d : disk) : disk :=
  let n := Z.to_nat (num_disk_regions d) in
  Disk (((λ r, DiskRegion None (write_block_size r) (bytes_written r)) <$>
           take n (disk_regions d)) ++ drop n (disk_regions d))
    (uf2_regions d) 0 (primary_flash_dev d) (dc_num_regions d) (dc_read_ctx d)
    (dc_readback_base d) (dc_readback_size d) (dstate d) (disk_registered d).

(** [base < regions[i].base + regions[i].size && regions[i].base < base + fa_size]
    for a region that is reachable by address *)
Definition overlaps (base size : Z) (r : uf2_region ctx_ptr) : bool :=
  address_routed r && (base <? Uf2.base r ⊕ Uf2.size r) && (Uf2.base r <? base ⊕ size).

Definition uf2_disk_add_region (area_id : Z) (label : list Z) : M dworld Z :=
  d ← get_disk;
  if UF2_MAX_REGIONS <=? num_disk_regions d then mret (- ENOSPC) else
  '(rc, fap) ← lift (flash_area_open area_id);
  if negb (rc =? 0) then mret rc else
  let flash_dev := flash_area_get_device fap in
  let wbs := match flash_dev with
             | Some dev => default 1 (flash_get_write_block_size dev)
             | None => 1
             end in
  let first := num_disk_regions d =? 0 in
  let primary := if first then flash_dev else primary_flash_dev d in
  let address_routed :=
    first || match primary with
             | Some p => bool_decide (flash_dev = Some p)
             | None => false
             end in
  let base := fa_off fap in
  let d := Disk (disk_regions d) (uf2_regions d) (num_disk_regions d) primary (dc_num_regions d)
             (dc_read_ctx d) (dc_readback_base d) (dc_readback_size d) (dstate d)
             (disk_registered d) in
  _ ← put_disk d;
  if address_routed &&
     existsb (overlaps base (fa_size fap)) (take (Z.to_nat (num_disk_regions d)) (uf2_regions d))
  then mret (- EINVAL) else
  let idx := num_disk_regions d in
  ur ← array_set (uf2_regions d) idx
         (Uf2Region base (fa_size fap) (CtxArea fap) (Some label) address_routed);
  dr ← array_set (disk_regions d) idx (DiskRegion (Some fap) wbs 0);
  _ ← put_disk (Disk dr ur (u8 (idx + 1)) primary (dc_num_regions d) (dc_read_ctx d)
                  (dc_readback_base d) (dc_readback_size d) (dstate d) (disk_registered d));
  mret 0.

(** The configuration block of registration, from the primary area on. *)
Definition configure (d : disk) : M dworld disk :=
  r0 ← array_get (disk_regions d) 0;
  match dr_fap r0 with
  | None => fault
  | Some primary_fap =>
      mret (Disk (disk_regions d) (uf2_regions d) (num_disk_regions d) (primary_flash_dev d)
              (num_disk_regions d)
              (match flash_area_get_device primary_fap with
               | Some dev => CtxDevice dev
               | None => CtxNull
               end)
              (u32 (flash_device_base (flash_area_get_device_id primary_fap)))
              (fa_off primary_fap ⊕ fa_size primary_fap)
              (uf2_init (CONFIG_MCUBOOT_UF2_MAX_BLOCKS kc))
              (disk_registered d))
  end.

(** The optional regions: a failure is only logged. *)
Definition add_optional (area : option Z) (label : list Z) : M dworld unit :=
  match area with
  | Some id => _ ← uf2_disk_add_region id label; mret ()
  | None => mret ()
  end.

Definition label_slot0 : list Z := [115; 108; 111; 116; 48].
Definition label_storage : list Z := [115; 116; 111; 114; 97; 103; 101].
Definition label_mcuboot : list Z := [109; 99; 117; 98; 111; 111; 116].

Definition uf2_disk_register : M dworld Z :=
  rc ← uf2_disk_add_region (FLASH_AREA_IMAGE_PRIMARY_0 kc) label_slot0;
  if negb (rc =? 0) then mret rc else
  _ ← add_optional (storage_partition kc) label_storage;
  _ ← add_optional (mcuboot_partition kc) label_mcuboot;
  d ← get_disk;
  d ← configure d;
  _ ← put_disk d;
  rc ← lift disk_access_register;
  d ← get_disk;
  if negb (rc =? 0) then
    _ ← put_disk (uf2_disk_close_regions d);
    mret rc
  else
    _ ← put_disk (set_registered true d);
    mret 0.

Definition uf2_disk_primary_written (d : disk) : M dworld bool :=
  if 0 <? num_disk_regions d then
    r ← array_get (disk_regions d) 0;
    mret (0 <? bytes_written r)
  else mret false.

Definition uf2_disk_is_complete (d : disk) : bool := uf2_is_complete (dstate d).

Definition uf2_disk_is_registered (d : disk) : bool := disk_registered d.

Definition uf2_disk_close : M dworld unit :=
  _ ← lift disk_access_unregister;
  d ← get_disk;
  put_disk (uf2_disk_close_regions (set_registered false d)).

End Disk.
