(* ===== verification/Uf2DiskProps.v ===== *)
(** * Correctness of the UF2 disk

    The flash callbacks of uf2_disk.c honour the contract [Uf2Flash] on top of
    any flash map, so a file written to the disk sector by sector ends up in
    the flash areas; registration establishes the tables they rely on. *)

From stdpp Require Import gmap.
From S2P Require Import Prelude Effects FlashMap SimFlash.
From S2P Require Import Uf2 Uf2Tags Uf2Route Uf2Process Uf2Transfer GhostFat GhostFatProps Uf2Disk.
#[local] Open Scope mcu_scope.

Section Lift.
  Context {W : Type}.

Lemma wp_lift {A} (c : M W A) (Q : A → dworld → Prop) C d w :
  wp c (λ a w', Q a (d, w')) (λ w', C (d, w')) w → wp (lift c) Q C (d, w).
Proof. unfold wp, lift. by destruct (c w) as [[] w']. Qed.

Lemma wp_get_disk (Q : disk → dworld → Prop) C d (w : W) : Q d (d, w) → wp get_disk Q C (d, w).
Proof. done. Qed.

Lemma wp_put_disk (Q : unit → dworld → Prop) C d d' (w : W) :
  Q () (d', w) → wp (put_disk d') Q C (d, w).
Proof. done. Qed.

End Lift.

(** ** Rounding to a write block *)

Definition round_up (a n : Z) : Z := a * ((n + a - 1) / a).

Lemma round_up_le a off len x :
  0 < a → off mod a = 0 → x mod a = 0 → off + len <= x → off + round_up a len <= x.
Proof.
  intros Ha Ho Hx Hle. unfold round_up.
  apply Z.mod_divide in Ho as [p ->]; [|lia]. apply Z.mod_divide in Hx as [q ->]; [|lia].
  assert ((len + a - 1) / a <= q - p); [|nia]. apply Z.lt_succ_r, Z.div_lt_upper_bound; [done|]. nia.
Qed.

Lemma round_up_ge a n : 0 < a → n <= round_up a n < n + a.
Proof.
  intros Ha. unfold round_up. pose proof (Z.mul_div_le (n + a - 1) a Ha).
  pose proof (Z.mul_succ_div_gt (n + a - 1) a Ha). lia.
Qed.

Lemma round_up_mod a n : 0 < a → round_up a n mod a = 0.
Proof. intros. unfold round_up. rewrite Z.mul_comm. apply Z.mod_mul. lia. Qed.

Lemma zsum_mod a l : 0 < a → Forall (λ n, n mod a = 0) l → zsum l mod a = 0.
Proof.
  intros Ha. induction 1 as [|x l Hx _ IH]; [apply Zmod_0_l|]. unfold zsum in *. cbn.
  rewrite Z.add_mod, Hx, IH by lia. apply Zmod_0_l.
Qed.

Section DiskOk.
  Context {W : Type} `{!FlashMap W, !FlashMapOk W, !Zephyr W} (kc : kconfig).

(** Every step of 4096 bytes through the area is a run of whole sectors. *)
Definition erase_compatible (fap : flash_area) : Prop :=
  ∀ off len, 0 <= off → 0 < len → off + len <= fa_size fap → off mod 4096 = 0 →
    (len = 4096 ∨ off + len = fa_size fap) → sector_range (fm_sizes fap) off len.

(** Row [i] of the two tables describes the same, usable area. *)
Record row_ok (dr : uf2_disk_region) (ur : uf2_region ctx_ptr) (fap : flash_area) : Prop := {
  ro_fap : dr_fap dr = Some fap;
  ro_wbs : write_block_size dr = flash_area_align fap;
  ro_base : base ur = fa_off fap;
  ro_size : size ur = fa_size fap;
  ro_ctx : ctx ur = CtxArea fap;
  ro_area : fm_area fap;
  ro_erase : erase_compatible fap;
}.

(** The statics after registration. *)
Record disk_ok (d : disk) : Prop := {
  dk_num : 0 < num_disk_regions d <= UF2_MAX_REGIONS ∧ dc_num_regions d = num_disk_regions d;
  dk_len : zlen (disk_regions d) = UF2_MAX_REGIONS ∧ zlen (uf2_regions d) = UF2_MAX_REGIONS;
  dk_rows (i : nat) : Z.of_nat i < num_disk_regions d →
    ∃ dr ur fap, disk_regions d !! i = Some dr ∧ uf2_regions d !! i = Some ur ∧ row_ok dr ur fap;
  dk_distinct : NoDup (ctx <$> take (Z.to_nat (num_disk_regions d)) (uf2_regions d));
}.

(** What flashing does not change: everything but the byte counters and the
    transfer state. *)
Definition row_key (r : uf2_disk_region) : option flash_area * Z := (dr_fap r, write_block_size r).

Definition same_tables (d0 d : disk) : Prop :=
  (row_key <$> disk_regions d) = (row_key <$> disk_regions d0) ∧
  uf2_regions d = uf2_regions d0 ∧ num_disk_regions d = num_disk_regions d0 ∧
  dc_num_regions d = dc_num_regions d0 ∧ dc_read_ctx d = dc_read_ctx d0 ∧
  dc_readback_base d = dc_readback_base d0 ∧ dc_readback_size d = dc_readback_size d0.

Context (d0 : disk) (Hd0 : disk_ok d0).

Lemma disk_cfg_same d : same_tables d0 d → disk_cfg kc d = disk_cfg kc d0.
Proof. intros (_ & E1 & _ & E2 & E3 & E4 & E5). unfold disk_cfg. by rewrite E1, E2, E3, E4, E5. Qed.

Lemma disk_all_regions :
  all_regions (disk_cfg kc d0) = take (Z.to_nat (num_disk_regions d0)) (uf2_regions d0).
Proof using Hd0. unfold all_regions. cbn. by rewrite (proj2 (dk_num _ Hd0)). Qed.

Lemma disk_region_row r :
  r ∈ all_regions (disk_cfg kc d0) →
  ∃ i dr fap, disk_regions d0 !! i = Some dr ∧ uf2_regions d0 !! i = Some r ∧ row_ok dr r fap ∧
    Z.of_nat i < num_disk_regions d0.
Proof using Hd0.
  rewrite disk_all_regions. intros [i Hi]%list_elem_of_lookup.
  apply lookup_take_Some in Hi as [Hi Hlt].
  destruct (dk_rows _ Hd0 i) as (dr & ur & fap & Hdr & Hur & Hrow); [lia|].
  rewrite Hi in Hur. injection Hur as <-. exists i, dr, fap. split_and!; try done. lia.
Qed.

Lemma disk_cfg_wf : wf_cfg (disk_cfg kc d0).
Proof using Hd0.
  pose proof (dk_num _ Hd0) as [Hn Hd]. pose proof (dk_len _ Hd0) as [_ Hl].
  split.
  - cbn. lia.
  - rewrite disk_all_regions. unfold zlen, UF2_MAX_REGIONS in *. rewrite length_take. lia.
  - apply list.Forall_forall. intros r Hr. destruct (disk_region_row r Hr) as (i & dr & fap & _ & _ & Hrow & _).
    destruct Hrow as [_ _ Hb Hs _ Ha _]. pose proof (fm_bounds _ Ha) as (? & ? & ?).
    unfold wf_region. rewrite Hb, Hs. cbn. lia.
  - cbn. lia.
Qed.

(** The lookup of an area in the region table. *)
Lemma region_of_found d dr (i : nat) fap :
  same_tables d0 d → disk_regions d0 !! i = Some dr → dr_fap dr = Some fap →
  Z.of_nat i < num_disk_regions d0 →
  ∃ k dr', uf2_disk_region_of d fap = Z.of_nat k ∧ disk_regions d !! k = Some dr' ∧
    dr_fap dr' = Some fap ∧ Z.of_nat k < num_disk_regions d0.
Proof using Type.
  intros (Hk & _ & Hn & _) Hdr Hfap Hlt. unfold uf2_disk_region_of, find_index. rewrite Hn.
  destruct (list_find _ _) as [[k r]|] eqn:Hf.
  - apply list_find_Some in Hf as (Hr & HP & _). apply lookup_take_Some in Hr as [Hr ?].
    apply bool_decide_eq_true in HP. exists k, r. split_and!; try done. lia.
  - exfalso. apply list_find_None in Hf. rewrite list.Forall_forall in Hf.
    assert (Hl : (row_key <$> disk_regions d) !! i = Some (row_key dr))
      by (rewrite Hk, list_lookup_fmap, Hdr; done).
    rewrite list_lookup_fmap in Hl. apply fmap_Some in Hl as (dr' & Hdr' & Heq).
    apply (Hf dr').
    + apply list_elem_of_lookup. exists i. by rewrite lookup_take_lt by lia.
    + unfold row_key in Heq. injection Heq as Heq _. by rewrite bool_decide_true by congruence.
Qed.

(** The row found has the write block of the area. *)
Lemma region_of_wbs d (k : nat) dr' fap :
  same_tables d0 d → disk_regions d !! k = Some dr' → dr_fap dr' = Some fap →
  Z.of_nat k < num_disk_regions d0 → write_block_size dr' = flash_area_align fap.
Proof using Hd0.
  intros (Hk & _) Hdr' Hfap Hlt.
  assert (Hl : (row_key <$> disk_regions d0) !! k = Some (row_key dr'))
    by (rewrite <- Hk, list_lookup_fmap, Hdr'; done).
  rewrite list_lookup_fmap in Hl. apply fmap_Some in Hl as (dr0 & Hdr0 & Heq).
  destruct (dk_rows _ Hd0 k Hlt) as (dr & ur & fap' & Hdr & _ & Hrow). rewrite Hdr0 in Hdr.
  injection Hdr as <-. unfold row_key in Heq. injection Heq as H1 H2.
  rewrite (ro_fap _ _ _ Hrow) in H1. rewrite H2, (ro_wbs _ _ _ Hrow). congruence.
Qed.

Lemma area_align fap :
  fm_area fap → 0 < flash_area_align fap <= 32 ∧ fa_size fap mod flash_area_align fap = 0 ∧
    4096 mod flash_area_align fap = 0.
Proof using Type.
  intros Ha. pose proof (fm_align_sectors _ Ha) as Hs. destruct (fm_sizes_ok _ Ha) as [_ Hsz].
  destruct (fm_align _ Ha) as (k & Hk & Hal). rewrite Hal in *.
  assert (0 < 2 ^ k) by (apply Z.pow_pos_nonneg; lia).
  split_and!; [done|change 32 with (2 ^ 5); apply Z.pow_le_mono_r; lia| |].
  - rewrite <- Hsz. unfold sector_off. rewrite firstn_all. by apply zsum_mod.
  - replace 4096 with (2 ^ (12 - k) * 2 ^ k); [apply Z.mod_mul; lia|].
    rewrite <- Z.pow_add_r by lia. by replace (12 - k + k) with 12 by lia.
Qed.

(** The length [uf2_flash_write] programs. *)
Lemma aligned_len_eq fap off len wbs :
  fm_area fap → wbs = flash_area_align fap → 0 <= off → off mod wbs = 0 →
  0 < len <= UF2_PAYLOAD_SIZE → off + len <= fa_size fap →
  (if 1 <? wbs then
     let mask := wbs ⊖ 1 in
     let a := Z.land (len ⊕ mask) (u32 (Z.lnot mask)) in
     if fa_size fap <? off ⊕ a then len else a
   else len) = round_up wbs len.
Proof using Type.
  intros Ha Hw Ho Hoa Hl Hend. pose proof (area_align _ Ha) as (Hal & Hsz & _).
  pose proof (fm_bounds _ Ha) as (? & ? & ?). destruct (fm_align _ Ha) as (k & Hk & Hpow).
  unfold UF2_PAYLOAD_SIZE in Hl. rewrite <- Hw in *.
  destruct (1 <? wbs) eqn:Hw1; zsimp.
  - cbv zeta. rewrite (u32_small (wbs - 1)) by (unfold_uint; lia).
    rewrite (u32_small (len + _)) by (unfold_uint; lia). rewrite Hpow.
    rewrite land_mask by (unfold_uint; lia). rewrite <- Hpow.
    replace (len + (wbs - 1)) with (len + wbs - 1) by lia. fold (round_up wbs len).
    pose proof (round_up_le wbs off len (fa_size fap) ltac:(lia) Hoa Hsz Hend).
    pose proof (round_up_ge wbs len ltac:(lia)).
    rewrite u32_small by (unfold_uint; lia). by rewrite (proj2 (Z.ltb_ge _ _)) by lia.
  - assert (wbs = 1) as -> by lia. unfold round_up. rewrite Z.div_1_r. lia.
Qed.

(** ** The contract of the callbacks *)

Definition dk_ok (w : dworld) : Prop := same_tables d0 w.1 ∧ fm_ok w.2.

Definition dk_cells (w : dworld) (c : ctx_ptr) : list cell :=
  match c with CtxArea fap => fm_cells w.2 fap | _ => [] end.

Definition dk_align (r : uf2_region ctx_ptr) : Z :=
  match ctx r with CtxArea fap => flash_area_align fap | _ => 1 end.

Definition dk_ev (r : uf2_region ctx_ptr) : Z :=
  match ctx r with CtxArea fap => flash_area_erased_val fap | _ => 0 end.

(** Counting the bytes of a row changes nothing else. *)
Lemma same_tables_count d (k : nat) dr n :
  same_tables d0 d → disk_regions d !! k = Some dr →
  same_tables d0 (set_disk_regions (<[k := DiskRegion (dr_fap dr) (write_block_size dr) n]> (disk_regions d)) d).
Proof using Type.
  intros (Hk & Hrest) Hdr. split; [|done]. cbn. rewrite <- Hk.
  rewrite list_fmap_insert. apply list_insert_id. by rewrite list_lookup_fmap, Hdr.
Qed.

Lemma disk_write_law d w r off da len :
  dk_ok (d, w) → r ∈ all_regions (disk_cfg kc d0) → 0 <= off → off mod dk_align r = 0 →
  0 < len <= UF2_PAYLOAD_SIZE → off + len <= size r →
  zlen da = UF2_DATA_SIZE → Forall is_u8 da →
  all_fresh (slice (dk_cells (d, w) (ctx r)) off (round_up (dk_align r) len)) →
  wp (uf2_flash_write off da len (ctx r))
    (λ rc w', rc = 0 ∧ dk_ok w' ∧
       dk_cells w' (ctx r) =
         splice (dk_cells (d, w) (ctx r)) off (written (slice da 0 (round_up (dk_align r) len))) ∧
       ∀ r', r' ∈ all_regions (disk_cfg kc d0) → ctx r' ≠ ctx r →
         dk_cells w' (ctx r') = dk_cells (d, w) (ctx r'))
    (λ _, True) (d, w).
Proof using Hd0.
  intros [Hsame Hok] Hr Ho Hoa Hl Hend Hda Hby Hfr. cbn [fst snd] in *.
  destruct (disk_region_row r Hr) as (i & dr & fap & Hdr & Hur & Hrow & Hi).
  pose proof (ro_area _ _ _ Hrow) as Ha. rewrite (ro_size _ _ _ Hrow) in Hend.
  unfold dk_align, dk_cells in *. rewrite (ro_ctx _ _ _ Hrow) in *. cbn [snd] in *.
  pose proof (area_align _ Ha) as (Hal & Hsz & _).
  destruct (region_of_found d dr i fap Hsame Hdr (ro_fap _ _ _ Hrow) Hi) as (k & dr' & Hk & Hdr' & Hf' & Hkn).
  pose proof (region_of_wbs d k dr' fap Hsame Hdr' Hf' Hkn) as Hwbs.
  unfold UF2_PAYLOAD_SIZE, UF2_DATA_SIZE in *.
  pose proof (round_up_ge (flash_area_align fap) len (proj1 Hal)) as Hge.
  pose proof (round_up_le (flash_area_align fap) off len (fa_size fap) (proj1 Hal) Hoa Hsz Hend) as Hle.
  unfold uf2_flash_write. apply wp_bind, wp_get_disk. rewrite Hk.
  rewrite (proj2 (Z.ltb_ge (Z.of_nat k) 0)) by lia. apply wp_bind. apply wp_bind.
  eapply wp_array_get; [lia|by rewrite Nat2Z.id|]. apply wp_ret.
  rewrite (proj2 (Z.leb_le 0 _)) by lia. cbn [andb].
  rewrite (aligned_len_eq fap off len) by (done || congruence || (unfold UF2_PAYLOAD_SIZE; lia)).
  rewrite Hwbs. rewrite (proj2 (Z.ltb_ge _ _)) by lia.
  assert (Hsl : zlen (slice da 0 (round_up (flash_area_align fap) len)) = round_up (flash_area_align fap) len)
    by (apply zlen_slice; lia).
  apply wp_bind, wp_lift. eapply wp_mono; [apply fm_write; rewrite ?Hsl; try done; try lia| |done].
  - apply round_up_mod. lia.
  - by apply Forall_slice.
  - by right.
  - intros rc w' (-> & Hok' & Hcells & Hframe). cbn [Z.eqb andb].
    apply wp_bind, wp_get_disk. apply wp_bind. eapply wp_array_get; [lia|by rewrite Nat2Z.id|].
    apply wp_bind, wp_array_set; [unfold zlen; apply lookup_lt_Some in Hdr'; lia|].
    apply wp_bind, wp_put_disk. apply wp_ret. rewrite Nat2Z.id. cbn [snd].
    split_and!; [done|split; [by apply same_tables_count|done]|done|].
    intros r' Hr' Hne. destruct (disk_region_row r' Hr') as (i' & dr2 & fap' & _ & _ & Hrow' & _).
    rewrite (ro_ctx _ _ _ Hrow') in *. apply Hframe; [apply (ro_area _ _ _ Hrow')|congruence].
Qed.

Lemma disk_erase_law d w r off len :
  dk_ok (d, w) → r ∈ all_regions (disk_cfg kc d0) → 0 <= off → 0 < len → off + len <= size r →
  off mod 4096 = 0 → (len = 4096 ∨ off + len = size r) →
  wp (uf2_flash_erase off len (ctx r))
    (λ rc w', rc = 0 ∧ dk_ok w' ∧
       dk_cells w' (ctx r) = splice (dk_cells (d, w) (ctx r)) off (erased (dk_ev r) len) ∧
       ∀ r', r' ∈ all_regions (disk_cfg kc d0) → ctx r' ≠ ctx r →
         dk_cells w' (ctx r') = dk_cells (d, w) (ctx r'))
    (λ _, True) (d, w).
Proof using Hd0.
  intros [Hsame Hok] Hr Ho Hl Hend Hm Hlen. cbn [fst snd] in *.
  destruct (disk_region_row r Hr) as (i & dr & fap & Hdr & Hur & Hrow & Hi).
  pose proof (ro_area _ _ _ Hrow) as Ha. rewrite (ro_size _ _ _ Hrow) in *.
  unfold dk_ev, dk_cells in *. rewrite (ro_ctx _ _ _ Hrow) in *. cbn [snd] in *.
  unfold uf2_flash_erase. apply wp_lift.
  eapply wp_mono; [apply fm_erase; [done|done|by apply (ro_erase _ _ _ Hrow)]| |done].
  intros rc w' (-> & Hok' & Hcells & Hframe). split_and!; try done.
  intros r' Hr' Hne. destruct (disk_region_row r' Hr') as (i' & dr2 & fap' & _ & _ & Hrow' & _).
  rewrite (ro_ctx _ _ _ Hrow') in *. apply Hframe; [apply (ro_area _ _ _ Hrow')|congruence].
Qed.

#[export] Instance disk_uf2_flash : Uf2Flash (disk_cfg kc d0).
Proof using Hd0.
  refine {| uf_ok := dk_ok; uf_cells := dk_cells; uf_ev := dk_ev;
            uf_aligned := λ r off, off mod dk_align r = 0;
            uf_wlen := λ r off len, round_up (dk_align r) len |}.
  - intros [d w] r [_ Hok] Hr. destruct (disk_region_row r Hr) as (i & dr & fap & _ & _ & Hrow & _).
    unfold dk_cells. rewrite (ro_ctx _ _ _ Hrow), (ro_size _ _ _ Hrow).
    by apply fm_len, (ro_area _ _ _ Hrow).
  - intros r off len Hr Ho Hoa Hl Hend. destruct (disk_region_row r Hr) as (i & dr & fap & _ & _ & Hrow & _).
    pose proof (ro_area _ _ _ Hrow) as Ha. rewrite (ro_size _ _ _ Hrow) in *.
    unfold dk_align in *. rewrite (ro_ctx _ _ _ Hrow) in *.
    pose proof (area_align _ Ha) as (Hal & Hsz & H4k). unfold UF2_PAYLOAD_SIZE, UF2_DATA_SIZE in *.
    pose proof (round_up_ge (flash_area_align fap) len (proj1 Hal)).
    split; [lia|]. apply Z.min_glb; apply round_up_le; try done; try apply Hal.
    + cbn [erase_size disk_cfg]. rewrite Z.mul_mod by (pose proof (proj1 Hal); lia).
      rewrite H4k, Z.mul_0_r. apply Zmod_0_l.
    + cbn [erase_size disk_cfg]. pose proof (Z.mul_succ_div_gt (off + len) 4096 eq_refl). lia.
  - intros [d w] r off len Hok Hr. cbn [erase_size disk_cfg cb_erase]. by apply disk_erase_law.
  - intros [d w] r off da len. cbn [cb_write disk_cfg]. apply disk_write_law.
Defined.

(** ** A file written through the disk interface *)

Context (file : list uf2_block) (reg : uf2_block → nat).
Let max_blocks : Z := CONFIG_MCUBOOT_UF2_MAX_BLOCKS kc.
Context (Hfile : file_ok (disk_cfg kc d0) file reg max_blocks).

Let dinv := inv (disk_cfg kc d0) file reg max_blocks.

(** The UF2 block a sector write carries, if it reaches the parser. *)
Definition sector_block (sector : Z) (buf : list Z) : option uf2_block :=
  if sector <? DATA_START_SECTOR then None else
  if uf2_magic_ok (parse_block buf) then Some (parse_block buf) else None.

(** A sector the host may write during the transfer. *)
Definition sector_ok (sector : Z) (buf : list Z) : Prop :=
  match sector_block sector buf with
  | Some b => b ∈ file ∨ ignored (disk_cfg kc d0) b
  | None => True
  end.

Lemma ctx_NoDup : NoDup (ctx <$> all_regions (disk_cfg kc d0)).
Proof using Hd0. rewrite disk_all_regions. apply (dk_distinct _ Hd0). Qed.

Lemma inv_set_dstate w0 R st st' d w :
  dinv w0 R st (d, w) → dinv w0 R st (set_dstate st' d, w).
Proof. intros [H1 H2 H3 H4 H5 H6 H7 H8 H9 H10 H11]. split; try done. Qed.

Lemma magic_guard_neg block :
  negb (magic_start0 block =? UF2_MAGIC_START0) ||
  negb (magic_start1 block =? UF2_MAGIC_START1) ||
  negb (magic_end block =? UF2_MAGIC_END) = negb (uf2_magic_ok block).
Proof. unfold uf2_magic_ok. by rewrite !negb_andb. Qed.

Lemma write_sector_inv w0 R st sector buf w :
  dinv w0 R st w → sector_ok sector buf →
  wp (ghostfat_write_sector (disk_cfg kc d0) st sector buf max_blocks)
    (λ '(rc, st') w', rc = 0 ∧ ∃ R', dinv w0 R' st' w' ∧
       ∀ b, b ∈ R' ↔ b ∈ R ∨ (sector_block sector buf = Some b ∧ b ∈ file)) (λ _, True) w.
Proof using Hd0 Hfile.
  intros Hinv Hok. unfold ghostfat_write_sector, sector_ok, sector_block in *.
  wp_if Hs.
  { apply wp_ret. split; [done|]. exists R. split; [done|]. intros b. split; [auto|].
    intros [?|[? _]]; done. }
  cbv zeta. rewrite magic_guard_neg. destruct (uf2_magic_ok (parse_block buf)); cbn [negb].
  2: { apply wp_ret. split; [done|]. exists R. split; [done|]. intros b. split; [auto|].
       intros [?|[? _]]; done. }
  destruct (decide (parse_block buf ∈ file)) as [Hb|Hb].
  - eapply wp_mono; [apply (inv_process _ disk_cfg_wf ctx_NoDup _ _ _ Hfile); done| |done].
    intros [rc st'] w' [-> Hinv']. split; [done|]. eexists. split; [done|].
    intros b. destruct (bool_decide _) eqn:Hd.
    + apply bool_decide_eq_true in Hd. split; [auto|]. by intros [?|[[= <-] _]].
    + rewrite elem_of_cons. split; [intros [-> |?]; auto|]. intros [?|[[= <-] _]]; auto.
  - destruct Hok as [?|Hig]; [done|]. eapply wp_pure; [by apply (process_ignored _ disk_cfg_wf)|].
    split; [done|]. exists R. split; [done|]. intros b. split; [auto|]. by intros [?|[[= <-] ?]].
Qed.

(** The blocks among the first [n] sectors of a write. *)
Definition write_blocks (sector : Z) (buf : list Z) (n : nat) : list uf2_block :=
  omap (λ i, sector_block (sector + i) (slice buf (i * UF2_BLOCK_SIZE) UF2_BLOCK_SIZE))
    (seqZ 0 (Z.of_nat n)).

Lemma write_blocks_S sector buf n b :
  b ∈ write_blocks sector buf (S n) ↔
  b ∈ write_blocks sector buf n ∨
  sector_block (sector + Z.of_nat n) (slice buf (Z.of_nat n * UF2_BLOCK_SIZE) UF2_BLOCK_SIZE) = Some b.
Proof.
  unfold write_blocks. rewrite seqZ_S, omap_app, elem_of_app, Z.add_0_l. apply or_iff_compat_l.
  cbn. destruct (sector_block _ _) as [b'|].
  - rewrite list_elem_of_singleton. split; congruence.
  - split; [by intros ?%not_elem_of_nil|done].
Qed.

(** The disk invariant: the transfer invariant for the state in the statics. *)
Definition disk_inv (w0 : dworld) R (w : dworld) : Prop := dinv w0 R (dstate w.1) w.

Lemma access_write_inv w0 R buf sector (count : nat) w :
  disk_inv w0 R w → 0 <= sector → sector + Z.of_nat count < 4294967296 →
  (∀ i, 0 <= i < Z.of_nat count →
     sector_ok (sector + i) (slice buf (i * UF2_BLOCK_SIZE) UF2_BLOCK_SIZE)) →
  wp (uf2_disk_access_write kc buf sector (Z.of_nat count))
    (λ rc w', rc = 0 ∧ ∃ R', disk_inv w0 R' w' ∧
       ∀ b, b ∈ R' ↔ b ∈ R ∨ (b ∈ write_blocks sector buf count ∧ b ∈ file)) (λ _, True) w.
Proof using Hd0 Hfile.
  intros Hinv Hs Hend Hok. unfold uf2_disk_access_write.
  apply (wp_loop (λ i w, ∃ n : nat, i = Z.of_nat n ∧ (n <= count)%nat ∧ ∃ R', disk_inv w0 R' w ∧
      ∀ b, b ∈ R' ↔ b ∈ R ∨ (b ∈ write_blocks sector buf n ∧ b ∈ file))
    (λ i, Z.of_nat count - i)); [| |lia|lia].
  2: { exists 0%nat. split; [done|]. split; [lia|]. exists R. split; [done|].
       intros b. split; [auto|]. intros [?|[?%not_elem_of_nil _]]; done. }
  intros i [d w'] (n & -> & Hn & R' & Hinv' & Hiff). wp_if Hlt.
  2: { assert (n = count) as -> by lia. apply wp_ret. eauto. }
  apply wp_bind, wp_get_disk. rewrite (u32_small (sector + _)) by (unfold_uint; lia).
  rewrite (disk_cfg_same d) by apply (inv_ok _ _ _ _ _ _ _ _ Hinv').
  apply wp_bind. eapply wp_mono; [apply write_sector_inv; [done|apply Hok; lia]| |done].
  intros [rc st'] [d' w''] (-> & R'' & Hinv'' & Hiff').
  apply wp_bind, wp_get_disk, wp_bind, wp_put_disk. cbn [negb Z.eqb]. apply wp_ret.
  split; [|lia]. exists (S n). split; [lia|]. split; [lia|]. exists R''. split.
  - apply inv_set_dstate. exact Hinv''.
  - intros b. rewrite Hiff', Hiff, write_blocks_S. clear. tauto.
Qed.

(** A host session: a sequence of multi-sector writes. *)
Fixpoint host_writes (ops : list (Z * list Z * nat)) : M dworld Z :=
  match ops with
  | [] => mret 0
  | (sector, buf, count) :: ops =>
      rc ← uf2_disk_access_write kc buf sector (Z.of_nat count);
      if negb (rc =? 0) then mret rc else host_writes ops
  end.

Definition ops_blocks (ops : list (Z * list Z * nat)) : list uf2_block :=
  concat ((λ '(sector, buf, count), write_blocks sector buf count) <$> ops).

Definition op_ok (op : Z * list Z * nat) : Prop :=
  let '(sector, buf, count) := op in
  0 <= sector ∧ sector + Z.of_nat count < 4294967296 ∧
  ∀ i, 0 <= i < Z.of_nat count →
    sector_ok (sector + i) (slice buf (i * UF2_BLOCK_SIZE) UF2_BLOCK_SIZE).

Lemma host_writes_inv w0 R ops w :
  disk_inv w0 R w → Forall op_ok ops →
  wp (host_writes ops)
    (λ rc w', rc = 0 ∧ ∃ R', disk_inv w0 R' w' ∧
       ∀ b, b ∈ R' ↔ b ∈ R ∨ (b ∈ ops_blocks ops ∧ b ∈ file)) (λ _, True) w.
Proof using Hd0 Hfile.
  revert R w. induction ops as [|[[sector buf] count] ops IH]; intros R w Hinv Hops; cbn [host_writes].
  { apply wp_ret. split; [done|]. exists R. split; [done|].
    intros b. split; [auto|]. intros [?|[?%not_elem_of_nil _]]; done. }
  apply Forall_cons_1 in Hops as [Hop Hops']. destruct Hop as (Hs & Hend & Hok). apply wp_bind.
  eapply wp_mono; [by apply access_write_inv| |done]. intros rc w' (-> & R' & Hinv' & Hiff).
  cbn [negb Z.eqb]. eapply wp_mono; [by apply IH| |done]. intros rc w'' (-> & R'' & Hinv'' & Hiff').
  split; [done|]. exists R''. split; [done|]. intros b. rewrite Hiff', Hiff.
  unfold ops_blocks. cbn [fmap list_fmap concat]. rewrite elem_of_app. clear. tauto.
Qed.

End DiskOk.

(** ** Registration *)

Section Register.
  Context {W : Type} `{!FlashMap W, !FlashMapOk W, !Zephyr W} (kc : kconfig).

Definition device_wbs (fap : flash_area) : Z :=
  match flash_area_get_device fap with
  | Some dev => default 1 (flash_get_write_block_size dev)
  | None => 1
  end.

(** The areas registration asks for. *)
Definition requested_ids : list Z :=
  FLASH_AREA_IMAGE_PRIMARY_0 kc :: option_list (storage_partition kc) ++ option_list (mcuboot_partition kc).

(** What registration relies on: opening one of its areas has no effect and, when it
    succeeds, gives the area with this id, whose device reports the write block
    the flash map enforces and whose sectors fit 4096-byte erase steps;
    registering the disk does not touch the flash. *)
Record zephyr_ok : Prop := {
  zo_open id w : id ∈ requested_ids → fm_ok w → ∃ rc fap, flash_area_open id w = (Ret (rc, fap), w) ∧
    (rc = 0 → fm_area fap ∧ fa_id fap = id ∧ erase_compatible fap ∧
              device_wbs fap = flash_area_align fap);
  zo_register w : fm_ok w → ∃ rc w', disk_access_register w = (Ret rc, w') ∧ fm_ok w' ∧
    ∀ fap, fm_area fap → fm_cells w' fap = fm_cells w fap;
}.

Context (Hz : zephyr_ok).

Definition regions_disjoint (r r' : uf2_region ctx_ptr) : Prop :=
  base r + size r <= base r' ∨ base r' + size r' <= base r.

(** The tables while regions are being added: one row per id. *)
Record tables_ok (ids : list Z) (d : disk) : Prop := {
  to_num : num_disk_regions d = zlen ids ∧ zlen ids <= UF2_MAX_REGIONS;
  to_len : zlen (disk_regions d) = UF2_MAX_REGIONS ∧ zlen (uf2_regions d) = UF2_MAX_REGIONS;
  to_rows (i : nat) id : ids !! i = Some id →
    ∃ dr ur fap, disk_regions d !! i = Some dr ∧ uf2_regions d !! i = Some ur ∧
      row_ok dr ur fap ∧ fa_id fap = id;
  to_disjoint (i j : nat) r r' : (i < j < length ids)%nat →
    uf2_regions d !! i = Some r → uf2_regions d !! j = Some r' →
    address_routed r = true → address_routed r' = true → regions_disjoint r r';
  to_nodup : NoDup ids;
}.

Lemma existsb_false_lookup {A} (P : A → bool) (l : list A) i x :
  existsb P l = false → l !! i = Some x → P x = false.
Proof.
  intros He Hx. destruct (P x) eqn:HP; [|done]. exfalso.
  assert (existsb P l = true) by (apply existsb_exists; exists x; split; [|done];
    apply list_elem_of_In; by eapply list_elem_of_lookup_2). congruence.
Qed.

(** Adding a row that does not overlap the address-routed ones. *)
Lemma tables_ok_add ids d id fap ar (lbl : list Z) pd :
  tables_ok ids d → id ∉ ids → zlen ids < UF2_MAX_REGIONS → fm_area fap → fa_id fap = id →
  erase_compatible fap → device_wbs fap = flash_area_align fap →
  ar && existsb (overlaps (fa_off fap) (fa_size fap))
          (take (Z.to_nat (num_disk_regions d)) (uf2_regions d)) = false →
  tables_ok (ids ++ [id])
    (Disk (<[length ids := DiskRegion (Some fap) (device_wbs fap) 0]> (disk_regions d))
       (<[length ids := Uf2Region (fa_off fap) (fa_size fap) (CtxArea fap) (Some lbl) ar]> (uf2_regions d))
       (u8 (num_disk_regions d + 1)) pd (dc_num_regions d) (dc_read_ctx d) (dc_readback_base d)
       (dc_readback_size d) (dstate d) (disk_registered d)).
Proof using Type.
  intros [Hnum Hlen Hrows Hdis Hnd] Hid Hlt Ha Hfid He Hw Hov. destruct Hnum as [Hn Hm], Hlen as [Hl1 Hl2].
  unfold UF2_MAX_REGIONS, zlen in *. pose proof (fm_bounds _ Ha) as (? & ? & ?). split; cbn.
  - rewrite u8_small by (unfold_uint; lia). unfold UF2_MAX_REGIONS, zlen. rewrite length_app. cbn. lia.
  - unfold UF2_MAX_REGIONS, zlen. by rewrite !length_insert.
  - intros i id' Hi. apply lookup_app_Some in Hi as [Hi|[Hge Hi]].
    + pose proof (lookup_lt_Some _ _ _ Hi). rewrite !list_lookup_insert_ne by lia. by apply Hrows.
    + apply list_lookup_singleton_Some in Hi as [Hi <-].
      assert (i = length ids) as -> by lia. rewrite !list_lookup_insert_eq by lia.
      eexists _, _, fap. split_and!; [done..|split; done|done].
  - intros i j r r' Hij Hr Hr' Har Har'. rewrite length_app in Hij. cbn in Hij.
    rewrite list_lookup_insert_ne in Hr by lia.
    destruct (decide (j = length ids)) as [->|Hj].
    + rewrite list_lookup_insert_eq in Hr' by lia. injection Hr' as <-. cbn in Har'. subst ar.
      cbn [andb] in Hov. apply (existsb_false_lookup _ _ i r) in Hov.
      2: { rewrite lookup_take_lt by lia. done. }
      destruct (lookup_lt_is_Some_2 ids i) as [idi Hidi]; [lia|].
      destruct (Hrows i idi Hidi) as (dr & ur & fap' & _ & Hur & Hrow & _).
      rewrite Hr in Hur. injection Hur as <-. pose proof (fm_bounds _ (ro_area _ _ _ Hrow)) as (? & ? & ?).
      unfold overlaps in Hov. rewrite Har in Hov. cbn [andb] in Hov.
      rewrite (ro_base _ _ _ Hrow), (ro_size _ _ _ Hrow) in Hov.
      rewrite !u32_small in Hov by (unfold_uint; lia).
      unfold regions_disjoint. cbn. rewrite (ro_base _ _ _ Hrow), (ro_size _ _ _ Hrow).
      apply andb_false_iff in Hov as [?|?]; zsimp; lia.
    + rewrite list_lookup_insert_ne in Hr' by lia. apply (Hdis i j); try done. lia.
  - apply list.NoDup_app. split_and!; [done| |apply NoDup_singleton].
    intros x Hx ->%list_elem_of_singleton. done.
Qed.

Lemma add_region_wp ids d id lbl (w : W) :
  tables_ok ids d → id ∉ ids → id ∈ requested_ids → fm_ok w →
  wp (uf2_disk_add_region id lbl)
    (λ rc w', tables_ok (if rc =? 0 then ids ++ [id] else ids) w'.1 ∧ w'.2 = w ∧
       (rc = 0 ∨ uf2_regions w'.1 = uf2_regions d) ∧
       (rc = 0 → ids = [] → ∃ r, uf2_regions w'.1 !! 0%nat = Some r ∧ address_routed r = true ∧
                                 label r = Some lbl) ∧
       (∀ j r, uf2_regions d !! j = Some r → (j < length ids)%nat → uf2_regions w'.1 !! j = Some r))
    (λ _, False) (d, w).
Proof using Hz.
  intros Ht Hid Hreq Hok. unfold uf2_disk_add_region. apply wp_bind, wp_get_disk.
  pose proof (to_num _ _ Ht) as [Hn Hm]. pose proof (to_len _ _ Ht) as [Hl1 Hl2].
  wp_if Hfull. { apply wp_ret. cbn. split_and!; try done. by right. }
  destruct (zo_open Hz id w Hreq Hok) as (rc & fap & Hopen & Hfap).
  apply wp_bind, wp_lift. eapply wp_pure; [done|]. cbv beta iota. wp_if Hrc.
  { apply wp_ret. cbn. rewrite (proj2 (Z.eqb_neq _ _)) by done. split_and!; try done. by right. }
  destruct Hfap as (Ha & Hfid & He & Hw); [done|]. cbv zeta. apply wp_bind, wp_put_disk.
  cbn [num_disk_regions uf2_regions disk_regions].
  set (ar := (num_disk_regions d =? 0) || _).
  wp_if Hov.
  { apply wp_ret. cbn. split_and!; try done; [|by right].
    destruct Ht as [T1 T2 T3 T4 T5]. by split. }
  rewrite Hn. apply wp_bind, wp_array_set; [unfold zlen in *; lia|].
  apply wp_bind, wp_array_set; [unfold zlen in *; lia|]. apply wp_bind, wp_put_disk, wp_ret. cbn [fst snd].
  change (Z.to_nat (zlen ids)) with (Z.to_nat (Z.of_nat (length ids))). rewrite Nat2Z.id.
  rewrite Z.eqb_refl. split_and!; [|done|by left| |].
  - rewrite <- Hn. apply (tables_ok_add ids d id fap ar); try done. lia.
  - intros _ ->. cbn. destruct (uf2_regions d) eqn:Hu; [unfold zlen in Hl2; cbn in Hl2; unfold UF2_MAX_REGIONS in Hl2; lia|].
    eexists. split; [done|]. split; [|done]. cbn. unfold ar. by rewrite Hn.
  - intros j r Hj Hlt. cbn. by rewrite list_lookup_insert_ne by lia.
Qed.

Lemma add_optional_wp ids d area lbl (w : W) :
  tables_ok ids d → ids ≠ [] → (∀ id, area = Some id → (id ∉ ids) ∧ id ∈ requested_ids) → fm_ok w →
  wp (add_optional area lbl)
    (λ _ w', ∃ ids', tables_ok ids' w'.1 ∧ w'.2 = w ∧ ids' ≠ [] ∧
       (∀ x, x ∈ ids' → x ∈ ids ∨ area = Some x) ∧
       uf2_regions w'.1 !! 0%nat = uf2_regions d !! 0%nat) (λ _, False) (d, w).
Proof using Hz.
  intros Ht Hne Hid Hok. unfold add_optional. destruct area as [id|].
  2: { apply wp_ret. exists ids. split_and!; try done. auto. }
  apply wp_bind. eapply wp_mono; [apply (add_region_wp ids); [done|by apply Hid|by apply Hid|done]| |done].
  intros rc [d' w'] (Ht' & Hw & _ & _ & Hkeep). apply wp_ret. cbn [fst snd] in *.
  exists (if rc =? 0 then ids ++ [id] else ids). split_and!; try done.
  - destruct (rc =? 0); [|done]. by destruct ids.
  - intros x. destruct (rc =? 0); [|auto].
    rewrite elem_of_app, list_elem_of_singleton. intros [?| ->]; auto.
  - pose proof (to_len _ _ Ht) as [_ Hl].
    destruct (lookup_lt_is_Some_2 (uf2_regions d) 0) as [r Hr];
      [unfold zlen, UF2_MAX_REGIONS in Hl; lia|].
    rewrite Hr. apply Hkeep; [done|]. destruct ids; [done|cbn; lia].
Qed.

(** The configuration step turns filled tables into a usable disk. *)
Lemma configured_disk_ok ids d c pd rb rs st reg' :
  tables_ok ids d → ids ≠ [] →
  disk_ok (Disk (disk_regions d) (uf2_regions d) (num_disk_regions d) pd (num_disk_regions d) c rb rs st reg').
Proof using Type.
  intros [[Hn Hm] [Hl1 Hl2] Hrows _ Hnd] Hne. unfold zlen, UF2_MAX_REGIONS in *. split; cbn.
  - unfold UF2_MAX_REGIONS. destruct ids; [done|]. cbn in *. lia.
  - done.
  - intros i Hi. destruct (lookup_lt_is_Some_2 ids i) as [id Hid]; [lia|].
    destruct (Hrows i id Hid) as (dr & ur & fap & ? & ? & ? & _). eauto 10.
  - apply NoDup_alt. intros i j c' Hi Hj.
    rewrite list_lookup_fmap in Hi, Hj. apply fmap_Some in Hi as (r & Hi & ->), Hj as (r' & Hj & Heq).
    apply lookup_take_Some in Hi as [Hi Hlti], Hj as [Hj Hltj].
    destruct (lookup_lt_is_Some_2 ids i) as [idi Hidi]; [lia|].
    destruct (lookup_lt_is_Some_2 ids j) as [idj Hidj]; [lia|].
    destruct (Hrows i idi Hidi) as (dri & uri & fi & _ & Huri & Hrowi & Hfi).
    destruct (Hrows j idj Hidj) as (drj & urj & fj & _ & Hurj & Hrowj & Hfj).
    rewrite Hi in Huri. injection Huri as <-. rewrite Hj in Hurj. injection Hurj as <-.
    rewrite (ro_ctx _ _ _ Hrowi), (ro_ctx _ _ _ Hrowj) in Heq. injection Heq as <-.
    apply (proj1 (NoDup_alt _) Hnd i j idi); [done|]. congruence.
Qed.

Lemma register_wp d w :
  tables_ok [] d → fm_ok w → NoDup requested_ids →
  wp (uf2_disk_register kc)
    (λ rc w', fm_ok w'.2 ∧ (∀ fap, fm_area fap → fm_cells w'.2 fap = fm_cells w fap) ∧
       (rc = 0 → disk_ok w'.1 ∧ dstate w'.1 = uf2_init (CONFIG_MCUBOOT_UF2_MAX_BLOCKS kc) ∧
          disk_registered w'.1 = true ∧
          (∃ r, uf2_regions w'.1 !! 0%nat = Some r ∧ address_routed r = true ∧ label r = Some label_slot0) ∧
          (∀ (i j : nat) r r', (i < j < Z.to_nat (num_disk_regions w'.1))%nat →
             uf2_regions w'.1 !! i = Some r → uf2_regions w'.1 !! j = Some r' →
             address_routed r = true → address_routed r' = true → regions_disjoint r r')))
    (λ _, False) (d, w).
Proof using Hz.
  intros Ht Hok Hnd. unfold uf2_disk_register. apply wp_bind.
  eapply wp_mono; [apply (add_region_wp []); [done|apply not_elem_of_nil|by left|done]| |done].
  intros rc [d1 w1] (Ht1 & Hw1 & _ & Hfirst & _). cbn [fst snd] in *. subst w1. wp_if Hrc.
  { apply wp_ret. cbn. split_and!; done. }
  subst rc. specialize (Hfirst eq_refl eq_refl). destruct Hfirst as (r0 & Hr0 & Har0 & Hlb0).
  cbn [app Z.eqb] in Ht1. pose proof Hnd as Hnd0. unfold requested_ids in Hnd. apply list.NoDup_cons in Hnd as [Hp Hnd].
  apply list.NoDup_app in Hnd as (_ & Hsm & _).
  apply wp_bind. eapply wp_mono; [apply (add_optional_wp [FLASH_AREA_IMAGE_PRIMARY_0 kc]); [done|done| |done]| |done].
  { intros id Hs. split.
    - intros ->%list_elem_of_singleton. apply Hp. rewrite Hs. by left.
    - right. rewrite Hs. by left. }
  intros _ [d2 w2] (ids2 & Ht2 & Hw2 & Hne2 & Hids2 & Hr2). cbn [fst snd] in *. subst w2.
  apply wp_bind. eapply wp_mono; [apply (add_optional_wp ids2); [done|done| |done]| |done].
  { intros id Hm. split.
    - intros Hin. rewrite Hm in Hp, Hsm. apply Hids2 in Hin as [->%list_elem_of_singleton|Hst].
      + apply Hp. apply elem_of_app. right. by left.
      + apply (Hsm id); [rewrite Hst; by left|by left].
    - right. apply elem_of_app. right. rewrite Hm. by left. }
  intros _ [d3 w3] (ids3 & Ht3 & Hw3 & Hne3 & _ & Hr3). cbn [fst snd] in *. subst w3.
  apply wp_bind, wp_get_disk. apply wp_bind. unfold configure.
  destruct (lookup_lt_is_Some_2 ids3 0) as [id0 Hid0]; [destruct ids3; [done|cbn; lia]|].
  destruct (to_rows _ _ Ht3 0%nat id0 Hid0) as (dr & ur & fap & Hdr & Hur & Hrow & _).
  apply wp_bind. eapply wp_array_get; [lia|done|]. rewrite (ro_fap _ _ _ Hrow).
  apply wp_ret, wp_bind, wp_put_disk, wp_bind, wp_lift.
  destruct (zo_register Hz w Hok) as (rc & w4 & Hreg & Hok4 & Hcells).
  unfold wp at 1. rewrite Hreg. apply wp_bind, wp_get_disk. wp_if Hrc.
  { apply wp_bind, wp_put_disk, wp_ret. cbn. split_and!; done. }
  apply wp_bind, wp_put_disk, wp_ret. cbn [fst snd]. split_and!; [done..|].
  intros _. split_and!; try done.
  - exact (configured_disk_ok ids3 d3 _ _ _ _ _ _ Ht3 Hne3).
  - cbn. exists r0. by rewrite Hr3, Hr2.
  - cbn. intros i j r r' Hij. apply (to_disjoint _ _ Ht3).
    pose proof (proj1 (to_num _ _ Ht3)) as Hn. unfold zlen in Hn. lia.
Qed.

End Register.

(** ** A concrete device

    The simulator flash with a primary slot of two sectors and a one-sector
    storage area, as an instance of every interface used above. *)

Module Demo.

Definition slots : list area :=
  [Area (FlashArea 1 0 0x1000 0x2000)
     [FlashArea 1 0 0x1000 0x1000; FlashArea 1 0 0x2000 0x1000] 1;
   Area (FlashArea 2 0 0x3000 0x1000) [FlashArea 2 0 0x3000 0x1000] 2].
Definition layout : gmap Z (list Z) := {[ 0 := [0x1000; 0x1000; 0x1000; 0x1000] ]}.
Definition params : gmap Z flash_param := {[ 0 := FlashParam 4 255 ]}.
Definition world : sim_world :=
  SimWorld {[ 0 := sim_flash_new [0x1000; 0x1000; 0x1000; 0x1000] 4 255 ]} 0 0.

Lemma layout_dev d l : layout !! d = Some l → d = 0 ∧ l = [0x1000; 0x1000; 0x1000; 0x1000].
Proof. unfold layout. intros H. by apply lookup_singleton_Some in H as [<- <-]. Qed.

Lemma param_dev : params !! 0 = Some (FlashParam 4 255).
Proof. done. Qed.

Lemma wf : sim_wf slots params layout.
Proof.
  split.
  - intros d l [-> ->]%layout_dev. repeat constructor.
  - unfold slots. repeat constructor; cbn; try lia.
    + exists [0x1000], [0x1000]. done.
    + intros [|[|i]] s; cbn; naive_solver.
    + exists (FlashParam 4 255), 2. split_and!; try done. repeat constructor.
    + exists [0x1000; 0x1000; 0x1000], []. done.
    + intros [|i] s; cbn; naive_solver.
    + exists (FlashParam 4 255), 2. split_and!; try done. repeat constructor.
  - unfold slots. intros a a' Ha Ha' Hne. unfold disjoint_areas.
    rewrite !elem_of_cons in Ha, Ha'.
    destruct Ha as [->|[->|?%not_elem_of_nil]], Ha' as [->|[->|?%not_elem_of_nil]]; cbn in *; lia || done.
Qed.

#[export] Instance flash : FlashMap sim_world := sim_flash_map slots params.
#[export] Instance flash_ok : FlashMapOk sim_world := sim_flash_map_ok slots params layout (λ _, true) wf.

Lemma world_ok : fm_ok world.
Proof.
  intros id l p [-> ->]%layout_dev [= <-].
  exists (sim_flash_new [0x1000; 0x1000; 0x1000; 0x1000] 4 255). split; [done|].
  split; try done. cbn [sf_data sim_flash_new]. apply Forall_replicate. unfold_uint. lia.
Qed.

#[export] Instance zephyr : Zephyr sim_world := {
  flash_area_get_device fa := Some (fa_device_id fa);
  flash_get_write_block_size _ := Some 4;
  flash_device_base _ := 0;
  flash_area_get_device_id fa := fa_device_id fa;
  flash_read dev off buf len :=
    '(rc, l) ← sim_flash_read dev off len;
    mret (rc, if rc =? 0 then l else buf);
  disk_access_register := mret 0;
  disk_access_unregister := mret ();
}.

Lemma area_cases fa : fm_area fa → fa = FlashArea 1 0 0x1000 0x2000 ∨ fa = FlashArea 2 0 0x3000 0x1000.
Proof.
  intros (a & Ha & <-). unfold slots in Ha. rewrite !elem_of_cons in Ha.
  destruct Ha as [->|[->|?%not_elem_of_nil]]; cbn; tauto.
Qed.

Lemma area1 : fm_area (FlashArea 1 0 0x1000 0x2000).
Proof. eexists. split; [by left|done]. Qed.
Lemma area2 : fm_area (FlashArea 2 0 0x3000 0x1000).
Proof. eexists. split; [by right; left|done]. Qed.

Lemma erases fa : fm_area fa → erase_compatible fa.
Proof.
  intros [-> | ->]%area_cases off len Ho Hl Hend Hm Hlen; cbn [fa_size] in *.
  - destruct (decide (off = 0)) as [->|].
    + destruct Hlen as [->|Hlen]; [exists 0%nat, 1%nat|exists 0%nat, 2%nat].
      * split_and!; first [by vm_compute|vm_compute; lia].
      * assert (len = 0x2000) as -> by lia. split_and!; first [by vm_compute|vm_compute; lia].
    + assert (off = 0x1000) as -> by lia. assert (len = 0x1000) as -> by lia.
      exists 1%nat, 2%nat. split_and!; first [by vm_compute|vm_compute; lia].
  - assert (off = 0) as -> by lia. assert (len = 0x1000) as -> by lia.
    exists 0%nat, 1%nat. split_and!; first [by vm_compute|vm_compute; lia].
Qed.

Definition kc : kconfig := Kconfig 16 0 [] [] [] 1 (Some 2) None.

End Demo.

(** ** Theorems *)

(** Registering the disk sets up tables the callbacks can rely on.  From the
    empty tables, [uf2_disk_register] returns without touching the flash; if it
    returns 0 there are between one and four regions, one flash area each, the
    first is the primary slot named slot0 and reachable by address, the regions
    reachable by address do not overlap, the transfer state is fresh and the
    disk is marked registered. *)
Theorem uf2_disk_register_ok {W} `{!FlashMap W, !FlashMapOk W, !Zephyr W} kc d w :
  zephyr_ok kc → tables_ok [] d → fm_ok w → NoDup (requested_ids kc) →
  wp (uf2_disk_register kc)
    (λ rc w', fm_ok w'.2 ∧ (∀ fap, fm_area fap → fm_cells w'.2 fap = fm_cells w fap) ∧
       (rc = 0 → disk_ok w'.1 ∧ dstate w'.1 = uf2_init (CONFIG_MCUBOOT_UF2_MAX_BLOCKS kc) ∧
          disk_registered w'.1 = true ∧
          (∃ r, uf2_regions w'.1 !! 0%nat = Some r ∧ address_routed r = true ∧ label r = Some label_slot0) ∧
          (∀ (i j : nat) r r', (i < j < Z.to_nat (num_disk_regions w'.1))%nat →
             uf2_regions w'.1 !! i = Some r → uf2_regions w'.1 !! j = Some r' →
             address_routed r = true → address_routed r' = true → regions_disjoint r r')))
    (λ _, False) (d, w).
Proof. intros Hz. apply (register_wp kc Hz). Qed.

(** C30: A UF2 file copied to the registered disk arrives.  Any sequence of
    multi-sector writes in which the data sectors carrying the UF2 magic belong
    to the file or to another device's file, and the others are the host's file
    system metadata, in any order and with repetitions: every write returns 0,
    every written block is in its flash area, and [uf2_disk_is_complete] holds
    exactly when the whole file was written. *)
Theorem uf2_disk_transfer {W} `{!FlashMap W, !FlashMapOk W, !Zephyr W} kc d0 (Hd0 : disk_ok d0)
    file reg ops w :
  file_ok (disk_cfg kc d0) (Uf2Flash0 := disk_uf2_flash kc d0 Hd0) file reg
    (CONFIG_MCUBOOT_UF2_MAX_BLOCKS kc) →
  fm_ok w → dstate d0 = uf2_init (CONFIG_MCUBOOT_UF2_MAX_BLOCKS kc) →
  Forall (op_ok kc d0 file) ops →
  wp (host_writes kc ops)
    (λ rc w', rc = 0 ∧
       (uf2_disk_is_complete w'.1 = true ↔ ∀ b, b ∈ file → b ∈ ops_blocks ops) ∧
       (∀ b r fap, b ∈ file → b ∈ ops_blocks ops → all_regions (disk_cfg kc d0) !! reg b = Some r →
          ctx r = CtxArea fap →
          slice (vals (fm_cells w'.2 fap)) (target_addr b - fa_off fap) (payload_size b) =
            slice (data b) 0 (payload_size b)))
    (λ _, True) (d0, w).
Proof.
  intros Hfile Hok Hst Hops.
  assert (Hinit : disk_inv kc d0 Hd0 file reg (d0, w) [] (d0, w)).
  { unfold disk_inv. cbn [fst]. rewrite Hst.
    apply (inv_init _ (disk_cfg_wf kc d0 Hd0) _ _ _ Hfile). by split. }
  eapply wp_mono; [by apply (host_writes_inv kc d0 Hd0 file reg Hfile (d0, w) [])| |done].
  intros rc [d' w'] (-> & R & Hinv & Hiff). unfold disk_inv in Hinv. cbn [fst snd] in *.
  split; [done|]. split.
  - unfold uf2_disk_is_complete. rewrite (complete_iff _ _ _ _ Hfile _ _ _ _ Hinv).
    split; intros Hall b Hb; specialize (Hall b Hb).
    + apply Hiff in Hall as [?%not_elem_of_nil|[? _]]; done.
    + apply Hiff. by right.
  - intros b r fap Hb Hbx Hr Hc.
    assert (HbR : b ∈ R) by (apply Hiff; by right).
    pose proof (received_payload _ (disk_cfg_wf kc d0 Hd0) _ _ _ Hfile _ _ _ _ b r Hinv HbR Hr) as Hp.
    destruct (disk_region_row kc d0 Hd0 r (list_elem_of_lookup_2 _ _ _ Hr)) as (i & dr & fap' & _ & _ & Hrow & _).
    unfold boff in Hp. cbn [uf_cells disk_uf2_flash] in Hp. rewrite Hc in Hp. cbn in Hp.
    rewrite (ro_ctx _ _ _ Hrow) in Hc. injection Hc as <-. by rewrite (ro_base _ _ _ Hrow) in Hp.
Qed.

(** ** Witnesses on the concrete device *)

Module DemoRun.
Import Demo.

Lemma demo_zephyr_ok : zephyr_ok kc.
Proof.
  split.
  - intros id w Hid Hok. unfold requested_ids in Hid. cbn in Hid. rewrite !elem_of_cons in Hid.
    destruct Hid as [->|[->|?%not_elem_of_nil]]; [| |done].
    + eexists 0, _. split; [reflexivity|]. intros _.
      split_and!; [exact area1|done|apply erases, area1|done].
    + eexists 0, _. split; [reflexivity|]. intros _.
      split_and!; [exact area2|done|apply erases, area2|done].
  - intros w Hok. by exists 0, w.
Qed.

Lemma demo_tables : tables_ok [] disk_init.
Proof.
  split; [done|done|by intros [|i] id|intros i j r r' Hij; cbn in Hij; lia|apply NoDup_nil_2].
Qed.

Lemma demo_requested : NoDup (requested_ids kc).
Proof.
  unfold requested_ids, kc. cbn. apply list.NoDup_cons. split; [|apply NoDup_singleton].
  intros H%list_elem_of_singleton. done.
Qed.

Definition demo_disk : disk :=
  match uf2_disk_register kc (disk_init, world) with (_, (d, _)) => d end.

Lemma demo_register w : uf2_disk_register kc (disk_init, w) = (Ret 0, (demo_disk, w)).
Proof. reflexivity. Qed.

Lemma demo_disk_ok : disk_ok demo_disk.
Proof.
  pose proof (register_wp kc demo_zephyr_ok disk_init world demo_tables world_ok demo_requested) as H.
  unfold wp in H. rewrite demo_register in H. destruct H as (_ & _ & H). by apply H.
Qed.

Lemma uf2_disk_register_ok_witness :
  disk_ok demo_disk ∧ disk_registered demo_disk = true ∧ num_disk_regions demo_disk = 2.
Proof.
  pose proof (uf2_disk_register_ok kc disk_init world demo_zephyr_ok demo_tables world_ok demo_requested) as H.
  unfold wp in H. rewrite demo_register in H. destruct H as (_ & _ & H).
  destruct (H eq_refl) as (H1 & _ & H3 & _). split; [exact H1|]. split; [exact H3|reflexivity].
Defined.

(** A file of two blocks in the primary slot, the second one sent first and
    twice, after a directory update. *)
Definition blk (addr no : Z) : uf2_block :=
  Uf2Block UF2_MAGIC_START0 UF2_MAGIC_START1 0 addr 8 no 2 0
    ([1; 2; 3; 4; 5; 6; 7; no] ++ zeros 468) UF2_MAGIC_END.
Definition file : list uf2_block := [blk 0x1000 0; blk 0x1008 1].
Definition ops : list (Z * list Z * nat) :=
  [(129, zeros 512, 1%nat);
   (300, encode_block (blk 0x1008 1) ++ encode_block (blk 0x1000 0), 2%nat);
   (302, encode_block (blk 0x1008 1), 1%nat)].

Lemma blk_wf addr no : is_u32 addr → is_u8 no → wf_block (blk addr no).
Proof.
  intros Ha Hn. split; [|done|done].
  unfold header, blk. cbn. repeat constructor; unfold_uint; unfold UF2_MAGIC_START0, UF2_MAGIC_START1; lia.
Qed.

Lemma blk_accepted addr no :
  (addr = 0x1000 ∨ addr = 0x1008) → 0 <= no < 2 →
  accepted (disk_cfg kc demo_disk) (Uf2Flash0 := disk_uf2_flash kc demo_disk demo_disk_ok) 16 2
    (blk addr no) 0 (Uf2Region 0x1000 0x2000 (CtxArea (FlashArea 1 0 0x1000 0x2000)) (Some label_slot0) true).
Proof.
  intros Ha Hn. split; try done; try (cbn; lia).
  - split; [done|]. cbn [data blk]. apply Forall_app. split.
    + repeat constructor; unfold_uint; lia.
    + unfold zeros. apply Forall_replicate. unfold_uint. lia.
  - intros w. destruct Ha as [-> | ->]; reflexivity.
  - destruct Ha as [-> | ->]; split; unfold_uint; unfold boff; cbn; lia.
  - destruct Ha as [-> | ->]; unfold boff; cbn; lia.
  - destruct Ha as [-> | ->]; done.
Qed.

Lemma demo_file_ok :
  file_ok (disk_cfg kc demo_disk) (Uf2Flash0 := disk_uf2_flash kc demo_disk demo_disk_ok) file
    (λ _, 0%nat) 16.
Proof.
  split; [done|..].
  - intros b Hb. unfold file in Hb. rewrite !elem_of_cons in Hb.
    destruct Hb as [->|[->|?%not_elem_of_nil]]; [| |done]; eexists; apply blk_accepted; lia || tauto.
  - intros [|[|k]] b; cbn; [by intros [= <-]..|done].
  - intros b b' r Hb Hb' Hne _ Hr. change (all_regions (disk_cfg kc demo_disk) !! 0%nat) with
      (Some (Uf2Region 0x1000 0x2000 (CtxArea (FlashArea 1 0 0x1000 0x2000)) (Some label_slot0) true)) in Hr.
    injection Hr as <-. unfold file in Hb, Hb'. rewrite !elem_of_cons in Hb, Hb'.
    destruct Hb as [->|[->|?%not_elem_of_nil]], Hb' as [->|[->|?%not_elem_of_nil]]; try done;
      [left|right]; by vm_compute.
Qed.

Lemma demo_ops_ok : Forall (op_ok kc demo_disk file) ops.
Proof.
  assert (Hin : ∀ b, b = blk 0x1000 0 ∨ b = blk 0x1008 1 → b ∈ file).
  { intros b [-> | ->]; [by left|by right; left]. }
  repeat (apply Forall_cons_2); [..|apply Forall_nil_2]; (split; [lia|]; split; [cbn; lia|]); intros i Hi;
    cbn [Z.of_nat] in Hi; unfold sector_ok.
  - assert (i = 0) as -> by lia. done.
  - destruct (decide (i = 0)) as [->|]; [|assert (i = 1) as -> by lia].
    + replace (sector_block _ _) with (Some (blk 0x1008 1)) by (by vm_compute). left. by apply Hin; right.
    + replace (sector_block _ _) with (Some (blk 0x1000 0)) by (by vm_compute). left. by apply Hin; left.
  - assert (i = 0) as -> by lia.
    replace (sector_block _ _) with (Some (blk 0x1008 1)) by (by vm_compute). left. by apply Hin; right.
Qed.

Lemma demo_ops_cover b : b ∈ file → b ∈ ops_blocks ops.
Proof.
  assert (E : ops_blocks ops = [blk 0x1008 1; blk 0x1000 0; blk 0x1008 1]) by (by vm_compute).
  rewrite E. unfold file. rewrite !elem_of_cons. tauto.
Qed.

Lemma uf2_disk_transfer_witness :
  wp (host_writes kc ops) (λ rc w', rc = 0 ∧ uf2_disk_is_complete w'.1 = true) (λ _, True)
    (demo_disk, world).
Proof.
  eapply wp_mono.
  - apply (uf2_disk_transfer kc demo_disk demo_disk_ok file (λ _, 0%nat) ops world demo_file_ok world_ok
             eq_refl demo_ops_ok).
  - intros rc w' (H1 & H2 & _). split; [exact H1|]. apply H2. exact demo_ops_cover.
  - exact (λ _ H, H).
Defined.

Lemma uf2_transfer_correct_witness :
  wp (uf2_deliver (disk_cfg kc demo_disk) (uf2_init 16) [blk 0x1008 1; blk 0x1000 0; blk 0x1008 1] 16)
    (λ '(rc, st) _, rc = 0 ∧ uf2_is_complete st = true) (λ _, True) (demo_disk, world).
Proof.
  eapply wp_mono.
  - apply (uf2_transfer_correct (disk_cfg kc demo_disk) (disk_cfg_wf kc demo_disk demo_disk_ok)
             (ctx_NoDup kc demo_disk demo_disk_ok) file (λ _, 0%nat) 16 demo_file_ok).
    + split; [by split_and!|exact world_ok].
    + intros b Hb. left. unfold file. rewrite !elem_of_cons in Hb. rewrite !elem_of_cons. tauto.
  - intros [rc st] w' (H1 & H2 & _). split; [exact H1|]. apply H2.
    intros b. unfold file. rewrite !elem_of_cons. tauto.
  - exact (λ _ H, H).
Defined.

End DemoRun.
