(* ===== verification/BootConfig.v ===== *)
(** * Build configuration and constants of bootutil

    The preprocessor options the boot code depends on, as a class: the upgrade
    mode, the trailer alignment, the sizes and the flash area identifiers.  Image
    encryption is off in every configuration. *)

From S2P Require Import Prelude Effects FlashMap.

(** ** Options *)

(** The upgrade modes; bootutil_priv.h allows one of them. *)
Inductive boot_mode :=
| SWAP_USING_OFFSET
| SWAP_USING_MOVE
| SWAP_USING_SCRATCH
| OVERWRITE_ONLY
| DIRECT_XIP
| RAM_LOAD
| SINGLE_APPLICATION_SLOT
| FIRMWARE_LOADER
| SINGLE_APPLICATION_SLOT_RAM_LOAD.

#[export] Instance boot_mode_eq_dec : EqDecision boot_mode.
Proof. solve_decision. Defined.

Class BootConfig := {
  MCUBOOT_MODE : boot_mode;
  BOOT_MAX_ALIGN : Z;
  MCUBOOT_MAX_IMG_SECTORS : Z;
  BOOT_IMAGE_NUMBER : Z;
  MCUBOOT_LOGICAL_SECTOR_SIZE : Z;   (* 0 when not defined *)
  MCUBOOT_MINIMAL_SCRAMBLE : bool;
  MCUBOOT_VALIDATE_PRIMARY_SLOT : bool;
  device_requires_erase : flash_area → bool;
  FLASH_AREA_IMAGE_PRIMARY : Z → Z;
  FLASH_AREA_IMAGE_SECONDARY : Z → Z;
  FLASH_AREA_IMAGE_SCRATCH : Z;
}.

(** [defined(MCUBOOT_SWAP_USING_OFFSET)] and the like. *)
Definition uses `{BootConfig} (m : boot_mode) : bool := bool_decide (MCUBOOT_MODE = m).

(** The static assertion on [MCUBOOT_BOOT_MAX_ALIGN], and the ranges of the
    other numbers. *)
Class BootConfigOk `{BootConfig} := {
  bc_align : ∃ k, 3 <= k <= 5 ∧ BOOT_MAX_ALIGN = 2 ^ k;
  bc_sectors : 0 < MCUBOOT_MAX_IMG_SECTORS < 65536;
  bc_images : 0 < BOOT_IMAGE_NUMBER < 15;
}.

(** ** bootutil_public.h *)

Definition BOOT_SWAP_TYPE_NONE : Z := 1.
Definition BOOT_SWAP_TYPE_TEST : Z := 2.
Definition BOOT_SWAP_TYPE_PERM : Z := 3.
Definition BOOT_SWAP_TYPE_REVERT : Z := 4.
Definition BOOT_SWAP_TYPE_FAIL : Z := 5.
Definition BOOT_SWAP_TYPE_PANIC : Z := 255.

Definition BOOT_MAGIC_SZ : Z := 16.
Definition BOOT_MAGIC_GOOD : Z := 1.
Definition BOOT_MAGIC_BAD : Z := 2.
Definition BOOT_MAGIC_UNSET : Z := 3.
Definition BOOT_MAGIC_ANY : Z := 4.
Definition BOOT_MAGIC_NOTGOOD : Z := 5.

Definition BOOT_FLAG_SET : Z := 1.
Definition BOOT_FLAG_BAD : Z := 2.
Definition BOOT_FLAG_UNSET : Z := 3.
Definition BOOT_FLAG_ANY : Z := 4.

Definition BOOT_EFLASH : Z := 1.
Definition BOOT_EFILE : Z := 2.
Definition BOOT_EBADIMAGE : Z := 3.
Definition BOOT_EBADVECT : Z := 4.
Definition BOOT_EBADSTATUS : Z := 5.
Definition BOOT_ENOMEM : Z := 6.
Definition BOOT_EBADARGS : Z := 7.
Definition BOOT_EBADVERSION : Z := 8.
Definition BOOT_EFLASH_SEC : Z := 9.

Definition BOOT_SLOT_PRIMARY : Z := 0.
Definition BOOT_SLOT_SECONDARY : Z := 1.

Section Config.
  Context `{BootConfig}.

Definition BOOT_MAGIC_ALIGN_SIZE : Z := ALIGN_UP BOOT_MAGIC_SZ BOOT_MAX_ALIGN.

(** ** bootutil_area.h *)

Definition BOOT_STATUS_MOVE_STATE_COUNT : Z := 1.
Definition BOOT_STATUS_SWAP_STATE_COUNT : Z := 2.
Definition BOOT_STATUS_STATE_COUNT : Z :=
  if uses SWAP_USING_MOVE then BOOT_STATUS_MOVE_STATE_COUNT + BOOT_STATUS_SWAP_STATE_COUNT
  else if uses SWAP_USING_OFFSET then BOOT_STATUS_SWAP_STATE_COUNT
  else 3.
Definition BOOT_MAX_IMG_SECTORS : Z := MCUBOOT_MAX_IMG_SECTORS.
Definition BOOT_STATUS_MAX_ENTRIES : Z := BOOT_MAX_IMG_SECTORS.

(** ** The image magic *)

(** [boot_img_magic] of bootutil_public.c: fixed for the default alignment,
    otherwise led by the alignment. *)
Definition BOOT_IMG_MAGIC : list Z :=
  if BOOT_MAX_ALIGN =? 8 then
    [0x77; 0xc2; 0x95; 0xf3; 0x60; 0xd2; 0xef; 0x7f;
     0x35; 0x52; 0x50; 0x0f; 0x2c; 0xb6; 0x79; 0x80]
  else
    le_enc 2 BOOT_MAX_ALIGN ++
    [0x2d; 0xe1; 0x5d; 0x29; 0x41; 0x0b; 0x8d; 0x77; 0x67; 0x9c; 0x11; 0x0f; 0x1f; 0x8a].

Lemma zlen_magic : zlen BOOT_IMG_MAGIC = BOOT_MAGIC_SZ.
Proof. unfold BOOT_IMG_MAGIC. by destruct (BOOT_MAX_ALIGN =? 8). Qed.

Lemma magic_bytes : Forall is_u8 BOOT_IMG_MAGIC.
Proof.
  unfold BOOT_IMG_MAGIC, is_u8. destruct (BOOT_MAX_ALIGN =? 8).
  - repeat (constructor; [lia|]). constructor.
  - apply Forall_app. split; [apply (le_enc_bytes 2)|]. repeat (constructor; [lia|]). constructor.
Qed.

(** The magic is never taken for erased flash. *)
Lemma magic_not_erased ev : Exists (λ b, b ≠ ev) BOOT_IMG_MAGIC.
Proof.
  unfold BOOT_IMG_MAGIC. destruct (BOOT_MAX_ALIGN =? 8).
  - destruct (decide (ev = 0x77)); [apply Exists_cons_tl|]; apply Exists_cons_hd; lia.
  - apply Exists_app. right. destruct (decide (ev = 0x2d)); [apply Exists_cons_tl|]; apply Exists_cons_hd; lia.
Qed.

End Config.

(** The alignment by cases. *)
Lemma max_align_cases `{BootConfigOk} : BOOT_MAX_ALIGN = 8 ∨ BOOT_MAX_ALIGN = 16 ∨ BOOT_MAX_ALIGN = 32.
Proof.
  destruct bc_align as (k & Hk & ->).
  assert (k = 3 ∨ k = 4 ∨ k = 5) as [-> | [-> | ->]] by lia; lia.
Qed.

Lemma magic_align_size `{BootConfigOk} : BOOT_MAGIC_ALIGN_SIZE = Z.max 16 BOOT_MAX_ALIGN.
Proof.
  unfold BOOT_MAGIC_ALIGN_SIZE. destruct max_align_cases as [-> | [-> | ->]]; reflexivity.
Qed.
