(* ===== verification/Trailer.v ===== *)
(** * The image trailer

    The trailer at the end of a slot (bootutil_misc.h, bootutil_misc.c,
    bootutil_public.c): offsets of its fields, reading the swap state, and the
    writers of the individual fields. *)

From S2P Require Import Prelude Effects FlashMap BootConfig.

(** A function with a result parameter returns an error code or the result, as
    a sum. *)

Record boot_swap_state := SwapState {
  magic : Z;
  swap_type : Z;
  copy_done : Z;
  image_ok : Z;
  image_num : Z;
}.

(** ** Sizes (bootutil_area.c) *)

Section Sizes.
  Context `{BootConfig}.

Definition boot_trailer_info_sz : Z :=
  BOOT_MAX_ALIGN ⊗ 4 ⊕ (if uses SWAP_USING_OFFSET then BOOT_MAX_ALIGN else 0)
  ⊕ BOOT_MAGIC_ALIGN_SIZE.

Definition boot_status_entry_sz (min_write_sz : Z) : Z :=
  if uses SINGLE_APPLICATION_SLOT || uses FIRMWARE_LOADER || uses SINGLE_APPLICATION_SLOT_RAM_LOAD then 0
  else BOOT_STATUS_STATE_COUNT ⊗ min_write_sz.

Definition boot_status_sz (min_write_sz : Z) : Z :=
  BOOT_STATUS_MAX_ENTRIES ⊗ boot_status_entry_sz min_write_sz.

Definition boot_trailer_sz (min_write_sz : Z) : Z :=
  boot_status_sz min_write_sz ⊕ boot_trailer_info_sz.

Definition boot_scratch_trailer_sz (min_write_sz : Z) : Z :=
  boot_status_entry_sz min_write_sz ⊕ boot_trailer_info_sz.

(** ** Offsets (bootutil_misc.h, bootutil_public.c) *)

Definition boot_magic_off (fap : flash_area) : Z := fa_size fap ⊖ BOOT_MAGIC_SZ.

Definition boot_image_ok_off (fap : flash_area) : Z :=
  ALIGN_DOWN (boot_magic_off fap ⊖ BOOT_MAX_ALIGN) BOOT_MAX_ALIGN.

Definition boot_copy_done_off (fap : flash_area) : Z := boot_image_ok_off fap ⊖ BOOT_MAX_ALIGN.

Definition boot_swap_info_off (fap : flash_area) : Z := boot_copy_done_off fap ⊖ BOOT_MAX_ALIGN.

Definition boot_unprotected_tlv_sizes_off (fap : flash_area) : Z :=
  boot_swap_info_off fap ⊖ BOOT_MAX_ALIGN.

Definition boot_swap_size_off (fap : flash_area) : Z :=
  if uses SWAP_USING_OFFSET then boot_unprotected_tlv_sizes_off fap ⊖ BOOT_MAX_ALIGN
  else boot_swap_info_off fap ⊖ BOOT_MAX_ALIGN.

End Sizes.

(** ** Decoding fields *)

Definition boot_flag_decode (flag : Z) : Z :=
  if negb (flag =? BOOT_FLAG_SET) then BOOT_FLAG_BAD else BOOT_FLAG_SET.

Definition boot_magic_decode `{BootConfig} (m : list Z) : Z :=
  if bool_decide (m = BOOT_IMG_MAGIC) then BOOT_MAGIC_GOOD else BOOT_MAGIC_BAD.

Definition BOOT_GET_SWAP_TYPE (swap_info : Z) : Z := Z.land swap_info 0x0F.
Definition BOOT_GET_IMAGE_NUM (swap_info : Z) : Z := Z.shiftr swap_info 4.

Section Trailer.
  Context {W : Type} `{FlashMap W} `{BootConfig}.

(** The loop over the buffer is a conjunction over its bytes. *)
Definition bootutil_buffer_is_erased (area : flash_area) (buffer : list Z) : bool :=
  if zlen buffer =? 0 then false
  else forallb (λ b, b =? flash_area_erased_val area) buffer.

(** ** Reading *)

Definition boot_read_flag (fap : flash_area) (off : Z) : M W (Z + Z) :=
  '(rc, flag) ← flash_area_read fap off 1;
  if rc <? 0 then mret (inl BOOT_EFLASH)
  else if bootutil_buffer_is_erased fap flag then mret (inr BOOT_FLAG_UNSET)
  else mret (inr (boot_flag_decode (le_dec flag))).

Definition boot_read_copy_done (fap : flash_area) : M W (Z + Z) :=
  boot_read_flag fap (boot_copy_done_off fap).

Definition boot_read_image_ok (fap : flash_area) : M W (Z + Z) :=
  boot_read_flag fap (boot_image_ok_off fap).

Definition boot_read_swap_state (fap : flash_area) : M W (Z + boot_swap_state) :=
  '(rc, mag) ← flash_area_read fap (boot_magic_off fap) BOOT_MAGIC_SZ;
  if rc <? 0 then mret (inl BOOT_EFLASH) else
  let mg := if bootutil_buffer_is_erased fap mag then BOOT_MAGIC_UNSET
            else boot_magic_decode mag in
  '(rc, info) ← flash_area_read fap (boot_swap_info_off fap) 1;
  if rc <? 0 then mret (inl BOOT_EFLASH) else
  let st := BOOT_GET_SWAP_TYPE (le_dec info) in
  let num := BOOT_GET_IMAGE_NUM (le_dec info) in
  let reset := bootutil_buffer_is_erased fap info || (BOOT_SWAP_TYPE_REVERT <? st) in
  let st := if reset then BOOT_SWAP_TYPE_NONE else st in
  let num := if reset then 0 else num in
  cd ← boot_read_copy_done fap;
  match cd with
  | inl _ => mret (inl BOOT_EFLASH)
  | inr cd =>
      ok ← boot_read_image_ok fap;
      match ok with
      | inl rc => mret (inl rc)
      | inr ok => mret (inr (SwapState mg st cd ok num))
      end
  end.

Definition boot_read_swap_state_by_id (flash_area_id : Z) : M W (Z + boot_swap_state) :=
  '(rc, fap) ← flash_area_open flash_area_id;
  if negb (rc =? 0) then mret (inl BOOT_EFLASH)
  else boot_read_swap_state fap.

(** ** Writing *)

Definition boot_write_magic (fap : flash_area) : M W Z :=
  let off := boot_magic_off fap in
  let pad_off := ALIGN_DOWN off BOOT_MAX_ALIGN in
  let erased_val := flash_area_erased_val fap in
  let mag := splice (replicate (Z.to_nat BOOT_MAGIC_ALIGN_SIZE) erased_val)
               (BOOT_MAGIC_ALIGN_SIZE - BOOT_MAGIC_SZ) BOOT_IMG_MAGIC in
  rc ← flash_area_write fap pad_off mag;
  if negb (rc =? 0) then mret BOOT_EFLASH else mret 0.

Definition boot_write_trailer (fap : flash_area) (off : Z) (inbuf : list Z) : M W Z :=
  let inlen := zlen inbuf in
  let align := ALIGN_UP inlen (flash_area_align fap) in
  if BOOT_MAX_ALIGN <? align then abort
  else
    let buf := inbuf ++ replicate (Z.to_nat (align - inlen)) (flash_area_erased_val fap) in
    rc ← flash_area_write fap off buf;
    if negb (rc =? 0) then mret BOOT_EFLASH else mret 0.

Definition boot_write_trailer_flag (fap : flash_area) (off flag_val : Z) : M W Z :=
  boot_write_trailer fap off [flag_val].

Definition boot_write_image_ok (fap : flash_area) : M W Z :=
  boot_write_trailer_flag fap (boot_image_ok_off fap) BOOT_FLAG_SET.

Definition boot_write_copy_done (fap : flash_area) : M W Z :=
  boot_write_trailer_flag fap (boot_copy_done_off fap) BOOT_FLAG_SET.

Definition BOOT_SET_SWAP_INFO (image type : Z) : M W Z :=
  assert (image <? 0xF);;
  assert (type <? 0xF);;
  mret (u8 (Z.lor (Z.shiftl image 4) type)).

Definition boot_write_swap_info (fap : flash_area) (swap_type image_num : Z) : M W Z :=
  swap_info ← BOOT_SET_SWAP_INFO image_num swap_type;
  boot_write_trailer fap (boot_swap_info_off fap) [swap_info].

(** ** Swap size, TLV sizes and status bytes (bootutil_misc.c) *)

Definition boot_read_swap_size (fap : flash_area) : M W (Z * Z) :=
  '(rc, b) ← flash_area_read fap (boot_swap_size_off fap) 4;
  mret (rc, le_dec b).

Definition boot_write_swap_size (fap : flash_area) (swap_size : Z) : M W Z :=
  boot_write_trailer fap (boot_swap_size_off fap) (le_enc 4 swap_size).

Definition boot_read_unprotected_tlv_sizes (fap : flash_area) : M W (Z + Z * Z) :=
  '(rc, b) ← flash_area_read fap (boot_unprotected_tlv_sizes_off fap) 4;
  let combined_tlv_sizes := le_dec b in
  if rc =? 0 then
    mret (inr (u16 (Z.land combined_tlv_sizes 0xffff),
               u16 (Z.shiftr (Z.land combined_tlv_sizes 0xffff0000) 16)))
  else mret (inl rc).

Definition boot_write_unprotected_tlv_sizes (fap : flash_area) (tlv_size_primary tlv_size_secondary : Z)
  : M W Z :=
  let tlv_sizes_combined := Z.lor (u32 (Z.shiftl tlv_size_secondary 16)) tlv_size_primary in
  boot_write_trailer fap (boot_unprotected_tlv_sizes_off fap) (le_enc 4 tlv_sizes_combined).

Definition boot_status_entries (image_index : Z) (fap : flash_area) : Z :=
  if uses SWAP_USING_SCRATCH && (fa_id fap =? FLASH_AREA_IMAGE_SCRATCH) then
    BOOT_STATUS_STATE_COUNT
  else if (fa_id fap =? FLASH_AREA_IMAGE_PRIMARY image_index)
       || (fa_id fap =? FLASH_AREA_IMAGE_SECONDARY image_index) then
    BOOT_STATUS_STATE_COUNT * BOOT_STATUS_MAX_ENTRIES
  else -1.

Definition boot_status_off (fap : flash_area) : M W Z :=
  let elem_sz := flash_area_align fap in
  let off_from_end :=
    if uses SWAP_USING_SCRATCH && (fa_id fap =? FLASH_AREA_IMAGE_SCRATCH)
    then boot_scratch_trailer_sz elem_sz else boot_trailer_sz elem_sz in
  assert (off_from_end <=? fa_size fap);;
  mret (fa_size fap ⊖ off_from_end).

End Trailer.
