(* ===== verification/TrailerProps.v ===== *)
(** * The trailer: layout and field updates

    The fields tile the end of the slot; reading the swap state decodes them; each
    writer changes its own field and nothing else. *)

From S2P Require Import Prelude Effects FlashMap BootConfig Trailer.

#[local] Set Default Proof Using "Type*".

Section TrailerProps.
  Context {W : Type} `{FlashMapOk W} `{BootConfigOk}.
  Implicit Types (fa : flash_area) (w : W) (b : list Z).

(** An area that holds a trailer: whole trailer units, a write unit within
    [BOOT_MAX_ALIGN], room for the trailer, and an erased value of [0x00] or
    [0xff]. *)
Record trailer_area fa : Prop := {
  ta_area : fm_area fa;
  ta_size : fa_size fa mod BOOT_MAX_ALIGN = 0;
  ta_align : flash_area_align fa <= BOOT_MAX_ALIGN;
  ta_fit : boot_trailer_sz (flash_area_align fa) <= fa_size fa;
  ta_ev : flash_area_erased_val fa = 0 ∨ flash_area_erased_val fa = 255;
}.

(** ** Sizes without wrap-around *)

Lemma state_count_bounds : 0 <= BOOT_STATUS_STATE_COUNT <= 3.
Proof.
  unfold BOOT_STATUS_STATE_COUNT, BOOT_STATUS_MOVE_STATE_COUNT, BOOT_STATUS_SWAP_STATE_COUNT.
  destruct (uses SWAP_USING_MOVE), (uses SWAP_USING_OFFSET); lia.
Qed.

Lemma trailer_info_sz_eq :
  boot_trailer_info_sz =
    (if uses SWAP_USING_OFFSET then 5 else 4) * BOOT_MAX_ALIGN + Z.max 16 BOOT_MAX_ALIGN.
Proof.
  unfold boot_trailer_info_sz. rewrite magic_align_size.
  destruct max_align_cases as [-> | [-> | ->]], (uses SWAP_USING_OFFSET); reflexivity.
Qed.

Lemma status_entry_sz_bounds a :
  0 <= a <= 32 → 0 <= boot_status_entry_sz a <= 96.
Proof.
  intros Ha. pose proof state_count_bounds. unfold boot_status_entry_sz.
  destruct (uses SINGLE_APPLICATION_SLOT || uses FIRMWARE_LOADER || uses SINGLE_APPLICATION_SLOT_RAM_LOAD); [lia|].
  rewrite u32_small; [nia|]. unfold is_u32. nia.
Qed.

Lemma status_sz_eq a :
  0 <= a <= 32 →
  boot_status_sz a = MCUBOOT_MAX_IMG_SECTORS * boot_status_entry_sz a ∧
  0 <= boot_status_sz a < 6291456.
Proof.
  intros Ha. pose proof (status_entry_sz_bounds a Ha). pose proof bc_sectors.
  unfold boot_status_sz, BOOT_STATUS_MAX_ENTRIES, BOOT_MAX_IMG_SECTORS.
  rewrite u32_small; [split; [done|nia]|]. unfold is_u32. nia.
Qed.

Lemma trailer_sz_eq a :
  0 <= a <= 32 → boot_trailer_sz a = boot_status_sz a + boot_trailer_info_sz.
Proof.
  intros Ha. pose proof (status_sz_eq a Ha) as [_ ?]. unfold boot_trailer_sz.
  apply u32_small. unfold is_u32. rewrite trailer_info_sz_eq.
  destruct max_align_cases as [-> | [-> | ->]], (uses SWAP_USING_OFFSET); lia.
Qed.

Lemma ta_align_bounds fa : fm_area fa → 1 <= flash_area_align fa <= 32.
Proof.
  intros Ha. destruct (fm_align fa Ha) as (k & Hk & ->).
  assert (2 ^ 0 <= 2 ^ k <= 2 ^ 5) by (split; apply Z.pow_le_mono_r; lia). lia.
Qed.

Lemma ta_info_fits fa : trailer_area fa → boot_trailer_info_sz <= fa_size fa.
Proof.
  intros Hta. pose proof (ta_align_bounds fa (ta_area _ Hta)). pose proof (ta_fit _ Hta) as Hf.
  rewrite trailer_sz_eq in Hf by lia.
  pose proof (status_sz_eq (flash_area_align fa)). lia.
Qed.

(** ** Offsets in closed form *)

(** The [n]-th unit below the magic. *)
Definition fld fa (n : Z) : Z := fa_size fa - Z.max 16 BOOT_MAX_ALIGN - n * BOOT_MAX_ALIGN.

Definition swap_size_fld : Z := if uses SWAP_USING_OFFSET then 5 else 4.

Lemma swap_size_fld_ge : 4 <= swap_size_fld <= 5.
Proof. unfold swap_size_fld. destruct (uses SWAP_USING_OFFSET); lia. Qed.

Lemma fld_bounds fa n :
  trailer_area fa → 0 <= n <= swap_size_fld →
  0 <= fld fa n ∧ fld fa n <= fa_size fa - 16 ∧ fld fa n mod BOOT_MAX_ALIGN = 0.
Proof.
  intros Hta Hn. pose proof (ta_info_fits fa Hta) as Hi. rewrite trailer_info_sz_eq in Hi.
  pose proof (ta_size _ Hta) as Hs. unfold fld, swap_size_fld in *.
  destruct max_align_cases as [Ha | [Ha | Ha]]; rewrite Ha in *;
    destruct (uses SWAP_USING_OFFSET); split_and!; lia.
Qed.

Lemma ta_size_u32 fa : trailer_area fa → 0 <= fa_size fa < 2147483648.
Proof. intros Hta. destruct (fm_bounds fa (ta_area _ Hta)) as (? & ? & ?). lia. Qed.

Lemma magic_off_eq fa : trailer_area fa → boot_magic_off fa = fa_size fa - 16.
Proof.
  intros Hta. pose proof (fld_bounds fa 0 Hta) as Hb. pose proof (ta_size_u32 fa Hta).
  unfold boot_magic_off, BOOT_MAGIC_SZ. apply u32_small. unfold is_u32.
  unfold swap_size_fld in Hb. destruct (uses SWAP_USING_OFFSET); lia.
Qed.

Lemma align_down_max x : is_u32 x → ALIGN_DOWN x BOOT_MAX_ALIGN = x - x mod BOOT_MAX_ALIGN.
Proof.
  intros Hx. destruct bc_align as (k & Hk & ->). rewrite ALIGN_DOWN_pow2 by (done || lia).
  assert (0 < 2 ^ k) by (apply Z.pow_pos_nonneg; lia). pose proof (Z.div_mod x (2 ^ k)). lia.
Qed.

Lemma image_ok_off_eq fa : trailer_area fa → boot_image_ok_off fa = fld fa 1.
Proof.
  intros Hta. unfold boot_image_ok_off. rewrite magic_off_eq by done.
  pose proof (fld_bounds fa 1 Hta) as Hb. pose proof (ta_size_u32 fa Hta). pose proof (ta_size _ Hta).
  assert (Hb' := Hb ltac:(unfold swap_size_fld; destruct (uses SWAP_USING_OFFSET); lia)).
  clear Hb. unfold fld in *.
  rewrite (u32_small (fa_size fa - 16 - BOOT_MAX_ALIGN)) by (unfold is_u32; lia).
  rewrite align_down_max by (unfold is_u32; lia).
  destruct max_align_cases as [Ha | [Ha | Ha]]; rewrite Ha in *; lia.
Qed.

Lemma magic_pad_off_eq fa : trailer_area fa → ALIGN_DOWN (boot_magic_off fa) BOOT_MAX_ALIGN = fld fa 0.
Proof.
  intros Hta. rewrite magic_off_eq by done. pose proof swap_size_fld_ge.
  pose proof (fld_bounds fa 0 Hta ltac:(lia)). pose proof (ta_size_u32 fa Hta). pose proof (ta_size _ Hta).
  rewrite align_down_max by (unfold is_u32; lia). unfold fld.
  destruct max_align_cases as [Ha | [Ha | Ha]]; rewrite Ha in *; lia.
Qed.

Lemma fld_step fa n :
  trailer_area fa → 0 <= n < swap_size_fld → fld fa n ⊖ BOOT_MAX_ALIGN = fld fa (n + 1).
Proof.
  intros Hta Hn. pose proof (fld_bounds fa (n + 1) Hta ltac:(lia)). pose proof (ta_size_u32 fa Hta).
  replace (fld fa n - BOOT_MAX_ALIGN) with (fld fa (n + 1)) by (unfold fld; lia).
  apply u32_small. unfold is_u32. lia.
Qed.

Lemma copy_done_off_eq fa : trailer_area fa → boot_copy_done_off fa = fld fa 2.
Proof.
  intros Hta. pose proof swap_size_fld_ge. unfold boot_copy_done_off.
  rewrite image_ok_off_eq by done. by apply fld_step; [|lia].
Qed.

Lemma swap_info_off_eq fa : trailer_area fa → boot_swap_info_off fa = fld fa 3.
Proof.
  intros Hta. pose proof swap_size_fld_ge. unfold boot_swap_info_off.
  rewrite copy_done_off_eq by done. by apply fld_step; [|lia].
Qed.

Lemma tlv_sizes_off_eq fa : trailer_area fa → boot_unprotected_tlv_sizes_off fa = fld fa 4.
Proof.
  intros Hta. pose proof swap_size_fld_ge. unfold boot_unprotected_tlv_sizes_off.
  rewrite swap_info_off_eq by done. by apply fld_step; [|lia].
Qed.

Lemma swap_size_off_eq fa : trailer_area fa → boot_swap_size_off fa = fld fa swap_size_fld.
Proof.
  intros Hta. unfold boot_swap_size_off, swap_size_fld. destruct (uses SWAP_USING_OFFSET) eqn:Hu.
  - rewrite tlv_sizes_off_eq by done. apply fld_step; [done|]. unfold swap_size_fld. rewrite Hu. lia.
  - rewrite swap_info_off_eq by done. apply fld_step; [done|]. unfold swap_size_fld. rewrite Hu. lia.
Qed.

(** the trailer fields tile the end of the slot: the swap status bytes, the
    swap size, (with swap-using-offset) the TLV sizes, the swap info, the copy-done
    flag, the image-ok flag and the padded magic follow one another without gap or
    overlap up to the last byte of the area, and no offset computation wraps. *)
Theorem trailer_layout fa w :
  trailer_area fa → (uses SWAP_USING_SCRATCH && (fa_id fa =? FLASH_AREA_IMAGE_SCRATCH)) = false →
  ∃ so, boot_status_off fa w = (Ret so, w) ∧ 0 <= so ∧
    so + boot_status_sz (flash_area_align fa) = boot_swap_size_off fa ∧
    boot_swap_size_off fa + BOOT_MAX_ALIGN =
      (if uses SWAP_USING_OFFSET then boot_unprotected_tlv_sizes_off fa else boot_swap_info_off fa) ∧
    (uses SWAP_USING_OFFSET = true →
       boot_unprotected_tlv_sizes_off fa + BOOT_MAX_ALIGN = boot_swap_info_off fa) ∧
    boot_swap_info_off fa + BOOT_MAX_ALIGN = boot_copy_done_off fa ∧
    boot_copy_done_off fa + BOOT_MAX_ALIGN = boot_image_ok_off fa ∧
    boot_image_ok_off fa + BOOT_MAX_ALIGN = ALIGN_DOWN (boot_magic_off fa) BOOT_MAX_ALIGN ∧
    ALIGN_DOWN (boot_magic_off fa) BOOT_MAX_ALIGN + BOOT_MAGIC_ALIGN_SIZE = fa_size fa ∧
    boot_magic_off fa + BOOT_MAGIC_SZ = fa_size fa.
Proof.
  intros Hta Hscr. pose proof (ta_align_bounds fa (ta_area _ Hta)). pose proof (ta_size_u32 fa Hta).
  pose proof (ta_fit _ Hta) as Hfit. pose proof (status_sz_eq (flash_area_align fa) ltac:(lia)) as [_ ?].
  exists (fa_size fa - boot_trailer_sz (flash_area_align fa)).
  rewrite swap_size_off_eq, tlv_sizes_off_eq, swap_info_off_eq, copy_done_off_eq, image_ok_off_eq,
    magic_pad_off_eq, magic_off_eq, magic_align_size by done.
  assert (0 <= boot_trailer_info_sz).
  { rewrite trailer_info_sz_eq. destruct (uses SWAP_USING_OFFSET), max_align_cases as [-> | [-> | ->]]; lia. }
  split.
  { unfold boot_status_off. rewrite Hscr, (proj2 (Z.leb_le _ _)) by done. cbn.
    unfold mbind, M_bind, mret, M_ret. rewrite u32_small; [done|].
    unfold is_u32. rewrite trailer_sz_eq in * by lia. lia. }
  rewrite trailer_sz_eq in * by lia. rewrite trailer_info_sz_eq in *.
  unfold fld, swap_size_fld, BOOT_MAGIC_SZ. destruct (uses SWAP_USING_OFFSET); split_and!; lia.
Qed.

(** ** Reading *)

Definition decode_flag fa (f : list Z) : Z :=
  if bootutil_buffer_is_erased fa f then BOOT_FLAG_UNSET else boot_flag_decode (le_dec f).
Definition decode_magic fa (m : list Z) : Z :=
  if bootutil_buffer_is_erased fa m then BOOT_MAGIC_UNSET else boot_magic_decode m.
Definition decode_info fa (i : list Z) : Z * Z :=
  if bootutil_buffer_is_erased fa i || (BOOT_SWAP_TYPE_REVERT <? BOOT_GET_SWAP_TYPE (le_dec i))
  then (BOOT_SWAP_TYPE_NONE, 0)
  else (BOOT_GET_SWAP_TYPE (le_dec i), BOOT_GET_IMAGE_NUM (le_dec i)).

(** The swap state held by the bytes of an area. *)
Definition trailer_state fa b : boot_swap_state :=
  let info := decode_info fa (slice b (fld fa 3) 1) in
  SwapState (decode_magic fa (slice b (fa_size fa - 16) 16)) (fst info)
    (decode_flag fa (slice b (fld fa 2) 1)) (decode_flag fa (slice b (fld fa 1) 1)) (snd info).

(** The swap state of an area of the device. *)
Definition area_state w fa : boot_swap_state := trailer_state fa (vals (fm_cells w fa)).

Lemma fld_byte fa n :
  trailer_area fa → 0 <= n <= 3 → 0 <= fld fa n ∧ fld fa n + 1 <= fa_size fa.
Proof.
  intros Hta Hn. pose proof swap_size_fld_ge. pose proof (fld_bounds fa n Hta ltac:(lia)). lia.
Qed.

Lemma read_flag_eq w fa n :
  fm_ok w → trailer_area fa → 0 <= n <= 3 →
  boot_read_flag fa (fld fa n) w =
    (Ret (inr (decode_flag fa (slice (vals (fm_cells w fa)) (fld fa n) 1))), w).
Proof.
  intros Hok Hta Hn. pose proof (fld_byte fa n Hta Hn). unfold boot_read_flag.
  erewrite bind_ret by (apply fm_read; [done|apply Hta|lia..]). cbn [Z.ltb Z.compare].
  unfold decode_flag. by destruct (bootutil_buffer_is_erased _ _).
Qed.

Lemma read_swap_state_eq w fa :
  fm_ok w → trailer_area fa → boot_read_swap_state fa w = (Ret (inr (area_state w fa)), w).
Proof.
  intros Hok Hta. pose proof swap_size_fld_ge. pose proof (fld_bounds fa 0 Hta ltac:(lia)).
  pose proof (fld_byte fa 3 Hta ltac:(lia)). unfold boot_read_swap_state, boot_read_copy_done, boot_read_image_ok.
  rewrite magic_off_eq, swap_info_off_eq, copy_done_off_eq, image_ok_off_eq by done.
  erewrite bind_ret by (apply fm_read; [done|apply Hta|unfold BOOT_MAGIC_SZ; lia..]). cbn [Z.ltb Z.compare].
  erewrite bind_ret by (apply fm_read; [done|apply Hta|lia..]). cbn [Z.ltb Z.compare].
  erewrite bind_ret by (apply read_flag_eq; [done|done|lia]). cbn beta iota.
  erewrite bind_ret by (apply read_flag_eq; [done|done|lia]). cbn beta iota.
  unfold mret, M_ret, area_state, trailer_state, decode_info.
  by destruct (bootutil_buffer_is_erased fa (slice _ (fld fa 3) 1) || _).
Qed.

(** ** Writing *)

(** A range that may be written: fresh, or on a device without erase. *)
Definition writable w fa (off len : Z) : Prop :=
  fm_rewritable fa ∨ all_fresh (slice (fm_cells w fa) off len).

(** [d] has been written at [off] of [fa], and nothing else changed. *)
Definition wrote fa (off : Z) (d : list Z) w w' : Prop :=
  fm_ok w' ∧ fm_cells w' fa = splice (fm_cells w fa) off (written d) ∧
  ∀ fa', fm_area fa' → fa' ≠ fa → fm_cells w' fa' = fm_cells w fa'.

(** The same contents everywhere. *)
Definition same_flash w w' : Prop :=
  fm_ok w' ∧ ∀ fa', fm_area fa' → fm_cells w' fa' = fm_cells w fa'.

(** What is written for a field value: the value padded to the write unit. *)
Definition padded fa (d : list Z) : list Z :=
  d ++ replicate (Z.to_nat (ALIGN_UP (zlen d) (flash_area_align fa) - zlen d)) (flash_area_erased_val fa).

Lemma align_up_len fa n :
  trailer_area fa → 0 < n <= 8 →
  n <= ALIGN_UP n (flash_area_align fa) <= BOOT_MAX_ALIGN ∧
  ALIGN_UP n (flash_area_align fa) mod flash_area_align fa = 0.
Proof.
  intros Hta Hn. destruct (fm_align fa (ta_area _ Hta)) as (k & Hk & Ha).
  pose proof (ta_align _ Hta) as Hle. rewrite Ha in *.
  assert (0 < 2 ^ k <= 32) by (split; [apply Z.pow_pos_nonneg; lia|];
    apply (Z.pow_le_mono_r 2 k 5); lia).
  rewrite ALIGN_UP_pow2 by lia.
  assert (k = 0 ∨ k = 1 ∨ k = 2 ∨ k = 3 ∨ k = 4 ∨ k = 5) as Hc by lia.
  destruct max_align_cases as [Hm | [Hm | Hm]]; rewrite Hm in *;
    destruct Hc as [-> | [-> | [-> | [-> | [-> | ->]]]]]; cbn in *; lia.
Qed.

Lemma zlen_padded fa d :
  trailer_area fa → 0 < zlen d <= 8 →
  zlen d <= zlen (padded fa d) <= BOOT_MAX_ALIGN ∧ zlen (padded fa d) mod flash_area_align fa = 0.
Proof.
  intros Hta Hd. pose proof (align_up_len fa (zlen d) Hta Hd).
  unfold padded. rewrite zlen_app, zlen_replicate. replace (zlen d + _) with (ALIGN_UP (zlen d) (flash_area_align fa)); lia.
Qed.

Lemma unit_aligned fa off :
  trailer_area fa → off mod BOOT_MAX_ALIGN = 0 → off mod flash_area_align fa = 0.
Proof.
  intros Hta Ho. destruct (fm_align fa (ta_area _ Hta)) as (k & Hk & Ha).
  pose proof (ta_align _ Hta) as Hle. rewrite Ha in *.
  destruct bc_align as (m & Hm & HA). rewrite HA in *.
  assert (k <= m) by (destruct (Z.le_gt_cases k m); [done|]; pose proof (Z.pow_lt_mono_r 2 m k); lia).
  apply Z.mod_divide; [pose proof (Z.pow_pos_nonneg 2 k); lia|].
  apply Z.divide_trans with (2 ^ m).
  - exists (2 ^ (m - k)). rewrite <- Z.pow_add_r by lia. f_equal. lia.
  - apply Z.mod_divide; [pose proof (Z.pow_pos_nonneg 2 m); lia|done].
Qed.

Lemma padded_bytes fa d : trailer_area fa → Forall is_u8 d → Forall is_u8 (padded fa d).
Proof.
  intros Hta Hd. apply Forall_app. split; [done|]. apply Forall_replicate_is_u8.
  apply fm_erased_val, Hta.
Qed.

Lemma write_trailer_wp w fa off d :
  fm_ok w → trailer_area fa → 0 <= off → off mod BOOT_MAX_ALIGN = 0 →
  off + BOOT_MAX_ALIGN <= fa_size fa → 0 < zlen d <= 8 → Forall is_u8 d →
  writable w fa off (zlen (padded fa d)) →
  wp (boot_write_trailer fa off d) (λ rc w', rc = 0 ∧ wrote fa off (padded fa d) w w')
     (λ w', wrote fa off (padded fa d) w w' ∨ same_flash w w') w.
Proof.
  intros Hok Hta Ho Hm Hend Hd Hby Hwr. pose proof (zlen_padded fa d Hta Hd) as [Hle Hmod].
  pose proof (align_up_len fa (zlen d) Hta Hd). unfold boot_write_trailer.
  rewrite (proj2 (Z.ltb_ge _ _)) by lia. fold (padded fa d).
  wp_step fm_write; try done; try lia.
  - apply Hta.
  - by apply unit_aligned.
  - by apply padded_bytes.
  - intros rc w' (-> & Hdone). by apply wp_ret.
Qed.

(** ** Field updates *)

Inductive trailer_op :=
| WriteMagic
| WriteImageOk
| WriteCopyDone
| WriteSwapInfo (type num : Z).

Definition run_op (op : trailer_op) fa : M W Z :=
  match op with
  | WriteMagic => boot_write_magic fa
  | WriteImageOk => boot_write_image_ok fa
  | WriteCopyDone => boot_write_copy_done fa
  | WriteSwapInfo t n => boot_write_swap_info fa t n
  end.

(** The effect on the swap state. *)
Definition apply_op (op : trailer_op) (s : boot_swap_state) : boot_swap_state :=
  match op with
  | WriteMagic => SwapState BOOT_MAGIC_GOOD (swap_type s) (copy_done s) (image_ok s) (image_num s)
  | WriteImageOk => SwapState (magic s) (swap_type s) (copy_done s) BOOT_FLAG_SET (image_num s)
  | WriteCopyDone => SwapState (magic s) (swap_type s) BOOT_FLAG_SET (image_ok s) (image_num s)
  | WriteSwapInfo t n => SwapState (magic s) t (copy_done s) (image_ok s) n
  end.

Definition op_ok (op : trailer_op) : Prop :=
  match op with
  | WriteSwapInfo t n => 1 <= t <= BOOT_SWAP_TYPE_REVERT ∧ 0 <= n < 15
  | _ => True
  end.

(** The field of the operation: the unit below the magic, [0] for the magic. *)
Definition op_fld (op : trailer_op) : Z :=
  match op with WriteMagic => 0 | WriteImageOk => 1 | WriteCopyDone => 2 | WriteSwapInfo _ _ => 3 end.
Definition op_len (op : trailer_op) : Z :=
  match op with WriteMagic => Z.max 16 BOOT_MAX_ALIGN | _ => BOOT_MAX_ALIGN end.
Definition op_data (op : trailer_op) fa : list Z :=
  match op with
  | WriteMagic =>
      replicate (Z.to_nat (Z.max 16 BOOT_MAX_ALIGN - 16)) (flash_area_erased_val fa) ++ BOOT_IMG_MAGIC
  | WriteImageOk | WriteCopyDone => padded fa [BOOT_FLAG_SET]
  | WriteSwapInfo t n => padded fa [t + n * 16]
  end.

Lemma writable_sub w fa off n m :
  0 <= n <= m → writable w fa off m → writable w fa off n.
Proof.
  intros Hn [Hr|Hf]; [by left|right].
  replace (slice (fm_cells w fa) off n) with (slice (slice (fm_cells w fa) off m) 0 n).
  - by apply Forall_slice.
  - unfold slice. rewrite drop_0, take_take. f_equal. lia.
Qed.

Lemma write_magic_wp w fa :
  fm_ok w → trailer_area fa → writable w fa (fld fa 0) (Z.max 16 BOOT_MAX_ALIGN) →
  wp (boot_write_magic fa) (λ rc w', rc = 0 ∧ wrote fa (fld fa 0) (op_data WriteMagic fa) w w')
     (λ w', wrote fa (fld fa 0) (op_data WriteMagic fa) w w' ∨ same_flash w w') w.
Proof.
  intros Hok Hta Hwr. pose proof swap_size_fld_ge. destruct (fld_bounds fa 0 Hta ltac:(lia)) as (? & ? & ?).
  assert (Hdata : splice (replicate (Z.to_nat BOOT_MAGIC_ALIGN_SIZE) (flash_area_erased_val fa))
             (BOOT_MAGIC_ALIGN_SIZE - BOOT_MAGIC_SZ) BOOT_IMG_MAGIC = op_data WriteMagic fa).
  { cbn [op_data]. rewrite magic_align_size. unfold splice, BOOT_MAGIC_SZ. rewrite take_replicate, drop_ge.
    - rewrite app_nil_r. f_equal. f_equal. lia.
    - rewrite length_replicate. pose proof zlen_magic. unfold zlen, BOOT_MAGIC_SZ in *. lia. }
  assert (Hlen : zlen (op_data WriteMagic fa) = Z.max 16 BOOT_MAX_ALIGN).
  { cbn [op_data]. rewrite zlen_app, zlen_replicate, zlen_magic. unfold BOOT_MAGIC_SZ. lia. }
  unfold boot_write_magic. rewrite magic_pad_off_eq, Hdata by done.
  wp_step fm_write; rewrite ?Hlen; try done; try lia.
  - apply Hta.
  - unfold fld. lia.
  - by apply unit_aligned.
  - apply unit_aligned; [done|]. destruct max_align_cases as [Ha | [Ha | Ha]]; rewrite Ha; reflexivity.
  - cbn [op_data]. apply Forall_app. split; [|apply magic_bytes].
    apply Forall_replicate_is_u8, fm_erased_val, Hta.
  - intros rc w' (-> & Hdone). by apply wp_ret.
Qed.

Lemma write_unit_wp w fa n v :
  fm_ok w → trailer_area fa → 1 <= n <= 3 → is_u8 v → writable w fa (fld fa n) BOOT_MAX_ALIGN →
  wp (boot_write_trailer fa (fld fa n) [v])
     (λ rc w', rc = 0 ∧ wrote fa (fld fa n) (padded fa [v]) w w')
     (λ w', wrote fa (fld fa n) (padded fa [v]) w w' ∨ same_flash w w') w.
Proof.
  intros Hok Hta Hn Hv Hwr. pose proof swap_size_fld_ge. destruct (fld_bounds fa n Hta ltac:(lia)) as (? & ? & ?).
  assert (Hz : 0 < zlen [v] <= 8) by (by cbn).
  pose proof (zlen_padded fa [v] Hta Hz) as [Hle _].
  apply write_trailer_wp; try done; try lia.
  - unfold fld in *. destruct max_align_cases as [Ha | [Ha | Ha]]; rewrite Ha in *; lia.
  - by constructor.
  - eapply writable_sub; [|done]. lia.
Qed.

Lemma run_op_wp op w fa :
  fm_ok w → trailer_area fa → op_ok op → writable w fa (fld fa (op_fld op)) (op_len op) →
  wp (run_op op fa) (λ rc w', rc = 0 ∧ wrote fa (fld fa (op_fld op)) (op_data op fa) w w')
     (λ w', wrote fa (fld fa (op_fld op)) (op_data op fa) w w' ∨ same_flash w w') w.
Proof.
  intros Hok Hta Hop Hwr. destruct op as [| | |t n]; cbn [run_op op_fld op_len] in *.
  - by apply write_magic_wp.
  - unfold boot_write_image_ok, boot_write_trailer_flag. rewrite image_ok_off_eq by done.
    apply write_unit_wp; [done|done|lia|by cbv|done].
  - unfold boot_write_copy_done, boot_write_trailer_flag. rewrite copy_done_off_eq by done.
    apply write_unit_wp; [done|done|lia|by cbv|done].
  - cbn [op_ok] in Hop. unfold boot_write_swap_info, BOOT_SET_SWAP_INFO, BOOT_SWAP_TYPE_REVERT in *.
    rewrite swap_info_off_eq by done.
    apply wp_bind, wp_bind, wp_assert; [lia|]. apply wp_bind, wp_assert; [lia|]. apply wp_ret.
    assert (Hv : u8 (Z.lor (Z.shiftl n 4) t) = t + n * 16).
    { rewrite Z.shiftl_mul_pow2, Z.lor_comm, lor_shift by lia. apply u8_small. unfold is_u8. lia. }
    rewrite Hv. apply write_unit_wp; [done|done|lia|unfold is_u8; lia|done].
Qed.

(** ** The swap state after a field update *)

Lemma erased_1 fa v : bootutil_buffer_is_erased fa [v] = (v =? flash_area_erased_val fa).
Proof. unfold bootutil_buffer_is_erased. cbn. by rewrite andb_true_r. Qed.

Lemma decode_flag_set fa : trailer_area fa → decode_flag fa [BOOT_FLAG_SET] = BOOT_FLAG_SET.
Proof.
  intros Hta. unfold decode_flag. rewrite erased_1, (proj2 (Z.eqb_neq _ _)); [done|].
  unfold BOOT_FLAG_SET. pose proof (ta_ev _ Hta). lia.
Qed.

Lemma decode_magic_good fa : decode_magic fa BOOT_IMG_MAGIC = BOOT_MAGIC_GOOD.
Proof.
  unfold decode_magic, bootutil_buffer_is_erased. rewrite zlen_magic. cbn [Z.eqb BOOT_MAGIC_SZ].
  destruct (forallb _ _) eqn:Hf.
  - rewrite forallb_forall in Hf. pose proof (magic_not_erased (flash_area_erased_val fa)) as Hex.
    apply list.Exists_exists in Hex as (x & Hx & Hne).
    apply list_elem_of_In, Hf in Hx. zsimp. done.
  - unfold boot_magic_decode. by rewrite bool_decide_true.
Qed.

Lemma decode_info_set fa t n :
  trailer_area fa → 1 <= t <= BOOT_SWAP_TYPE_REVERT → 0 <= n < 15 → decode_info fa [t + n * 16] = (t, n).
Proof.
  unfold BOOT_SWAP_TYPE_REVERT. intros Hta Ht Hn. unfold decode_info, BOOT_SWAP_TYPE_REVERT.
  rewrite erased_1, (proj2 (Z.eqb_neq _ _)) by (pose proof (ta_ev _ Hta); lia).
  unfold BOOT_GET_SWAP_TYPE, BOOT_GET_IMAGE_NUM. cbn [le_dec].
  rewrite Z.shiftr_div_pow2, (Z.land_ones _ 4) by lia.
  replace ((t + n * 16 + 256 * 0) mod 2 ^ 4) with t by lia.
  replace ((t + n * 16 + 256 * 0) / 2 ^ 4) with n by lia.
  rewrite (proj2 (Z.ltb_ge _ _)) by lia. done.
Qed.

Definition unit_len (n : Z) : Z := if n =? 0 then Z.max 16 BOOT_MAX_ALIGN else BOOT_MAX_ALIGN.

Lemma fld_unit_fits fa n :
  trailer_area fa → 0 <= n <= swap_size_fld → fld fa n + unit_len n <= fa_size fa.
Proof.
  intros Hta Hn. unfold fld, unit_len. destruct (n =? 0) eqn:Hz; zsimp; [lia|].
  destruct max_align_cases as [Ha | [Ha | Ha]]; rewrite Ha; lia.
Qed.

(** A write within one unit does not touch another one. *)
Lemma slice_other_fld {A} (l : list A) fa m n len d :
  trailer_area fa → zlen l = fa_size fa → 0 <= m <= swap_size_fld → 0 <= n <= swap_size_fld → m ≠ n →
  0 <= len <= unit_len n → zlen d <= unit_len m →
  slice (splice l (fld fa m) d) (fld fa n) len = slice l (fld fa n) len.
Proof.
  intros Hta Hl Hm Hn Hne Hlen Hd. destruct (fld_bounds fa m Hta Hm) as (? & _ & _).
  destruct (fld_bounds fa n Hta Hn) as (? & _ & _). pose proof (fld_unit_fits fa m Hta Hm).
  apply slice_splice_disj; [done|lia|done|]. unfold fld, unit_len in *.
  destruct (m =? 0) eqn:Hm0, (n =? 0) eqn:Hn0; zsimp;
    destruct max_align_cases as [Ha | [Ha | Ha]]; rewrite Ha in *; lia.
Qed.

Lemma slice_other_magic {A} (l : list A) fa m d :
  trailer_area fa → zlen l = fa_size fa → 1 <= m <= swap_size_fld → zlen d <= unit_len m →
  slice (splice l (fld fa m) d) (fa_size fa - 16) 16 = slice l (fa_size fa - 16) 16.
Proof.
  intros Hta Hl Hm Hd. destruct (fld_bounds fa m Hta ltac:(lia)) as (? & ? & _).
  pose proof (fld_unit_fits fa m Hta ltac:(lia)). apply slice_splice_disj; [done|lia|lia|].
  unfold fld, unit_len in *. rewrite (proj2 (Z.eqb_neq m 0)) in * by lia.
  destruct max_align_cases as [Ha | [Ha | Ha]]; rewrite Ha in *; lia.
Qed.

Lemma slice_own_unit fa b n v :
  trailer_area fa → zlen b = fa_size fa → 1 <= n <= 3 →
  slice (splice b (fld fa n) (padded fa [v])) (fld fa n) 1 = [v].
Proof.
  intros Hta Hb Hn. pose proof swap_size_fld_ge. destruct (fld_bounds fa n Hta ltac:(lia)) as (? & _ & _).
  pose proof (fld_unit_fits fa n Hta ltac:(lia)).
  pose proof (zlen_padded fa [v] Hta) as [Hl _]; [by cbn|]. change (zlen [v]) with 1 in Hl.
  unfold unit_len in *. rewrite (proj2 (Z.eqb_neq n 0)) in * by lia.
  rewrite slice_splice_inside by lia. by rewrite Z.sub_diag.
Qed.

Lemma zlen_op_data op fa :
  trailer_area fa → 1 <= zlen (op_data op fa) <= unit_len (op_fld op).
Proof.
  intros Hta. destruct op as [| | |t n]; cbn [op_data op_fld]; unfold unit_len; cbn [Z.eqb].
  - rewrite zlen_app, zlen_replicate, zlen_magic. unfold BOOT_MAGIC_SZ. lia.
  - pose proof (zlen_padded fa [BOOT_FLAG_SET] Hta ltac:(by cbn)) as [Hz _]. change (zlen [_]) with 1 in Hz. lia.
  - pose proof (zlen_padded fa [BOOT_FLAG_SET] Hta ltac:(by cbn)) as [Hz _]. change (zlen [_]) with 1 in Hz. lia.
  - pose proof (zlen_padded fa [t + n * 16] Hta ltac:(by cbn)) as [Hz _]. change (zlen [_]) with 1 in Hz. lia.
Qed.

Lemma slice_own_magic fa b :
  trailer_area fa → zlen b = fa_size fa →
  slice (splice b (fld fa 0) (op_data WriteMagic fa)) (fa_size fa - 16) 16 = BOOT_IMG_MAGIC.
Proof.
  intros Hta Hb. pose proof swap_size_fld_ge. destruct (fld_bounds fa 0 Hta ltac:(lia)) as (? & _ & _).
  assert (Hlen : zlen (op_data WriteMagic fa) = Z.max 16 BOOT_MAX_ALIGN).
  { cbn [op_data]. rewrite zlen_app, zlen_replicate, zlen_magic. unfold BOOT_MAGIC_SZ. lia. }
  rewrite slice_splice_inside; rewrite ?Hlen; unfold fld in *; try lia.
  cbn [op_data]. rewrite slice_app_r by (rewrite zlen_replicate; lia).
  rewrite zlen_replicate. replace (_ - _ - Z.of_nat _) with 0 by lia.
  pose proof (slice_full BOOT_IMG_MAGIC) as Hf. by rewrite zlen_magic in Hf.
Qed.

Lemma trailer_state_op op fa b :
  trailer_area fa → op_ok op → zlen b = fa_size fa →
  trailer_state fa (splice b (fld fa (op_fld op)) (op_data op fa)) = apply_op op (trailer_state fa b).
Proof.
  intros Hta Hop Hb. pose proof swap_size_fld_ge. pose proof (zlen_op_data op fa Hta) as Hz.
  assert (Hu : ∀ n, 1 <= unit_len n).
  { intros n. unfold unit_len. destruct (n =? 0), max_align_cases as [-> | [-> | ->]]; lia. }
  unfold trailer_state. destruct op as [| | |t n]; cbn [op_fld op_data apply_op] in *;
    rewrite ?(slice_other_magic b fa _ _ Hta) by (done || lia);
    rewrite ?(slice_other_fld b fa _ 1 1 _ Hta), ?(slice_other_fld b fa _ 2 1 _ Hta),
      ?(slice_other_fld b fa _ 3 1 _ Hta) by (done || lia || (split; [lia|apply Hu]));
    rewrite ?slice_own_unit by (done || lia).
  - pose proof (slice_own_magic fa b Hta Hb) as Hm. cbn [op_data] in Hm. rewrite Hm, decode_magic_good. done.
  - by rewrite decode_flag_set.
  - by rewrite decode_flag_set.
  - cbn [op_ok] in Hop. by rewrite decode_info_set by (done || lia).
Qed.

(** ** Updates of the device *)

(** The operation took effect on [fa]: its swap state is updated, the bytes
    outside the written unit and the other areas are unchanged. *)
Definition updated (op : trailer_op) fa w w' : Prop :=
  fm_ok w' ∧ area_state w' fa = apply_op op (area_state w fa) ∧
  (∀ o n, 0 <= o → o + n <= fld fa (op_fld op) ∨ fld fa (op_fld op) + unit_len (op_fld op) <= o →
     slice (fm_cells w' fa) o n = slice (fm_cells w fa) o n) ∧
  (∀ fa', fm_area fa' → fa' ≠ fa → fm_cells w' fa' = fm_cells w fa').

Lemma op_fld_range op : 0 <= op_fld op <= 3.
Proof. destruct op; cbn; lia. Qed.

Lemma op_len_unit op : op_len op = unit_len (op_fld op).
Proof. by destruct op. Qed.

Lemma wrote_updated op fa w w' :
  fm_ok w → trailer_area fa → op_ok op →
  wrote fa (fld fa (op_fld op)) (op_data op fa) w w' → updated op fa w w'.
Proof.
  intros Hok Hta Hop (Hok' & Hcells & Hframe). pose proof swap_size_fld_ge. pose proof (op_fld_range op).
  destruct (fld_bounds fa (op_fld op) Hta ltac:(lia)) as (? & _ & _).
  pose proof (fld_unit_fits fa (op_fld op) Hta ltac:(lia)). pose proof (zlen_op_data op fa Hta).
  pose proof (fm_len w fa Hok (ta_area _ Hta)) as Hlen.
  split_and!; [done| |intros o n Ho Hd|done].
  - unfold area_state. rewrite Hcells, vals_splice, vals_written.
    apply trailer_state_op; [done|done|by rewrite zlen_vals].
  - rewrite Hcells. apply slice_splice_disj; rewrite ?zlen_written; lia.
Qed.

Lemma run_op_updated op fa w :
  fm_ok w → trailer_area fa → op_ok op → writable w fa (fld fa (op_fld op)) (unit_len (op_fld op)) →
  wp (run_op op fa) (λ rc w', rc = 0 ∧ updated op fa w w') (λ w', updated op fa w w' ∨ same_flash w w') w.
Proof.
  intros Hok Hta Hop Hwr. rewrite <- op_len_unit in Hwr.
  eapply wp_mono; [by apply run_op_wp| |].
  - intros rc w' [-> Hw]. split; [done|]. by apply wrote_updated.
  - intros w' [Hw|Hs]; [left; by apply wrote_updated|by right].
Qed.

Lemma same_flash_state w w' fa : fm_area fa → same_flash w w' → area_state w' fa = area_state w fa.
Proof. intros Ha [_ Hs]. unfold area_state. by rewrite Hs. Qed.

(** C36: a trailer writer followed by a read of the swap state returns the old
    state with exactly the written field changed (magic good, flag set, swap type
    and image number as given); a reset leaves either the old or the new swap
    state, never a third one. *)
Theorem trailer_write_read op fa w s :
  fm_ok w → trailer_area fa → op_ok op → writable w fa (fld fa (op_fld op)) (unit_len (op_fld op)) →
  boot_read_swap_state fa w = (Ret (inr s), w) →
  wp (rc ← run_op op fa; r ← boot_read_swap_state fa; mret (rc, r))
    (λ rr w', rr = (0, inr (apply_op op s)))
    (λ w', boot_read_swap_state fa w' = (Ret (inr s), w') ∨
           boot_read_swap_state fa w' = (Ret (inr (apply_op op s)), w')) w.
Proof.
  intros Hok Hta Hop Hwr Hs. rewrite read_swap_state_eq in Hs by done. injection Hs as <-.
  apply wp_bind. eapply wp_mono; [by apply run_op_updated| |].
  - intros rc w' [-> (Hok' & Hst & _)]. apply wp_bind. eapply wp_pure; [by apply read_swap_state_eq|].
    apply wp_ret. by rewrite Hst.
  - intros w' [(Hok' & Hst & _)|Hsame].
    + right. rewrite read_swap_state_eq by done. by rewrite Hst.
    + left. rewrite read_swap_state_eq by (done || apply Hsame).
      by rewrite (same_flash_state w w') by (done || apply Hta).
Qed.

(** ** Swap size and TLV sizes *)

Lemma word_write_read w fa n z :
  fm_ok w → trailer_area fa → 4 <= n <= swap_size_fld → is_u32 z →
  writable w fa (fld fa n) BOOT_MAX_ALIGN →
  wp (boot_write_trailer fa (fld fa n) (le_enc 4 z))
    (λ rc w', rc = 0 ∧ area_state w' fa = area_state w fa ∧
              flash_area_read fa (fld fa n) 4 w' = (Ret (0, le_enc 4 z), w')) (λ _, True) w.
Proof.
  intros Hok Hta Hn Hz Hwr. destruct (fld_bounds fa n Hta ltac:(lia)) as (? & ? & ?).
  pose proof (fld_unit_fits fa n Hta ltac:(lia)) as Hfit. pose proof (zlen_le_enc 4 z) as Hl. change (Z.of_nat 4) with 4 in Hl.
  pose proof (zlen_padded fa (le_enc 4 z) Hta ltac:(lia)) as [Hp _]. rewrite Hl in Hp.
  assert (Hu : unit_len n = BOOT_MAX_ALIGN) by (unfold unit_len; rewrite (proj2 (Z.eqb_neq n 0)); lia).
  rewrite Hu in Hfit. pose proof (fm_len w fa Hok (ta_area _ Hta)) as Hlen.
  eapply wp_mono; [apply write_trailer_wp; try done; try lia|..]; [apply le_enc_bytes| | |done].
  { eapply writable_sub; [|done]. lia. }
  intros rc w' (-> & Hok' & Hcells & _). split_and!; [done| |].
  - unfold area_state, trailer_state. rewrite Hcells, vals_splice, vals_written.
    rewrite slice_other_magic, !slice_other_fld; rewrite ?zlen_vals, ?Hu; try done; try lia.
    all: unfold unit_len; cbn [Z.eqb]; lia.
  - rewrite fm_read by (done || apply Hta || lia). do 3 f_equal.
    rewrite Hcells, vals_splice, vals_written, slice_splice_inside by (rewrite ?zlen_vals; lia).
    rewrite Z.sub_diag. unfold padded. rewrite slice_app_l by lia. rewrite <- Hl. apply slice_full.
Qed.

(** The swap size written to the trailer is the one read back after a reset,
    and recording it leaves the swap state (magic, flags, swap info) as it was. *)
Theorem swap_size_roundtrip w fa sz :
  fm_ok w → trailer_area fa → is_u32 sz → writable w fa (boot_swap_size_off fa) BOOT_MAX_ALIGN →
  wp (boot_write_swap_size fa sz)
    (λ rc w', rc = 0 ∧ boot_read_swap_size fa w' = (Ret (0, sz), w') ∧
              area_state w' fa = area_state w fa) (λ _, True) w.
Proof.
  intros Hok Hta Hz. unfold boot_write_swap_size, boot_read_swap_size.
  rewrite swap_size_off_eq by done. intros Hwr. pose proof swap_size_fld_ge.
  eapply wp_mono; [apply word_write_read; (done || lia)| |done].
  intros rc w' (-> & Hst & Hrd). split_and!; [done| |done].
  rewrite (bind_ret _ _ _ _ _ Hrd). unfold mret, M_ret. by rewrite le_dec_enc_u32.
Qed.

Lemma tlv_word_decode p q :
  is_u16 p → is_u16 q →
  u16 (Z.land (p + q * 2 ^ 16) 0xffff) = p ∧ u16 (Z.shiftr (Z.land (p + q * 2 ^ 16) 0xffff0000) 16) = q.
Proof.
  unfold is_u16. intros Hp Hq. split.
  - rewrite (Z.land_ones _ 16) by lia. unfold u16. lia.
  - rewrite Z.shiftr_land, (Z.shiftr_div_pow2 _ 16) by lia.
    change (Z.shiftr 4294901760 16) with (Z.ones 16). rewrite Z.land_ones by lia. unfold u16. lia.
Qed.

End TrailerProps.
