(* ===== verification/SwapState.v ===== *)
(** * Swap types and upgrade requests

    bootutil_public.c: the tables that turn the trailers of a slot pair into the
    next swap operation, and the requests of the application (pending, confirmed)
    that write them. *)

From S2P Require Import Prelude Effects FlashMap BootConfig Trailer.

Record boot_swap_table := SwapTable {
  magic_primary_slot : Z;
  magic_secondary_slot : Z;
  image_ok_primary_slot : Z;
  image_ok_secondary_slot : Z;
  copy_done_primary_slot : Z;
  copy_done_secondary_slot : Z;     (* with swap-using-offset only *)
  table_swap_type : Z;
}.

Definition boot_magic_compatible_check (tbl_val val : Z) : bool :=
  if tbl_val =? BOOT_MAGIC_ANY then true
  else if tbl_val =? BOOT_MAGIC_NOTGOOD then negb (val =? BOOT_MAGIC_GOOD)
  else tbl_val =? val.

Section Tables.
  Context `{BootConfig}.

(** The rows without the field [copy_done_secondary_slot] carry
    [BOOT_FLAG_ANY]. *)
Definition boot_swap_tables : list boot_swap_table :=
  (if uses SWAP_USING_OFFSET then
     [SwapTable BOOT_MAGIC_ANY BOOT_MAGIC_GOOD BOOT_FLAG_ANY BOOT_FLAG_UNSET
        BOOT_FLAG_ANY BOOT_FLAG_SET BOOT_SWAP_TYPE_REVERT]
   else []) ++
  [SwapTable BOOT_MAGIC_ANY BOOT_MAGIC_GOOD BOOT_FLAG_ANY BOOT_FLAG_UNSET
     BOOT_FLAG_ANY BOOT_FLAG_ANY BOOT_SWAP_TYPE_TEST;
   SwapTable BOOT_MAGIC_ANY BOOT_MAGIC_GOOD BOOT_FLAG_ANY BOOT_FLAG_SET
     BOOT_FLAG_ANY BOOT_FLAG_ANY BOOT_SWAP_TYPE_PERM;
   SwapTable BOOT_MAGIC_GOOD BOOT_MAGIC_ANY BOOT_FLAG_UNSET BOOT_FLAG_ANY
     BOOT_FLAG_SET BOOT_FLAG_ANY BOOT_SWAP_TYPE_REVERT].

Definition flag_matches (tbl_val val : Z) : bool := (tbl_val =? BOOT_FLAG_ANY) || (tbl_val =? val).

(** The condition of the table loop. *)
Definition table_matches (primary secondary : boot_swap_state) (t : boot_swap_table) : bool :=
  boot_magic_compatible_check (magic_primary_slot t) (magic primary) &&
  boot_magic_compatible_check (magic_secondary_slot t) (magic secondary) &&
  flag_matches (image_ok_primary_slot t) (image_ok primary) &&
  flag_matches (image_ok_secondary_slot t) (image_ok secondary) &&
  flag_matches (copy_done_primary_slot t) (copy_done primary) &&
  (negb (uses SWAP_USING_OFFSET) || flag_matches (copy_done_secondary_slot t) (copy_done secondary)).

(** The table loop: the first row that matches. *)
Fixpoint swap_table_scan (primary secondary : boot_swap_state) (tables : list boot_swap_table) : Z :=
  match tables with
  | [] => BOOT_SWAP_TYPE_NONE
  | t :: tables =>
      if table_matches primary secondary t then
        if negb (table_swap_type t =? BOOT_SWAP_TYPE_TEST) &&
           negb (table_swap_type t =? BOOT_SWAP_TYPE_PERM) &&
           negb (table_swap_type t =? BOOT_SWAP_TYPE_REVERT)
        then BOOT_SWAP_TYPE_PANIC else table_swap_type t
      else swap_table_scan primary secondary tables
  end.

End Tables.

Section Requests.
  Context {W : Type} `{FlashMap W} `{BootConfig}.

(** Image access hooks are off: [BOOT_HOOK_CALL] yields [BOOT_HOOK_REGULAR]. *)
Definition boot_swap_type_multi (image_index : Z) : M W Z :=
  primary ← boot_read_swap_state_by_id (FLASH_AREA_IMAGE_PRIMARY image_index);
  match primary with
  | inl _ => mret BOOT_SWAP_TYPE_PANIC
  | inr primary_slot =>
      secondary ← boot_read_swap_state_by_id (FLASH_AREA_IMAGE_SECONDARY image_index);
      match secondary with
      | inl rc =>
          if rc =? BOOT_EFLASH then
            let secondary_slot :=
              SwapState BOOT_MAGIC_UNSET BOOT_SWAP_TYPE_NONE BOOT_FLAG_UNSET BOOT_FLAG_UNSET 0 in
            mret (swap_table_scan primary_slot secondary_slot boot_swap_tables)
          else mret BOOT_SWAP_TYPE_PANIC
      | inr secondary_slot => mret (swap_table_scan primary_slot secondary_slot boot_swap_tables)
      end
  end.

Definition boot_swap_type : M W Z := boot_swap_type_multi 0.

(** The search loop of [flash_area_to_image], [n] images still to look at. *)
Fixpoint area_to_image_from (id i : Z) (n : nat) : Z :=
  match n with
  | O => 0
  | S n =>
      if (FLASH_AREA_IMAGE_PRIMARY i =? id) || (FLASH_AREA_IMAGE_SECONDARY i =? id) then i
      else area_to_image_from id (i + 1) n
  end.

Definition flash_area_to_image (fa : flash_area) : Z :=
  if 1 <? BOOT_IMAGE_NUMBER then area_to_image_from (fa_id fa) 0 (Z.to_nat BOOT_IMAGE_NUMBER)
  else 0.

(** [boot_set_next] of the swap modes. *)
Definition boot_set_next (fa : flash_area) (active confirm : bool) : M W Z :=
  let confirm := if active then true else confirm in
  r ← boot_read_swap_state fa;
  match r with
  | inl rc => mret rc
  | inr slot_state =>
      if magic slot_state =? BOOT_MAGIC_GOOD then
        if active && (image_ok slot_state =? BOOT_FLAG_UNSET) then boot_write_image_ok fa
        else mret 0
      else if magic slot_state =? BOOT_MAGIC_UNSET then
        if negb active then
          rc ← boot_write_magic fa;
          rc ← (if (rc =? 0) && confirm then boot_write_image_ok fa else mret rc);
          if rc =? 0 then
            let swap_type := if confirm then BOOT_SWAP_TYPE_PERM else BOOT_SWAP_TYPE_TEST in
            boot_write_swap_info fa swap_type (flash_area_to_image fa)
          else mret rc
        else mret 0
      else if magic slot_state =? BOOT_MAGIC_BAD then
        mret (if active then BOOT_EBADVECT else BOOT_EBADIMAGE)
      else abort
  end.

(** [boot_set_next] built for DirectXIP
    ([MCUBOOT_BOOTUTIL_LIB_FOR_DIRECT_XIP]). *)
Definition boot_set_next_direct_xip (fa : flash_area) (active confirm : bool) : M W Z :=
  let confirm := if active then true else confirm in
  r ← boot_read_swap_state fa;
  match r with
  | inl rc => mret rc
  | inr slot_state =>
      let good :=
        if confirm then
          rc ← (if copy_done slot_state =? BOOT_FLAG_UNSET then boot_write_copy_done fa else mret 0);
          if negb (rc =? 0) then mret rc
          else if image_ok slot_state =? BOOT_FLAG_UNSET then boot_write_image_ok fa else mret 0
        else mret 0 in
      if magic slot_state =? BOOT_MAGIC_UNSET then
        rc ← boot_write_magic fa;
        if negb (rc =? 0) then mret rc else good
      else if magic slot_state =? BOOT_MAGIC_GOOD then good
      else if magic slot_state =? BOOT_MAGIC_BAD then mret BOOT_EBADIMAGE
      else abort
  end.

Definition boot_set_pending_multi (image_index permanent : Z) : M W Z :=
  '(rc, fap) ← flash_area_open (FLASH_AREA_IMAGE_SECONDARY image_index);
  if negb (rc =? 0) then mret BOOT_EFLASH
  else boot_set_next fap false (negb (permanent =? 0)).

Definition boot_set_pending (permanent : Z) : M W Z := boot_set_pending_multi 0 permanent.

Definition boot_set_confirmed_multi (image_index : Z) : M W Z :=
  '(rc, fap) ← flash_area_open (FLASH_AREA_IMAGE_PRIMARY image_index);
  if negb (rc =? 0) then mret BOOT_EFLASH
  else boot_set_next fap true true.

Definition boot_set_confirmed : M W Z := boot_set_confirmed_multi 0.

End Requests.
