(* ===== verification/SwapStateProps.v ===== *)
(** * Swap types: the decision and the requests

    The table scan is a decision on the two trailers; a pending request makes the
    next swap type test or perm, a confirmation cancels a revert, and the other
    branches of [boot_set_next] leave flash alone. *)

From S2P Require Import Prelude Effects FlashMap BootConfig Trailer TrailerProps SwapState.

#[local] Set Default Proof Using "Type*".

(** ** The decision *)

(** The secondary slot asks first; the primary slot can only ask for a revert. *)
Definition next_swap (offset : bool) (p s : boot_swap_state) : Z :=
  if (magic s =? BOOT_MAGIC_GOOD) && (image_ok s =? BOOT_FLAG_UNSET) then
    if offset && (copy_done s =? BOOT_FLAG_SET) then BOOT_SWAP_TYPE_REVERT else BOOT_SWAP_TYPE_TEST
  else if (magic s =? BOOT_MAGIC_GOOD) && (image_ok s =? BOOT_FLAG_SET) then BOOT_SWAP_TYPE_PERM
  else if (magic p =? BOOT_MAGIC_GOOD) && (image_ok p =? BOOT_FLAG_UNSET) && (copy_done p =? BOOT_FLAG_SET)
  then BOOT_SWAP_TYPE_REVERT
  else BOOT_SWAP_TYPE_NONE.

Lemma swap_table_scan_eq `{BootConfig} p s :
  swap_table_scan p s boot_swap_tables = next_swap (uses SWAP_USING_OFFSET) p s.
Proof.
  destruct p as [mp tp cp ip np], s as [ms ts cs os ns]. unfold boot_swap_tables.
  destruct (uses SWAP_USING_OFFSET) eqn:Hu; cbn [app];
  cbv [swap_table_scan next_swap table_matches flag_matches boot_magic_compatible_check
       magic_primary_slot magic_secondary_slot image_ok_primary_slot image_ok_secondary_slot
       copy_done_primary_slot copy_done_secondary_slot table_swap_type magic image_ok copy_done
       BOOT_MAGIC_GOOD BOOT_FLAG_SET BOOT_FLAG_UNSET];
  rewrite ?Hu, !(Z.eqb_sym mp), !(Z.eqb_sym ms), !(Z.eqb_sym ip), !(Z.eqb_sym os), !(Z.eqb_sym cp), ?(Z.eqb_sym cs);
  destruct (1 =? ms), (3 =? os), (1 =? os), (1 =? cs), (1 =? mp), (3 =? ip), (1 =? cp); reflexivity.
Qed.

Section SwapStateProps.
  Context {W : Type} `{FlashMapOk W} `{BootConfigOk}.
  Implicit Types (fa p s : flash_area) (w : W).

(** The two slots of image [i], as the flash map opens them. *)
Record slot_pair (i : Z) p s : Prop := {
  sp_open_primary w : flash_area_open (FLASH_AREA_IMAGE_PRIMARY i) w = (Ret (0, p), w);
  sp_open_secondary w : flash_area_open (FLASH_AREA_IMAGE_SECONDARY i) w = (Ret (0, s), w);
  sp_primary : trailer_area p;
  sp_secondary : trailer_area s;
  sp_ne : p ≠ s;
}.

Lemma read_by_id_eq w id fa :
  fm_ok w → trailer_area fa → flash_area_open id w = (Ret (0, fa), w) →
  boot_read_swap_state_by_id id w = (Ret (inr (area_state w fa)), w).
Proof.
  intros Hok Hta Hop. unfold boot_read_swap_state_by_id. rewrite (bind_ret _ _ _ _ _ Hop).
  by apply read_swap_state_eq.
Qed.

Lemma read_by_id_fail w id rc x :
  rc ≠ 0 → flash_area_open id w = (Ret (rc, x), w) →
  boot_read_swap_state_by_id id w = (Ret (inl BOOT_EFLASH), w).
Proof.
  intros Hrc Hop. unfold boot_read_swap_state_by_id. rewrite (bind_ret _ _ _ _ _ Hop).
  cbn beta iota. by rewrite (proj2 (Z.eqb_neq rc 0)).
Qed.

Lemma swap_type_multi_eq w i p s :
  fm_ok w → slot_pair i p s →
  boot_swap_type_multi i w =
    (Ret (next_swap (uses SWAP_USING_OFFSET) (area_state w p) (area_state w s)), w).
Proof.
  intros Hok Hsp. unfold boot_swap_type_multi.
  erewrite bind_ret by (apply (read_by_id_eq w _ p); [done|apply Hsp|apply Hsp]). cbn beta iota.
  erewrite bind_ret by (apply (read_by_id_eq w _ s); [done|apply Hsp|apply Hsp]). cbn beta iota.
  by rewrite swap_table_scan_eq.
Qed.

(** C34: [boot_swap_type_multi] scans its tables to the documented decision: a
    secondary slot with good magic asks for test, perm or (swap-using-offset) a
    revert and takes precedence, a primary slot with good magic, copy-done set and
    image-ok unset asks for a revert, anything else is no swap; a primary slot that
    cannot be opened is a panic, a secondary slot that cannot be opened counts as
    empty. *)
Theorem swap_type_decision w i p :
  fm_ok w → trailer_area p →
  flash_area_open (FLASH_AREA_IMAGE_PRIMARY i) w = (Ret (0, p), w) →
  (∀ s, trailer_area s → flash_area_open (FLASH_AREA_IMAGE_SECONDARY i) w = (Ret (0, s), w) →
     boot_swap_type_multi i w =
       (Ret (next_swap (uses SWAP_USING_OFFSET) (area_state w p) (area_state w s)), w)) ∧
  (∀ rc x, rc ≠ 0 → flash_area_open (FLASH_AREA_IMAGE_SECONDARY i) w = (Ret (rc, x), w) →
     boot_swap_type_multi i w =
       (Ret (if (magic (area_state w p) =? BOOT_MAGIC_GOOD) && (image_ok (area_state w p) =? BOOT_FLAG_UNSET)
                && (copy_done (area_state w p) =? BOOT_FLAG_SET)
             then BOOT_SWAP_TYPE_REVERT else BOOT_SWAP_TYPE_NONE), w)) ∧
  (∀ j rc x, rc ≠ 0 → flash_area_open (FLASH_AREA_IMAGE_PRIMARY j) w = (Ret (rc, x), w) →
     boot_swap_type_multi j w = (Ret BOOT_SWAP_TYPE_PANIC, w)).
Proof.
  intros Hok Hp Hop. unfold boot_swap_type_multi. split_and!.
  - intros s Hs Hos. erewrite bind_ret by (by apply (read_by_id_eq w _ p)). cbn beta iota.
    erewrite bind_ret by (by apply (read_by_id_eq w _ s)). cbn beta iota. by rewrite swap_table_scan_eq.
  - intros rc x Hrc Hos. erewrite bind_ret by (by apply (read_by_id_eq w _ p)). cbn beta iota.
    erewrite bind_ret by (by eapply read_by_id_fail). cbn beta iota. by rewrite swap_table_scan_eq.
  - intros j rc x Hrc Ho. by erewrite bind_ret by (by eapply read_by_id_fail).
Qed.

(** ** Requests *)

(** The swap state of [fa] is now [st], and the other areas are as before. *)
Definition reached fa (st : boot_swap_state) w w' : Prop :=
  fm_ok w' ∧ area_state w' fa = st ∧
  ∀ fa', fm_area fa' → fa' ≠ fa → fm_cells w' fa' = fm_cells w fa'.

(** The units of the magic, the image-ok flag, the copy-done flag and the swap
    info can be written. *)
Definition trailer_writable fa w (ns : list Z) : Prop :=
  Forall (λ n, writable w fa (fld fa n) (unit_len n)) ns.

Lemma reached_refl fa w : fm_ok w → reached fa (area_state w fa) w w.
Proof. intros. by split_and!. Qed.

Lemma reached_same fa w w1 w2 st :
  fm_area fa → reached fa st w w1 → same_flash w1 w2 → reached fa st w w2.
Proof.
  intros Ha (Hok & Hst & Hfr) Hs. split_and!; [apply Hs|by rewrite (same_flash_state w1)|].
  intros fa' Ha' Hne. rewrite (proj2 Hs) by done. by apply Hfr.
Qed.

Lemma reached_updated op fa w w1 w2 st :
  reached fa st w w1 → updated op fa w1 w2 → reached fa (apply_op op st) w w2.
Proof.
  intros (Hok & Hst & Hfr) (Hok' & Hst' & _ & Hfr'). split_and!; [done|by rewrite Hst', Hst|].
  intros fa' Ha' Hne. rewrite Hfr' by done. by apply Hfr.
Qed.

Lemma reached_other fa fa' st w w' :
  reached fa st w w' → fm_area fa' → fa' ≠ fa → area_state w' fa' = area_state w fa'.
Proof. intros (_ & _ & Hfr) Ha Hne. unfold area_state. by rewrite Hfr. Qed.

Lemma updated_writable op fa w w' ns :
  trailer_area fa → updated op fa w w' → Forall (λ n, 0 <= n <= 3 ∧ n ≠ op_fld op) ns →
  trailer_writable fa w ns → trailer_writable fa w' ns.
Proof.
  intros Hta (Hok & _ & Hsl & _) Hns Hwr. unfold trailer_writable in *.
  rewrite list.Forall_forall in *. intros n Hn. specialize (Hns n Hn) as [Hr Hne].
  destruct (Hwr n Hn) as [?|Hf]; [by left|right]. pose proof swap_size_fld_ge.
  destruct (fld_bounds fa n Hta ltac:(lia)) as (? & _ & _). pose proof (op_fld_range op).
  rewrite Hsl; [done|done|]. unfold fld, unit_len.
  destruct (n =? 0) eqn:Hn0, (op_fld op =? 0) eqn:Ho0; zsimp;
    destruct max_align_cases as [Ha | [Ha | Ha]]; rewrite Ha in *; lia.
Qed.

(** One more field update of a request in progress. *)
Lemma op_step op fa w w1 st :
  trailer_area fa → op_ok op → reached fa st w w1 → trailer_writable fa w1 [op_fld op] →
  wp (run_op op fa)
    (λ rc w2, rc = 0 ∧ reached fa (apply_op op st) w w2 ∧ updated op fa w1 w2)
    (λ w2, reached fa (apply_op op st) w w2 ∨ reached fa st w w2) w1.
Proof.
  intros Hta Hop Hr Hwr. apply Forall_cons_1 in Hwr as [Hwr _].
  eapply wp_mono; [apply run_op_updated; [apply Hr|done..]| |].
  - intros rc w2 [-> Hu]. split_and!; [done|by eapply reached_updated|done].
  - intros w2 [Hu|Hs]; [left; by eapply reached_updated|right].
    eapply reached_same; [apply Hta|done..].
Qed.

Lemma area_to_image_from_range id i n :
  0 <= i → area_to_image_from id i n = 0 ∨ i <= area_to_image_from id i n < i + Z.of_nat n.
Proof.
  revert i. induction n as [|n IH]; intros i Hi; cbn [area_to_image_from]; [by left|].
  case_match; [right; lia|]. destruct (IH (i + 1)) as [?|?]; [lia|by left|right; lia].
Qed.

Lemma area_to_image_range fa : 0 <= flash_area_to_image fa < 15.
Proof.
  unfold flash_area_to_image. case_if Hn; [|lia]. pose proof bc_images.
  destruct (area_to_image_from_range (fa_id fa) 0 (Z.to_nat BOOT_IMAGE_NUMBER)); lia.
Qed.

(** The states a pending request goes through. *)
Definition pending_type (confirm : bool) : Z :=
  if confirm then BOOT_SWAP_TYPE_PERM else BOOT_SWAP_TYPE_TEST.
Definition after_magic fa w := apply_op WriteMagic (area_state w fa).
Definition after_ok fa (confirm : bool) w :=
  if confirm then apply_op WriteImageOk (after_magic fa w) else after_magic fa w.
Definition after_pending fa (confirm : bool) w :=
  apply_op (WriteSwapInfo (pending_type confirm) (flash_area_to_image fa)) (after_ok fa confirm w).

Lemma pending_op_ok fa confirm : op_ok (WriteSwapInfo (pending_type confirm) (flash_area_to_image fa)).
Proof.
  pose proof (area_to_image_range fa). cbn [op_ok].
  unfold pending_type, BOOT_SWAP_TYPE_PERM, BOOT_SWAP_TYPE_TEST, BOOT_SWAP_TYPE_REVERT.
  destruct confirm; lia.
Qed.

Lemma set_next_pending fa confirm w :
  fm_ok w → trailer_area fa → magic (area_state w fa) = BOOT_MAGIC_UNSET →
  trailer_writable fa w [0; 1; 3] →
  wp (boot_set_next fa false confirm)
    (λ rc w', rc = 0 ∧ reached fa (after_pending fa confirm w) w w')
    (λ w', reached fa (area_state w fa) w w' ∨ reached fa (after_magic fa w) w w' ∨
           reached fa (after_ok fa confirm w) w w' ∨ reached fa (after_pending fa confirm w) w w') w.
Proof.
  intros Hok Hta Hm Hwr. unfold boot_set_next. apply wp_bind.
  eapply wp_pure; [by apply read_swap_state_eq|]. cbn beta iota zeta. rewrite Hm. cbn [Z.eqb negb BOOT_MAGIC_UNSET BOOT_MAGIC_GOOD Pos.eqb].
  change (boot_write_magic fa) with (run_op WriteMagic fa).
  apply wp_bind. eapply wp_mono; [eapply (op_step WriteMagic); [done|done|by apply reached_refl|]| |].
  { by apply (Forall_cons_1 _ _ _) in Hwr as [? _]; constructor. }
  2:{ intros w' [?|?]; tauto. }
  cbn beta. intros rc w1 (-> & Hr1 & Hu1). cbn [Z.eqb andb].
  apply (updated_writable _ _ _ _ [1; 3]) in Hu1 as Hwr1;
    [|done|by repeat constructor|by apply Forall_cons_1 in Hwr as [_ ?]].
  apply wp_bind.
  assert (Hlast : ∀ w2, reached fa (after_ok fa confirm w) w w2 → trailer_writable fa w2 [3] →
    wp (boot_write_swap_info fa (pending_type confirm) (flash_area_to_image fa))
     (λ rc w', rc = 0 ∧ reached fa (after_pending fa confirm w) w w')
     (λ w', reached fa (area_state w fa) w w' ∨ reached fa (after_magic fa w) w w' ∨
           reached fa (after_ok fa confirm w) w w' ∨ reached fa (after_pending fa confirm w) w w') w2).
  { intros w2 Hr2 Hwr2. change (boot_write_swap_info fa ?t ?n) with (run_op (WriteSwapInfo t n) fa).
    eapply wp_mono; [eapply op_step; [done|by apply pending_op_ok|done|done]| |].
    - intros rc w' (-> & ? & _). done.
    - intros w' [?|?]; [by do 3 right|do 2 right; by left]. }
  destruct confirm.
  - change (boot_write_image_ok fa) with (run_op WriteImageOk fa).
    apply Forall_cons_1 in Hwr1 as [Hwo Hw3].
    eapply wp_mono; [eapply (op_step WriteImageOk); [done|done|done|by constructor]| |].
    + cbn beta. intros rc w2 (-> & Hr2 & Hu2). cbn [Z.eqb]. apply Hlast; [done|].
      eapply updated_writable; [done|done| |done]. by repeat constructor.
    + cbn beta. intros w' [?|?]; [do 2 right; by left|right; by left].
  - apply wp_ret. cbn [Z.eqb]. apply Hlast; [done|]. by apply Forall_cons_1 in Hwr1 as [_ ?].
Qed.

Lemma swap_type_reached w w' i p s st :
  slot_pair i p s → reached s st w w' →
  boot_swap_type_multi i w' = (Ret (next_swap (uses SWAP_USING_OFFSET) (area_state w p) st), w').
Proof.
  intros Hsp Hr. rewrite (swap_type_multi_eq w' i p s) by (done || apply Hr).
  rewrite (reached_other s p st w w') by (done || apply Hsp). by destruct Hr as (_ & -> & _).
Qed.

(** C32: marking an image pending (its slot has no magic yet) succeeds and makes
    the next swap type test, or perm when the request is permanent; a reset in the
    middle leaves the old swap type, test, or (permanent only) perm, and the
    primary slot is never modified. *)
Theorem set_pending_swap_type w i p s permanent :
  fm_ok w → slot_pair i p s → trailer_writable s w [0; 1; 3] →
  magic (area_state w s) = BOOT_MAGIC_UNSET → image_ok (area_state w s) = BOOT_FLAG_UNSET →
  copy_done (area_state w s) = BOOT_FLAG_UNSET →
  let type := if permanent =? 0 then BOOT_SWAP_TYPE_TEST else BOOT_SWAP_TYPE_PERM in
  let old := next_swap (uses SWAP_USING_OFFSET) (area_state w p) (area_state w s) in
  wp (boot_set_pending_multi i permanent)
    (λ rc w', rc = 0 ∧ boot_swap_type_multi i w' = (Ret type, w') ∧
              fm_cells w' p = fm_cells w p ∧ image_num (area_state w' s) = flash_area_to_image s)
    (λ w', (∃ t, boot_swap_type_multi i w' = (Ret t, w') ∧ (t = old ∨ t = BOOT_SWAP_TYPE_TEST ∨ t = type)) ∧
           fm_cells w' p = fm_cells w p) w.
Proof.
  intros Hok Hsp Hwr Hm Ho Hc type old. unfold boot_set_pending_multi.
  apply wp_bind. eapply wp_pure; [apply Hsp|]. cbn beta iota. cbn [Z.eqb negb].
  assert (Hfr : ∀ st w', reached s st w w' → fm_cells w' p = fm_cells w p).
  { intros st w' (_ & _ & Hf). apply Hf; apply Hsp. }
  assert (Htest : ∀ st, magic st = BOOT_MAGIC_GOOD → image_ok st = BOOT_FLAG_UNSET → copy_done st = BOOT_FLAG_UNSET →
    next_swap (uses SWAP_USING_OFFSET) (area_state w p) st = BOOT_SWAP_TYPE_TEST).
  { intros st H1' H2' H3'. unfold next_swap. rewrite H1', H2', H3'. cbn. by rewrite andb_false_r. }
  assert (Hperm : ∀ st, magic st = BOOT_MAGIC_GOOD → image_ok st = BOOT_FLAG_SET →
    next_swap (uses SWAP_USING_OFFSET) (area_state w p) st = BOOT_SWAP_TYPE_PERM).
  { intros st H1' H2'. unfold next_swap. by rewrite H1', H2'. }
  eapply wp_mono; [apply set_next_pending; [done|apply Hsp|done|done]| |].
  - intros rc w' [-> Hr]. split_and!; [done| |by eapply Hfr|by destruct Hr as (_ & -> & _)].
    rewrite (swap_type_reached w w' i p s _ Hsp Hr). subst type.
    destruct (permanent =? 0); cbn [negb]; [by rewrite Htest|by rewrite Hperm].
  - intros w' Hcr. cut (∃ st, reached s st w w' ∧ (st = area_state w s ∨ (magic st = BOOT_MAGIC_GOOD ∧
      ((image_ok st = BOOT_FLAG_UNSET ∧ copy_done st = BOOT_FLAG_UNSET) ∨
       (image_ok st = BOOT_FLAG_SET ∧ (permanent =? 0) = false))))).
    { intros (st & Hr & Hst). split; [|by eapply Hfr]. eexists. split; [by eapply swap_type_reached|].
      subst type. destruct Hst as [-> | (? & [[? ?] | [? ->]])]; [by left|rewrite Htest by done; tauto|].
      rewrite Hperm by done. tauto. }
    unfold after_pending, after_ok, after_magic in Hcr.
    destruct (permanent =? 0); cbn [negb] in Hcr;
      destruct Hcr as [Hr | [Hr | [Hr | Hr]]]; eexists; (split; [exact Hr|]); cbn; tauto.
Qed.

(** C35: confirming the running image (primary slot with good magic whose image-ok
    flag is unset) succeeds, sets the flag, and cancels a revert: with no request in
    the secondary slot the next swap type is none. A reset leaves the old swap type
    or none; the secondary slot is never modified. *)
Theorem set_confirmed_cancels_revert w i p s :
  fm_ok w → slot_pair i p s → trailer_writable p w [1] →
  magic (area_state w p) = BOOT_MAGIC_GOOD → image_ok (area_state w p) = BOOT_FLAG_UNSET →
  magic (area_state w s) ≠ BOOT_MAGIC_GOOD →
  let old := next_swap (uses SWAP_USING_OFFSET) (area_state w p) (area_state w s) in
  wp (boot_set_confirmed_multi i)
    (λ rc w', rc = 0 ∧ boot_swap_type_multi i w' = (Ret BOOT_SWAP_TYPE_NONE, w') ∧
              area_state w' p = apply_op WriteImageOk (area_state w p) ∧ fm_cells w' s = fm_cells w s)
    (λ w', (boot_swap_type_multi i w' = (Ret old, w') ∨
            boot_swap_type_multi i w' = (Ret BOOT_SWAP_TYPE_NONE, w')) ∧ fm_cells w' s = fm_cells w s) w.
Proof.
  intros Hok Hsp Hwr Hm Ho Hms old. unfold boot_set_confirmed_multi.
  apply wp_bind. eapply wp_pure; [apply Hsp|]. cbn beta iota. cbn [Z.eqb negb].
  unfold boot_set_next. apply wp_bind. eapply wp_pure; [apply read_swap_state_eq; [done|apply Hsp]|].
  cbn beta iota zeta. rewrite Hm, Ho. cbn [Z.eqb BOOT_MAGIC_GOOD BOOT_FLAG_UNSET Pos.eqb andb].
  change (boot_write_image_ok p) with (run_op WriteImageOk p).
  assert (Hne : s ≠ p) by (intros ->; by eapply sp_ne).
  assert (Hfr : ∀ st w', reached p st w w' → fm_cells w' s = fm_cells w s).
  { intros st w' (_ & _ & Hf). apply Hf; [apply Hsp|done]. }
  assert (Ht : ∀ st w', reached p st w w' →
    boot_swap_type_multi i w' = (Ret (next_swap (uses SWAP_USING_OFFSET) st (area_state w s)), w')).
  { intros st w' Hr. rewrite (swap_type_multi_eq w' i p s) by (done || apply Hr).
    rewrite (reached_other p s st w w') by (done || apply Hsp). by destruct Hr as (_ & -> & _). }
  assert (Hnone : next_swap (uses SWAP_USING_OFFSET) (apply_op WriteImageOk (area_state w p)) (area_state w s) =
    BOOT_SWAP_TYPE_NONE).
  { unfold next_swap. rewrite (proj2 (Z.eqb_neq (magic (area_state w s)) _)) by done. cbn. by rewrite andb_false_r. }
  eapply wp_mono; [eapply (op_step WriteImageOk); [apply Hsp|done|by apply reached_refl|done]| |].
  - intros rc w' (-> & Hr & _). split_and!; [done|by rewrite (Ht _ _ Hr), Hnone|apply Hr|by eapply Hfr].
  - intros w' [Hr|Hr]; (split; [|by eapply Hfr]); rewrite (Ht _ _ Hr); [right; by rewrite Hnone|by left].
Qed.

(** C38: every other call of [boot_set_next] leaves flash untouched: a bad magic is
    refused with [BOOT_EBADVECT] (active slot) or [BOOT_EBADIMAGE], a pending slot
    stays pending, a confirmed image stays confirmed, and confirming an image
    without magic is a no-op that reports success. *)
Theorem set_next_no_write w fa active confirm :
  fm_ok w → trailer_area fa →
  (magic (area_state w fa) = BOOT_MAGIC_BAD →
     boot_set_next fa active confirm w = (Ret (if active then BOOT_EBADVECT else BOOT_EBADIMAGE), w)) ∧
  (magic (area_state w fa) = BOOT_MAGIC_GOOD →
     active = false ∨ image_ok (area_state w fa) ≠ BOOT_FLAG_UNSET →
     boot_set_next fa active confirm w = (Ret 0, w)) ∧
  (magic (area_state w fa) = BOOT_MAGIC_UNSET → boot_set_next fa true confirm w = (Ret 0, w)).
Proof.
  intros Hok Hta. unfold boot_set_next. split_and!; intros Hm; [|intros Hc|];
    erewrite bind_ret by (by apply read_swap_state_eq); cbn beta iota; rewrite Hm; try done.
  cbn [Z.eqb BOOT_MAGIC_GOOD Pos.eqb]. destruct Hc as [-> | Hc]; [done|].
  by rewrite (proj2 (Z.eqb_neq _ _) Hc), andb_false_r.
Qed.

(** ** DirectXIP *)

Lemma set_flag_if op fa w w1 st (b : bool) :
  trailer_area fa → op_ok op → reached fa st w w1 → (b = true → trailer_writable fa w1 [op_fld op]) →
  wp (if b then run_op op fa else mret 0)
    (λ rc w2, rc = 0 ∧ reached fa (if b then apply_op op st else st) w w2 ∧
              ∀ ns, Forall (λ n, 0 <= n <= 3 ∧ n ≠ op_fld op) ns →
                    trailer_writable fa w1 ns → trailer_writable fa w2 ns)
    (λ w2, reached fa (apply_op op st) w w2 ∨ reached fa st w w2) w1.
Proof.
  intros Hta Hop Hr Hwr. destruct b; [|by apply wp_ret].
  eapply wp_mono; [eapply op_step; [done|done|done|by apply Hwr]| |done].
  intros rc w2 (-> & Hr2 & Hu). split_and!; [done|done|]. intros. by eapply updated_writable.
Qed.

Lemma reached_frame fa w w' st st' :
  reached fa st w w' ∨ reached fa st' w w' →
  fm_ok w' ∧ ∀ fa', fm_area fa' → fa' ≠ fa → fm_cells w' fa' = fm_cells w fa'.
Proof. by intros [(? & _ & ?)|(? & _ & ?)]. Qed.

Lemma direct_xip_flags w fa w1 (st s : boot_swap_state) :
  trailer_area fa → reached fa st w w1 → magic st = BOOT_MAGIC_GOOD → copy_done st = copy_done s →
  image_ok st = image_ok s → trailer_writable fa w1 [1; 2] →
  wp (rc ← (if copy_done s =? BOOT_FLAG_UNSET then run_op WriteCopyDone fa else mret 0);
      if negb (rc =? 0) then mret rc
      else if image_ok s =? BOOT_FLAG_UNSET then run_op WriteImageOk fa else mret 0)
    (λ rc w', rc = 0 ∧ magic (area_state w' fa) = BOOT_MAGIC_GOOD ∧
       copy_done (area_state w' fa) = (if copy_done s =? BOOT_FLAG_UNSET then BOOT_FLAG_SET else copy_done s) ∧
       image_ok (area_state w' fa) = (if image_ok s =? BOOT_FLAG_UNSET then BOOT_FLAG_SET else image_ok s))
    (λ w', fm_ok w' ∧ ∀ fa', fm_area fa' → fa' ≠ fa → fm_cells w' fa' = fm_cells w fa') w1.
Proof.
  intros Hta Hr Hg Hc Ho Hw1. apply Forall_cons_1 in Hw1 as [Hwa Hwb].
  apply wp_bind. eapply wp_mono; [eapply (set_flag_if WriteCopyDone); done| |intros ?; apply reached_frame].
  intros rc w2 (-> & Hr2 & Hpres). cbn [Z.eqb negb].
  eapply wp_mono; [eapply (set_flag_if WriteImageOk); [done|done|done|]| |intros ?; apply reached_frame].
  { intros _. apply Hpres; [by repeat constructor|by constructor]. }
  intros rc w3 (-> & (_ & -> & _) & _).
  destruct (image_ok s =? _) eqn:Ho', (copy_done s =? _) eqn:Hc'; cbn; rewrite ?Hc, ?Ho; done.
Qed.

(** built for DirectXIP, confirming a slot with no magic or a good magic ends
    with a good magic, copy-done set and image-ok set whenever those flags were
    unset, and a flag that already holds a value is not written again. *)
Theorem direct_xip_confirm w fa active :
  fm_ok w → trailer_area fa →
  magic (area_state w fa) = BOOT_MAGIC_UNSET ∨ magic (area_state w fa) = BOOT_MAGIC_GOOD →
  trailer_writable fa w [0; 1; 2] →
  wp (boot_set_next_direct_xip fa active true)
    (λ rc w', rc = 0 ∧ magic (area_state w' fa) = BOOT_MAGIC_GOOD ∧
       copy_done (area_state w' fa) =
         (if copy_done (area_state w fa) =? BOOT_FLAG_UNSET then BOOT_FLAG_SET else copy_done (area_state w fa)) ∧
       image_ok (area_state w' fa) =
         (if image_ok (area_state w fa) =? BOOT_FLAG_UNSET then BOOT_FLAG_SET else image_ok (area_state w fa)))
    (λ w', fm_ok w' ∧ ∀ fa', fm_area fa' → fa' ≠ fa → fm_cells w' fa' = fm_cells w fa') w.
Proof.
  intros Hok Hta Hm Hwr. unfold boot_set_next_direct_xip.
  replace (if active then true else true) with true by (by destruct active). cbv zeta.
  apply wp_bind. eapply wp_pure; [by apply read_swap_state_eq|]. cbn beta iota.
  change (boot_write_magic fa) with (run_op WriteMagic fa).
  change (boot_write_copy_done fa) with (run_op WriteCopyDone fa).
  change (boot_write_image_ok fa) with (run_op WriteImageOk fa).
  set (s := area_state w fa) in *.
  apply Forall_cons_1 in Hwr as Hwr0. destruct Hwr0 as [Hw0 Hw12].
  destruct Hm as [-> | Hm].
  - cbn [Z.eqb Pos.eqb BOOT_MAGIC_UNSET].
    apply wp_bind. eapply wp_mono; [eapply (op_step WriteMagic); [done|done|by apply reached_refl|by constructor]| |intros ?; apply reached_frame].
    intros rc w1 (-> & Hr1 & Hu1). cbn [Z.eqb negb]. eapply direct_xip_flags; [done|done|done|done|done|].
    eapply updated_writable; [done|done|by repeat constructor|done].
  - rewrite Hm. cbn [Z.eqb Pos.eqb BOOT_MAGIC_UNSET BOOT_MAGIC_GOOD].
    eapply direct_xip_flags; [done|by apply reached_refl|done..].
Qed.
End SwapStateProps.
