(* ===== verification/Area.v ===== *)
(** * Erasing and scrambling regions

    bootutil_area.c: erasing or overwriting a range of a slot, in either
    direction, and invalidating a slot. *)

From S2P Require Import Prelude Effects FlashMap BootConfig Trailer.

Section Area.
  Context {W : Type} `{FlashMap W} `{BootConfig}.

(** One iteration per sector or write block; an area has at most as many as
    bytes. *)
Definition region_fuel (fa : flash_area) : nat := S (S (Z.to_nat (fa_size fa))).

(** The body of the erase loop; the loop variable is [off]. *)
Definition erase_region_step (fa : flash_area) (backwards : bool) (end_offset off : Z) : M W (Z + Z) :=
  '(rc, sector) ← flash_area_get_sector fa off;
  if rc <? 0 then mret (inr rc) else
  let off := fs_off sector in
  let csize := fs_size sector in
  rc ← flash_area_erase fa off csize;
  if rc <? 0 then mret (inr rc) else
  if backwards then
    if off <=? end_offset then mret (inr rc) else mret (inl (off ⊖ 1))
  else
    let off := off ⊕ csize in
    if end_offset <? off then mret (inr rc) else mret (inl (off ⊕ 1)).

Definition boot_erase_region (fa : flash_area) (off size : Z) (backwards : bool) : M W Z :=
  if (fa_size fa <=? off) || (fa_size fa ⊖ off <? size) then mret (-1)
  else if device_requires_erase fa then
    '(rc, sector) ← flash_area_get_sector fa (if backwards then off else off ⊕ size ⊖ 1);
    if rc <? 0 then mret rc else
    let end_offset := fs_off sector in
    let off := if backwards then off ⊕ (size ⊖ 1) else off in
    loop (region_fuel fa) (erase_region_step fa backwards end_offset) off
  else mret 0.

(** The body of the overwrite loop; the result is the last return code. *)
Definition scramble_region_step (fa : flash_area) (backwards : bool) (buf : list Z)
    (write_block end_offset off : Z) : M W (Z + Z) :=
  if off =? end_offset then mret (inr 0) else
  rc ← flash_area_write fa off (slice buf 0 write_block);
  if negb (rc =? 0) then mret (inr rc) else
  if backwards then
    if off <=? end_offset then mret (inr rc) else mret (inl (off ⊖ write_block))
  else
    let off := off ⊕ write_block in
    if end_offset <=? off then mret (inr rc) else mret (inl off).

Definition boot_scramble_region (fa : flash_area) (off size : Z) (backwards : bool) : M W Z :=
  if size =? 0 then mret 0
  else if device_requires_erase fa then boot_erase_region fa off size backwards
  else if (fa_size fa <=? off) || (fa_size fa ⊖ off <? size) then mret (-1)
  else
    let write_block := flash_area_align fa in
    let buf := replicate (Z.to_nat BOOT_MAX_ALIGN) (flash_area_erased_val fa) in
    let end_offset :=
      if backwards then ALIGN_DOWN off write_block else ALIGN_DOWN (off ⊕ size) write_block in
    let off := if backwards then off ⊕ (size ⊖ write_block) else off in
    loop (region_fuel fa) (scramble_region_step fa backwards buf write_block end_offset) off.

(** Offset and size of the header to scramble, or an error. *)
Definition boot_header_scramble_off_sz (fa : flash_area) (slot : Z) : M W (Z + Z * Z) :=
  let write_block := flash_area_align fa in
  loff ←
    (if uses SWAP_USING_OFFSET && (slot =? BOOT_SLOT_SECONDARY) then
       if negb (MCUBOOT_LOGICAL_SECTOR_SIZE =? 0) then mret (inr MCUBOOT_LOGICAL_SECTOR_SIZE)
       else
         '(ret, sector) ← flash_area_get_sector fa 0;
         mret (if ret <? 0 then inl ret else inr (fs_size sector))
     else mret (inr 0));
  match loff with
  | inl ret => mret (inl ret)
  | inr loff =>
      if device_requires_erase fa then
        if negb (MCUBOOT_LOGICAL_SECTOR_SIZE =? 0) then mret (inr (loff, MCUBOOT_LOGICAL_SECTOR_SIZE))
        else
          '(ret, sector) ← flash_area_get_sector fa loff;
          mret (if ret <? 0 then inl ret else inr (loff, fs_size sector))
      else mret (inr (loff, ALIGN_UP 4 write_block))
  end.

Definition boot_trailer_scramble_offset (fa : flash_area) (alignment : Z) : M W (Z + Z) :=
  let alignment := if alignment <? flash_area_align fa then flash_area_align fa else alignment in
  if device_requires_erase fa then
    if negb (MCUBOOT_LOGICAL_SECTOR_SIZE =? 0) then
      mret (inr (ALIGN_DOWN (fa_size fa ⊖ boot_trailer_sz alignment) MCUBOOT_LOGICAL_SECTOR_SIZE))
    else
      '(ret, sector) ← flash_area_get_sector fa (fa_size fa ⊖ boot_trailer_sz alignment);
      mret (if ret <? 0 then inl ret else inr (fs_off sector))
  else mret (inr (fa_size fa ⊖ ALIGN_DOWN (boot_trailer_sz alignment) alignment)).

Definition boot_scramble_slot (fa : flash_area) (slot : Z) : M W Z :=
  if negb MCUBOOT_MINIMAL_SCRAMBLE then boot_scramble_region fa 0 (fa_size fa) false
  else
    hdr ← boot_header_scramble_off_sz fa slot;
    match hdr with
    | inl ret => mret ret
    | inr (off, size) =>
        ret ← boot_scramble_region fa off size false;
        if ret <? 0 then mret ret else
        tr ← boot_trailer_scramble_offset fa 0;
        match tr with
        | inl ret => mret ret
        | inr off => boot_scramble_region fa off (fa_size fa ⊖ off) true
        end
    end.

End Area.
