(* ===== verification/AreaProps.v ===== *)
(** * Erasing and scrambling: what is covered

    An erase covers exactly the sectors the range touches, in either direction; a
    forward overwrite covers the range; a backward overwrite misses its lowest
    write block. *)

From S2P Require Import Prelude Effects FlashMap BootConfig Trailer TrailerProps Area.

#[local] Set Default Proof Using "Type*".

(** ** Sectors by index *)

Definition in_sector (sizes : list Z) (k : nat) (off : Z) : Prop :=
  ∃ n, sizes !! k = Some n ∧ sector_off sizes k <= off < sector_off sizes k + n.

Lemma in_sector_S sizes k off :
  in_sector sizes k off → sector_off sizes k <= off < sector_off sizes (S k).
Proof. intros (n & Hn & ?). by rewrite (sector_off_S _ _ _ Hn). Qed.

Lemma in_sector_length sizes k off : in_sector sizes k off → (k < length sizes)%nat.
Proof. intros (n & Hn & _). by eapply lookup_lt_Some. Qed.

Lemma in_sector_le sizes i j a b :
  Forall (λ n, 0 < n) sizes → in_sector sizes i a → in_sector sizes j b → a <= b → (i <= j)%nat.
Proof.
  intros Hs Hi Hj Hab. apply in_sector_S in Hi, Hj. destruct (decide (i <= j)%nat); [done|].
  pose proof (sector_off_mono sizes (S j) i Hs ltac:(lia)). lia.
Qed.

Lemma sector_at_in sizes k off s :
  Forall (λ n, 0 < n) sizes → in_sector sizes k off → sector_at sizes off s →
  s = FlashSector (sector_off sizes k) (sector_off sizes (S k) - sector_off sizes k).
Proof.
  intros Hs Hk (i & n & Hi & -> & Ho). cbn in Ho.
  assert (in_sector sizes i off) as Hin by (by exists n).
  assert (i = k) as ->.
  { pose proof (in_sector_le sizes i k off off Hs Hin Hk). pose proof (in_sector_le sizes k i off off Hs Hk Hin). lia. }
  rewrite (sector_off_S _ _ _ Hi). f_equal. lia.
Qed.

Lemma sector_off_le_total sizes k :
  Forall (λ n, 0 < n) sizes → (k <= length sizes)%nat →
  0 <= sector_off sizes k <= sector_off sizes (length sizes).
Proof.
  intros Hs Hk. split; [|by apply sector_off_mono].
  change 0 with (sector_off sizes 0) at 1. apply sector_off_mono; [done|lia].
Qed.

(** ** Erased spans *)

Definition erase_span (ev : Z) (c : list cell) (a b : Z) : list cell := splice c a (erased ev (b - a)).

Lemma erase_span_up ev c a b d :
  0 <= a <= b → b <= d → d <= zlen c →
  splice (erase_span ev c a b) b (erased ev (d - b)) = erase_span ev c a d.
Proof.
  intros. unfold erase_span. rewrite splice_append by (rewrite ?zlen_erased; lia).
  rewrite erased_app by lia. f_equal. f_equal. lia.
Qed.

Lemma splice_prepend {A} (l : list A) a d b e :
  0 <= a → a + zlen d = b → b + zlen e <= zlen l →
  splice (splice l b e) a d = splice l a (d ++ e).
Proof.
  intros Ha Hb Hl. pose proof (zlen_nonneg d). pose proof (zlen_nonneg e).
  rewrite <- (splice_append l a b) by lia. apply list_eq. intros i.
  assert (Hz1 : zlen (splice l a d) = zlen l) by (apply zlen_splice; lia).
  assert (Hz2 : zlen (splice l b e) = zlen l) by (apply zlen_splice; lia).
  rewrite !lookup_splice by lia. repeat (case_decide; try done); lia.
Qed.

Lemma erase_span_down ev c a b d :
  0 <= a <= b → b <= d → d <= zlen c →
  splice (erase_span ev c b d) a (erased ev (b - a)) = erase_span ev c a d.
Proof.
  intros. unfold erase_span. rewrite splice_prepend by (rewrite ?zlen_erased; lia).
  rewrite erased_app by lia. f_equal. f_equal. lia.
Qed.

Section EraseRegion.
  Context {W : Type} `{FlashMapOk W} `{BootConfig}.
  Implicit Types (w : W).
  Context (fa : flash_area) (w0 : W).
  Hypothesis Ha : fm_area fa.
  Hypothesis Hbig : Forall (λ n, 1 < n) (fm_sizes fa).
  Hypothesis Hok0 : fm_ok w0.

#[local] Abbreviation so k := (sector_off (fm_sizes fa) k).

(** From the start [w0], the range [[a, b)] has been erased and nothing else. *)
Definition erased_range (a b : Z) w : Prop :=
  fm_ok w ∧ fm_cells w fa = erase_span (flash_area_erased_val fa) (fm_cells w0 fa) a b ∧
  ∀ fa', fm_area fa' → fa' ≠ fa → fm_cells w fa' = fm_cells w0 fa'.

Lemma sizes_pos : Forall (λ n, 0 < n) (fm_sizes fa).
Proof using Ha. apply (fm_sizes_ok fa Ha). Qed.

Lemma so_bounds k : (k <= length (fm_sizes fa))%nat → 0 <= so k <= fa_size fa.
Proof using Ha.
  intros Hk. pose proof (sector_off_le_total _ _ sizes_pos Hk). by rewrite (proj2 (fm_sizes_ok fa Ha)) in *.
Qed.

Lemma size_bound : 0 < fa_size fa < 2147483648.
Proof using Ha. destruct (fm_bounds fa Ha) as (? & ? & ?). lia. Qed.

Lemma get_sector_in w k off :
  fm_ok w → in_sector (fm_sizes fa) k off →
  flash_area_get_sector fa off w = (Ret (0, FlashSector (so k) (so (S k) - so k)), w).
Proof using Ha.
  intros Hok Hin. pose proof (in_sector_S _ _ _ Hin). pose proof (in_sector_length _ _ _ Hin).
  pose proof (so_bounds k ltac:(lia)). pose proof (so_bounds (S k) ltac:(lia)).
  destruct (fm_get_sector w fa off Hok Ha ltac:(lia)) as (s & Hs & ->).
  by rewrite (sector_at_in _ _ _ _ sizes_pos Hin Hs).
Qed.

Lemma so_step k : (k < length (fm_sizes fa))%nat → so k + 1 < so (S k).
Proof using Hbig.
  intros Hk. destruct (lookup_lt_is_Some_2 _ _ Hk) as [n Hn]. rewrite (sector_off_S _ _ _ Hn).
  pose proof (Forall_lookup_1 _ _ _ _ Hbig Hn). cbn in *. lia.
Qed.

Lemma in_sector_at k off :
  (k < length (fm_sizes fa))%nat → so k <= off < so (S k) → in_sector (fm_sizes fa) k off.
Proof using Type.
  intros Hk Ho. destruct (lookup_lt_is_Some_2 _ _ Hk) as [n Hn]. rewrite (sector_off_S _ _ _ Hn) in Ho.
  by exists n.
Qed.

(** Erasing one sector, given what is erased before and after it. *)
Lemma erase_sector_wp w k a b a' b' :
  (k < length (fm_sizes fa))%nat → erased_range a b w →
  splice (erase_span (flash_area_erased_val fa) (fm_cells w0 fa) a b) (so k)
    (erased (flash_area_erased_val fa) (so (S k) - so k)) =
  erase_span (flash_area_erased_val fa) (fm_cells w0 fa) a' b' →
  wp (flash_area_erase fa (so k) (so (S k) - so k)) (λ rc w', rc = 0 ∧ erased_range a' b' w')
     (λ w', erased_range a' b' w' ∨ erased_range a b w') w.
Proof using Ha.
  intros Hk (Hok & Hc & Hfr) Heq.
  eapply wp_mono; [apply fm_erase; [done|done|exists k, (S k); split_and!; lia]| |].
  - intros rc w' (-> & Hok' & Hc' & Hfr'). split; [done|]. split_and!; [done|by rewrite Hc', Hc|].
    intros fa' Ha' Hne. rewrite Hfr' by done. by apply Hfr.
  - intros w' [(Hok' & Hc' & Hfr')|(Hok' & Hs)].
    + left. split_and!; [done|by rewrite Hc', Hc|].
      intros fa' Ha' Hne. rewrite Hfr' by done. by apply Hfr.
    + right. split_and!; [done|by rewrite Hs, Hc|]. intros fa' Ha' Hne. rewrite Hs by done. by apply Hfr.
Qed.

Lemma zlen_w0 : zlen (fm_cells w0 fa) = fa_size fa.
Proof using Ha Hok0. by apply fm_len. Qed.

Lemma erased_range_nil k : (k <= length (fm_sizes fa))%nat → erased_range (so k) (so k) w0.
Proof using Ha Hok0.
  intros Hk. split_and!; [done| |done]. unfold erase_span. rewrite Z.sub_diag.
  symmetry. apply (splice_nil (A := cell)). pose proof (so_bounds k Hk). lia.
Qed.

Lemma so_le k l : (k <= l)%nat → so k <= so l.
Proof using Ha. intros. apply sector_off_mono; [apply sizes_pos|done]. Qed.

Context (i j : nat) (Hij : (i <= j)%nat) (Hj : (j < length (fm_sizes fa))%nat).

(** A reset leaves sectors erased from the end the erase started at. *)
Definition erase_crash (backwards : bool) w : Prop :=
  ∃ k l, (i <= k <= l)%nat ∧ (l <= S j)%nat ∧ (if backwards then l = S j else k = i) ∧
    erased_range (so k) (so l) w.

Lemma erase_forward off :
  in_sector (fm_sizes fa) i off →
  wp (loop (region_fuel fa) (erase_region_step fa false (so j)) off)
    (λ rc w', rc = 0 ∧ erased_range (so i) (so (S j)) w') (erase_crash false) w0.
Proof using Ha Hbig Hok0 Hij Hj.
  intros Hoff. pose proof size_bound.
  apply (wp_loop (λ o w, ∃ k, (i <= k <= j)%nat ∧ in_sector (fm_sizes fa) k o ∧ erased_range (so i) (so k) w)
           (λ o, fa_size fa - o)).
  - intros o w (k & Hk & Hin & Her). pose proof (in_sector_S _ _ _ Hin).
    pose proof (so_bounds k ltac:(lia)). pose proof (so_bounds (S k) ltac:(lia)). pose proof (so_bounds i ltac:(lia)).
    pose proof (so_le i k ltac:(lia)). unfold erase_region_step.
    apply wp_bind. eapply wp_pure; [eapply get_sector_in; [apply Her|done]|]. cbn [Z.ltb Z.compare fs_off fs_size].
    apply wp_bind. eapply wp_mono; [eapply (erase_sector_wp w k _ _ (so i) (so (S k))); [lia|done|]| |].
    { rewrite erase_span_up; [done|lia|lia|]. rewrite zlen_w0. lia. }
    + intros rc w' [-> Her']. cbn [Z.ltb Z.compare]. rewrite (u32_small (so k + _)) by (unfold is_u32; lia).
      replace (so k + (so (S k) - so k)) with (so (S k)) by lia. case_if Hend; apply wp_ret.
      * assert (k = j) as ->; [|done]. destruct (decide (k = j)); [done|].
        pose proof (so_le (S k) j ltac:(lia)). lia.
      * assert (k ≠ j) as Hne. { intros ->. pose proof (so_step j Hj). lia. }
        pose proof (so_step (S k) ltac:(lia)). pose proof (so_bounds (S (S k)) ltac:(lia)).
        rewrite u32_small by (unfold is_u32; lia). split; [|lia].
        exists (S k). split_and!; [lia|lia|apply in_sector_at; lia|done].
    + intros w' [Hr|Hr]; [exists i, (S k)|exists i, k]; split_and!; (lia || done).
  - exists i. split_and!; [lia|lia|done|]. apply erased_range_nil. lia.
  - pose proof (in_sector_S _ _ _ Hoff). pose proof (so_bounds i ltac:(lia)). unfold region_fuel. lia.
  - pose proof (in_sector_S _ _ _ Hoff). pose proof (so_bounds (S i) ltac:(lia)). lia.
Qed.

Lemma erase_backward off :
  in_sector (fm_sizes fa) j off →
  wp (loop (region_fuel fa) (erase_region_step fa true (so i)) off)
    (λ rc w', rc = 0 ∧ erased_range (so i) (so (S j)) w') (erase_crash true) w0.
Proof using Ha Hbig Hok0 Hij Hj.
  intros Hoff. pose proof size_bound.
  apply (wp_loop (λ o w, ∃ k, (i <= k <= j)%nat ∧ in_sector (fm_sizes fa) k o ∧
                              erased_range (so (S k)) (so (S j)) w) (λ o, o)).
  - intros o w (k & Hk & Hin & Her). pose proof (in_sector_S _ _ _ Hin).
    pose proof (so_bounds k ltac:(lia)). pose proof (so_bounds (S k) ltac:(lia)). pose proof (so_bounds (S j) ltac:(lia)).
    pose proof (so_le (S k) (S j) ltac:(lia)). unfold erase_region_step.
    apply wp_bind. eapply wp_pure; [eapply get_sector_in; [apply Her|done]|]. cbn [Z.ltb Z.compare fs_off fs_size].
    apply wp_bind. eapply wp_mono; [eapply (erase_sector_wp w k _ _ (so k) (so (S j))); [lia|done|]| |].
    { rewrite erase_span_down; [done|lia|lia|]. rewrite zlen_w0. lia. }
    + intros rc w' [-> Her']. cbn [Z.ltb Z.compare]. case_if Hend; apply wp_ret.
      * assert (k = i) as ->; [|done]. destruct (decide (k = i)); [done|].
        pose proof (so_le (S i) k ltac:(lia)). pose proof (so_step i ltac:(lia)). lia.
      * assert (k ≠ i) as Hne by (intros ->; lia). destruct k as [|k]; [lia|].
        pose proof (so_step k ltac:(lia)). pose proof (so_bounds k ltac:(lia)).
        rewrite u32_small by (unfold is_u32; lia). split; [|lia].
        exists k. split_and!; [lia|lia|apply in_sector_at; lia|done].
    + intros w' [Hr|Hr]; [exists k, (S j)|exists (S k), (S j)]; split_and!; (lia || done).
  - exists j. split_and!; [lia|lia|done|]. apply erased_range_nil. lia.
  - pose proof (in_sector_S _ _ _ Hoff). pose proof (so_bounds (S j) ltac:(lia)). unfold region_fuel. lia.
  - pose proof (in_sector_S _ _ _ Hoff). pose proof (so_bounds j ltac:(lia)). lia.
Qed.
End EraseRegion.

(** Two multiples of a block, one below the other, are a block apart. *)
Lemma mult_step b x y : 0 < b → x mod b = 0 → y mod b = 0 → x < y → x + b <= y.
Proof.
  intros Hb Hx Hy Hlt. pose proof (Z.div_mod x b). pose proof (Z.div_mod y b).
  assert (x / b < y / b) by nia. nia.
Qed.

Section ScrambleRegion.
  Context {W : Type} `{FlashMapOk W} `{BootConfig}.
  Implicit Types (w : W).
  Context (fa : flash_area) (w0 : W).
  Hypothesis Ha : fm_area fa.
  Hypothesis Hok0 : fm_ok w0.
  Hypothesis Hrw : fm_rewritable fa.
  Hypothesis Hal : flash_area_align fa <= BOOT_MAX_ALIGN.

#[local] Abbreviation wb := (flash_area_align fa).
#[local] Abbreviation ev := (flash_area_erased_val fa).
#[local] Abbreviation blank n := (written (replicate (Z.to_nat n) ev)).

(** From the start [w0], the range [[a, b)] has been overwritten with the erased
    value and nothing else changed. *)
Definition scrambled_range (a b : Z) w : Prop :=
  fm_ok w ∧ fm_cells w fa = splice (fm_cells w0 fa) a (blank (b - a)) ∧
  ∀ fa', fm_area fa' → fa' ≠ fa → fm_cells w fa' = fm_cells w0 fa'.

Lemma zlen_blank n : 0 <= n → zlen (blank n) = n.
Proof. intros. rewrite zlen_written, zlen_replicate. lia. Qed.

Lemma blank_app n m : 0 <= n → 0 <= m → blank n ++ blank m = blank (n + m).
Proof. intros. unfold written. rewrite <- fmap_app, <- replicate_add. do 2 f_equal. lia. Qed.

Lemma wb_bounds : 1 <= wb <= 32 ∧ fa_size fa mod wb = 0.
Proof using Ha Hal.
  destruct (fm_align fa Ha) as (k & Hk & Hwb).
  assert (2 ^ 0 <= 2 ^ k <= 2 ^ 5) by (split; apply Z.pow_le_mono_r; lia). split; [rewrite Hwb; lia|].
  destruct (fm_sizes_ok fa Ha) as [_ <-]. unfold sector_off. rewrite firstn_all.
  pose proof (fm_align_sectors fa Ha) as Hs. rewrite Hwb in *.
  induction (fm_sizes fa) as [|n l IH]; [by cbn|]. apply Forall_cons_1 in Hs as [Hn Hl].
  change (zsum (n :: l)) with (n + zsum l). specialize (IH Hl).
  rewrite Z.add_mod by lia. by rewrite Hn, IH.
Qed.

Lemma scrambled_nil a : 0 <= a → scrambled_range a a w0.
Proof using Hok0.
  intros Ha0. split_and!; [done| |done]. rewrite Z.sub_diag. symmetry. by apply (splice_nil (A := cell)).
Qed.

(** Overwriting one write block. *)
Lemma write_block_wp w off a b a' b' :
  0 <= off → off + wb <= fa_size fa → off mod wb = 0 → scrambled_range a b w →
  splice (splice (fm_cells w0 fa) a (blank (b - a))) off (blank wb) =
    splice (fm_cells w0 fa) a' (blank (b' - a')) →
  wp (flash_area_write fa off (slice (replicate (Z.to_nat BOOT_MAX_ALIGN) ev) 0 wb))
    (λ rc w', rc = 0 ∧ scrambled_range a' b' w')
    (λ w', scrambled_range a' b' w' ∨ scrambled_range a b w') w.
Proof using Ha Hal Hrw.
  intros Ho Hend Hm (Hok & Hc & Hfr) Heq. destruct wb_bounds as [Hwb _].
  rewrite slice_replicate by lia.
  assert (Hl : zlen (replicate (Z.to_nat wb) ev) = wb) by (rewrite zlen_replicate; lia).
  eapply wp_mono; [apply fm_write; rewrite ?Hl; try done; try lia|..].
  - apply Z.mod_same. lia.
  - apply Forall_replicate_is_u8. by apply fm_erased_val.
  - by left.
  - intros rc w' (-> & Hok' & Hc' & Hfr'). split; [done|]. split_and!; [done|by rewrite Hc', Hc|].
    intros fa' Ha' Hne. rewrite Hfr' by done. by apply Hfr.
  - intros w' [(Hok' & Hc' & Hfr')|(Hok' & Hs)].
    + left. split_and!; [done|by rewrite Hc', Hc|].
      intros fa' Ha' Hne. rewrite Hfr' by done. by apply Hfr.
    + right. split_and!; [done|by rewrite Hs, Hc|]. intros fa' Ha' Hne. rewrite Hs by done. by apply Hfr.
Qed.

Context (off size : Z) (Hoff : 0 <= off) (Hsize : 0 < size) (Hend : off + size <= fa_size fa).
Context (Hmo : off mod flash_area_align fa = 0) (Hms : size mod flash_area_align fa = 0).

(** The intermediate states of an overwrite. *)
Definition scramble_crash w : Prop :=
  ∃ a b, off <= a <= b ∧ b <= off + size ∧ scrambled_range a b w.

Lemma scramble_forward :
  wp (loop (region_fuel fa)
        (scramble_region_step fa false (replicate (Z.to_nat BOOT_MAX_ALIGN) ev) wb (off + size)) off)
    (λ rc w', rc = 0 ∧ scrambled_range off (off + size) w') scramble_crash w0.
Proof using Ha Hal Hrw Hok0 Hoff Hsize Hend Hmo Hms.
  destruct wb_bounds as [Hwb Hsz]. destruct (fm_bounds fa Ha) as (? & ? & ?).
  pose proof (fm_len w0 fa Hok0 Ha) as Hlen.
  apply (wp_loop (λ o w, off <= o < off + size ∧ o mod wb = 0 ∧ scrambled_range off o w) (λ o, fa_size fa - o)).
  - intros o w (Ho & Hm & Hsc). unfold scramble_region_step. rewrite (proj2 (Z.eqb_neq _ _)) by lia.
    assert (o + wb <= off + size).
    { apply mult_step; [lia|done| |lia]. rewrite Z.add_mod, Hmo, Hms by lia. done. }
    apply wp_bind. eapply wp_mono; [eapply (write_block_wp w o off o off (o + wb)); [lia|lia|done|done|]| |].
    { rewrite splice_append by (rewrite ?zlen_blank; lia). rewrite blank_app by lia. do 3 f_equal. lia. }
    + intros rc w' [-> Hsc']. cbn [Z.eqb negb]. rewrite u32_small by (unfold is_u32; lia).
      case_if He; apply wp_ret.
      * replace (off + size) with (o + wb) by lia. done.
      * split; [|lia]. split_and!; [lia|lia| |done]. rewrite Z.add_mod, Hm, Z.mod_same by lia. done.
    + intros w' [Hr|Hr]; [exists off, (o + wb)|exists off, o]; split_and!; (lia || done).
  - split_and!; [lia|lia|done|]. by apply scrambled_nil.
  - unfold region_fuel. lia.
  - lia.
Qed.

(** Descending, the loop stops before the block at [off]. *)
Lemma scramble_backward :
  wp (loop (region_fuel fa)
        (scramble_region_step fa true (replicate (Z.to_nat BOOT_MAX_ALIGN) ev) wb off) (off + size - wb))
    (λ rc w', rc = 0 ∧ scrambled_range (off + wb) (off + size) w') scramble_crash w0.
Proof using Ha Hal Hrw Hok0 Hoff Hsize Hend Hmo Hms.
  destruct wb_bounds as [Hwb Hsz]. destruct (fm_bounds fa Ha) as (? & ? & ?).
  pose proof (fm_len w0 fa Hok0 Ha) as Hlen.
  assert (0 + wb <= size) by (apply mult_step; [lia|apply Z.mod_0_l; lia|done|lia]).
  apply (wp_loop (λ o w, off <= o <= off + size - wb ∧ o mod wb = 0 ∧ scrambled_range (o + wb) (off + size) w) (λ o, o)).
  - intros o w (Ho & Hm & Hsc). unfold scramble_region_step. case_if Heq.
    { apply wp_ret. by rewrite Heq in Hsc. }
    assert (off + wb <= o) by (apply mult_step; done || lia).
    apply wp_bind. eapply wp_mono; [eapply (write_block_wp w o (o + wb) (off + size) o (off + size)); [lia|lia|done|done|]| |].
    { rewrite splice_prepend by (rewrite ?zlen_blank; lia). rewrite blank_app by lia. do 3 f_equal. lia. }
    + intros rc w' [-> Hsc']. cbn [Z.eqb negb]. rewrite (proj2 (Z.leb_gt o off)) by lia.
      rewrite u32_small by (unfold is_u32; lia). apply wp_ret. split; [|lia].
      split_and!; [lia|lia|rewrite Zminus_mod, Hm, Z.mod_same by lia; done|].
      by replace (o - wb + wb) with o by lia.
    + intros w' [Hr|Hr]; [exists o, (off + size)|exists (o + wb), (off + size)]; split_and!; (lia || done).
  - split_and!; [lia|lia| |].
    + rewrite Zminus_mod, Z.add_mod, Hmo, Hms, Z.mod_same by lia. done.
    + replace (off + size - wb + wb) with (off + size) by lia. apply scrambled_nil. lia.
  - unfold region_fuel. lia.
  - lia.
Qed.
End ScrambleRegion.

Section Regions.
  Context {W : Type} `{FlashMapOk W} `{BootConfig}.
  Implicit Types (fa : flash_area) (w : W).

#[local] Abbreviation so fa k := (sector_off (fm_sizes fa) k).

Lemma sector_of w fa off :
  fm_ok w → fm_area fa → 0 <= off < fa_size fa → ∃ k, in_sector (fm_sizes fa) k off.
Proof.
  intros Hok Ha Ho. destruct (fm_get_sector w fa off Hok Ha Ho) as (s & (k & n & Hk & -> & Hs) & _).
  exists k, n. done.
Qed.

Lemma erase_region_wp w fa off size backwards i j :
  fm_ok w → fm_area fa → Forall (λ n, 1 < n) (fm_sizes fa) → device_requires_erase fa = true →
  0 <= off → 0 < size → off + size <= fa_size fa →
  in_sector (fm_sizes fa) i off → in_sector (fm_sizes fa) j (off + size - 1) →
  wp (boot_erase_region fa off size backwards)
    (λ rc w', rc = 0 ∧ erased_range fa w (so fa i) (so fa (S j)) w') (erase_crash fa w i j backwards) w.
Proof.
  intros Hok Ha Hbig Hre Ho Hs Hend Hi Hj. destruct (fm_bounds fa Ha) as (? & ? & ?).
  pose proof (in_sector_le _ _ _ _ _ (sizes_pos fa Ha) Hi Hj ltac:(lia)) as Hij.
  pose proof (in_sector_length _ _ _ Hj) as Hjl.
  unfold boot_erase_region. rewrite Hre, (proj2 (Z.leb_gt _ _)), (u32_small (fa_size fa - off)) by (unfold is_u32; lia).
  rewrite (proj2 (Z.ltb_ge _ _)) by lia. cbn [orb].
  rewrite !(u32_small (off + size)), !u32_small by (unfold is_u32; rewrite ?u32_small; unfold is_u32; lia).
  apply wp_bind. destruct backwards.
  - eapply wp_pure; [by eapply get_sector_in|]. cbn [Z.ltb Z.compare fs_off fs_size].
    apply erase_backward; try done. by replace (off + (size - 1)) with (off + size - 1) by lia.
  - eapply wp_pure; [by eapply get_sector_in|]. cbn [Z.ltb Z.compare fs_off fs_size].
    by apply erase_forward.
Qed.

(** A sector in an erased range is erased, one outside it is as before. *)
Lemma erased_range_sector w w' fa a b k :
  fm_ok w → fm_area fa → erased_range fa w (so fa a) (so fa b) w' →
  (a <= b)%nat → (b <= length (fm_sizes fa))%nat → (k < length (fm_sizes fa))%nat →
  let n := so fa (S k) - so fa k in
  slice (fm_cells w' fa) (so fa k) n =
    if decide (a <= k < b)%nat then erased (flash_area_erased_val fa) n
    else slice (fm_cells w fa) (so fa k) n.
Proof.
  intros Hok Ha (_ & Hc & _) Hab Hb Hk n. pose proof (fm_len w fa Hok Ha) as Hlen.
  pose proof (so_bounds fa Ha a ltac:(lia)). pose proof (so_bounds fa Ha b ltac:(lia)).
  pose proof (so_bounds fa Ha k ltac:(lia)). pose proof (so_le fa Ha a b Hab).
  pose proof (so_le fa Ha k (S k) ltac:(lia)).
  rewrite Hc. unfold erase_span. case_decide as Hin.
  - pose proof (so_le fa Ha a k ltac:(lia)). pose proof (so_le fa Ha (S k) b ltac:(lia)).
    rewrite slice_splice_inside by (rewrite ?zlen_erased; lia). apply slice_erased; lia.
  - apply slice_splice_disj; rewrite ?zlen_erased; try lia.
    destruct (decide (k < a)%nat); [left; pose proof (so_le fa Ha (S k) a ltac:(lia)); lia|].
    right. pose proof (so_le fa Ha b k ltac:(lia)). lia.
Qed.

(** erasing a region of a device that needs erase, upwards or downwards, erases
    exactly the sectors that the region touches, keeps every other sector and every
    other area, and terminates with success; after a reset each sector is either
    untouched, or one of the touched sectors and erased. *)
Theorem erase_region_exact w fa off size backwards :
  fm_ok w → fm_area fa → Forall (λ n, 1 < n) (fm_sizes fa) → device_requires_erase fa = true →
  0 <= off → 0 < size → off + size <= fa_size fa →
  let touched k := bool_decide (so fa k < off + size ∧ off < so fa (S k)) in
  let sector w' k := slice (fm_cells w' fa) (so fa k) (so fa (S k) - so fa k) in
  let blank k := erased (flash_area_erased_val fa) (so fa (S k) - so fa k) in
  let others w' := ∀ fa', fm_area fa' → fa' ≠ fa → fm_cells w' fa' = fm_cells w fa' in
  wp (boot_erase_region fa off size backwards)
    (λ rc w', rc = 0 ∧ others w' ∧ ∀ k, (k < length (fm_sizes fa))%nat →
       sector w' k = if touched k then blank k else sector w k)
    (λ w', others w' ∧ ∀ k, (k < length (fm_sizes fa))%nat →
       sector w' k = sector w k ∨ touched k = true ∧ sector w' k = blank k) w.
Proof.
  intros Hok Ha Hbig Hre Ho Hs Hend touched sector blank others.
  destruct (sector_of w fa off Hok Ha ltac:(lia)) as [i Hi].
  destruct (sector_of w fa (off + size - 1) Hok Ha ltac:(lia)) as [j Hj].
  pose proof (in_sector_le _ _ _ _ _ (sizes_pos fa Ha) Hi Hj ltac:(lia)) as Hij.
  pose proof (in_sector_length _ _ _ Hj) as Hjl. pose proof (in_sector_S _ _ _ Hi). pose proof (in_sector_S _ _ _ Hj).
  assert (Htouch : ∀ k, (k < length (fm_sizes fa))%nat → touched k = bool_decide (i <= k < S j)%nat).
  { intros k Hk. unfold touched. apply bool_decide_ext. split.
    - intros [Hk1 Hk2]. split.
      + destruct (decide (i <= k)%nat); [done|]. pose proof (so_le fa Ha (S k) i ltac:(lia)). lia.
      + destruct (decide (k < S j)%nat); [done|]. pose proof (so_le fa Ha (S j) k ltac:(lia)). lia.
    - intros Hk'. pose proof (so_le fa Ha (S i) (S k) ltac:(lia)). pose proof (so_le fa Ha k j ltac:(lia)). lia. }
  eapply wp_mono; [by eapply (erase_region_wp w fa off size backwards i j)| |].
  - intros rc w' [-> Her]. split_and!; [done|by destruct Her as (_ & _ & ?)|]. intros k Hk. rewrite Htouch by done. unfold sector, blank.
    rewrite (erased_range_sector w w' fa i (S j)) by (done || lia). by case_decide; case_bool_decide.
  - intros w' (a & b & Hab & Hb & _ & Her). split; [by destruct Her as (_ & _ & ?)|]. intros k Hk. rewrite Htouch by done. unfold sector, blank.
    rewrite (erased_range_sector w w' fa a b) by (done || lia).
    case_decide; [right; split; [|done]; apply bool_decide_eq_true; lia|by left].
Qed.

Lemma scramble_region_rewrite w fa off size backwards :
  fm_area fa → device_requires_erase fa = false → 0 <= off → 0 < size → off + size <= fa_size fa →
  flash_area_align fa <= size → off mod flash_area_align fa = 0 → size mod flash_area_align fa = 0 →
  boot_scramble_region fa off size backwards w =
    loop (region_fuel fa)
      (scramble_region_step fa backwards (replicate (Z.to_nat BOOT_MAX_ALIGN) (flash_area_erased_val fa))
         (flash_area_align fa) (if backwards then off else off + size))
      (if backwards then off + size - flash_area_align fa else off) w.
Proof.
  intros Ha Hre Ho Hs Hend Hle Hmo Hms. destruct (fm_bounds fa Ha) as (? & ? & ?).
  destruct (fm_align fa Ha) as (k & Hk & Hwb). assert (0 < 2 ^ k) by (apply Z.pow_pos_nonneg; lia).
  unfold boot_scramble_region. rewrite Hre, (proj2 (Z.eqb_neq size 0)), (proj2 (Z.leb_gt _ _)) by lia.
  rewrite (u32_small (fa_size fa - off)) by (unfold is_u32; lia).
  rewrite (proj2 (Z.ltb_ge _ _)) by lia. cbn [orb]. cbv zeta.
  rewrite (u32_small (off + size)), (u32_small (size - _)), (u32_small (off + (size - _))) by (unfold is_u32; lia).
  assert (Hd : ∀ x, 0 <= x < 4294967296 → x mod flash_area_align fa = 0 → ALIGN_DOWN x (flash_area_align fa) = x).
  { intros x Hx Hm. rewrite Hwb in *. rewrite ALIGN_DOWN_pow2 by (unfold is_u32; lia).
    pose proof (Z.div_mod x (2 ^ k)). lia. }
  assert (Hsm : (off + size) mod flash_area_align fa = 0) by (rewrite Z.add_mod, Hmo, Hms by lia; done).
  rewrite (Hd off), (Hd (off + size)) by (done || lia).
  destruct backwards; [|done]. by replace (off + (size - flash_area_align fa)) with (off + size - flash_area_align fa) by lia.
Qed.

Lemma align_le_size fa size :
  fm_area fa → 0 < size → size mod flash_area_align fa = 0 → flash_area_align fa <= size.
Proof.
  intros Ha Hs Hm. destruct (fm_align fa Ha) as (k & Hk & Hwb). assert (0 < 2 ^ k) by (apply Z.pow_pos_nonneg; lia).
  pose proof (mult_step (flash_area_align fa) 0 size). rewrite Z.mod_0_l in * by lia. lia.
Qed.

(** on a device without erase, scrambling a write-block aligned region upwards
    overwrites every byte of the region with the erased value and nothing else; a
    reset leaves part of the region overwritten and the rest of the device as it
    was. *)
Theorem scramble_region_upwards w fa off size :
  fm_ok w → fm_area fa → fm_rewritable fa → device_requires_erase fa = false →
  flash_area_align fa <= BOOT_MAX_ALIGN → 0 <= off → 0 < size → off + size <= fa_size fa →
  off mod flash_area_align fa = 0 → size mod flash_area_align fa = 0 →
  wp (boot_scramble_region fa off size false)
    (λ rc w', rc = 0 ∧ scrambled_range fa w off (off + size) w') (scramble_crash fa w off size) w.
Proof.
  intros Hok Ha Hrw Hre Hal Ho Hs Hend Hmo Hms. pose proof (align_le_size fa size Ha Hs Hms).
  eapply wp_eq; [by apply scramble_region_rewrite|]. by apply scramble_forward.
Qed.

(** C37: on a device without erase, scrambling a region downwards stops one write
    block early: the lowest block of the region keeps its contents (whatever it
    held), only the blocks above it are overwritten, and the call reports
    success. *)
Theorem scramble_region_downwards_skips w fa off size :
  fm_ok w → fm_area fa → fm_rewritable fa → device_requires_erase fa = false →
  flash_area_align fa <= BOOT_MAX_ALIGN → 0 <= off → 0 < size → off + size <= fa_size fa →
  off mod flash_area_align fa = 0 → size mod flash_area_align fa = 0 →
  wp (boot_scramble_region fa off size true)
    (λ rc w', rc = 0 ∧ scrambled_range fa w (off + flash_area_align fa) (off + size) w' ∧
              slice (fm_cells w' fa) off (flash_area_align fa) = slice (fm_cells w fa) off (flash_area_align fa))
    (scramble_crash fa w off size) w.
Proof.
  intros Hok Ha Hrw Hre Hal Ho Hs Hend Hmo Hms. pose proof (align_le_size fa size Ha Hs Hms).
  pose proof (wb_bounds fa Ha Hal) as [? _].
  eapply wp_eq; [by apply scramble_region_rewrite|].
  eapply wp_mono; [by apply (scramble_backward fa w Ha Hok Hrw Hal off size)| |done].
  intros rc w' [-> Hsc]. split_and!; [done|done|]. destruct Hsc as (_ & -> & _).
  apply slice_splice_disj; rewrite ?zlen_written, ?zlen_replicate, ?(fm_len w fa Hok Ha); lia.
Qed.

(** Only area [fa] has changed. *)
Definition only_area fa w w' : Prop :=
  fm_ok w' ∧ ∀ fa', fm_area fa' → fa' ≠ fa → fm_cells w' fa' = fm_cells w fa'.

(** What the device must offer for a whole area to be blanked. *)
Definition can_blank fa : Prop :=
  if device_requires_erase fa then Forall (λ n, 1 < n) (fm_sizes fa)
  else fm_rewritable fa ∧ flash_area_align fa <= BOOT_MAX_ALIGN.

Lemma scramble_whole_wp w fa :
  fm_ok w → fm_area fa → can_blank fa →
  wp (boot_scramble_region fa 0 (fa_size fa) false)
    (λ rc w', rc = 0 ∧ only_area fa w w' ∧
       vals (fm_cells w' fa) = replicate (Z.to_nat (fa_size fa)) (flash_area_erased_val fa))
    (only_area fa w) w.
Proof.
  intros Hok Ha Hdev. unfold can_blank in Hdev.
  destruct (fm_bounds fa Ha) as (? & ? & ?). destruct (fm_sizes_ok fa Ha) as [Hpos Htot].
  pose proof (fm_len w fa Hok Ha) as Hlen. assert (Hl : length (fm_cells w fa) = Z.to_nat (fa_size fa)) by (unfold zlen in *; lia).
  destruct (device_requires_erase fa) eqn:Hre.
  - unfold boot_scramble_region. rewrite (proj2 (Z.eqb_neq _ 0)), Hre by lia.
    destruct (sector_of w fa 0 Hok Ha ltac:(lia)) as [i Hi].
    destruct (sector_of w fa (fa_size fa - 1) Hok Ha ltac:(lia)) as [j Hj].
    pose proof (in_sector_S _ _ _ Hi). pose proof (in_sector_S _ _ _ Hj).
    pose proof (in_sector_length _ _ _ Hi). pose proof (in_sector_length _ _ _ Hj).
    pose proof (so_bounds fa Ha i ltac:(lia)). pose proof (so_bounds fa Ha (S j) ltac:(lia)).
    eapply wp_mono; [apply (erase_region_wp w fa 0 (fa_size fa) false i j); done || lia| |].
    + intros rc w' (-> & Hok' & Hc & Hfr). split_and!; [done..|]. rewrite Hc. unfold erase_span.
      replace (so fa i) with 0 by lia. replace (so fa (S j)) with (fa_size fa) by lia.
      rewrite Z.sub_0_r, vals_splice, vals_erased. unfold splice. cbn [Z.to_nat take].
      rewrite drop_ge; [by rewrite app_nil_r|]. unfold vals. rewrite length_replicate, length_fmap. lia.
    + by intros w' (k & l & _ & _ & _ & Hok' & _ & Hfr).
  - destruct Hdev as [Hrw Hal]. pose proof (wb_bounds fa Ha Hal) as [? Hsz].
    eapply wp_eq; [apply scramble_region_rewrite; try done; try lia|].
    { by apply align_le_size. }
    eapply wp_mono; [apply (scramble_forward fa w Ha Hok Hrw Hal 0 (fa_size fa)); (done || lia || apply Z.mod_0_l; lia)| |].
    + intros rc w' (-> & Hok' & Hc & Hfr). split_and!; [done..|]. rewrite Hc, vals_splice, vals_written, Z.add_0_l, Z.sub_0_r.
      unfold splice. cbn [Z.to_nat take]. rewrite drop_ge; [by rewrite app_nil_r|].
      unfold vals. rewrite length_replicate, length_fmap. lia.
    + by intros w' (k & l & _ & _ & Hok' & _ & Hfr).
Qed.

(** without minimal scrambling, invalidating a slot blanks all of it: on a
    device with erase every cell of the slot is erased, on a device without erase
    every byte reads as the erased value. *)
Theorem scramble_slot_full w fa slot :
  fm_ok w → fm_area fa → MCUBOOT_MINIMAL_SCRAMBLE = false → can_blank fa →
  wp (boot_scramble_slot fa slot)
    (λ rc w', rc = 0 ∧ only_area fa w w' ∧
       vals (fm_cells w' fa) = replicate (Z.to_nat (fa_size fa)) (flash_area_erased_val fa))
    (only_area fa w) w.
Proof.
  intros Hok Ha Hmin Hdev. unfold boot_scramble_slot. rewrite Hmin. by apply scramble_whole_wp.
Qed.
End Regions.
