(* ===== verification/Image.v ===== *)
(** * Image headers

    image.h and the header checks of bootutil_public.c, bootutil_priv.h and
    bootutil_loader.c: the header as a record with its little-endian byte form,
    overflow-checked additions, and the acceptance test of a header. *)

From S2P Require Import Prelude Effects FlashMap BootConfig.

Definition IMAGE_MAGIC : Z := 0x96f3b83d.
Definition IMAGE_TLV_INFO_MAGIC : Z := 0x6907.
Definition IMAGE_TLV_PROT_INFO_MAGIC : Z := 0x6908.
Definition IMAGE_HEADER_SIZE : Z := 32.
Definition IMAGE_F_ENCRYPTED_AES128 : Z := 0x4.
Definition IMAGE_F_ENCRYPTED_AES256 : Z := 0x8.
Definition IMAGE_F_NON_BOOTABLE : Z := 0x10.
Definition IMAGE_F_COMPRESSED_LZMA1 : Z := 0x200.
Definition IMAGE_F_COMPRESSED_LZMA2 : Z := 0x400.
Definition IMAGE_F_COMPRESSED_ARM_THUMB_FLT : Z := 0x800.
Definition IMAGE_TLV_ANY : Z := 0xffff.

Record image_version := ImageVersion {
  iv_major : Z;
  iv_minor : Z;
  iv_revision : Z;
  iv_build_num : Z;
}.

Record image_header := ImageHeader {
  ih_magic : Z;
  ih_load_addr : Z;
  ih_hdr_size : Z;
  ih_protect_tlv_size : Z;
  ih_img_size : Z;
  ih_flags : Z;
  ih_ver : image_version;
  ih_pad1 : Z;
}.

(** The packed structure read from flash. *)
Definition header_of_bytes (b : list Z) : image_header :=
  ImageHeader (le_dec (slice b 0 4)) (le_dec (slice b 4 4)) (le_dec (slice b 8 2))
    (le_dec (slice b 10 2)) (le_dec (slice b 12 4)) (le_dec (slice b 16 4))
    (ImageVersion (le_dec (slice b 20 1)) (le_dec (slice b 21 1)) (le_dec (slice b 22 2))
       (le_dec (slice b 24 4)))
    (le_dec (slice b 28 4)).

Definition header_bytes (h : image_header) : list Z :=
  le_enc 4 (ih_magic h) ++ le_enc 4 (ih_load_addr h) ++ le_enc 2 (ih_hdr_size h) ++
  le_enc 2 (ih_protect_tlv_size h) ++ le_enc 4 (ih_img_size h) ++ le_enc 4 (ih_flags h) ++
  le_enc 1 (iv_major (ih_ver h)) ++ le_enc 1 (iv_minor (ih_ver h)) ++
  le_enc 2 (iv_revision (ih_ver h)) ++ le_enc 4 (iv_build_num (ih_ver h)) ++ le_enc 4 (ih_pad1 h).

(** ** Checked additions (bootutil_priv.h) *)

Definition boot_u32_safe_add (a b : Z) : option Z :=
  if UINT32_MAX ⊖ b <? a then None else Some (a ⊕ b).

Definition boot_u16_safe_add (a b : Z) : option Z :=
  let tmp := a ⊕ b in
  if UINT16_MAX <? tmp then None else Some (u16 tmp).

Definition BOOT_TLV_OFF (hdr : image_header) : Z := ih_hdr_size hdr ⊕ ih_img_size hdr.

Definition IS_ENCRYPTED (hdr : image_header) : bool :=
  negb (Z.land (ih_flags hdr) IMAGE_F_ENCRYPTED_AES128 =? 0) ||
  negb (Z.land (ih_flags hdr) IMAGE_F_ENCRYPTED_AES256 =? 0).

Definition COMPRESSIONFLAGS : Z :=
  Z.lor (Z.lor IMAGE_F_COMPRESSED_LZMA1 IMAGE_F_COMPRESSED_LZMA2) IMAGE_F_COMPRESSED_ARM_THUMB_FLT.
Definition IS_COMPRESSED (hdr : image_header) : bool :=
  negb (Z.land (ih_flags hdr) COMPRESSIONFLAGS =? 0).

Section Header.
  Context {W : Type} `{FlashMap W}.

(** The size test of [boot_image_load_header]. *)
Definition header_size_ok (fa : flash_area) (hdr : image_header) : bool :=
  match boot_u32_safe_add (ih_img_size hdr) (ih_hdr_size hdr) with
  | None => false
  | Some size =>
      match boot_u32_safe_add size (ih_protect_tlv_size hdr) with
      | None => false
      | Some size => negb (fa_size fa <=? size)
      end
  end.

(** The header is an output parameter also on errors. *)
Definition boot_image_load_header (fa_p : flash_area) : M W (Z * image_header) :=
  '(rc, b) ← flash_area_read fa_p 0 IMAGE_HEADER_SIZE;
  let hdr := header_of_bytes b in
  if negb (rc =? 0) then mret (BOOT_EFLASH, hdr)
  else if negb (ih_magic hdr =? IMAGE_MAGIC) then mret (BOOT_EBADIMAGE, hdr)
  else if negb (Z.land (ih_flags hdr) IMAGE_F_NON_BOOTABLE =? 0) then mret (BOOT_EBADIMAGE, hdr)
  else if negb (header_size_ok fa_p hdr) then mret (BOOT_EBADIMAGE, hdr)
  else mret (0, hdr).

End Header.

(** [boot_check_header_valid] for the slot area [fap] and its header, without
    encryption and decompression support. *)
Definition boot_check_header_valid (fap : flash_area) (hdr : image_header) : bool :=
  if negb (ih_magic hdr =? IMAGE_MAGIC) then false
  else if negb (header_size_ok fap hdr) then false
  else if IS_ENCRYPTED hdr then false
  else if IS_COMPRESSED hdr then false
  else true.

(** [boot_compare_version]; [use_build] is
    [MCUBOOT_VERSION_CMP_USE_BUILD_NUMBER]. *)
Definition boot_compare_version (use_build : bool) (ver1 ver2 : image_version) : Z :=
  if iv_major ver2 <? iv_major ver1 then 1
  else if iv_major ver1 <? iv_major ver2 then -1
  else if iv_minor ver2 <? iv_minor ver1 then 1
  else if iv_minor ver1 <? iv_minor ver2 then -1
  else if iv_revision ver2 <? iv_revision ver1 then 1
  else if iv_revision ver1 <? iv_revision ver2 then -1
  else if negb use_build then 0
  else if iv_build_num ver2 <? iv_build_num ver1 then 1
  else if iv_build_num ver1 <? iv_build_num ver2 then -1
  else 0.

(** ** Header round trip *)

Record header_ok (h : image_header) : Prop := {
  ho_magic : is_u32 (ih_magic h);
  ho_load : is_u32 (ih_load_addr h);
  ho_hdr : is_u16 (ih_hdr_size h);
  ho_prot : is_u16 (ih_protect_tlv_size h);
  ho_img : is_u32 (ih_img_size h);
  ho_flags : is_u32 (ih_flags h);
  ho_major : is_u8 (iv_major (ih_ver h));
  ho_minor : is_u8 (iv_minor (ih_ver h));
  ho_rev : is_u16 (iv_revision (ih_ver h));
  ho_build : is_u32 (iv_build_num (ih_ver h));
  ho_pad : is_u32 (ih_pad1 h);
}.

Lemma header_of_bytes_bytes h : header_ok h → header_of_bytes (header_bytes h) = h.
Proof.
  intros []. unfold header_of_bytes.
  change (slice (header_bytes h) 0 4) with (le_enc 4 (ih_magic h)).
  change (slice (header_bytes h) 4 4) with (le_enc 4 (ih_load_addr h)).
  change (slice (header_bytes h) 8 2) with (le_enc 2 (ih_hdr_size h)).
  change (slice (header_bytes h) 10 2) with (le_enc 2 (ih_protect_tlv_size h)).
  change (slice (header_bytes h) 12 4) with (le_enc 4 (ih_img_size h)).
  change (slice (header_bytes h) 16 4) with (le_enc 4 (ih_flags h)).
  change (slice (header_bytes h) 20 1) with (le_enc 1 (iv_major (ih_ver h))).
  change (slice (header_bytes h) 21 1) with (le_enc 1 (iv_minor (ih_ver h))).
  change (slice (header_bytes h) 22 2) with (le_enc 2 (iv_revision (ih_ver h))).
  change (slice (header_bytes h) 24 4) with (le_enc 4 (iv_build_num (ih_ver h))).
  change (slice (header_bytes h) 28 4) with (le_enc 4 (ih_pad1 h)).
  rewrite !le_dec_enc_u32, !le_dec_enc_u16, !(le_dec_enc_small 1) by done. by destruct h as [??????[]?].
Qed.

Lemma zlen_header_bytes h : zlen (header_bytes h) = IMAGE_HEADER_SIZE.
Proof. reflexivity. Qed.

Lemma header_of_bytes_ok b :
  Forall is_u8 b → header_ok (header_of_bytes b).
Proof.
  intros Hb.
  assert (Hd : ∀ o n, 0 <= le_dec (slice b o n) < 256 ^ Z.max 0 n).
  { intros o n. pose proof (le_dec_bound (slice b o n)) as Hle. specialize (Hle ltac:(by apply Forall_slice)).
    assert (Hl : zlen (slice b o n) <= Z.max 0 n) by (unfold zlen, slice; rewrite length_take; lia).
    pose proof (Z.pow_le_mono_r 256 _ _ ltac:(lia) Hl). lia. }
  constructor; cbn [header_of_bytes ih_magic ih_load_addr ih_hdr_size ih_protect_tlv_size ih_img_size ih_flags ih_ver ih_pad1 iv_major iv_minor iv_revision iv_build_num];
    match goal with |- _ (le_dec (slice b ?o ?n)) => pose proof (Hd o n) as Hx; change (Z.max 0 n) with n in Hx end;
    unfold_uint; lia.
Qed.
