(* ===== verification/ImageProps.v ===== *)
(** * Headers and versions: what the checks accept *)

From S2P Require Import Prelude Effects FlashMap BootConfig Image.

#[local] Set Default Proof Using "Type*".

(** ** Checked additions *)

Lemma u32_safe_add_eq a b :
  is_u32 a → is_u32 b → boot_u32_safe_add a b = if a + b <=? UINT32_MAX then Some (a + b) else None.
Proof.
  intros Ha Hb. unfold boot_u32_safe_add. unfold_uint.
  rewrite (Z.mod_small (4294967295 - b)) by lia.
  case_if Hlt; case_if Hle; try lia; [done|]. rewrite Z.mod_small by lia. done.
Qed.

Lemma header_size_ok_eq fa h :
  is_u32 (fa_size fa) → header_ok h →
  header_size_ok fa h = (ih_img_size h + ih_hdr_size h + ih_protect_tlv_size h <? fa_size fa).
Proof.
  intros Hf []. unfold header_size_ok. unfold_uint.
  rewrite u32_safe_add_eq by (unfold is_u32; lia). unfold UINT32_MAX. case_if Hle; [|symmetry; apply Z.ltb_ge; lia].
  rewrite u32_safe_add_eq by (unfold is_u32; lia). unfold UINT32_MAX. case_if Hle'; [by rewrite Z.leb_antisym, negb_involutive|].
  symmetry. apply Z.ltb_ge. lia.
Qed.

Section HeaderProps.
  Context {W : Type} `{FlashMapOk W}.

(** loading a header accepts exactly the images with the right magic, without
    the non-bootable flag, whose header, body and protected TLVs together (as
    unbounded integers, no wrap-around) are smaller than the slot; every other
    header is [BOOT_EBADIMAGE], the header itself is the one in flash, and nothing
    is modified. *)
Theorem load_header_accepts w fa :
  fm_ok w → fm_area fa → IMAGE_HEADER_SIZE <= fa_size fa →
  let h := header_of_bytes (slice (vals (fm_cells w fa)) 0 IMAGE_HEADER_SIZE) in
  boot_image_load_header fa w =
    (Ret (if (ih_magic h =? IMAGE_MAGIC) && negb (Z.testbit (ih_flags h) 4) &&
             (ih_img_size h + ih_hdr_size h + ih_protect_tlv_size h <? fa_size fa)
          then 0 else BOOT_EBADIMAGE, h), w).
Proof.
  intros Hok Ha Hs h. unfold IMAGE_HEADER_SIZE in *. destruct (fm_bounds fa Ha) as (? & ? & ?).
  unfold boot_image_load_header. erewrite bind_ret by (apply fm_read; (done || unfold IMAGE_HEADER_SIZE; lia)).
  cbn beta iota zeta. cbn [Z.eqb negb]. fold IMAGE_HEADER_SIZE. unfold IMAGE_HEADER_SIZE. fold h.
  assert (Hh : header_ok h) by (apply header_of_bytes_ok, Forall_slice, fm_bytes; done).
  rewrite header_size_ok_eq by (done || (unfold is_u32; lia)).
  assert (Hbit : (Z.land (ih_flags h) IMAGE_F_NON_BOOTABLE =? 0) = negb (Z.testbit (ih_flags h) 4)).
  { change IMAGE_F_NON_BOOTABLE with (2 ^ 4). destruct (Z.testbit (ih_flags h) 4) eqn:Ht; cbn [negb].
    - apply Z.eqb_neq. intros Hz. apply (f_equal (λ x, Z.testbit x 4)) in Hz.
      rewrite Z.land_spec, Ht, Z.pow2_bits_true, Z.bits_0 in Hz by lia. done.
    - apply Z.eqb_eq, Z.bits_inj'. intros n Hn. rewrite Z.land_spec, Z.pow2_bits_eqb, Z.bits_0 by lia.
      destruct (Z.eqb_spec 4 n) as [<-|]; [by rewrite Ht|apply andb_false_r]. }
  rewrite Hbit. destruct (ih_magic h =? IMAGE_MAGIC), (Z.testbit (ih_flags h) 4),
    (ih_img_size h + ih_hdr_size h + ih_protect_tlv_size h <? fa_size fa); reflexivity.
Qed.

(** A header passes [boot_check_header_valid] only if loading it is safe: its
    sizes stay inside the slot, and it is neither encrypted nor compressed. *)
Theorem check_header_valid_sound fa h :
  fm_area fa → header_ok h →
  boot_check_header_valid fa h = true ↔
    ih_magic h = IMAGE_MAGIC ∧
    ih_img_size h + ih_hdr_size h + ih_protect_tlv_size h < fa_size fa ∧
    IS_ENCRYPTED h = false ∧ IS_COMPRESSED h = false.
Proof.
  intros Ha Hh. destruct (fm_bounds fa Ha) as (? & ? & ?). unfold boot_check_header_valid.
  rewrite header_size_ok_eq by (done || (unfold is_u32; lia)).
  destruct (Z.eqb_spec (ih_magic h) IMAGE_MAGIC), (Z.ltb_spec (ih_img_size h + ih_hdr_size h + ih_protect_tlv_size h) (fa_size fa)),
    (IS_ENCRYPTED h), (IS_COMPRESSED h); cbn; (split; [done|intros (?&?&?&?); done || lia]).
Qed.
End HeaderProps.

(** ** Versions *)

(** A version as one number. *)
Definition version_key (use_build : bool) (v : image_version) : Z :=
  ((iv_major v * 2 ^ 8 + iv_minor v) * 2 ^ 16 + iv_revision v) * 2 ^ 32 +
  (if use_build then iv_build_num v else 0).

Definition version_ok (v : image_version) : Prop :=
  is_u8 (iv_major v) ∧ is_u8 (iv_minor v) ∧ is_u16 (iv_revision v) ∧ is_u32 (iv_build_num v).

(** comparing versions is comparing the numbers major.minor.revision (and build
    number, when configured) written as one fixed-width integer: it is a total
    order, with result -1, 0 or 1. *)
Theorem compare_version_lexicographic use_build v1 v2 :
  version_ok v1 → version_ok v2 →
  boot_compare_version use_build v1 v2 =
    match version_key use_build v1 ?= version_key use_build v2 with Lt => -1 | Eq => 0 | Gt => 1 end.
Proof.
  intros (? & ? & ? & ?) (? & ? & ? & ?). unfold_uint. unfold boot_compare_version, version_key.
  destruct use_build; cbn [negb]; cbv iota;
    repeat (let Hc := fresh in case_if Hc; [match goal with |- context [?x ?= ?y] => destruct (Z.compare_spec x y); lia end|]);
    match goal with |- context [?x ?= ?y] => destruct (Z.compare_spec x y); lia end.
Qed.

