(* ===== verification/Tlv.v ===== *)
(** * The TLV iterator

    tlv.c: walking over the type-length-value entries that follow an image.  The
    image is read from flash ([LOAD_IMAGE_DATA] without RAM loading); iterator,
    header and area pointers are never NULL here. *)

From S2P Require Import Prelude Effects FlashMap BootConfig Image.

(** [start_off] exists with swap-using-offset; it is [0] otherwise. *)
Record image_tlv_iter := TlvIter {
  it_hdr : image_header;
  it_fap : flash_area;
  it_type : Z;
  it_prot : bool;
  it_prot_end : Z;
  it_tlv_off : Z;
  it_tlv_end : Z;
  it_start_off : Z;
}.

Definition set_tlv_off (it : image_tlv_iter) (off : Z) : image_tlv_iter :=
  TlvIter (it_hdr it) (it_fap it) (it_type it) (it_prot it) (it_prot_end it) off (it_tlv_end it)
    (it_start_off it).

(** A packed pair of 16-bit fields: [image_tlv_info] and [image_tlv]. *)
Definition pair_of_bytes (b : list Z) : Z * Z := (le_dec (slice b 0 2), le_dec (slice b 2 2)).

Section Tlv.
  Context {W : Type} `{FlashMap W}.

(** [None] is the return value [-1]. *)
Definition bootutil_tlv_iter_begin (start_off : Z) (hdr : image_header) (fap : flash_area)
    (type : Z) (prot : bool) : M W (option image_tlv_iter) :=
  let off_ := BOOT_TLV_OFF hdr ⊕ start_off in
  '(rc, b) ← flash_area_read fap off_ 4;
  if negb (rc =? 0) then mret None else
  let '(it_magic, it_tlv_tot) := pair_of_bytes b in
  info ←
    (if it_magic =? IMAGE_TLV_PROT_INFO_MAGIC then
       if negb (ih_protect_tlv_size hdr =? it_tlv_tot) then mret None else
       '(rc, b) ← flash_area_read fap (off_ ⊕ it_tlv_tot) 4;
       if negb (rc =? 0) then mret None else mret (Some (pair_of_bytes b))
     else if negb (ih_protect_tlv_size hdr =? 0) then mret None
     else mret (Some (it_magic, it_tlv_tot)));
  match info with
  | None => mret None
  | Some (it_magic, it_tlv_tot) =>
      if negb (it_magic =? IMAGE_TLV_INFO_MAGIC) then mret None
      else mret (Some (TlvIter hdr fap type prot (off_ ⊕ ih_protect_tlv_size hdr) (off_ ⊕ 4)
                         (off_ ⊕ ih_protect_tlv_size hdr ⊕ it_tlv_tot) start_off))
  end.

(** The result of a search: found (return value 0) with the payload offset, its
    length and the type; not found (1); error (-1). *)
Inductive tlv_result :=
| TlvFound (off len type : Z)
| TlvNone
| TlvError.

(** One iteration of the search loop. *)
Definition tlv_iter_step (it : image_tlv_iter)
  : M W (image_tlv_iter + tlv_result * image_tlv_iter) :=
  let tlv_off := it_tlv_off it in
  if negb (tlv_off <? it_tlv_end it) then mret (inr (TlvNone, it))
  else if it_prot it && (it_prot_end it <=? tlv_off) then mret (inr (TlvNone, it))
  else if (0 <? ih_protect_tlv_size (it_hdr it)) && (tlv_off =? it_prot_end it) then
    mret (inl (set_tlv_off it (tlv_off ⊕ 4)))
  else
    let end_ := if it_prot it then it_prot_end it else it_tlv_end it in
    if (end_ <? tlv_off) || (end_ ⊖ tlv_off <? 4) then mret (inr (TlvError, it)) else
    '(rc, b) ← flash_area_read (it_fap it) tlv_off 4;
    if negb (rc =? 0) then mret (inr (TlvError, it)) else
    let '(tlv_type, tlv_len) := pair_of_bytes b in
    if end_ ⊖ tlv_off ⊖ 4 <? tlv_len then mret (inr (TlvError, it))
    else if (it_type it =? IMAGE_TLV_ANY) || (tlv_type =? it_type it) then
      mret (inr (TlvFound (tlv_off ⊕ 4) tlv_len tlv_type, set_tlv_off it (tlv_off ⊕ (4 ⊕ tlv_len))))
    else mret (inl (set_tlv_off it (tlv_off ⊕ (4 ⊕ tlv_len)))).

(** Every iteration but the last advances by at least four bytes. *)
Definition bootutil_tlv_iter_next (it : image_tlv_iter) : M W (tlv_result * image_tlv_iter) :=
  loop (S (Z.to_nat (it_tlv_end it - it_tlv_off it))) tlv_iter_step it.

Definition bootutil_tlv_iter_is_prot (it : image_tlv_iter) (off : Z) : bool := off <? it_prot_end it.

End Tlv.
