(* ===== verification/TlvProps.v ===== *)
(** * The TLV iterator: safety and completeness

    Whatever flash holds, a search terminates and never yields a payload outside the
    section it walks; on a well-formed TLV area it yields every matching entry, in
    order. *)

From S2P Require Import Prelude Effects FlashMap BootConfig Image ImageProps Tlv.

#[local] Set Default Proof Using "Type*".

(** The end of the section being walked. *)
Definition it_end (it : image_tlv_iter) : Z := if it_prot it then it_prot_end it else it_tlv_end it.

(** What [bootutil_tlv_iter_next] keeps. *)
Definition same_iter (it it' : image_tlv_iter) : Prop := it' = set_tlv_off it (it_tlv_off it').

Record iter_ok (it : image_tlv_iter) : Prop := {
  io_end : 0 <= it_tlv_end it < 4294967292;
  io_off : 0 <= it_tlv_off it < 4294967296;
  io_prot : 0 <= it_prot_end it <= it_tlv_end it;
}.

Lemma set_tlv_off_same it x : same_iter it (set_tlv_off it x).
Proof. done. Qed.

Lemma same_iter_trans it1 it2 it3 : same_iter it1 it2 → same_iter it2 it3 → same_iter it1 it3.
Proof. unfold same_iter. intros -> ->. done. Qed.

Section Safety.
  Context {W : Type} `{FlashMap W}.
  Implicit Types (w : W).

(** Reads of the area answer: with an error, or with the requested bytes. *)
Definition reads_answer w (fap : flash_area) : Prop :=
  ∀ off len, ∃ rc b, flash_area_read fap off len w = (Ret (rc, b), w) ∧
    (rc = 0 → Forall is_u8 b).

Lemma pair_of_bytes_range b :
  Forall is_u8 b → is_u16 (fst (pair_of_bytes b)) ∧ is_u16 (snd (pair_of_bytes b)).
Proof.
  intros Hb.
  assert (Hd : ∀ o, is_u16 (le_dec (slice b o 2))).
  { intros o. pose proof (le_dec_bound (slice b o 2) ltac:(by apply Forall_slice)) as Hle.
    assert (Hl : zlen (slice b o 2) <= 2) by (unfold zlen, slice; rewrite length_take; lia).
    pose proof (Z.pow_le_mono_r 256 _ _ ltac:(lia) Hl). unfold is_u16. lia. }
  split; apply Hd.
Qed.

(** What one search guarantees. *)
Definition search_post (it : image_tlv_iter) (r : tlv_result) (it' : image_tlv_iter) : Prop :=
  same_iter it it' ∧ iter_ok it' ∧ it_tlv_off it <= it_tlv_off it' ∧
  match r with
  | TlvFound off len type =>
      it_tlv_off it + 4 <= off ∧ 0 <= len <= UINT16_MAX ∧ off + len <= it_end it ∧
      it_tlv_off it' = off + len ∧ (it_type it = IMAGE_TLV_ANY ∨ type = it_type it)
  | _ => True
  end.

Lemma tlv_step_safe it0 it w :
  reads_answer w (it_fap it0) → same_iter it0 it → iter_ok it → it_tlv_off it0 <= it_tlv_off it →
  wp (tlv_iter_step it)
    (λ r w', w' = w ∧ match r with
       | inl it' => same_iter it0 it' ∧ iter_ok it' ∧ it_tlv_off it0 <= it_tlv_off it' ∧
                    it_tlv_off it < it_tlv_end it ∧ it_tlv_off it < it_tlv_off it'
       | inr (r, it') => search_post it0 r it'
       end) (λ _, False) w.
Proof.
  intros Hrd Hsame [Hend Hoff Hpe] Hle. unfold tlv_iter_step. unfold same_iter in Hsame.
  assert (Hfields : it_prot it = it_prot it0 ∧ it_fap it = it_fap it0 ∧ it_type it = it_type it0 ∧
            it_end it = it_end it0) by (by rewrite Hsame).
  destruct Hfields as (Hp & Hf & Ht & He).
  assert (Hstop : ∀ r, r = TlvNone ∨ r = TlvError → search_post it0 r it)
    by (intros r [-> | ->]; by split_and!).
  wp_if Hlt; [apply wp_ret; split; [done|by apply Hstop; left]|].
  wp_if Hpr; [apply wp_ret; split; [done|by apply Hstop; left]|].
  wp_if Hsk.
  { apply wp_ret. rewrite u32_small by (unfold is_u32; lia). split; [done|].
    split_and!; cbn; [by rewrite Hsame| |lia..]. by constructor; cbn; lia. }
  fold (it_end it). assert (it_end it <= it_tlv_end it) by (unfold it_end; destruct (it_prot it); lia).
  wp_if Hov; [apply wp_ret; split; [done|by apply Hstop; right]|].
  rewrite (u32_small (it_end it - it_tlv_off it)) in * by (unfold is_u32; lia).
  rewrite (u32_small (it_end it - it_tlv_off it - 4)) by (unfold is_u32; lia).
  rewrite Hf. destruct (Hrd (it_tlv_off it) 4) as (rc & b & Hb & Hby).
  apply wp_bind. eapply wp_pure; [exact Hb|]. cbv beta iota.
  wp_if Hrc; [apply wp_ret; split; [done|by apply Hstop; right]|].
  pose proof (pair_of_bytes_range b (Hby Hrc)) as [_ Hlen].
  destruct (pair_of_bytes b) as [ty len]. cbn [fst snd] in *. unfold is_u16 in Hlen.
  wp_if Hlo; [apply wp_ret; split; [done|by apply Hstop; right]|].
  rewrite !u32_small by (unfold is_u32; rewrite ?u32_small; unfold is_u32; lia).
  assert (Hok' : iter_ok (set_tlv_off it (it_tlv_off it + (4 + len)))) by (constructor; cbn; lia).
  wp_if Hm; apply wp_ret; (split; [done|]).
  - apply orb_true_iff in Hm. rewrite !Z.eqb_eq in Hm. unfold search_post, UINT16_MAX. rewrite <- He, <- Ht.
    split_and!; cbn [it_tlv_off set_tlv_off]; try lia; [by rewrite Hsame|done].
  - split_and!; cbn; [by rewrite Hsame|done|lia..].
Qed.

Lemma tlv_next_wp it w :
  reads_answer w (it_fap it) → iter_ok it →
  wp (bootutil_tlv_iter_next it) (λ ri w', w' = w ∧ search_post it ri.1 ri.2) (λ _, False) w.
Proof.
  intros Hrd Hok. unfold bootutil_tlv_iter_next.
  apply (wp_loop (λ it' w', w' = w ∧ same_iter it it' ∧ iter_ok it' ∧ it_tlv_off it <= it_tlv_off it')
           (λ it', Z.max 0 (it_tlv_end it - it_tlv_off it'))).
  - intros it1 w1 (-> & Hs & Hok1 & Hle). eapply wp_mono; [by apply (tlv_step_safe it)| |done].
    intros [it2|[r it2]] w2 [-> Hpost]; [|done]. destruct Hpost as (? & ? & ? & Hlt & ?).
    split; [done|]. rewrite Hs in Hlt. cbn in Hlt. lia.
  - split_and!; [done|by destruct it|done|lia].
  - lia.
  - lia.
Qed.

(** a TLV search on arbitrary, possibly crafted, flash contents terminates
    without modifying anything; if it reports an entry, the entry starts after the
    current position, its payload ends inside the section being walked (the
    protected area for a protected search), the type is the one asked for, and the
    iterator moves behind it. *)
Theorem tlv_next_in_bounds it w :
  reads_answer w (it_fap it) → iter_ok it →
  ∃ r it', bootutil_tlv_iter_next it w = (Ret (r, it'), w) ∧ search_post it r it'.
Proof.
  intros Hrd Hok. pose proof (tlv_next_wp it w Hrd Hok) as Hwp.
  apply wp_returns in Hwp as ([r it'] & w' & Heq & -> & Hpost). by exists r, it'.
Qed.
End Safety.

(** ** Well-formed TLV areas *)

(** An entry: its type and payload. *)
Definition tlv : Type := Z * list Z.

Definition tlv_ok (t : tlv) : Prop := is_u16 (fst t) ∧ zlen (snd t) <= UINT16_MAX ∧ Forall is_u8 (snd t).

Definition enc_pair (a b : Z) : list Z := le_enc 2 a ++ le_enc 2 b.
Definition enc_tlv (t : tlv) : list Z := enc_pair (fst t) (zlen (snd t)) ++ snd t.
Definition enc_tlvs (ts : list tlv) : list Z := concat (enc_tlv <$> ts).

(** The TLV area of an image: an optional protected section and an unprotected
    one, each led by its info header. *)
Definition prot_size (prot : option (list tlv)) : Z :=
  match prot with None => 0 | Some ps => 4 + zlen (enc_tlvs ps) end.
Definition enc_area (prot : option (list tlv)) (us : list tlv) : list Z :=
  match prot with
  | None => []
  | Some ps => enc_pair IMAGE_TLV_PROT_INFO_MAGIC (prot_size prot) ++ enc_tlvs ps
  end ++ enc_pair IMAGE_TLV_INFO_MAGIC (4 + zlen (enc_tlvs us)) ++ enc_tlvs us.

(** Where the entries of a section starting at [off] are: type, payload offset,
    payload length. *)
Fixpoint spans (off : Z) (ts : list tlv) : list (Z * Z * Z) :=
  match ts with
  | [] => []
  | t :: ts => (fst t, off + 4, zlen (snd t)) :: spans (off + 4 + zlen (snd t)) ts
  end.

Definition wanted (type : Z) (e : Z * Z * Z) : bool := (type =? IMAGE_TLV_ANY) || (fst (fst e) =? type).

(** The entries a walk must report, for a TLV area at [off]. *)
Definition area_spans (off : Z) (prot : option (list tlv)) (us : list tlv) (protected : bool)
  : list (Z * Z * Z) :=
  match prot with None => [] | Some ps => spans (off + 4) ps end ++
  (if protected then [] else spans (off + prot_size prot + 4) us).

(** ** What a walk meets: entries, and the info header between the sections *)

Inductive item := Entry (t : tlv) | Skip.

Definition item_len (i : item) : Z := match i with Entry t => 4 + zlen (snd t) | Skip => 4 end.

Fixpoint item_spans (off : Z) (l : list item) : list (Z * Z * Z) :=
  match l with
  | [] => []
  | Entry t :: l => (fst t, off + 4, zlen (snd t)) :: item_spans (off + 4 + zlen (snd t)) l
  | Skip :: l => item_spans (off + 4) l
  end.

(** The items lie at [off] up to [te] in [b]; a [Skip] is met exactly at the end
    [pe] of a protected section ([hp]). *)
Fixpoint laid (hp : bool) (pe te : Z) (b : list Z) (off : Z) (l : list item) : Prop :=
  match l with
  | [] => off = te
  | Skip :: l => hp = true ∧ off = pe ∧ laid hp pe te b (off + 4) l
  | Entry t :: l =>
      tlv_ok t ∧ (hp = false ∨ off ≠ pe) ∧ slice b off (4 + zlen (snd t)) = enc_tlv t ∧
      laid hp pe te b (off + 4 + zlen (snd t)) l
  end.

Lemma laid_end hp pe te b off l : laid hp pe te b off l → off + zsum (item_len <$> l) = te.
Proof.
  revert off. induction l as [|[t|] l IH]; intros off; cbn [laid fmap list_fmap].
  - intros ->. cbn. lia.
  - intros (_ & _ & _ & Hl). apply IH in Hl. unfold zsum in *. cbn in *. lia.
  - intros (_ & _ & Hl). apply IH in Hl. unfold zsum in *. cbn in *. lia.
Qed.

Lemma item_len_ge i : 4 <= item_len i.
Proof. destruct i as [t|]; cbn; [pose proof (zlen_nonneg (snd t))|]; lia. Qed.

Lemma items_len_ge l : 4 * zlen l <= zsum (item_len <$> l).
Proof.
  induction l as [|i l IH]; [done|]. rewrite zlen_cons. cbn [fmap list_fmap].
  pose proof (item_len_ge i). unfold zsum in *. cbn. lia.
Qed.

Lemma laid_bound hp pe te b off l : laid hp pe te b off l → off + 4 * zlen l <= te.
Proof. intros Hl. pose proof (laid_end _ _ _ _ _ _ Hl). pose proof (items_len_ge l). lia. Qed.

Lemma pair_of_enc t :
  tlv_ok t → pair_of_bytes (slice (enc_tlv t) 0 4) = (fst t, zlen (snd t)).
Proof.
  intros (Ht & Hl & _). pose proof (zlen_nonneg (snd t)). unfold UINT16_MAX in Hl.
  change (slice (enc_tlv t) 0 4) with (le_enc 2 (fst t) ++ le_enc 2 (zlen (snd t))).
  unfold pair_of_bytes.
  change (slice (le_enc 2 ?a ++ le_enc 2 ?b) 0 2) with (le_enc 2 a).
  change (slice (le_enc 2 ?a ++ le_enc 2 ?b) 2 2) with (le_enc 2 b).
  rewrite !le_dec_enc_u16 by (done || (unfold is_u16; lia)). done.
Qed.

Section Complete.
  Context {W : Type} `{FlashMapOk W}.
  Context (w : W) (it0 : image_tlv_iter).
  Hypothesis Hok : fm_ok w.
  Hypothesis Hfa : fm_area (it_fap it0).
  Hypothesis Hte : it_end it0 <= it_tlv_end it0 ∧ it_end it0 <= fa_size (it_fap it0) ∧
    it_tlv_end it0 <= fa_size (it_fap it0).

#[local] Abbreviation hp := (0 <? ih_protect_tlv_size (it_hdr it0)).
#[local] Abbreviation at_off off := (set_tlv_off it0 off).
#[local] Abbreviation items_at off l :=
  (laid hp (it_prot_end it0) (it_end it0) (vals (fm_cells w (it_fap it0))) off l).

Lemma step_entry off t l :
  0 <= off → items_at off (Entry t :: l) →
  let off' := off + 4 + zlen (snd t) in
  tlv_iter_step (at_off off) w =
    (Ret (if wanted (it_type it0) (fst t, off + 4, zlen (snd t))
          then inr (TlvFound (off + 4) (zlen (snd t)) (fst t), at_off off') else inl (at_off off')), w).
Proof using Hok Hfa Hte.
  intros Ho Hl off'. pose proof (laid_bound _ _ _ _ _ _ Hl) as Hb. rewrite zlen_cons in Hb.
  pose proof (zlen_nonneg l). pose proof (zlen_nonneg (snd t)). destruct (fm_bounds _ Hfa) as (_ & _ & Hsz).
  pose proof (fm_bounds _ Hfa) as (? & _ & _).
  cbn [laid] in Hl. destruct Hl as (Hok1 & Hpe & Hsl & Hrest).
  pose proof (laid_bound _ _ _ _ _ _ Hrest) as Hb'.
  unfold tlv_iter_step. cbn [it_tlv_off it_tlv_end it_prot it_prot_end it_hdr it_fap it_type set_tlv_off].
  rewrite (proj2 (Z.ltb_lt off (it_tlv_end it0))) by lia. cbn [negb].
  replace (it_prot it0 && (it_prot_end it0 <=? off)) with false.
  2:{ unfold it_end in *. destruct (it_prot it0); [|done]. cbn. symmetry. apply Z.leb_gt. lia. }
  replace (hp && (off =? it_prot_end it0)) with false.
  2:{ destruct Hpe as [-> | Hne]; [done|]. by rewrite (proj2 (Z.eqb_neq _ _)), andb_false_r. }
  fold (it_end it0). rewrite !(u32_small (it_end it0 - off)) by (unfold is_u32; lia).
  rewrite (proj2 (Z.ltb_ge _ _)), (proj2 (Z.ltb_ge (it_end it0 - off) 4)) by lia. cbn [orb].
  erewrite bind_ret by (apply fm_read; (done || lia)). cbn beta iota. cbn [Z.eqb negb].
  assert (Hhd : slice (vals (fm_cells w (it_fap it0))) off 4 = slice (enc_tlv t) 0 4).
  { rewrite <- Hsl, slice_slice by lia. f_equal. lia. }
  rewrite Hhd, pair_of_enc by done. rewrite (u32_small (it_end it0 - off - 4)) by (unfold is_u32; lia).
  rewrite (proj2 (Z.ltb_ge _ _)) by lia.
  rewrite (u32_small (off + 4)), (u32_small (4 + _)), (u32_small (off + (4 + _))) by (unfold is_u32; lia).
  replace (off + (4 + zlen (snd t))) with off' by lia. unfold wanted. cbn [fst].
  by destruct ((it_type it0 =? IMAGE_TLV_ANY) || (fst t =? it_type it0)).
Qed.

Lemma step_skip off l :
  0 <= off → it_prot it0 = false → items_at off (Skip :: l) →
  tlv_iter_step (at_off off) w = (Ret (inl (at_off (off + 4))), w).
Proof using Hok Hfa Hte.
  intros Ho Hp Hl. pose proof (laid_bound _ _ _ _ _ _ Hl) as Hb. rewrite zlen_cons in Hb. pose proof (zlen_nonneg l).
  destruct (fm_bounds _ Hfa) as (? & _ & Hsz). cbn [laid] in Hl. destruct Hl as (Hhp & Hpe & _).
  unfold tlv_iter_step. cbn [it_tlv_off it_tlv_end it_prot it_prot_end it_hdr it_fap it_type set_tlv_off].
  rewrite (proj2 (Z.ltb_lt off (it_tlv_end it0))) by lia. rewrite Hp, Hhp. cbn [negb andb].
  rewrite (proj2 (Z.eqb_eq _ _) Hpe). by rewrite u32_small by (unfold is_u32; lia).
Qed.

Lemma step_done off :
  0 <= off → items_at off [] → tlv_iter_step (at_off off) w = (Ret (inr (TlvNone, at_off off)), w).
Proof using Hok Hfa Hte.
  intros Ho Hl. cbn [laid] in Hl. unfold tlv_iter_step. cbn [it_tlv_off it_tlv_end it_prot it_prot_end set_tlv_off].
  unfold it_end in Hl. destruct (negb (off <? it_tlv_end it0)) eqn:Hc; [done|]. zsimp.
  destruct (it_prot it0); [|lia]. by rewrite Hl, Z.leb_refl.
Qed.

(** The first wanted entry, with what remains behind it. *)
Fixpoint next_wanted (off : Z) (l : list item) : tlv_result * Z * list item :=
  match l with
  | [] => (TlvNone, off, [])
  | Skip :: l => next_wanted (off + 4) l
  | Entry t :: l =>
      if wanted (it_type it0) (fst t, off + 4, zlen (snd t))
      then (TlvFound (off + 4) (zlen (snd t)) (fst t), off + 4 + zlen (snd t), l)
      else next_wanted (off + 4 + zlen (snd t)) l
  end.

Lemma next_loop off l fuel :
  0 <= off → items_at off l → (it_prot it0 = true → Skip ∉ l) → (length l < fuel)%nat →
  loop fuel tlv_iter_step (at_off off) w =
    (Ret (fst (fst (next_wanted off l)), at_off (snd (fst (next_wanted off l)))), w).
Proof using Hok Hfa Hte.
  revert off fuel. induction l as [|[t|] l IH]; intros off fuel Ho Hl Hsk Hfuel;
    (destruct fuel as [|fuel]; [cbn in Hfuel; lia|]).
  - by rewrite (loop_exit _ _ _ _ _ _ (step_done off Ho Hl)).
  - pose proof (step_entry off t l Ho Hl) as Hs. cbv zeta in Hs. cbn [next_wanted].
    pose proof (zlen_nonneg (snd t)). destruct (wanted _ _).
    + by rewrite (loop_exit _ _ _ _ _ _ Hs).
    + rewrite (loop_continue _ _ _ _ _ _ Hs). apply IH; [lia|apply Hl| |cbn in Hfuel; lia].
      intros Hp Hin. apply (Hsk Hp). by right.
  - destruct (it_prot it0) eqn:Hp; [exfalso; apply Hsk; [done|by left]|].
    rewrite (loop_continue _ _ _ _ _ _ (step_skip off l Ho Hp Hl)). cbn [next_wanted].
    apply IH; [lia|apply Hl|done|cbn in Hfuel; lia].
Qed.

Lemma next_wanted_laid off l :
  0 <= off → items_at off l →
  match next_wanted off l with
  | (TlvFound o n t, off', l') =>
      filter (λ e, wanted (it_type it0) e = true) (item_spans off l) =
        (t, o, n) :: filter (λ e, wanted (it_type it0) e = true) (item_spans off' l') ∧
      items_at off' l' ∧ off <= off' ∧ (length l' < length l)%nat ∧ (∀ i, i ∈ l' → i ∈ l)
  | (r, off', l') => r = TlvNone ∧ filter (λ e, wanted (it_type it0) e = true) (item_spans off l) = []
  end.
Proof using Type.
  revert off. induction l as [|[t|] l IH]; intros off Ho Hl; [done|..]; cbn [next_wanted item_spans].
  - pose proof (zlen_nonneg (snd t)). destruct (wanted _ _) eqn:Hw.
    + rewrite filter_cons_True by done. split_and!; [done|apply Hl|lia|cbn; lia|intros i Hi; right; auto].
    + rewrite filter_cons_False by (by rewrite Hw). specialize (IH (off + 4 + zlen (snd t)) ltac:(lia) ltac:(apply Hl)).
      destruct (next_wanted _ _) as [[[]?]?]; [|done..].
      destruct IH as (? & ? & ? & ? & ?). split_and!; [done|done|lia|cbn; lia|intros i Hi; right; auto].
  - specialize (IH (off + 4) ltac:(lia) ltac:(apply Hl)). destruct (next_wanted _ _) as [[[]?]?]; [|done..].
    destruct IH as (? & ? & ? & ? & ?). split_and!; [done|done|lia|cbn; lia|intros i Hi; right; auto].
Qed.

(** All entries of a walk: searches until none is left; [None] on an error. *)
Fixpoint tlv_collect (fuel : nat) (it : image_tlv_iter) : M W (option (list (Z * Z * Z))) :=
  match fuel with
  | O => λ w, (Diverge, w)
  | S fuel =>
      '(r, it) ← bootutil_tlv_iter_next it;
      match r with
      | TlvNone => mret (Some [])
      | TlvError => mret None
      | TlvFound off len type =>
          rest ← tlv_collect fuel it;
          mret ((cons (type, off, len)) <$> rest)
      end
  end.

Lemma collect_items off l fuel :
  0 <= off → items_at off l → (it_prot it0 = true → Skip ∉ l) → (length l < fuel)%nat →
  tlv_collect fuel (at_off off) w =
    (Ret (Some (filter (λ e, wanted (it_type it0) e = true) (item_spans off l))), w).
Proof using Hok Hfa Hte.
  revert off l. induction fuel as [|fuel IH]; intros off l Ho Hl Hsk Hfuel; [lia|]. cbn [tlv_collect].
  pose proof (laid_bound _ _ _ _ _ _ Hl). unfold zlen in *.
  erewrite bind_ret by (apply (next_loop off l); [done|done|done|cbn; lia]).
  pose proof (next_wanted_laid off l Ho Hl) as Hn. destruct (next_wanted off l) as [[r off'] l'].
  cbn [fst snd]. destruct r as [o n t| |].
  - destruct Hn as (-> & Hl' & Hoff & Hlen & Hsub).
    erewrite bind_ret; [|apply IH; [lia|exact Hl'| |lia]]; [done|].
    intros Hp Hin. apply (Hsk Hp). by apply Hsub.
  - by destruct Hn as [_ ->].
  - by destruct Hn.
Qed.
End Complete.

(** ** Laying out an encoded area *)

Lemma zlen_enc_tlv t : zlen (enc_tlv t) = 4 + zlen (snd t).
Proof. unfold enc_tlv, enc_pair. rewrite !zlen_app, !zlen_le_enc. lia. Qed.

Lemma enc_tlvs_cons t ts : enc_tlvs (t :: ts) = enc_tlv t ++ enc_tlvs ts.
Proof. done. Qed.

Lemma laid_entries hp pe te b off ts rest :
  0 <= off → Forall tlv_ok ts → slice b off (zlen (enc_tlvs ts)) = enc_tlvs ts →
  (hp = false ∨ off + zlen (enc_tlvs ts) <= pe ∨ pe < off) →
  laid hp pe te b (off + zlen (enc_tlvs ts)) rest →
  laid hp pe te b off ((Entry <$> ts) ++ rest).
Proof.
  revert off. induction ts as [|t ts IH]; intros off Ho Hts Hsl Hpe Hrest.
  - cbn in *. by rewrite Z.add_0_r in Hrest.
  - apply Forall_cons_1 in Hts as [Ht Hts]. rewrite enc_tlvs_cons, zlen_app, zlen_enc_tlv in *.
    pose proof (zlen_nonneg (snd t)). pose proof (zlen_nonneg (enc_tlvs ts)).
    rewrite slice_app_split in Hsl by lia.
    apply app_inj_1 in Hsl as [Hh Htl].
    2:{ pose proof (f_equal zlen Hsl) as Hz. rewrite !zlen_app, zlen_enc_tlv in Hz.
        assert (∀ o n, 0 <= n → zlen (slice b o n) <= n) as Hle
          by (intros; unfold zlen, slice; rewrite length_take; lia).
        pose proof (Hle off (4 + zlen (snd t)) ltac:(lia)).
        pose proof (Hle (off + (4 + zlen (snd t))) (zlen (enc_tlvs ts)) ltac:(lia)).
        pose proof (zlen_enc_tlv t). unfold zlen in *. lia. }
    cbn [fmap list_fmap app laid]. split_and!; [done|destruct Hpe as [?|?]; [by left|right; lia]|done|].
    apply IH; [lia|done| |destruct Hpe as [?|?]; [by left|right; lia]|].
    + by replace (off + 4 + zlen (snd t)) with (off + (4 + zlen (snd t))) by lia.
    + by replace (off + 4 + zlen (snd t) + zlen (enc_tlvs ts)) with (off + (4 + zlen (snd t) + zlen (enc_tlvs ts))) by lia.
Qed.

Lemma item_spans_entries off ts rest :
  item_spans off ((Entry <$> ts) ++ rest) = spans off ts ++ item_spans (off + zlen (enc_tlvs ts)) rest.
Proof.
  revert off. induction ts as [|t ts IH]; intros off.
  - cbn. by rewrite Z.add_0_r.
  - rewrite enc_tlvs_cons, zlen_app, zlen_enc_tlv. cbn [fmap list_fmap app item_spans spans]. f_equal.
    rewrite (IH (off + 4 + zlen (snd t))). do 2 f_equal. lia.
Qed.

Lemma pair_of_enc_pair a b : is_u16 a → is_u16 b → pair_of_bytes (enc_pair a b) = (a, b).
Proof.
  intros. unfold pair_of_bytes, enc_pair.
  change (slice (le_enc 2 ?a ++ le_enc 2 ?b) 0 2) with (le_enc 2 a).
  change (slice (le_enc 2 ?a ++ le_enc 2 ?b) 2 2) with (le_enc 2 b).
  by rewrite !le_dec_enc_u16.
Qed.

Lemma zlen_enc_pair a b : zlen (enc_pair a b) = 4.
Proof. done. Qed.

Lemma zlen_enc_area prot us : zlen (enc_area prot us) = prot_size prot + 4 + zlen (enc_tlvs us).
Proof.
  unfold enc_area, prot_size. destruct prot; rewrite !zlen_app, ?zlen_enc_pair, ?zlen_nil; lia.
Qed.

Lemma prot_size_nonneg prot : 0 <= prot_size prot.
Proof. destruct prot; cbn; [pose proof (zlen_nonneg (enc_tlvs l))|]; lia. Qed.

(** The parts of an encoded area. *)
Lemma enc_area_info prot us :
  slice (enc_area prot us) (prot_size prot) 4 = enc_pair IMAGE_TLV_INFO_MAGIC (4 + zlen (enc_tlvs us)).
Proof.
  unfold enc_area. destruct prot as [ps|]; cbn [prot_size].
  - rewrite slice_app_r; rewrite zlen_app, zlen_enc_pair; [|lia]. rewrite Z.sub_diag. done.
  - done.
Qed.

Lemma enc_area_unprot prot us :
  slice (enc_area prot us) (prot_size prot + 4) (zlen (enc_tlvs us)) = enc_tlvs us.
Proof.
  unfold enc_area. destruct prot as [ps|]; cbn [prot_size].
  - rewrite slice_app_r; rewrite zlen_app, zlen_enc_pair; [|lia].
    rewrite slice_app_r; rewrite zlen_enc_pair; [|lia].
    replace (_ - _ - 4) with 0 by lia. apply slice_full.
  - cbn [app]. rewrite slice_app_r; rewrite zlen_enc_pair; [|lia]. apply slice_full.
Qed.

Lemma enc_area_prot ps us : slice (enc_area (Some ps) us) 4 (zlen (enc_tlvs ps)) = enc_tlvs ps.
Proof.
  unfold enc_area. rewrite <- app_assoc. rewrite slice_app_r; rewrite zlen_enc_pair; [|lia].
  rewrite slice_app_l by lia. apply slice_full.
Qed.

Section Walk.
  Context {W : Type} `{FlashMapOk W}.
  Implicit Types (w : W).

(** The area of [fa] holds an image with header [hdr] whose TLV area is the
    encoding of the given entries. *)
Record tlv_image w fa hdr (start : Z) (prot : option (list tlv)) (us : list tlv) : Prop := {
  ti_start : 0 <= start ∧ 0 <= ih_hdr_size hdr ∧ 0 <= ih_img_size hdr;
  ti_prot_size : ih_protect_tlv_size hdr = prot_size prot ∧ prot_size prot <= UINT16_MAX;
  ti_size : 4 + zlen (enc_tlvs us) <= UINT16_MAX;
  ti_prot : match prot with Some ps => Forall tlv_ok ps | None => True end;
  ti_unprot : Forall tlv_ok us;
  ti_fit : ih_hdr_size hdr + ih_img_size hdr + start + zlen (enc_area prot us) <= fa_size fa;
  ti_bytes : slice (vals (fm_cells w fa)) (ih_hdr_size hdr + ih_img_size hdr + start) (zlen (enc_area prot us)) =
             enc_area prot us;
}.

Definition walk_iter hdr fa (off : Z) (type : Z) (protected : bool) prot us start : image_tlv_iter :=
  TlvIter hdr fa type protected (off + prot_size prot) (off + 4)
    (off + prot_size prot + (4 + zlen (enc_tlvs us))) start.

Lemma iter_begin_ok w fa hdr start prot us type protected :
  fm_ok w → fm_area fa → tlv_image w fa hdr start prot us →
  bootutil_tlv_iter_begin start hdr fa type protected w =
    (Ret (Some (walk_iter hdr fa (ih_hdr_size hdr + ih_img_size hdr + start) type protected prot us start)), w).
Proof.
  intros Hok Ha [(Hs & Hh & Hi) [Hps Hpm] Hus _ _ Hfit Hby]. destruct (fm_bounds fa Ha) as (? & _ & ?).
  rewrite zlen_enc_area in *. pose proof (prot_size_nonneg prot). pose proof (zlen_nonneg (enc_tlvs us)). unfold UINT16_MAX in *.
  set (off := ih_hdr_size hdr + ih_img_size hdr + start) in *.
  assert (Hpart : ∀ k, 0 <= k → k + 4 <= prot_size prot + 4 + zlen (enc_tlvs us) →
    slice (vals (fm_cells w fa)) (off + k) 4 = slice (enc_area prot us) k 4).
  { intros k Hk Hk4. rewrite <- Hby, slice_slice by lia. done. }
  unfold bootutil_tlv_iter_begin, BOOT_TLV_OFF.
  rewrite (u32_small (ih_hdr_size hdr + _)) by (unfold is_u32; lia). fold off.
  rewrite (u32_small off) by (unfold is_u32; lia).
  erewrite bind_ret by (apply fm_read; (done || lia)). cbn beta iota. cbn [Z.eqb negb].
  replace (slice (vals (fm_cells w fa)) off 4) with (slice (enc_area prot us) 0 4)
    by (rewrite <- Hpart by lia; f_equal; lia).
  pose proof (enc_area_info prot us) as Hinfo.
  assert (Hu : is_u16 (4 + zlen (enc_tlvs us))) by (unfold is_u16; lia).
  destruct prot as [ps|].
  - assert (Hp : is_u16 (prot_size (Some ps))) by (unfold is_u16; lia).
    change (slice (enc_area (Some ps) us) 0 4) with (enc_pair IMAGE_TLV_PROT_INFO_MAGIC (prot_size (Some ps))).
    rewrite pair_of_enc_pair by (done || by cbv). rewrite Hps, !Z.eqb_refl. cbn [negb].
    rewrite (u32_small (off + _)) by (unfold is_u32; lia).
    erewrite bind_ret; [|erewrite bind_ret by (apply fm_read; (done || lia)); cbn beta iota; cbn [Z.eqb negb]; reflexivity].
    rewrite Hpart, Hinfo, pair_of_enc_pair by (done || lia || by cbv).
    cbn [Z.eqb negb IMAGE_TLV_INFO_MAGIC Pos.eqb]. rewrite !u32_small by (unfold is_u32; lia). done.
  - cbn [prot_size] in *. change (slice (enc_area None us) 0 4) with (enc_pair IMAGE_TLV_INFO_MAGIC (4 + zlen (enc_tlvs us))).
    rewrite pair_of_enc_pair by (done || by cbv). rewrite Hps. cbn [Z.eqb negb IMAGE_TLV_INFO_MAGIC IMAGE_TLV_PROT_INFO_MAGIC Pos.eqb].
    erewrite bind_ret by reflexivity. cbn beta iota. cbn [Z.eqb negb Pos.eqb].
    rewrite !(u32_small (off + _)) by (unfold is_u32; lia). rewrite !u32_small by (unfold is_u32; lia). done.
Qed.

(** The items of a walk over the whole area, or over a present protected
    section. *)
Definition walk_items (prot : option (list tlv)) (us : list tlv) (protected : bool) : list item :=
  match prot with
  | Some ps => (Entry <$> ps) ++ (if protected then [] else Skip :: (Entry <$> us))
  | None => Entry <$> us
  end.

Lemma walk_laid w fa hdr start prot us protected :
  tlv_image w fa hdr start prot us → (prot = None → protected = false) →
  let off := ih_hdr_size hdr + ih_img_size hdr + start in
  laid (0 <? ih_protect_tlv_size hdr) (off + prot_size prot)
    (if protected then off + prot_size prot else off + prot_size prot + (4 + zlen (enc_tlvs us)))
    (vals (fm_cells w fa)) (off + 4) (walk_items prot us protected).
Proof.
  intros [(Hs & Hh & Hi) [Hps _] _ Hpok Huok _ Hby] Hpn off. fold off in Hby.
  pose proof (prot_size_nonneg prot) as Hpn0. pose proof (zlen_nonneg (enc_tlvs us)). rewrite zlen_enc_area in Hby.
  assert (Hpart : ∀ k n, 0 <= k → 0 <= n → k + n <= prot_size prot + 4 + zlen (enc_tlvs us) →
    slice (vals (fm_cells w fa)) (off + k) n = slice (enc_area prot us) k n).
  { intros k n Hk Hn Hk4. rewrite <- Hby, slice_slice by lia. done. }
  assert (Hus : laid (0 <? ih_protect_tlv_size hdr) (off + prot_size prot)
    (off + prot_size prot + (4 + zlen (enc_tlvs us))) (vals (fm_cells w fa)) (off + (prot_size prot + 4)) (Entry <$> us)).
  { rewrite <- (app_nil_r (Entry <$> us)). apply laid_entries; [lia|done| | |cbn; lia].
    - rewrite Hpart by lia. apply enc_area_unprot.
    - right. right. lia. }
  unfold walk_items. destruct prot as [ps|]; cbn [prot_size] in *.
  - pose proof (zlen_nonneg (enc_tlvs ps)). apply laid_entries; [lia|done| |right; left; lia|].
    + rewrite Hpart by lia. apply enc_area_prot.
    + replace (off + 4 + zlen (enc_tlvs ps)) with (off + (4 + zlen (enc_tlvs ps))) by lia.
      destruct protected; cbn [laid]; [lia|]. split_and!; [apply Z.ltb_lt; lia|lia|].
      by replace (off + (4 + zlen (enc_tlvs ps)) + 4) with (off + (4 + zlen (enc_tlvs ps) + 4)) by lia.
  - by rewrite (Hpn eq_refl).
Qed.

Lemma walk_spans off prot us protected :
  (prot = None → protected = false) →
  item_spans (off + 4) (walk_items prot us protected) = area_spans off prot us protected.
Proof.
  intros Hpn. unfold walk_items, area_spans. destruct prot as [ps|].
  - rewrite item_spans_entries. f_equal. destruct protected; [done|]. cbn [item_spans prot_size].
    rewrite <- (app_nil_r (Entry <$> us)), item_spans_entries, app_nil_r. f_equal. lia.
  - rewrite (Hpn eq_refl). cbn [app prot_size].
    rewrite <- (app_nil_r (Entry <$> us)), item_spans_entries, app_nil_r. f_equal. lia.
Qed.

(** A protected walk of an image without protected section is over at once. *)
Lemma next_no_prot w hdr fa off type us start :
  0 <= off →
  bootutil_tlv_iter_next (walk_iter hdr fa off type true None us start) w =
    (Ret (TlvNone, walk_iter hdr fa off type true None us start), w).
Proof.
  intros Ho. apply loop_exit. unfold tlv_iter_step. cbn [walk_iter it_tlv_off it_tlv_end it_prot it_prot_end].
  case_if Hlt; [done|]. cbn [prot_size andb]. by rewrite (proj2 (Z.leb_le _ _)) by lia.
Qed.

Lemma collect_no_prot w hdr fa off type us start fuel :
  0 <= off → (0 < fuel)%nat →
  tlv_collect fuel (walk_iter hdr fa off type true None us start) w = (Ret (Some []), w).
Proof.
  intros Ho Hf. destruct fuel as [|fuel]; [lia|]. cbn [tlv_collect].
  by rewrite (bind_ret _ _ _ _ _ (next_no_prot w hdr fa off type us start Ho)).
Qed.

(** C33: on a well-formed TLV area, starting an iterator and searching until nothing
    is left reports exactly the entries of the requested type, in flash order, each
    with its payload offset and length: the protected ones only for a protected
    walk, protected and then unprotected ones otherwise. *)
Theorem tlv_walk_complete w fa hdr start prot us type protected fuel :
  fm_ok w → fm_area fa → tlv_image w fa hdr start prot us →
  (length (default [] prot ++ us) + 1 < fuel)%nat →
  (it ← bootutil_tlv_iter_begin start hdr fa type protected;
   match it with Some it => tlv_collect fuel it | None => mret None end) w =
    (Ret (Some (filter (λ e, wanted type e = true)
       (area_spans (ih_hdr_size hdr + ih_img_size hdr + start) prot us protected))), w).
Proof.
  intros Hok Ha Hti Hfuel. erewrite bind_ret by (by apply iter_begin_ok). cbn beta iota.
  pose proof (ti_start _ _ _ _ _ _ Hti) as (? & ? & ?). pose proof (ti_fit _ _ _ _ _ _ Hti) as Hfit.
  rewrite zlen_enc_area in Hfit. pose proof (prot_size_nonneg prot). pose proof (zlen_nonneg (enc_tlvs us)).
  set (off := ih_hdr_size hdr + ih_img_size hdr + start) in *.
  destruct (decide (prot = None ∧ protected = true)) as [[-> ->]|Hpn].
  { rewrite collect_no_prot by lia. unfold area_spans. cbn. done. }
  assert (Hpn' : prot = None → protected = false) by (intros ->; destruct protected; [exfalso; by apply Hpn|done]).
  rewrite <- walk_spans by done.
  set (it := walk_iter hdr fa off type protected prot us start).
  change it with (set_tlv_off it (off + 4)). change type with (it_type it).
  apply (collect_items w it Hok Ha).
  - unfold it_end. subst it. cbn. destruct protected; lia.
  - lia.
  - subst it. cbn [walk_iter it_hdr it_prot_end]. unfold it_end. cbn [walk_iter it_prot it_prot_end it_tlv_end it_fap].
    by apply walk_laid.
  - subst it. cbn [walk_iter it_prot]. intros -> Hin. unfold walk_items in Hin. destruct prot; [|naive_solver].
    rewrite app_nil_r in Hin. apply list_elem_of_fmap in Hin as (? & ? & _). done.
  - unfold walk_items. rewrite length_app in Hfuel. destruct prot; cbn [default] in Hfuel;
      [destruct protected|]; rewrite ?length_app; cbn [length]; rewrite ?length_fmap; cbn in *; lia.
Qed.
End Walk.
