(* ===== verification/LoaderState.v ===== *)
(** * Loader state, swap status and copying

    bootutil_priv.h: the state of the loader for the current image and its
    accessors; loader.c: the boot status, status bytes in the trailer, and the copy
    of a flash region; bootutil_misc.c: finding the status after an aborted
    swap. *)

From S2P Require Import Prelude Effects FlashMap BootConfig Trailer Area Image.

(** ** State *)

(** One slot of [imgs]; sectors are given by offset and size. *)
Record slot_img := SlotImg {
  img_hdr : image_header;
  img_area : flash_area;
  img_sectors : list flash_sector;
  img_num_sectors : Z;
  img_unprotected_tlv_size : Z;    (* with swap-using-offset *)
}.

(** The part of [struct boot_loader_state] that belongs to the current image
    ([BOOT_CURR_IMG]), which the accessors select. *)
Record boot_loader_state := LoaderState {
  curr_img_idx : Z;
  img_primary : slot_img;
  img_secondary : slot_img;
  scratch_area : flash_area;       (* with swap-using-scratch *)
  scratch_sectors : list flash_sector;
  scratch_num_sectors : Z;
  state_swap_type : Z;
  write_sz : Z;
  secondary_offset : Z;            (* with swap-using-offset *)
}.

Record boot_status := BootStatus {
  bs_idx : Z;
  bs_state : Z;
  bs_op : Z;
  bs_use_scratch : Z;
  bs_swap_type : Z;
  bs_swap_size : Z;
  bs_source : Z;
}.

Definition BOOT_STATUS_IDX_0 : Z := 1.
Definition BOOT_STATUS_STATE_0 : Z := 1.
Definition BOOT_STATUS_STATE_1 : Z := 2.
Definition BOOT_STATUS_STATE_2 : Z := 3.

Definition BOOT_STATUS_SOURCE_NONE : Z := 0.
Definition BOOT_STATUS_SOURCE_SCRATCH : Z := 1.
Definition BOOT_STATUS_SOURCE_PRIMARY_SLOT : Z := 2.

Definition BOOT_IMG (state : boot_loader_state) (slot : Z) : slot_img :=
  if slot =? BOOT_SLOT_PRIMARY then img_primary state else img_secondary state.
Definition BOOT_IMG_AREA (state : boot_loader_state) (slot : Z) : flash_area :=
  img_area (BOOT_IMG state slot).
Definition boot_img_hdr (state : boot_loader_state) (slot : Z) : image_header :=
  img_hdr (BOOT_IMG state slot).
Definition boot_img_num_sectors (state : boot_loader_state) (slot : Z) : Z :=
  img_num_sectors (BOOT_IMG state slot).

Definition BOOT_IS_UPGRADE (swap_type : Z) : bool :=
  (swap_type =? BOOT_SWAP_TYPE_TEST) || (swap_type =? BOOT_SWAP_TYPE_REVERT) ||
  (swap_type =? BOOT_SWAP_TYPE_PERM).

(** Updates of single fields of the status. *)
Definition set_bs_state (bs : boot_status) (x : Z) : boot_status :=
  BootStatus (bs_idx bs) x (bs_op bs) (bs_use_scratch bs) (bs_swap_type bs) (bs_swap_size bs) (bs_source bs).
Definition set_bs_next (bs : boot_status) (idx st : Z) : boot_status :=
  BootStatus idx st (bs_op bs) (bs_use_scratch bs) (bs_swap_type bs) (bs_swap_size bs) (bs_source bs).
Definition set_bs_op (bs : boot_status) (x : Z) : boot_status :=
  BootStatus (bs_idx bs) (bs_state bs) x (bs_use_scratch bs) (bs_swap_type bs) (bs_swap_size bs) (bs_source bs).
Definition set_bs_swap_type (bs : boot_status) (x : Z) : boot_status :=
  BootStatus (bs_idx bs) (bs_state bs) (bs_op bs) (bs_use_scratch bs) x (bs_swap_size bs) (bs_source bs).
Definition set_bs_swap_size (bs : boot_status) (x : Z) : boot_status :=
  BootStatus (bs_idx bs) (bs_state bs) (bs_op bs) (bs_use_scratch bs) (bs_swap_type bs) x (bs_source bs).
Definition set_bs_use_scratch (bs : boot_status) (x : Z) : boot_status :=
  BootStatus (bs_idx bs) (bs_state bs) (bs_op bs) x (bs_swap_type bs) (bs_swap_size bs) (bs_source bs).
Definition set_bs_source (bs : boot_status) (x : Z) : boot_status :=
  BootStatus (bs_idx bs) (bs_state bs) (bs_op bs) (bs_use_scratch bs) (bs_swap_type bs) (bs_swap_size bs) x.

(** Updates of the loader state. *)
Definition set_img (state : boot_loader_state) (slot : Z) (x : slot_img) : boot_loader_state :=
  let '(p, q) := if slot =? BOOT_SLOT_PRIMARY then (x, img_secondary state) else (img_primary state, x) in
  LoaderState (curr_img_idx state) p q (scratch_area state) (scratch_sectors state) (scratch_num_sectors state)
    (state_swap_type state) (write_sz state) (secondary_offset state).
Definition set_img_hdr (state : boot_loader_state) (slot : Z) (h : image_header) : boot_loader_state :=
  let x := BOOT_IMG state slot in
  set_img state slot (SlotImg h (img_area x) (img_sectors x) (img_num_sectors x) (img_unprotected_tlv_size x)).
Definition set_img_tlv_size (state : boot_loader_state) (slot n : Z) : boot_loader_state :=
  let x := BOOT_IMG state slot in
  set_img state slot (SlotImg (img_hdr x) (img_area x) (img_sectors x) (img_num_sectors x) n).
Definition set_swap_type (state : boot_loader_state) (t : Z) : boot_loader_state :=
  LoaderState (curr_img_idx state) (img_primary state) (img_secondary state) (scratch_area state)
    (scratch_sectors state) (scratch_num_sectors state) t (write_sz state) (secondary_offset state).
Definition set_secondary_offset (state : boot_loader_state) (off : Z) : boot_loader_state :=
  LoaderState (curr_img_idx state) (img_primary state) (img_secondary state) (scratch_area state)
    (scratch_sectors state) (scratch_num_sectors state) (state_swap_type state) (write_sz state) off.
Definition set_write_sz (state : boot_loader_state) (n : Z) : boot_loader_state :=
  LoaderState (curr_img_idx state) (img_primary state) (img_secondary state) (scratch_area state)
    (scratch_sectors state) (scratch_num_sectors state) (state_swap_type state) n (secondary_offset state).
Definition set_img_area (state : boot_loader_state) (slot : Z) (fa : flash_area) : boot_loader_state :=
  let x := BOOT_IMG state slot in
  set_img state slot (SlotImg (img_hdr x) fa (img_sectors x) (img_num_sectors x) (img_unprotected_tlv_size x)).
Definition set_img_sectors (state : boot_loader_state) (slot : Z) (l : list flash_sector) : boot_loader_state :=
  let x := BOOT_IMG state slot in
  set_img state slot (SlotImg (img_hdr x) (img_area x) l (img_num_sectors x) (img_unprotected_tlv_size x)).
Definition set_img_num_sectors (state : boot_loader_state) (slot n : Z) : boot_loader_state :=
  let x := BOOT_IMG state slot in
  set_img state slot (SlotImg (img_hdr x) (img_area x) (img_sectors x) n (img_unprotected_tlv_size x)).
Definition set_scratch (state : boot_loader_state) (fa : flash_area) (l : list flash_sector) (n : Z)
  : boot_loader_state :=
  LoaderState (curr_img_idx state) (img_primary state) (img_secondary state) fa l n
    (state_swap_type state) (write_sz state) (secondary_offset state).

Section Status.
  Context `{BootConfig}.

Definition BOOT_STATUS_OP_MOVE : Z := 1.
Definition BOOT_STATUS_OP_SWAP : Z := if uses SWAP_USING_OFFSET then 1 else 2.

(** Every field is overwritten. *)
Definition boot_status_reset : boot_status :=
  BootStatus BOOT_STATUS_IDX_0 BOOT_STATUS_STATE_0
    (if uses SWAP_USING_OFFSET then BOOT_STATUS_OP_SWAP else BOOT_STATUS_OP_MOVE)
    0 BOOT_SWAP_TYPE_NONE 0 0.

Definition boot_status_is_reset (bs : boot_status) : bool :=
  (bs_op bs =? (if uses SWAP_USING_OFFSET then BOOT_STATUS_OP_SWAP else BOOT_STATUS_OP_MOVE)) &&
  (bs_idx bs =? BOOT_STATUS_IDX_0) && (bs_state bs =? BOOT_STATUS_STATE_0).

(** Position of a status entry in swap_move.c: the entries of the moves come
    first. *)
Definition move_status_internal_off (bs : boot_status) (elem_sz : Z) : Z :=
  let idx_sz := elem_sz * (if bs_op bs =? BOOT_STATUS_OP_MOVE then BOOT_STATUS_MOVE_STATE_COUNT
                           else BOOT_STATUS_SWAP_STATE_COUNT) in
  ((if bs_op bs =? BOOT_STATUS_OP_MOVE then 0
    else BOOT_MAX_IMG_SECTORS * BOOT_STATUS_MOVE_STATE_COUNT * elem_sz)
   ⊕ ((bs_idx bs ⊖ BOOT_STATUS_IDX_0) ⊗ idx_sz)) ⊕ ((bs_state bs - BOOT_STATUS_STATE_0) * elem_sz).

(** Position of a status entry, by the swap algorithm linked in; swap_offset.c and
    swap_scratch.c agree. *)
Definition boot_status_internal_off (bs : boot_status) (elem_sz : Z) : Z :=
  if uses SWAP_USING_MOVE then move_status_internal_off bs elem_sz else
  let idx_sz := elem_sz * BOOT_STATUS_STATE_COUNT in
  ((bs_idx bs ⊖ BOOT_STATUS_IDX_0) ⊗ idx_sz) ⊕ ((bs_state bs - BOOT_STATUS_STATE_0) * elem_sz).

Definition BUF_SZ : Z := if 1024 <? BOOT_MAX_ALIGN then BOOT_MAX_ALIGN else 1024.

End Status.

Section Loader.
  Context {W : Type} `{FlashMap W} `{BootConfig}.

(** ** Sector geometry *)

Definition boot_img_sector_size (state : boot_loader_state) (slot sector : Z) : M W Z :=
  if negb (MCUBOOT_LOGICAL_SECTOR_SIZE =? 0) then mret MCUBOOT_LOGICAL_SECTOR_SIZE
  else
    s ← array_get (img_sectors (BOOT_IMG state slot)) sector;
    mret (fs_size s).

Definition boot_img_sector_off (state : boot_loader_state) (slot sector : Z) : M W Z :=
  if negb (MCUBOOT_LOGICAL_SECTOR_SIZE =? 0) then mret (MCUBOOT_LOGICAL_SECTOR_SIZE ⊗ sector)
  else
    s ← array_get (img_sectors (BOOT_IMG state slot)) sector;
    s0 ← array_get (img_sectors (BOOT_IMG state slot)) 0;
    mret (fs_off s ⊖ fs_off s0).

(** ** Status bytes *)

Definition boot_write_status (state : boot_loader_state) (bs : boot_status) : M W Z :=
  let fap :=
    if uses SWAP_USING_SCRATCH && negb (bs_use_scratch bs =? 0) then scratch_area state
    else BOOT_IMG_AREA state BOOT_SLOT_PRIMARY in
  soff ← boot_status_off fap;
  let off := soff ⊕ boot_status_internal_off bs (write_sz state) in
  let align := flash_area_align fap in
  let buf := <[0%nat := u8 (bs_state bs)]>
               (replicate (Z.to_nat BOOT_MAX_ALIGN) (flash_area_erased_val fap)) in
  rc ← flash_area_write fap off (slice buf 0 align);
  if negb (rc =? 0) then mret BOOT_EFLASH else mret rc.

(** The search over the areas that can hold a status; [None] is a read error. *)
Fixpoint find_status_in (areas : list flash_area) (last : option flash_area) : M W (option flash_area) :=
  match areas with
  | [] => mret last
  | fa_p :: areas =>
      '(rc, m) ← flash_area_read fa_p (boot_magic_off fa_p) BOOT_MAGIC_SZ;
      if negb (rc =? 0) then mret None
      else if BOOT_MAGIC_GOOD =? boot_magic_decode m then mret (Some fa_p)
      else find_status_in areas (Some fa_p)
  end.

Definition boot_find_status (state : boot_loader_state) : M W (option flash_area) :=
  let areas :=
    (if uses SWAP_USING_SCRATCH then [scratch_area state] else []) ++
    [BOOT_IMG_AREA state BOOT_SLOT_PRIMARY] in
  find_status_in areas None.

(** ** Copying *)

(** One chunk of the copy; the loop variable is [bytes_copied]. *)
Definition copy_region_step (fap_src fap_dst : flash_area) (off_src off_dst sz bytes_copied : Z)
  : M W (Z + Z) :=
  if negb (bytes_copied <? sz) then mret (inr 0) else
  let chunk_sz := if BUF_SZ <? sz ⊖ bytes_copied then BUF_SZ else sz ⊖ bytes_copied in
  '(rc, buf) ← flash_area_read fap_src (off_src ⊕ bytes_copied) chunk_sz;
  if negb (rc =? 0) then mret (inr BOOT_EFLASH) else
  rc ← flash_area_write fap_dst (off_dst ⊕ bytes_copied) buf;
  if negb (rc =? 0) then mret (inr BOOT_EFLASH) else
  mret (inl (bytes_copied ⊕ chunk_sz)).

Definition boot_copy_region (fap_src fap_dst : flash_area) (off_src off_dst sz : Z) : M W Z :=
  loop (S (S (Z.to_nat (sz / BUF_SZ)))) (copy_region_step fap_src fap_dst off_src off_dst sz) 0.

End Loader.
