(* ===== verification/Sectors.v ===== *)
(** * The sector layout of the slots

    bootutil_misc.c: reading the sectors of the slots and of the scratch area, from
    the device or as logical sectors of a fixed size, the verification of the logical
    sectors against the device, and the size of a status entry; bootutil_loader.c:
    opening the areas.  At the end, the interface between the loader and the swap
    algorithm it is linked with. *)

From S2P Require Import Prelude Effects FlashMap BootConfig Image Tlv LoaderState.

(** The function of the platform that lists the sectors of an area, given the
    number of entries there is room for. *)
Class FlashSectors (W : Type) := {
  flash_area_get_sectors : Z → Z → M W (Z * list flash_sector);
}.

Section Sectors.
  Context {W : Type} `{FlashMap W} `{FlashSectors W} `{BootConfig}.

(** Which part of the state an area identifier selects. *)
Inductive area_part := PartSlot (slot : Z) | PartScratch.

Definition area_part_of (state : boot_loader_state) (flash_area : Z) : option area_part :=
  if flash_area =? FLASH_AREA_IMAGE_PRIMARY (curr_img_idx state) then Some (PartSlot BOOT_SLOT_PRIMARY)
  else if flash_area =? FLASH_AREA_IMAGE_SECONDARY (curr_img_idx state) then Some (PartSlot BOOT_SLOT_SECONDARY)
  else if uses SWAP_USING_SCRATCH && (flash_area =? FLASH_AREA_IMAGE_SCRATCH) then Some PartScratch
  else None.

(** The sector tables have [BOOT_MAX_IMG_SECTORS] entries, which are zero at the
    start. *)
Definition sector_table (l : list flash_sector) : list flash_sector :=
  l ++ replicate (Z.to_nat (BOOT_MAX_IMG_SECTORS - zlen l)) (FlashSector 0 0).

(** Without logical sectors. *)
Definition initialize_area_device (state : boot_loader_state) (flash_area : Z)
  : M W (Z * boot_loader_state) :=
  match area_part_of state flash_area with
  | None => mret (BOOT_EFLASH, state)
  | Some p =>
      '(rc, l) ← flash_area_get_sectors flash_area BOOT_MAX_IMG_SECTORS;
      if negb (rc =? 0) then mret (rc, state) else
      mret (0, match p with
               | PartSlot slot => set_img_num_sectors (set_img_sectors state slot (sector_table l)) slot (zlen l)
               | PartScratch => set_scratch state (scratch_area state) (sector_table l) (zlen l)
               end)
  end.

(** With logical sectors. *)
Definition initialize_area_logical (state : boot_loader_state) (flash_area : Z)
  : M W (Z * boot_loader_state) :=
  match area_part_of state flash_area with
  | None => mret (BOOT_EFLASH, state)
  | Some p =>
      let area_size := fa_size (match p with
                                | PartSlot slot => BOOT_IMG_AREA state slot
                                | PartScratch => scratch_area state
                                end) in
      assert (area_size mod MCUBOOT_LOGICAL_SECTOR_SIZE =? 0);;
      let n := area_size / MCUBOOT_LOGICAL_SECTOR_SIZE in
      mret (0, match p with
               | PartSlot slot => set_img_num_sectors state slot n
               | PartScratch => set_scratch state (scratch_area state) (scratch_sectors state) n
               end)
  end.

Definition boot_initialize_area (state : boot_loader_state) (flash_area : Z) : M W (Z * boot_loader_state) :=
  if MCUBOOT_LOGICAL_SECTOR_SIZE =? 0 then initialize_area_device state flash_area
  else initialize_area_logical state flash_area.

(** One page of the verification; the loop variables are [sect_off],
    [total_scanned] and [final_rc]. *)
Definition verify_sectors_step (fa : flash_area) (s : Z * Z * Z) : M W (Z * Z * Z + Z) :=
  let '(sect_off, total_scanned, final_rc) := s in
  if negb (total_scanned <? fa_size fa) then mret (inr final_rc) else
  '(rc, fas) ← flash_area_get_sector fa sect_off;
  if rc <? 0 then mret (inr BOOT_EFLASH) else
  let final_rc := if negb (sect_off =? fs_off fas) then BOOT_EFLASH else final_rc in
  mret (inl (sect_off ⊕ MCUBOOT_LOGICAL_SECTOR_SIZE, total_scanned + MCUBOOT_LOGICAL_SECTOR_SIZE, final_rc)).

Definition boot_verify_logical_sectors (faid : Z) (fa : flash_area) : M W Z :=
  assert (negb (faid =? 0));;
  let slot_size := fa_size fa in
  let wbs := flash_area_align fa in
  if slot_size =? 0 then mret BOOT_EFLASH else
  let final_rc := if negb (slot_size mod MCUBOOT_LOGICAL_SECTOR_SIZE =? 0) then BOOT_EFLASH else 0 in
  if device_requires_erase fa then
    loop (S (S (Z.to_nat (slot_size / MCUBOOT_LOGICAL_SECTOR_SIZE)))) (verify_sectors_step fa) (0, 0, final_rc)
  else
    let final_rc := if negb (MCUBOOT_LOGICAL_SECTOR_SIZE mod wbs =? 0) then BOOT_EFLASH else final_rc in
    mret (if negb (fa_off fa mod wbs =? 0) then BOOT_EFLASH else final_rc).

Definition boot_write_sz (state : boot_loader_state) : Z :=
  let elem_sz := flash_area_align (BOOT_IMG_AREA state BOOT_SLOT_PRIMARY) in
  if uses SWAP_USING_SCRATCH then
    let align := flash_area_align (scratch_area state) in
    if elem_sz <? align then align else elem_sz
  else elem_sz.

(** [verify] is [MCUBOOT_VERIFY_LOGICAL_SECTORS], which requires logical sectors. *)
Definition boot_read_sectors (verify : bool) (state : boot_loader_state) : M W (Z * boot_loader_state) :=
  let image_index := curr_img_idx state in
  '(rc, state) ← boot_initialize_area state (FLASH_AREA_IMAGE_PRIMARY image_index);
  if negb (rc =? 0) then mret (BOOT_EFLASH, state) else
  '(rc, state) ← boot_initialize_area state (FLASH_AREA_IMAGE_SECONDARY image_index);
  if negb (rc =? 0) then mret (BOOT_EFLASH_SEC, state) else
  '(rc, state) ←
    (if uses SWAP_USING_SCRATCH then boot_initialize_area state FLASH_AREA_IMAGE_SCRATCH else mret (0, state));
  if negb (rc =? 0) then mret (BOOT_EFLASH, state) else
  let state := set_write_sz state (boot_write_sz state) in
  if negb verify then mret (rc, state) else
  p ← boot_verify_logical_sectors (FLASH_AREA_IMAGE_PRIMARY image_index) (BOOT_IMG_AREA state BOOT_SLOT_PRIMARY);
  let rc := if negb (p =? 0) then BOOT_EFLASH else rc in
  s ← boot_verify_logical_sectors (FLASH_AREA_IMAGE_SECONDARY image_index) (BOOT_IMG_AREA state BOOT_SLOT_SECONDARY);
  let rc := if negb (s =? 0) then BOOT_EFLASH else rc in
  if uses SWAP_USING_SCRATCH then
    x ← boot_verify_logical_sectors FLASH_AREA_IMAGE_SCRATCH (scratch_area state);
    mret (if negb (x =? 0) then BOOT_EFLASH else rc, state)
  else mret (rc, state).

(** Opening the areas of the current image; a failure to open is an assertion. *)
Definition boot_open_all_flash_areas (state : boot_loader_state) : M W boot_loader_state :=
  '(rc, pri) ← flash_area_open (FLASH_AREA_IMAGE_PRIMARY (curr_img_idx state));
  assert (rc =? 0);;
  let state := set_img_area state BOOT_SLOT_PRIMARY pri in
  '(rc, sec) ← flash_area_open (FLASH_AREA_IMAGE_SECONDARY (curr_img_idx state));
  assert (rc =? 0);;
  let state := set_img_area state BOOT_SLOT_SECONDARY sec in
  if uses SWAP_USING_SCRATCH then
    '(rc, scr) ← flash_area_open FLASH_AREA_IMAGE_SCRATCH;
    assert (rc =? 0);;
    mret (set_scratch state scr (scratch_sectors state) (scratch_num_sectors state))
  else mret state.

End Sectors.

(** * The interface of a swap algorithm

    bootutil is linked with one of swap_offset.c, swap_move.c and swap_scratch.c.
    The functions the loader calls in them, as a class; and the size of an image as
    bootutil_misc.c computes it for the algorithms that keep images at the start of
    their slots. *)

Class SwapAlgo (W : Type) := {
  app_max_size : boot_loader_state → M W Z;
  boot_slots_compatible : boot_loader_state → M W bool;
  (** Header and updated state; [None] for a missing status. *)
  boot_read_image_header :
    boot_loader_state → Z → image_header → option boot_status → M W (Z * image_header * boot_loader_state);
  boot_read_image_size : boot_loader_state → Z → M W (Z * Z * boot_loader_state);
  swap_status_source : boot_loader_state → M W Z;
  swap_read_status_bytes : flash_area → boot_loader_state → boot_status → M W (Z * boot_status);
  swap_run : boot_loader_state → boot_status → Z → M W boot_status;
}.

Section Size.
  Context {W : Type} `{FlashMap W}.

(** [boot_read_image_size] of bootutil_misc.c. *)
Definition misc_read_image_size (state : boot_loader_state) (slot : Z) : M W (Z * Z * boot_loader_state) :=
  assert ((slot =? BOOT_SLOT_PRIMARY) || (slot =? BOOT_SLOT_SECONDARY));;
  let fap := BOOT_IMG_AREA state slot in
  let off := BOOT_TLV_OFF (boot_img_hdr state slot) in
  '(rc, b) ← flash_area_read fap off 4;
  if negb (rc =? 0) then mret (BOOT_EFLASH, 0, state) else
  let '(it_magic, it_tlv_tot) := pair_of_bytes b in
  let protect_tlv_size := ih_protect_tlv_size (boot_img_hdr state slot) in
  info ←
    (if it_magic =? IMAGE_TLV_PROT_INFO_MAGIC then
       if negb (protect_tlv_size =? it_tlv_tot) then mret (inl BOOT_EBADIMAGE) else
       '(rc, b) ← flash_area_read fap (off ⊕ it_tlv_tot) 4;
       if negb (rc =? 0) then mret (inl BOOT_EFLASH) else mret (inr (pair_of_bytes b))
     else if negb (protect_tlv_size =? 0) then mret (inl BOOT_EBADIMAGE)
     else mret (inr (it_magic, it_tlv_tot)));
  match info with
  | inl rc => mret (rc, 0, state)
  | inr (it_magic, it_tlv_tot) =>
      if negb (it_magic =? IMAGE_TLV_INFO_MAGIC) then mret (BOOT_EBADIMAGE, 0, state)
      else mret (0, off ⊕ protect_tlv_size ⊕ it_tlv_tot, state)
  end.

End Size.
