(* ===== verification/Validate.v ===== *)
(** * Image validation

    image_validate.c, bootutil_img_hash.c, bootutil_find_key.c and
    bootutil_img_security_cnt.c: the hash of an image, the walk over its TLVs with
    the checks of hash, signature, security counter and identifiers, and the check
    of a slot (bootutil_loader.c).  Images are read from flash through a buffer and
    are signed through their hash; keys are found by their hash. *)

From S2P Require Import Sectors Prelude Effects FlashMap BootConfig Trailer Area Image Tlv LoaderState.

Definition IMAGE_TLV_KEYHASH : Z := 0x01.
Definition IMAGE_TLV_PUBKEY : Z := 0x02.
Definition IMAGE_TLV_SHA256 : Z := 0x10.
Definition IMAGE_TLV_SHA384 : Z := 0x11.
Definition IMAGE_TLV_SHA512 : Z := 0x12.
Definition IMAGE_TLV_RSA2048_PSS : Z := 0x20.
Definition IMAGE_TLV_ECDSA224 : Z := 0x21.
Definition IMAGE_TLV_ECDSA_SIG : Z := 0x22.
Definition IMAGE_TLV_RSA3072_PSS : Z := 0x23.
Definition IMAGE_TLV_ED25519 : Z := 0x24.
Definition IMAGE_TLV_ENC_RSA2048 : Z := 0x30.
Definition IMAGE_TLV_ENC_KW : Z := 0x31.
Definition IMAGE_TLV_ENC_EC256 : Z := 0x32.
Definition IMAGE_TLV_ENC_X25519 : Z := 0x33.
Definition IMAGE_TLV_SEC_CNT : Z := 0x50.
Definition IMAGE_TLV_UUID_VID : Z := 0x74.
Definition IMAGE_TLV_UUID_CID : Z := 0x75.

(** ** Options *)

(** The signature schemes. *)
Inductive sig_type := SIGN_RSA2048 | SIGN_RSA3072 | SIGN_EC256 | SIGN_EC384 | SIGN_ED25519 | SIGN_NONE.

Class ValidateConfig := {
  MCUBOOT_SIGN : sig_type;
  MCUBOOT_SHA512 : bool;
  MCUBOOT_USE_TLV_ALLOW_LIST : bool;
  MCUBOOT_HW_ROLLBACK_PROT : bool;
  MCUBOOT_HW_ROLLBACK_PROT_COUNTER_LIMITED : bool;
  MCUBOOT_UUID_VID : bool;
  MCUBOOT_UUID_CID : bool;
  BOOT_TMPBUF_SZ : Z;
}.

Section Options.
  Context `{ValidateConfig}.

(** [None] when the macro is not defined. *)
Definition EXPECTED_SIG_TLV : option Z :=
  match MCUBOOT_SIGN with
  | SIGN_RSA2048 => Some IMAGE_TLV_RSA2048_PSS
  | SIGN_RSA3072 => Some IMAGE_TLV_RSA3072_PSS
  | SIGN_EC256 | SIGN_EC384 => Some IMAGE_TLV_ECDSA_SIG
  | SIGN_ED25519 => Some IMAGE_TLV_ED25519
  | SIGN_NONE => None
  end.

Definition SIG_BUF_SIZE : Z :=
  match MCUBOOT_SIGN with
  | SIGN_RSA2048 => 256
  | SIGN_RSA3072 => 384
  | SIGN_EC256 | SIGN_EC384 => 128
  | SIGN_ED25519 => 64
  | SIGN_NONE => 32
  end.

Definition EXPECTED_SIG_LEN (x : Z) : bool :=
  match MCUBOOT_SIGN with
  | SIGN_EC256 | SIGN_EC384 => true
  | _ => x =? SIG_BUF_SIZE
  end.

(** crypto/sha.h *)
Definition IMAGE_HASH_SIZE : Z :=
  if MCUBOOT_SHA512 then 64 else match MCUBOOT_SIGN with SIGN_EC384 => 48 | _ => 32 end.

Definition EXPECTED_HASH_TLV : Z :=
  if MCUBOOT_SHA512 then IMAGE_TLV_SHA512
  else match MCUBOOT_SIGN with SIGN_EC384 => IMAGE_TLV_SHA384 | _ => IMAGE_TLV_SHA256 end.

(** The key TLV holds the hash of a public key. *)
Definition EXPECTED_KEY_TLV : option Z := if EXPECTED_SIG_TLV is Some _ then Some IMAGE_TLV_KEYHASH else None.
Definition KEY_BUF_SIZE : Z := IMAGE_HASH_SIZE.

(** Up to, and without, the end mark. *)
Definition allowed_unprot_tlvs : list Z :=
  [IMAGE_TLV_KEYHASH; IMAGE_TLV_PUBKEY; IMAGE_TLV_SHA256; IMAGE_TLV_SHA384; IMAGE_TLV_SHA512;
   IMAGE_TLV_RSA2048_PSS; IMAGE_TLV_ECDSA224; IMAGE_TLV_ECDSA_SIG; IMAGE_TLV_RSA3072_PSS;
   IMAGE_TLV_ED25519; IMAGE_TLV_ENC_RSA2048; IMAGE_TLV_ENC_KW; IMAGE_TLV_ENC_EC256;
   IMAGE_TLV_ENC_X25519].

End Options.

(** ** The environment *)

(** Results of the fault-hardened functions. *)
Inductive fih_ret := FIH_SUCCESS | FIH_FAILURE | FIH_NO_BOOTABLE_IMAGE.

#[export] Instance fih_ret_eq_dec : EqDecision fih_ret.
Proof. solve_decision. Defined.

Definition FIH_EQ (a b : fih_ret) : bool := bool_decide (a = b).

(** The hash functions of the crypto backend. *)
Class Sha := {
  bootutil_sha_context : Type;
  bootutil_sha_init : bootutil_sha_context;
  bootutil_sha_update : bootutil_sha_context → list Z → bootutil_sha_context;
  bootutil_sha_finish : bootutil_sha_context → list Z;
}.

(** The public keys built into the loader and the verification of a signature
    over a hash with one of them. *)
Class Signing := {
  bootutil_keys : list (list Z);
  bootutil_verify_sig : list Z → list Z → Z → fih_ret;
}.

(** Functions the platform provides: the security counters (security_cnt.h) and
    the identifiers (mcuboot_uuid.h). *)
Class Platform (W : Type) := {
  boot_nv_security_counter_get : Z → M W (fih_ret * Z);
  boot_nv_security_counter_update : Z → Z → M W Z;
  boot_nv_security_counter_is_update_possible : Z → Z → M W fih_ret;
  boot_uuid_vid_match : Z → list Z → M W fih_ret;
  boot_uuid_cid_match : Z → list Z → M W fih_ret;
}.

Definition bootutil_key_cnt `{Signing} : Z := zlen bootutil_keys.

(** Equality of [n] bytes (bootutil_misc.c). *)
Definition boot_fih_memequal (s1 s2 : list Z) (n : Z) : fih_ret :=
  if bool_decide (slice s1 0 n = slice s2 0 n) then FIH_SUCCESS else FIH_FAILURE.

(** ** Keys *)

Section Keys.
  Context `{ValidateConfig} `{Sha} `{Signing}.

(** The search from key [i] on. *)
Fixpoint find_key_from (i : Z) (keys : list (list Z)) (keyhash : list Z) (keyhash_len : Z) : Z :=
  match keys with
  | [] => -1
  | key :: keys =>
      let hash := bootutil_sha_finish (bootutil_sha_update bootutil_sha_init key) in
      if bool_decide (slice hash 0 keyhash_len = slice keyhash 0 keyhash_len) then i
      else find_key_from (i + 1) keys keyhash keyhash_len
  end.

Definition bootutil_find_key (keyhash : list Z) (keyhash_len : Z) : Z :=
  if IMAGE_HASH_SIZE <? keyhash_len then -1 else find_key_from 0 bootutil_keys keyhash keyhash_len.

End Keys.

Section Validate.
  Context {W : Type} `{FlashMap W} `{BootConfig} `{ValidateConfig} `{Sha} `{Signing} `{Platform W}.

(** A read into a buffer of [cap] bytes. *)
Definition LOAD_IMAGE_DATA (fap : flash_area) (off cap n : Z) : M W (Z * list Z) :=
  if cap <? n then fault else flash_area_read fap off n.

(** ** The hash *)

(** One chunk; the loop variables are [off] and the hash context. *)
Definition hash_step (fap : flash_area) (size sector_off tmp_buf_sz : Z) (s : Z * bootutil_sha_context)
  : M W (Z * bootutil_sha_context + Z * list Z) :=
  let '(off, ctx) := s in
  if negb (off <? size) then mret (inr (0, bootutil_sha_finish ctx)) else
  let blk_sz := if tmp_buf_sz <? size ⊖ off then tmp_buf_sz else size ⊖ off in
  '(rc, b) ← LOAD_IMAGE_DATA fap (off ⊕ sector_off) tmp_buf_sz blk_sz;
  if negb (rc =? 0) then mret (inr (rc, [])) else
  mret (inl (off ⊕ blk_sz, bootutil_sha_update ctx b)).

(** The bytes the hash covers: header, image and protected TLVs; [None] when they
    do not fit the area. *)
Definition hash_span (hdr : image_header) (fap : flash_area) (sector_off : Z) : option Z :=
  match boot_u32_safe_add (ih_img_size hdr) (ih_hdr_size hdr) with
  | None => None
  | Some size =>
      match boot_u32_safe_add size (ih_protect_tlv_size hdr) with
      | None => None
      | Some size =>
          match boot_u32_safe_add size sector_off with
          | None => None
          | Some end_ => if fa_size fap <? end_ then None else Some size
          end
      end
  end.

(** The state is not NULL. *)
Definition boot_get_state_secondary_offset (state : boot_loader_state) (fap : flash_area) : Z :=
  if bool_decide (BOOT_IMG_AREA state BOOT_SLOT_SECONDARY = fap) then secondary_offset state else 0.

(** Where an image starts in its area. *)
Definition image_start (state : boot_loader_state) (fap : flash_area) : Z :=
  if uses SWAP_USING_OFFSET then boot_get_state_secondary_offset state fap else 0.

(** [seed] is empty for a NULL seed.  A buffer of no bytes would never end the
    loop; the fuel is enough for any other. *)
Definition bootutil_img_hash (state : boot_loader_state) (hdr : image_header) (fap : flash_area)
    (tmp_buf_sz : Z) (seed : list Z) : M W (Z * list Z) :=
  let sector_off := image_start state fap in
  match hash_span hdr fap sector_off with
  | None => mret (-1, [])
  | Some size =>
      let ctx := match seed with [] => bootutil_sha_init | _ => bootutil_sha_update bootutil_sha_init seed end in
      loop (S (S (Z.to_nat (size / tmp_buf_sz)))) (hash_step fap size sector_off tmp_buf_sz) (0, ctx)
  end.

(** ** The TLVs *)

(** The variables of the walk. *)
Record validate_vars := ValidateVars {
  v_it : image_tlv_iter;
  v_hash_valid : bool;
  v_key_id : Z;
  v_signature : fih_ret;
  v_counter : fih_ret;
  v_vid : fih_ret;
  v_cid : fih_ret;
  v_rc : fih_ret;
}.

Definition set_v_it (v : validate_vars) (it : image_tlv_iter) : validate_vars :=
  ValidateVars it (v_hash_valid v) (v_key_id v) (v_signature v) (v_counter v) (v_vid v) (v_cid v) (v_rc v).
Definition set_v_hash (v : validate_vars) : validate_vars :=
  ValidateVars (v_it v) true (v_key_id v) (v_signature v) (v_counter v) (v_vid v) (v_cid v) FIH_SUCCESS.
Definition set_v_key (v : validate_vars) (key_id : Z) : validate_vars :=
  ValidateVars (v_it v) (v_hash_valid v) key_id (v_signature v) (v_counter v) (v_vid v) (v_cid v) (v_rc v).
Definition set_v_signature (v : validate_vars) (r : fih_ret) : validate_vars :=
  ValidateVars (v_it v) (v_hash_valid v) (-1) r (v_counter v) (v_vid v) (v_cid v) (v_rc v).
Definition set_v_counter (v : validate_vars) : validate_vars :=
  ValidateVars (v_it v) (v_hash_valid v) (v_key_id v) (v_signature v) FIH_SUCCESS (v_vid v) (v_cid v)
    FIH_SUCCESS.
Definition set_v_vid (v : validate_vars) : validate_vars :=
  ValidateVars (v_it v) (v_hash_valid v) (v_key_id v) (v_signature v) (v_counter v) FIH_SUCCESS (v_cid v)
    FIH_SUCCESS.
Definition set_v_cid (v : validate_vars) : validate_vars :=
  ValidateVars (v_it v) (v_hash_valid v) (v_key_id v) (v_signature v) (v_counter v) (v_vid v) FIH_SUCCESS
    FIH_SUCCESS.

(** The cases of the switch.  [None] leaves the function with [FIH_FAILURE]: every
    [goto out] inside the loop has a non-zero [rc] or a failed [fih_rc]. *)

Definition check_hash (fap : flash_area) (hash : list Z) (off len : Z) (v : validate_vars)
  : M W (option validate_vars) :=
  if negb (len =? IMAGE_HASH_SIZE) then mret None else
  '(rc, buf) ← LOAD_IMAGE_DATA fap off SIG_BUF_SIZE IMAGE_HASH_SIZE;
  if negb (rc =? 0) then mret None
  else if negb (FIH_EQ (boot_fih_memequal hash buf IMAGE_HASH_SIZE) FIH_SUCCESS) then mret None
  else mret (Some (set_v_hash v)).

Definition check_key (fap : flash_area) (off len : Z) (v : validate_vars) : M W (option validate_vars) :=
  if KEY_BUF_SIZE <? len then mret None else
  '(rc, buf) ← LOAD_IMAGE_DATA fap off SIG_BUF_SIZE len;
  if negb (rc =? 0) then mret None
  else mret (Some (set_v_key v (bootutil_find_key buf (u8 len)))).

Definition check_signature (fap : flash_area) (hash : list Z) (off len : Z) (v : validate_vars)
  : M W (option validate_vars) :=
  if (v_key_id v <? 0) || (bootutil_key_cnt <=? v_key_id v) then mret (Some (set_v_key v (-1)))
  else if negb (EXPECTED_SIG_LEN len) || (SIG_BUF_SIZE <? len) then mret None else
  '(rc, buf) ← LOAD_IMAGE_DATA fap off SIG_BUF_SIZE len;
  if negb (rc =? 0) then mret None
  else mret (Some (set_v_signature v (bootutil_verify_sig hash buf (u8 (v_key_id v))))).

Definition check_counter (image_index : Z) (fap : flash_area) (off len : Z) (v : validate_vars)
  : M W (option validate_vars) :=
  if negb (len =? 4) then mret None else
  '(rc, buf) ← LOAD_IMAGE_DATA fap off 4 len;
  if negb (rc =? 0) then mret None else
  let img_security_cnt := le_dec buf in
  '(r, security_cnt) ← boot_nv_security_counter_get image_index;
  if negb (FIH_EQ r FIH_SUCCESS) then mret None
  else if img_security_cnt <? u32 security_cnt then mret None else
  possible ←
    (if MCUBOOT_HW_ROLLBACK_PROT_COUNTER_LIMITED && (u32 security_cnt <? img_security_cnt) then
       boot_nv_security_counter_is_update_possible image_index img_security_cnt
     else mret FIH_SUCCESS);
  if negb (FIH_EQ possible FIH_SUCCESS) then mret None else mret (Some (set_v_counter v)).

Definition check_uuid (match_ : list Z → M W fih_ret) (set : validate_vars → validate_vars)
    (fap : flash_area) (off len : Z) (v : validate_vars) : M W (option validate_vars) :=
  if negb (len =? 16) then mret None else
  '(rc, buf) ← LOAD_IMAGE_DATA fap off 16 len;
  if negb (rc =? 0) then mret None else
  r ← match_ buf;
  if negb (FIH_EQ r FIH_SUCCESS) then mret None else mret (Some (set v)).

(** The switch; a TLV of another type is passed over. *)
Definition check_tlv (image_index : Z) (fap : flash_area) (hash : list Z) (off len type : Z)
    (v : validate_vars) : M W (option validate_vars) :=
  if type =? EXPECTED_HASH_TLV then check_hash fap hash off len v
  else if bool_decide (EXPECTED_KEY_TLV = Some type) then check_key fap off len v
  else if bool_decide (EXPECTED_SIG_TLV = Some type) then check_signature fap hash off len v
  else if MCUBOOT_HW_ROLLBACK_PROT && (type =? IMAGE_TLV_SEC_CNT) then
    check_counter image_index fap off len v
  else if MCUBOOT_UUID_VID && (type =? IMAGE_TLV_UUID_VID) then
    check_uuid (boot_uuid_vid_match image_index) set_v_vid fap off len v
  else if MCUBOOT_UUID_CID && (type =? IMAGE_TLV_UUID_CID) then
    check_uuid (boot_uuid_cid_match image_index) set_v_cid fap off len v
  else mret (Some v).

(** One iteration of the walk; the result is the value returned. *)
Definition validate_step (image_index : Z) (fap : flash_area) (hash : list Z) (v : validate_vars)
  : M W (validate_vars + option validate_vars) :=
  '(r, it) ← bootutil_tlv_iter_next (v_it v);
  let v := set_v_it v it in
  match r with
  | TlvError => mret (inr None)
  | TlvNone => mret (inr (Some v))
  | TlvFound off len type =>
      if MCUBOOT_USE_TLV_ALLOW_LIST && negb (bootutil_tlv_iter_is_prot it off) &&
         negb (bool_decide (type ∈ allowed_unprot_tlvs))
      then mret (inr None)
      else
        o ← check_tlv image_index fap hash off len type v;
        mret (match o with None => inr None | Some v => inl v end)
  end.

(** What follows the walk. *)
Definition validate_verdict (v : validate_vars) : fih_ret :=
  if negb (v_hash_valid v) then FIH_FAILURE
  else
    let fih_rc := if EXPECTED_SIG_TLV is Some _ then v_signature v else v_rc v in
    if MCUBOOT_HW_ROLLBACK_PROT && negb (FIH_EQ (v_counter v) FIH_SUCCESS) then FIH_FAILURE
    else if MCUBOOT_UUID_VID && negb (FIH_EQ (v_vid v) FIH_SUCCESS) then FIH_FAILURE
    else if MCUBOOT_UUID_CID && negb (FIH_EQ (v_cid v) FIH_SUCCESS) then FIH_FAILURE
    else fih_rc.

Section WithSize.
  Context `{SwapAlgo W}.

(** bootutil_misc.c; the modes with a swap ask the swap algorithm. *)
Definition bootutil_max_image_size (state : boot_loader_state) (fap : flash_area) : M W Z :=
  match MCUBOOT_MODE with
  | SINGLE_APPLICATION_SLOT | FIRMWARE_LOADER | SINGLE_APPLICATION_SLOT_RAM_LOAD => boot_status_off fap
  | SWAP_USING_MOVE | SWAP_USING_OFFSET | SWAP_USING_SCRATCH => app_max_size state
  | OVERWRITE_ONLY | DIRECT_XIP | RAM_LOAD => mret (boot_swap_info_off fap)
  end.

(** The computed hash is copied out as soon as it is known.  Every entry of the
    walk takes at least four bytes. *)
Definition bootutil_img_validate (state : boot_loader_state) (hdr : image_header) (fap : flash_area)
    (tmp_buf_sz : Z) (seed : list Z) : M W (fih_ret * option (list Z)) :=
  '(rc, hash) ← bootutil_img_hash state hdr fap tmp_buf_sz seed;
  if negb (rc =? 0) then mret (FIH_FAILURE, None) else
  o ← bootutil_tlv_iter_begin (image_start state fap) hdr fap IMAGE_TLV_ANY false;
  match o with
  | None => mret (FIH_FAILURE, Some hash)
  | Some it =>
      let img_sz := it_tlv_end it ⊖ it_start_off it in
      max ← bootutil_max_image_size state fap;
      if max <? img_sz then mret (FIH_FAILURE, Some hash) else
      o ← loop (S (Z.to_nat (it_tlv_end it - it_tlv_off it))) (validate_step (curr_img_idx state) fap hash)
            (ValidateVars it false (-1) FIH_FAILURE FIH_FAILURE FIH_FAILURE FIH_FAILURE FIH_FAILURE);
      mret (match o with None => FIH_FAILURE | Some v => validate_verdict v end, Some hash)
  end.

(** Image encryption is off. *)
Definition boot_check_image (state : boot_loader_state) (slot : Z) : M W fih_ret :=
  '(r, _) ← bootutil_img_validate state (boot_img_hdr state slot) (BOOT_IMG_AREA state slot) BOOT_TMPBUF_SZ [];
  mret r.

End WithSize.

(** ** The security counter *)

(** Counter of the image whose header is that of [slot]; the pointers are not
    NULL. *)
Definition bootutil_get_img_security_cnt (state : boot_loader_state) (slot : Z) (fap : flash_area)
  : M W (Z * Z) :=
  let hdr := boot_img_hdr state slot in
  if ih_protect_tlv_size hdr =? 0 then mret (BOOT_EBADIMAGE, 0) else
  o ← bootutil_tlv_iter_begin (image_start state fap) hdr fap IMAGE_TLV_SEC_CNT true;
  match o with
  | None => mret (-1, 0)
  | Some it =>
      '(r, _) ← bootutil_tlv_iter_next it;
      match r with
      | TlvFound off len _ =>
          if negb (len =? 4) then mret (BOOT_EBADIMAGE, 0) else
          '(rc, buf) ← LOAD_IMAGE_DATA fap off 4 len;
          if negb (rc =? 0) then mret (BOOT_EFLASH, 0) else mret (0, le_dec buf)
      | _ => mret (-1, 0)
      end
  end.

Definition boot_update_security_counter (state : boot_loader_state) (slot hdr_slot_idx : Z) : M W Z :=
  '(rc, img_security_cnt) ← bootutil_get_img_security_cnt state hdr_slot_idx (BOOT_IMG_AREA state slot);
  if negb (rc =? 0) then mret rc
  else boot_nv_security_counter_update (curr_img_idx state) img_security_cnt.

End Validate.
