(* ===== verification/ValidateProps.v ===== *)
(** * Image validation: what it computes and what acceptance means

    The hash covers exactly header, image and protected TLVs, whatever the size of
    the buffer.  On arbitrary flash contents validation terminates, stays inside its
    buffers and modifies nothing, and an accepted image has a matching hash, a
    signature that verifies with a built-in key and a sufficient security counter.
    On a well-formed TLV area it is the check of the list of TLVs. *)

From S2P Require Import Prelude Effects FlashMap BootConfig Trailer Area Image ImageProps.
From S2P Require Import Sectors Tlv TlvProps LoaderState Validate.

#[local] Set Default Proof Using "Type*".

(** The hash backend computes a digest of the concatenated updates. *)
Class ShaOk `{ValidateConfig} `{Sha} := {
  sha_digest : list Z → list Z;
  sha_updates chunks :
    bootutil_sha_finish (foldl bootutil_sha_update bootutil_sha_init chunks) = sha_digest (concat chunks);
  sha_len d : zlen (sha_digest d) = IMAGE_HASH_SIZE;
}.

(** The queries of the platform return and change nothing. *)
Class PlatformOk (W : Type) `{Platform W} := {
  pf_counter : W → Z → fih_ret * Z;
  pf_possible : W → Z → Z → fih_ret;
  pf_vid : W → Z → list Z → fih_ret;
  pf_cid : W → Z → list Z → fih_ret;
  pf_counter_get w i : boot_nv_security_counter_get i w = (Ret (pf_counter w i), w);
  pf_update_possible w i c :
    boot_nv_security_counter_is_update_possible i c w = (Ret (pf_possible w i c), w);
  pf_vid_match w i u : boot_uuid_vid_match i u w = (Ret (pf_vid w i u), w);
  pf_cid_match w i u : boot_uuid_cid_match i u w = (Ret (pf_cid w i u), w);
}.

(** ** The hash *)

Definition span_size (hdr : image_header) : Z :=
  ih_hdr_size hdr + ih_img_size hdr + ih_protect_tlv_size hdr.

Lemma hash_span_eq hdr fap start :
  header_ok hdr → 0 <= fa_size fap < 2147483648 → is_u32 start →
  hash_span hdr fap start = if start + span_size hdr <=? fa_size fap then Some (span_size hdr) else None.
Proof.
  intros [] Hf Hs. unfold hash_span, span_size. unfold_uint.
  rewrite u32_safe_add_eq by (unfold is_u32; lia). unfold UINT32_MAX.
  case_if H1; [|symmetry; rewrite (proj2 (Z.leb_gt _ _)) by lia; done].
  rewrite u32_safe_add_eq by (unfold is_u32; lia). unfold UINT32_MAX.
  case_if H2; [|symmetry; rewrite (proj2 (Z.leb_gt _ _)) by lia; done].
  rewrite u32_safe_add_eq by (unfold is_u32; lia). unfold UINT32_MAX.
  case_if H3; [|symmetry; rewrite (proj2 (Z.leb_gt _ _)) by lia; done].
  case_if H4.
  - rewrite (proj2 (Z.leb_gt _ _)) by lia. done.
  - rewrite (proj2 (Z.leb_le _ _)) by lia. f_equal. lia.
Qed.

Section Hash.
  Context {W : Type} `{FlashMapOk W} `{BootConfig} `{ShaOk}.
  Implicit Types (w : W).

Lemma hash_step_wp w fap size start tmp off chunks c0 :
  fm_ok w → fm_area fap → 0 < tmp < 4294967296 → 0 <= start → 0 <= size → start + size <= fa_size fap →
  0 <= off <= size → concat chunks = c0 ++ slice (vals (fm_cells w fap)) start off →
  wp (hash_step fap size start tmp (off, foldl bootutil_sha_update bootutil_sha_init chunks))
    (λ r w', w' = w ∧ match r with
       | inl (off', ctx) => off < size ∧ (off' = size ∧ size - off < tmp ∨ off' = off + tmp ∧ off + tmp <= size) ∧
           ∃ chunks', ctx = foldl bootutil_sha_update bootutil_sha_init chunks' ∧
             concat chunks' = c0 ++ slice (vals (fm_cells w fap)) start off'
       | inr r => r = (0, sha_digest (c0 ++ slice (vals (fm_cells w fap)) start size))
       end) (λ _, False) w.
Proof.
  intros Hok Ha Ht Hs Hz Hfit Ho Hc. destruct (fm_bounds fap Ha) as (? & ? & ?). unfold hash_step.
  wp_if Hlt.
  { apply wp_ret. split; [done|]. rewrite sha_updates, Hc. by replace off with size by lia. }
  rewrite (u32_small (size - off)) by (unfold is_u32; lia).
  set (n := if tmp <? size - off then tmp else size - off).
  assert (Hn : 0 < n <= tmp ∧ n <= size - off ∧ (off + n = size ∧ size - off < tmp ∨ n = tmp)).
  { unfold n. destruct (tmp <? size - off) eqn:Hb; zsimp; lia. }
  apply wp_bind. unfold LOAD_IMAGE_DATA. rewrite (proj2 (Z.ltb_ge tmp n)) by lia.
  rewrite (u32_small (off + start)) by (unfold is_u32; lia).
  eapply wp_pure; [apply fm_read; (done || lia)|]. cbn beta iota. cbn [Z.eqb negb]. apply wp_ret.
  split; [done|]. rewrite u32_small by (unfold is_u32; lia).
  split; [lia|]. split; [lia|].
  exists (chunks ++ [slice (vals (fm_cells w fap)) (off + start) n]).
  rewrite foldl_snoc, concat_app, Hc, slice_app_split by lia. cbn. rewrite app_nil_r, <- app_assoc.
  split; [done|]. by rewrite (Z.add_comm start off).
Qed.

Lemma img_hash_eq w state hdr fap tmp seed :
  fm_ok w → fm_area fap → header_ok hdr → 0 < tmp < 4294967296 → is_u32 (image_start state fap) →
  bootutil_img_hash state hdr fap tmp seed w =
    (Ret (if image_start state fap + span_size hdr <=? fa_size fap
          then (0, sha_digest (seed ++ slice (vals (fm_cells w fap)) (image_start state fap) (span_size hdr)))
          else (-1, [])), w).
Proof.
  intros Hok Ha Hh Ht Hs. destruct (fm_bounds fap Ha) as (? & ? & ?).
  unfold bootutil_img_hash. rewrite hash_span_eq by (done || lia).
  destruct (image_start state fap + span_size hdr <=? fa_size fap) eqn:Hfit; [|done]. zsimp.
  set (start := image_start state fap) in *. set (size := span_size hdr) in *. unfold is_u32 in Hs.
  assert (0 <= size) by (unfold size, span_size; destruct Hh; unfold_uint; lia).
  match goal with |- loop ?f ?b (0, ?c) w = _ => assert (Hwp : wp (loop f b (0, c))
    (λ r w', w' = w ∧ r = (0, sha_digest (seed ++ slice (vals (fm_cells w fap)) start size))) (λ _, False) w) end.
  { apply (wp_loop (λ s w', w' = w ∧ 0 <= fst s <= size ∧ ∃ chunks,
        snd s = foldl bootutil_sha_update bootutil_sha_init chunks ∧
        concat chunks = seed ++ slice (vals (fm_cells w fap)) start (fst s))
      (λ s, (size - fst s + tmp - 1) / tmp)).
    - intros [off ctx] w' (-> & Ho & chunks & Hctx & Hc). cbn [fst snd] in *. subst ctx.
      eapply wp_mono; [apply (hash_step_wp w fap size start tmp off chunks seed); (done || lia)| |done].
      intros [[off' ctx]|r] w' [-> Hr]; [|done]. destruct Hr as (Hlt & Hcase & Hch). cbn [fst snd].
      split; [split_and!; [done|lia|lia|done]|].
      split; [apply Z.div_pos; lia|]. destruct Hcase as [[-> Hsm]|[-> Hle]].
      + rewrite (Z.div_small (size - size + tmp - 1)) by lia. apply Z.div_str_pos. lia.
      + replace (size - off + tmp - 1) with ((size - (off + tmp) + tmp - 1) + 1 * tmp) by lia.
        rewrite Z.div_add by lia. lia.
    - cbn [fst snd]. split_and!; [done|lia|lia|]. rewrite slice_nil, app_nil_r.
      destruct seed as [|b seed]; [by exists []|]. exists [b :: seed]. cbn. by rewrite app_nil_r.
    - cbn [fst]. replace (size - 0 + tmp - 1) with (size + (tmp - 1)) by lia.
      assert ((size + (tmp - 1)) / tmp <= size / tmp + 1).
      { replace (size / tmp + 1) with ((size + 1 * tmp) / tmp) by (rewrite Z.div_add; lia).
        apply Z.div_le_mono; lia. }
      pose proof (Z.div_pos size tmp). lia.
    - cbn [fst]. apply Z.div_pos; lia. }
  apply wp_returns in Hwp as (r & w' & Heq & -> & ->). done.
Qed.

(** C29: [bootutil_img_hash] is the digest of the seed followed by exactly header, image
    and protected TLVs of the image in flash, whatever the size of the chunks it reads; an
    image whose header claims more than the area holds, also by sizes that overflow 32
    bits, is refused before anything is read. *)
Theorem img_hash_digest w state hdr fap tmp seed :
  fm_ok w → fm_area fap → header_ok hdr → 0 < tmp < 4294967296 → is_u32 (image_start state fap) →
  bootutil_img_hash state hdr fap tmp seed w =
    (Ret (if image_start state fap + (ih_hdr_size hdr + ih_img_size hdr + ih_protect_tlv_size hdr) <=? fa_size fap
          then (0, sha_digest (seed ++ slice (vals (fm_cells w fap)) (image_start state fap)
                                 (ih_hdr_size hdr + ih_img_size hdr + ih_protect_tlv_size hdr)))
          else (-1, [])), w).
Proof. apply img_hash_eq. Qed.

End Hash.

(** ** Soundness on arbitrary flash contents *)

Section Begin.
  Context {W : Type} `{FlashMap W}.
  Implicit Types (w : W).

(** Starting a walk over a header whose image lies below 2 GiB. *)
Lemma iter_begin_safe w start hdr fap type prot :
  reads_answer w fap → header_ok hdr → 0 <= start → start + span_size hdr < 2147483648 →
  wp (bootutil_tlv_iter_begin start hdr fap type prot)
    (λ o w', w' = w ∧ match o with
       | None => True
       | Some it => iter_ok it ∧ it_fap it = fap ∧ it_start_off it = start ∧ it_type it = type ∧
           it_prot it = prot ∧ it_tlv_off it = start + ih_hdr_size hdr + ih_img_size hdr + 4 ∧
           start <= it_tlv_end it
       end) (λ _, False) w.
Proof.
  intros Hrd [] Hs Hsz. unfold span_size in Hsz. unfold_uint.
  unfold bootutil_tlv_iter_begin, BOOT_TLV_OFF.
  rewrite (u32_small (ih_hdr_size hdr + _)) by (unfold is_u32; lia).
  set (off := ih_hdr_size hdr + ih_img_size hdr + start). rewrite (u32_small off) by (unfold is_u32; lia).
  destruct (Hrd off 4) as (rc & b & Hb & Hby). apply wp_bind. eapply wp_pure; [exact Hb|]. cbn beta iota.
  wp_if Hrc; [by apply wp_ret|]. pose proof (pair_of_bytes_range b (Hby Hrc)) as [_ Htot].
  destruct (pair_of_bytes b) as [mg tot]. cbn [fst snd] in Htot. apply wp_bind.
  assert (Hend : ∀ mg tot, is_u16 tot → wp (if negb (mg =? IMAGE_TLV_INFO_MAGIC) then mret None
      else mret (Some (TlvIter hdr fap type prot (off ⊕ ih_protect_tlv_size hdr) (off ⊕ 4)
                  (off ⊕ ih_protect_tlv_size hdr ⊕ tot) start)))
    (λ o w', w' = w ∧ match o with
       | None => True
       | Some it => iter_ok it ∧ it_fap it = fap ∧ it_start_off it = start ∧ it_type it = type ∧
           it_prot it = prot ∧ it_tlv_off it = start + ih_hdr_size hdr + ih_img_size hdr + 4 ∧
           start <= it_tlv_end it
       end) (λ _, False) w).
  { intros mg' tot' Ht'. unfold is_u16 in Ht'. wp_if Hmg; apply wp_ret; [done|].
    rewrite !u32_small by (unfold is_u32; rewrite ?u32_small; unfold is_u32; lia).
    split; [done|]. split_and!; cbn; [constructor; cbn; lia|done|done|done|done|lia|lia]. }
  wp_if Hprot.
  - wp_if Heq; [apply wp_ret; by apply wp_ret|].
    destruct (Hrd (off ⊕ tot) 4) as (rc' & b' & Hb' & Hby'). apply wp_bind. eapply wp_pure; [exact Hb'|].
    cbn beta iota. wp_if Hrc'; [apply wp_ret; by apply wp_ret|]. apply wp_ret.
    pose proof (pair_of_bytes_range b' (Hby' Hrc')) as [_ Htot'].
    destruct (pair_of_bytes b') as [mg' tot']. by apply Hend.
  - wp_if Heq; [apply wp_ret; by apply wp_ret|]. apply wp_ret. by apply Hend.
Qed.

End Begin.

Section Sound.
  Context {W : Type} `{FlashMapOk W} `{ShaOk} `{Signing} `{PlatformOk W}.
  Context (w : W) (image_index : Z) (fap : flash_area) (hash : list Z) (lo hi : Z).
  Hypothesis Hrd : reads_answer w fap.
  Hypothesis Hbuf : IMAGE_HASH_SIZE <= SIG_BUF_SIZE.
  Hypothesis Hkeys : bootutil_key_cnt <= 256.
  Hypothesis Hhash : zlen hash = IMAGE_HASH_SIZE.

(** A place for a TLV payload between [lo] and [hi], and the payload read there. *)
Definition payload (off len : Z) : Prop := lo <= off ∧ 0 <= len ∧ off + len <= hi.
Definition stored (off len : Z) (buf : list Z) : Prop :=
  payload off len ∧ flash_area_read fap off len w = (Ret (0, buf), w).

(** What the variables of the walk stand for. *)
Record evidence (v : validate_vars) : Prop := {
  ev_hash : v_hash_valid v = true →
    ∃ off buf, stored off IMAGE_HASH_SIZE buf ∧ slice buf 0 IMAGE_HASH_SIZE = hash;
  ev_key : -1 <= v_key_id v < bootutil_key_cnt;
  ev_sig : v_signature v = FIH_SUCCESS →
    ∃ key_id off len buf, 0 <= key_id < bootutil_key_cnt ∧ stored off len buf ∧
      bootutil_verify_sig hash buf key_id = FIH_SUCCESS;
  ev_counter : v_counter v = FIH_SUCCESS →
    ∃ off buf kept, stored off 4 buf ∧ pf_counter w image_index = (FIH_SUCCESS, kept) ∧ u32 kept <= le_dec buf;
  ev_vid : v_vid v = FIH_SUCCESS → ∃ off buf, stored off 16 buf ∧ pf_vid w image_index buf = FIH_SUCCESS;
  ev_cid : v_cid v = FIH_SUCCESS → ∃ off buf, stored off 16 buf ∧ pf_cid w image_index buf = FIH_SUCCESS;
}.

Lemma find_key_bound keyhash n i keys :
  0 <= i → -1 <= find_key_from i keys keyhash n < i + zlen keys.
Proof using Type.
  revert i. induction keys as [|k keys IH]; intros i Hi; cbn [find_key_from]; [rewrite zlen_nil; lia|].
  rewrite zlen_cons. pose proof (zlen_nonneg keys). case_bool_decide; [lia|]. specialize (IH (i + 1)). lia.
Qed.

Lemma payload_read off len cap :
  payload off len → len <= cap →
  ∃ rc buf, LOAD_IMAGE_DATA fap off cap len w = (Ret (rc, buf), w) ∧ (rc = 0 → stored off len buf).
Proof using Hrd.
  intros Hp Hc. unfold LOAD_IMAGE_DATA. rewrite (proj2 (Z.ltb_ge _ _)) by lia.
  destruct (Hrd off len) as (rc & buf & Heq & _). exists rc, buf. split; [done|]. intros ->. done.
Qed.

(** What every case of the switch keeps. *)
Definition check_post (v : validate_vars) (o : option validate_vars) (w' : W) : Prop :=
  w' = w ∧ match o with Some v' => evidence v' ∧ v_it v' = v_it v | None => True end.

#[local] Ltac refuse := apply wp_ret; by split.
#[local] Ltac load off len :=
  let rc := fresh "rc" in let buf := fresh "buf" in let Heq := fresh "Heq" in
  let Hs := fresh "Hs" in let Hrc := fresh "Hrc" in
  match goal with |- wp (LOAD_IMAGE_DATA _ _ ?cap _ ≫= _) _ _ _ =>
    destruct (payload_read off len cap) as (rc & buf & Heq & Hs); [done|try lia|] end;
  apply wp_bind; eapply wp_pure; [exact Heq|]; cbn beta iota;
  wp_if Hrc; [refuse|]; specialize (Hs Hrc).

Lemma check_hash_wp off len v :
  payload off len → evidence v → wp (check_hash fap hash off len v) (check_post v) (λ _, False) w.
Proof using All.
  intros Hp []. unfold check_hash. wp_if Hlen; [refuse|]. rewrite Hlen in Hp. load off IMAGE_HASH_SIZE.
  wp_if Hm; [refuse|]. apply wp_ret. split; [done|]. split; [|done]. constructor; try done. intros _.
  exists off, buf. split; [done|]. unfold boot_fih_memequal in Hm. case_bool_decide as Heq'; [|done].
  by rewrite <- Heq', <- Hhash, slice_full.
Qed.

Lemma check_key_wp off len v :
  payload off len → evidence v → wp (check_key fap off len v) (check_post v) (λ _, False) w.
Proof using All.
  intros Hp []. unfold check_key, KEY_BUF_SIZE. wp_if Hlen; [refuse|]. load off len.
  apply wp_ret. split; [done|]. split; [|done]. constructor; try done. cbn [set_v_key v_key_id].
  unfold bootutil_find_key. destruct (IMAGE_HASH_SIZE <? u8 len); [pose proof (zlen_nonneg bootutil_keys); unfold bootutil_key_cnt; lia|].
  apply (find_key_bound _ _ 0). lia.
Qed.

Lemma check_signature_wp off len v :
  payload off len → evidence v → wp (check_signature fap hash off len v) (check_post v) (λ _, False) w.
Proof using All.
  intros Hp [? Hk ? ? ? ?]. unfold check_signature. wp_if Hid.
  { apply wp_ret. split; [done|]. split; [|done]. constructor; try done. cbn. unfold bootutil_key_cnt.
    pose proof (zlen_nonneg bootutil_keys). lia. }
  wp_if Hlen; [refuse|]. load off len. apply wp_ret. split; [done|]. split; [|done].
  constructor; try done; cbn [set_v_signature v_key_id v_signature]; [lia|].
  intros Hv. exists (v_key_id v), off, len, buf. split; [lia|]. split; [done|].
  rewrite u8_small in Hv by (unfold is_u8; lia). done.
Qed.

Lemma check_counter_wp off len v :
  payload off len → evidence v → wp (check_counter image_index fap off len v) (check_post v) (λ _, False) w.
Proof using All.
  intros Hp []. unfold check_counter. wp_if Hlen; [refuse|]. subst len. load off 4.
  apply wp_bind. eapply wp_pure; [apply pf_counter_get|]. destruct (pf_counter w image_index) as [r kept] eqn:Hg.
  wp_if Hr; [refuse|]. unfold FIH_EQ in Hr. case_bool_decide; [subst r|done]. wp_if Hlt; [refuse|].
  assert (Hdone : check_post v (Some (set_v_counter v)) w).
  { split; [done|]. split; [|done]. constructor; try done. intros _. by exists off, buf, kept. }
  apply wp_bind. wp_if Hlim.
  - eapply wp_pure; [apply pf_update_possible|]. wp_if Hpo; [refuse|]. by apply wp_ret.
  - apply wp_ret. wp_if Hpo; [refuse|]. by apply wp_ret.
Qed.

Lemma check_uuid_wp match_ set res off len v :
  (∀ u, match_ u w = (Ret (res u), w)) → payload off len →
  v_it (set v) = v_it v → (∀ buf, stored off 16 buf → res buf = FIH_SUCCESS → evidence (set v)) →
  wp (check_uuid match_ set fap off len v) (check_post v) (λ _, False) w.
Proof using All.
  intros Hm Hp Hit Hev. unfold check_uuid. wp_if Hlen; [refuse|]. subst len. load off 16.
  apply wp_bind. eapply wp_pure; [apply Hm|]. wp_if Hr; [refuse|]. unfold FIH_EQ in Hr.
  case_bool_decide; [|done]. apply wp_ret. split; [done|]. split; [by eapply Hev|done].
Qed.

Lemma check_tlv_wp off len type v :
  payload off len → evidence v →
  wp (check_tlv image_index fap hash off len type v) (check_post v) (λ _, False) w.
Proof using All.
  intros Hp Hev. unfold check_tlv.
  wp_if Hc1; [by apply check_hash_wp|]. wp_if Hc2; [by apply check_key_wp|].
  wp_if Hc3; [by apply check_signature_wp|]. wp_if Hc4; [by apply check_counter_wp|].
  wp_if Hc5; [|wp_if Hc6; [|by apply wp_ret]]; destruct Hev.
  - apply (check_uuid_wp _ _ (pf_vid w image_index)); [intros u; apply pf_vid_match|done|done|].
    intros buf ??. constructor; try done. intros _. by exists off, buf.
  - apply (check_uuid_wp _ _ (pf_cid w image_index)); [intros u; apply pf_cid_match|done|done|].
    intros buf ??. constructor; try done. intros _. by exists off, buf.
Qed.

End Sound.

Section Accept.
  Context {W : Type} `{FlashMapOk W} `{BootConfig} `{ShaOk} `{Signing} `{PlatformOk W} `{SwapAlgo W}.
  Implicit Types (w : W).

(** The image of [hdr] in [fap] is complete and authentic: its digest is in its
    TLVs, signed by the holder of a built-in key, and neither its security counter
    nor its identifiers are refused by the platform. *)
Record trusted w (image_index : Z) (hdr : image_header) (fap : flash_area) (start limit : Z) : Prop := {
  tr_fits : start + span_size hdr <= fa_size fap;
  tr_evidence : ∃ hi v, hi <= limit ∧
    evidence w image_index fap (sha_digest (slice (vals (fm_cells w fap)) start (span_size hdr)))
      (start + ih_hdr_size hdr + ih_img_size hdr) hi v ∧
    v_hash_valid v = true ∧
    (MCUBOOT_SIGN ≠ SIGN_NONE → v_signature v = FIH_SUCCESS) ∧
    (MCUBOOT_HW_ROLLBACK_PROT = true → v_counter v = FIH_SUCCESS) ∧
    (MCUBOOT_UUID_VID = true → v_vid v = FIH_SUCCESS) ∧ (MCUBOOT_UUID_CID = true → v_cid v = FIH_SUCCESS);
}.

Lemma verdict_success v :
  validate_verdict v = FIH_SUCCESS →
  v_hash_valid v = true ∧ (MCUBOOT_SIGN ≠ SIGN_NONE → v_signature v = FIH_SUCCESS) ∧
  (MCUBOOT_HW_ROLLBACK_PROT = true → v_counter v = FIH_SUCCESS) ∧
  (MCUBOOT_UUID_VID = true → v_vid v = FIH_SUCCESS) ∧ (MCUBOOT_UUID_CID = true → v_cid v = FIH_SUCCESS).
Proof.
  unfold validate_verdict, FIH_EQ, EXPECTED_SIG_TLV. destruct (v_hash_valid v); cbn; [|done].
  repeat case_bool_decide;
    destruct MCUBOOT_SIGN, MCUBOOT_HW_ROLLBACK_PROT, MCUBOOT_UUID_VID, MCUBOOT_UUID_CID; cbn; by intros.
Qed.

Lemma validate_loop_wp w i fap hash lo it :
  IMAGE_HASH_SIZE <= SIG_BUF_SIZE → bootutil_key_cnt <= 256 →
  zlen hash = IMAGE_HASH_SIZE → lo <= it_tlv_off it →
  reads_answer w fap → iter_ok it → it_fap it = fap → it_prot it = false →
  wp (loop (S (Z.to_nat (it_tlv_end it - it_tlv_off it))) (validate_step i fap hash)
        (ValidateVars it false (-1) FIH_FAILURE FIH_FAILURE FIH_FAILURE FIH_FAILURE FIH_FAILURE))
    (λ o w', w' = w ∧ match o with
       | Some v => evidence w i fap hash lo (it_tlv_end it) v | None => True end) (λ _, False) w.
Proof.
  intros Hbuf Hkeys Hh Hlo Hrd Hit Hf Hp.
  apply (wp_loop (λ v w', w' = w ∧ evidence w i fap hash lo (it_tlv_end it) v ∧ same_iter it (v_it v) ∧
      iter_ok (v_it v) ∧ it_tlv_off it <= it_tlv_off (v_it v))
    (λ v, Z.max 0 (it_tlv_end it - it_tlv_off (v_it v)))).
  - intros v w' (-> & Hev & Hs & Hio & Hle). unfold validate_step.
    assert (Hfp : it_fap (v_it v) = fap ∧ it_end (v_it v) = it_tlv_end it).
    { rewrite Hs. cbn. split; [done|]. unfold it_end. cbn. by rewrite Hp. }
    destruct Hfp as [Hfv Hev'].
    wp_step tlv_next_wp; [by rewrite Hfv|done|]. intros [r it'] w' [-> (Hs' & Hio' & Hoff & Hr)]. cbn [fst snd] in *.
    assert (Hs2 : same_iter it it') by (by eapply same_iter_trans).
    assert (Hev1 : evidence w i fap hash lo (it_tlv_end it) (set_v_it v it')) by (by destruct Hev).
    destruct r as [off len type| |]; [|by apply wp_ret|by apply wp_ret].
    destruct Hr as (Ho & Hlen & Hin & Hnext & _). rewrite Hev' in Hin.
    wp_if Hal; [by apply wp_ret|]. assert (Hpay : payload lo (it_tlv_end it) off len) by (unfold payload; lia).
    wp_step (check_tlv_wp w i fap hash lo (it_tlv_end it)); try done; try lia.
    + intros o w' [-> Ho']. apply wp_ret. destruct o as [v'|]; [|done]. destruct Ho' as [Hv' ->].
      cbn [v_it set_v_it]. split_and!; (done || lia).
  - cbn [v_it]. split_and!; [done| |by destruct it|done|lia]. constructor; cbn; try done.
    unfold bootutil_key_cnt. pose proof (zlen_nonneg bootutil_keys). lia.
  - cbn [v_it]. lia.
  - lia.
Qed.

Lemma validate_wp w state hdr fap tmp max :
  fm_ok w → fm_area fap → reads_answer w fap → header_ok hdr → 0 < tmp < 4294967296 →
  0 <= image_start state fap < 2147483648 → IMAGE_HASH_SIZE <= SIG_BUF_SIZE → bootutil_key_cnt <= 256 →
  bootutil_max_image_size state fap w = (Ret max, w) →
  wp (bootutil_img_validate state hdr fap tmp [])
    (λ r w', w' = w ∧ (fst r = FIH_SUCCESS → trusted w (curr_img_idx state) hdr fap (image_start state fap) (image_start state fap + max)))
    (λ _, False) w.
Proof.
  intros Hok Ha Hrd Hh Ht Hs Hbuf Hkeys Hmax. destruct (fm_bounds fap Ha) as (? & ? & ?).
  set (start := image_start state fap) in *. unfold bootutil_img_validate. fold start.
  apply wp_bind. eapply wp_pure; [apply img_hash_eq; (done || (unfold is_u32; fold start; lia))|]. fold start.
  destruct (start + span_size hdr <=? fa_size fap) eqn:Hin; [|by apply wp_ret]. zsimp.
  cbn beta iota. cbn [Z.eqb negb app].
  set (digest := sha_digest (slice (vals (fm_cells w fap)) start (span_size hdr))).
  wp_step iter_begin_safe; [done|done|lia|lia|].
  intros [it|] w' [-> Hit]; [|by apply wp_ret]. destruct Hit as (Hio & Hf & Hst & _ & Hp & Hoff & Hge).
  apply wp_bind. eapply wp_pure; [exact Hmax|]. rewrite Hst. pose proof (io_end _ Hio).
  rewrite (u32_small (it_tlv_end it - start)) by (unfold is_u32; lia).
  wp_if Hbig; [by apply wp_ret|]. pose proof Hh as []. unfold_uint.
  wp_step (validate_loop_wp w (curr_img_idx state) fap digest (start + ih_hdr_size hdr + ih_img_size hdr) it);
    try done; try lia; [apply sha_len|].
  intros o w' [-> Ho]. apply wp_ret. split; [done|]. cbn [fst]. destruct o as [v|]; [|done].
  intros Hv. apply verdict_success in Hv. constructor; [done|]. exists (it_tlv_end it), v.
  split; [lia|]. split; [done|]. exact Hv.
Qed.

(** C11: validation is sound on arbitrary, possibly crafted, flash contents: it terminates,
    without overrunning a buffer or modifying anything; and if it accepts, the digest of
    header, image and protected TLVs is in the TLVs, with signing enabled a signature in
    the TLVs over that digest verifies with one of the built-in keys, with rollback
    protection the image's security counter is not below the stored one, and the
    platform accepted the identifiers it asks for.  Everything that counts lies in the
    part of the slot the swap algorithm leaves to images. *)
Theorem validate_sound w state hdr fap tmp max :
  fm_ok w → fm_area fap → reads_answer w fap → header_ok hdr → 0 < tmp < 4294967296 →
  0 <= image_start state fap < 2147483648 → IMAGE_HASH_SIZE <= SIG_BUF_SIZE → bootutil_key_cnt <= 256 →
  bootutil_max_image_size state fap w = (Ret max, w) →
  ∃ r h, bootutil_img_validate state hdr fap tmp [] w = (Ret (r, h), w) ∧
    (r = FIH_SUCCESS → trusted w (curr_img_idx state) hdr fap (image_start state fap) (image_start state fap + max)).
Proof.
  intros. assert (Hwp : wp (bootutil_img_validate state hdr fap tmp [])
    (λ r w', w' = w ∧ (fst r = FIH_SUCCESS → trusted w (curr_img_idx state) hdr fap (image_start state fap) (image_start state fap + max)))
    (λ _, False) w) by (by eapply validate_wp).
  apply wp_returns in Hwp as ([r h] & w' & Heq & -> & Hr). by exists r, h.
Qed.

End Accept.

(** ** Well-formed TLV areas *)

Section Refine.
  Context {W : Type} `{FlashMapOk W} `{BootConfig} `{ShaOk} `{Signing} `{PlatformOk W} `{SwapAlgo W}.
  Implicit Types (w : W).

(** What one TLV does to the variables of the walk, from its payload. *)
Definition tlv_effect w (i : Z) (hash : list Z) (t : tlv) (v : validate_vars) : option validate_vars :=
  let '(type, d) := t in
  if type =? EXPECTED_HASH_TLV then if bool_decide (d = hash) then Some (set_v_hash v) else None
  else if bool_decide (EXPECTED_KEY_TLV = Some type) then
    if KEY_BUF_SIZE <? zlen d then None else Some (set_v_key v (bootutil_find_key d (zlen d)))
  else if bool_decide (EXPECTED_SIG_TLV = Some type) then
    if (v_key_id v <? 0) || (bootutil_key_cnt <=? v_key_id v) then Some (set_v_key v (-1))
    else if negb (EXPECTED_SIG_LEN (zlen d)) || (SIG_BUF_SIZE <? zlen d) then None
    else Some (set_v_signature v (bootutil_verify_sig hash d (u8 (v_key_id v))))
  else if MCUBOOT_HW_ROLLBACK_PROT && (type =? IMAGE_TLV_SEC_CNT) then
    let '(r, stored) := pf_counter w i in
    if (zlen d =? 4) && FIH_EQ r FIH_SUCCESS && (u32 stored <=? le_dec d) &&
       (negb (MCUBOOT_HW_ROLLBACK_PROT_COUNTER_LIMITED && (u32 stored <? le_dec d)) ||
        FIH_EQ (pf_possible w i (le_dec d)) FIH_SUCCESS)
    then Some (set_v_counter v) else None
  else if MCUBOOT_UUID_VID && (type =? IMAGE_TLV_UUID_VID) then
    if (zlen d =? 16) && FIH_EQ (pf_vid w i d) FIH_SUCCESS then Some (set_v_vid v) else None
  else if MCUBOOT_UUID_CID && (type =? IMAGE_TLV_UUID_CID) then
    if (zlen d =? 16) && FIH_EQ (pf_cid w i d) FIH_SUCCESS then Some (set_v_cid v) else None
  else Some v.

Section Tlv.
  Context (w : W) (i : Z) (fap : flash_area) (hash d : list Z) (off : Z).
  Hypothesis Hbuf : IMAGE_HASH_SIZE <= SIG_BUF_SIZE.
  Hypothesis Hhash : zlen hash = IMAGE_HASH_SIZE.
  Hypothesis Hread : flash_area_read fap off (zlen d) w = (Ret (0, d), w).

Lemma load_payload cap : zlen d <= cap → LOAD_IMAGE_DATA fap off cap (zlen d) w = (Ret (0, d), w).
Proof using Hread. intros Hc. unfold LOAD_IMAGE_DATA. by rewrite (proj2 (Z.ltb_ge _ _)) by lia. Qed.

#[local] Ltac loaded := erewrite bind_ret by (apply load_payload; lia); cbn beta iota; cbn [Z.eqb negb].

Lemma check_hash_eq v :
  check_hash fap hash off (zlen d) v w = (Ret (if bool_decide (d = hash) then Some (set_v_hash v) else None), w).
Proof using All.
  unfold check_hash. destruct (zlen d =? IMAGE_HASH_SIZE) eqn:Hlen; zsimp; cbn [negb].
  - rewrite <- Hlen in Hbuf |- *. loaded. unfold boot_fih_memequal. rewrite slice_full.
    rewrite <- Hlen in Hhash. rewrite <- Hhash, slice_full.
    repeat case_bool_decide; simplify_eq; done.
  - rewrite bool_decide_false; [done|]. intros ->. lia.
Qed.

Lemma check_counter_eq v :
  check_counter i fap off (zlen d) v w =
    (Ret (let '(r, stored) := pf_counter w i in
      if (zlen d =? 4) && FIH_EQ r FIH_SUCCESS && (u32 stored <=? le_dec d) &&
         (negb (MCUBOOT_HW_ROLLBACK_PROT_COUNTER_LIMITED && (u32 stored <? le_dec d)) ||
          FIH_EQ (pf_possible w i (le_dec d)) FIH_SUCCESS)
      then Some (set_v_counter v) else None), w).
Proof using All.
  unfold check_counter. destruct (pf_counter w i) as [r stored] eqn:Hg.
  destruct (zlen d =? 4) eqn:Hlen; zsimp; cbn [negb andb]; [|done]. loaded.
  erewrite bind_ret by (rewrite pf_counter_get, Hg; done). cbn beta iota.
  destruct (FIH_EQ r FIH_SUCCESS); cbn [negb andb]; [|done].
  destruct (le_dec d <? u32 stored) eqn:Hlt; zsimp.
  - by rewrite (proj2 (Z.leb_gt _ _)) by lia.
  - rewrite (proj2 (Z.leb_le _ _)) by lia. cbn [andb].
    destruct (MCUBOOT_HW_ROLLBACK_PROT_COUNTER_LIMITED && (u32 stored <? le_dec d)); cbn [negb orb].
    + erewrite bind_ret by apply pf_update_possible. cbn beta. by destruct (FIH_EQ (pf_possible _ _ _) _).
    + by erewrite bind_ret by done.
Qed.

Lemma check_uuid_eq match_ set res v :
  (∀ u, match_ u w = (Ret (res u), w)) →
  check_uuid match_ set fap off (zlen d) v w =
    (Ret (if (zlen d =? 16) && FIH_EQ (res d) FIH_SUCCESS then Some (set v) else None), w).
Proof using All.
  intros Hm. unfold check_uuid. destruct (zlen d =? 16) eqn:Hlen; zsimp; cbn [negb andb]; [|done]. loaded.
  erewrite bind_ret by apply Hm. cbn beta. by destruct (FIH_EQ _ _).
Qed.

Lemma check_tlv_eq type v :
  check_tlv i fap hash off (zlen d) type v w = (Ret (tlv_effect w i hash (type, d) v), w).
Proof using All.
  unfold check_tlv, tlv_effect. destruct (type =? EXPECTED_HASH_TLV); [apply check_hash_eq|].
  destruct (bool_decide (EXPECTED_KEY_TLV = Some type)).
  { unfold check_key, KEY_BUF_SIZE. destruct (IMAGE_HASH_SIZE <? zlen d) eqn:Hlen; zsimp; [done|]. loaded.
    pose proof (zlen_nonneg d).
    rewrite u8_small; [done|]. unfold is_u8, IMAGE_HASH_SIZE in *. destruct MCUBOOT_SHA512, MCUBOOT_SIGN; lia. }
  destruct (bool_decide (EXPECTED_SIG_TLV = Some type)).
  { unfold check_signature. destruct (_ || _); [done|]. destruct (_ || _) eqn:Hlen; zsimp; [done|]. by loaded. }
  destruct (_ && _); [apply check_counter_eq|].
  destruct (_ && _); [apply check_uuid_eq; intros u; apply pf_vid_match|].
  destruct (_ && _); [apply check_uuid_eq; intros u; apply pf_cid_match|]. done.
Qed.

End Tlv.

(** The entries of a walk, with whether they count as protected. *)
Fixpoint flagged (pe off : Z) (l : list item) : list (bool * tlv) :=
  match l with
  | [] => []
  | Skip :: l => flagged pe (off + 4) l
  | Entry t :: l => (off + 4 <? pe, t) :: flagged pe (off + 4 + zlen (snd t)) l
  end.

(** The check of a list of TLVs. *)
Fixpoint check_all w (i : Z) (hash : list Z) (ts : list (bool * tlv)) (v : validate_vars)
  : option validate_vars :=
  match ts with
  | [] => Some v
  | (prot, t) :: ts =>
      if MCUBOOT_USE_TLV_ALLOW_LIST && negb prot && negb (bool_decide (fst t ∈ allowed_unprot_tlvs))
      then None else tlv_effect w i hash t v ≫= check_all w i hash ts
  end.

Lemma tlv_effect_it w i hash t v it :
  tlv_effect w i hash t (set_v_it v it) = (λ v', set_v_it v' it) <$> tlv_effect w i hash t v.
Proof.
  destruct t as [type d]. unfold tlv_effect. cbn [v_key_id set_v_it].
  repeat (case_match; try done).
Qed.

Section Items.
  Context (w : W) (i : Z) (hash : list Z) (it0 : image_tlv_iter).
  Hypothesis Hok : fm_ok w.
  Hypothesis Hfa : fm_area (it_fap it0).
  Hypothesis Hend : it_tlv_end it0 <= fa_size (it_fap it0).
  Hypothesis Hany : it_type it0 = IMAGE_TLV_ANY.
  Hypothesis Hprot : it_prot it0 = false.
  Hypothesis Hbuf : IMAGE_HASH_SIZE <= SIG_BUF_SIZE.
  Hypothesis Hhash : zlen hash = IMAGE_HASH_SIZE.

#[local] Abbreviation flash := (vals (fm_cells w (it_fap it0))).
#[local] Abbreviation items_at off l :=
  (laid (0 <? ih_protect_tlv_size (it_hdr it0)) (it_prot_end it0) (it_end it0) flash off l).

Lemma next_any off l :
  0 <= off → items_at off l →
  match next_wanted it0 off l with
  | (TlvFound o n ty, off', l') => ∃ t, ty = fst t ∧ n = zlen (snd t) ∧ slice flash o n = snd t ∧
      flagged (it_prot_end it0) off l = (o <? it_prot_end it0, t) :: flagged (it_prot_end it0) off' l' ∧
      items_at off' l' ∧ off <= o ∧ o + n = off' ∧ (length l' < length l)%nat
  | (TlvNone, _, _) => flagged (it_prot_end it0) off l = []
  | (TlvError, _, _) => False
  end.
Proof using Hany.
  revert off. induction l as [|[t|] l IH]; intros off Ho Hl; [done|..]; cbn [next_wanted flagged].
  - unfold wanted. rewrite Hany, Z.eqb_refl. cbn [orb]. exists t. destruct Hl as (Htok & _ & Hsl & Hrest).
    pose proof (zlen_nonneg (snd t)). split_and!; try done; try (cbn; lia).
    rewrite <- (slice_full (snd t)) at 2. transitivity (slice (enc_tlv t) 4 (zlen (snd t))).
    + rewrite <- Hsl, slice_slice by lia. done.
    + unfold enc_tlv. rewrite slice_app_r; rewrite zlen_enc_pair; [done|lia].
  - specialize (IH (off + 4) ltac:(lia) ltac:(apply Hl)). destruct (next_wanted it0 (off + 4) l) as [[[]?]?]; [|done..].
    destruct IH as (t & ? & ? & ? & ? & ? & ? & ? & ?). exists t. split_and!; (done || cbn; lia).
Qed.

Lemma walk_check fuel off l v :
  0 <= off → items_at off l → (length l < fuel)%nat →
  ∃ it', loop fuel (validate_step i (it_fap it0) hash) (set_v_it v (set_tlv_off it0 off)) w =
    (Ret ((λ v', set_v_it v' it') <$> check_all w i hash (flagged (it_prot_end it0) off l) v), w).
Proof using All.
  revert off l v. induction fuel as [|fuel IH]; intros off l v Ho Hl Hfuel; [lia|].
  assert (He : it_end it0 = it_tlv_end it0) by (unfold it_end; by rewrite Hprot).
  pose proof (laid_bound _ _ _ _ _ _ Hl) as Hb. rewrite He in Hb. unfold zlen in Hb.
  assert (Hnext : bootutil_tlv_iter_next (set_tlv_off it0 off) w =
    (Ret (fst (fst (next_wanted it0 off l)), set_tlv_off it0 (snd (fst (next_wanted it0 off l)))), w)).
  { apply next_loop; [done|done|lia|done|done|by rewrite Hprot|cbn; lia]. }
  pose proof (next_any off l Ho Hl) as Hn. destruct (next_wanted it0 off l) as [[r off'] l'].
  cbn [fst snd] in Hnext. destruct r as [o n ty| |]; [|exists (set_tlv_off it0 off')|done].
  - destruct Hn as (t & -> & -> & Hsl & -> & Hl' & Hoo & Hoff & Hlen). cbn [check_all].
    pose proof (zlen_nonneg (snd t)). pose proof (laid_bound _ _ _ _ _ _ Hl') as Hb'. rewrite He in Hb'.
    pose proof (zlen_nonneg l').
    assert (Hck : ∀ v', check_tlv i (it_fap it0) hash o (zlen (snd t)) (fst t) v' w =
      (Ret (tlv_effect w i hash t v'), w)).
    { intros v'. destruct t. apply check_tlv_eq; [done|done|]. rewrite <- Hsl at 2. apply fm_read; (done || lia). }
    set (skip := MCUBOOT_USE_TLV_ALLOW_LIST && negb (o <? it_prot_end it0) &&
      negb (bool_decide (t.1 ∈ allowed_unprot_tlvs))).
    assert (Hstep : validate_step i (it_fap it0) hash (set_v_it v (set_tlv_off it0 off)) w =
      (Ret (match (if skip then None else tlv_effect w i hash t v) with
            | None => inr None | Some v' => inl (set_v_it v' (set_tlv_off it0 off')) end), w)).
    { unfold validate_step. cbn [v_it set_v_it]. erewrite bind_ret by exact Hnext. cbn beta iota.
      unfold bootutil_tlv_iter_is_prot. cbn [it_prot_end set_tlv_off]. fold skip. destruct skip; [done|].
      erewrite bind_ret by apply Hck.
      match goal with |- context [tlv_effect w i hash t ?x] =>
        change x with (set_v_it v (set_tlv_off it0 off')) end.
      rewrite tlv_effect_it. by destruct (tlv_effect w i hash t v). }
    destruct skip; [exists it0; by apply loop_exit|].
    destruct (tlv_effect w i hash t v) as [v'|]; [|exists it0; by apply loop_exit].
    rewrite (loop_continue _ _ _ _ _ _ Hstep). apply IH; [lia|done|lia].
  - rewrite Hn. cbn [check_all]. apply loop_exit. unfold validate_step. cbn [v_it set_v_it].
    by erewrite bind_ret by exact Hnext.
Qed.

End Items.

(** The entries of an image: those of the protected section come first. *)
Definition image_tlvs (prot : option (list tlv)) (us : list tlv) : list (bool * tlv) :=
  (pair true <$> default [] prot) ++ (pair false <$> us).

Lemma flagged_entries pe off ts rest (b : bool) :
  (if b then off + zlen (enc_tlvs ts) <= pe ∧ Forall (λ t : tlv, 0 < zlen (snd t)) ts else pe <= off) →
  flagged pe off ((Entry <$> ts) ++ rest) =
    (pair b <$> ts) ++ flagged pe (off + zlen (enc_tlvs ts)) rest.
Proof using Type.
  revert off. induction ts as [|t ts IH]; intros off Hb.
  - cbn. by rewrite Z.add_0_r.
  - cbn [fmap list_fmap app flagged]. rewrite enc_tlvs_cons, zlen_app, zlen_enc_tlv in *.
    pose proof (zlen_nonneg (enc_tlvs ts)). pose proof (zlen_nonneg (snd t)).
    replace (off + (4 + zlen (snd t) + zlen (enc_tlvs ts))) with (off + 4 + zlen (snd t) + zlen (enc_tlvs ts)) by lia.
    rewrite IH; [|destruct b; [destruct Hb as [? Hf]; apply Forall_cons_1 in Hf as [??]; split; [lia|done]|lia]].
    do 2 f_equal. destruct b.
    + destruct Hb as [? Hf]. apply Forall_cons_1 in Hf as [??]. apply Z.ltb_lt. lia.
    + apply Z.ltb_ge. lia.
Qed.

Lemma flagged_image off prot us :
  Forall (λ t : tlv, 0 < zlen (snd t)) (default [] prot) →
  flagged (off + prot_size prot) (off + 4) (walk_items prot us false) = image_tlvs prot us.
Proof using Type.
  intros Hne. unfold walk_items, image_tlvs. destruct prot as [ps|]; cbn [default prot_size id] in *.
  - rewrite (flagged_entries _ _ _ _ true) by (split; [lia|done]). f_equal. cbn [flagged].
    rewrite <- (app_nil_r (Entry <$> us)), (flagged_entries _ _ _ _ false) by lia. apply app_nil_r.
  - rewrite <- (app_nil_r (Entry <$> us)), (flagged_entries _ _ _ _ false) by lia. apply app_nil_r.
Qed.

Definition vars_init (it : image_tlv_iter) : validate_vars :=
  ValidateVars it false (-1) FIH_FAILURE FIH_FAILURE FIH_FAILURE FIH_FAILURE FIH_FAILURE.

Lemma verdict_it v it : validate_verdict (set_v_it v it) = validate_verdict v.
Proof using Type. done. Qed.

(** Validation of a well-formed TLV area is the check of its entries. *)
Lemma validate_eq w state hdr fap tmp max prot us it :
  fm_ok w → fm_area fap → header_ok hdr → 0 < tmp < 4294967296 → IMAGE_HASH_SIZE <= SIG_BUF_SIZE →
  tlv_image w fap hdr (image_start state fap) prot us →
  Forall (λ t : tlv, 0 < zlen (snd t)) (default [] prot) →
  bootutil_max_image_size state fap w = (Ret max, w) →
  span_size hdr + 4 + zlen (enc_tlvs us) <= max →
  let digest := sha_digest (slice (vals (fm_cells w fap)) (image_start state fap) (span_size hdr)) in
  bootutil_img_validate state hdr fap tmp [] w =
    (Ret (match check_all w (curr_img_idx state) digest (image_tlvs prot us) (vars_init it) with
          | None => FIH_FAILURE | Some v => validate_verdict v end, Some digest), w).
Proof.
  intros Hok Ha Hh Ht Hbuf Himg Hne Hmax Hfit digest. destruct (fm_bounds fap Ha) as (? & ? & ?).
  pose proof Himg as [(Hs & Hh0 & Hi0) [Hps Hpm] Hus _ _ Hin _]. rewrite zlen_enc_area in Hin.
  pose proof (prot_size_nonneg prot). pose proof (zlen_nonneg (enc_tlvs us)). unfold UINT16_MAX in *.
  set (start := image_start state fap) in *. unfold span_size in Hfit. rewrite Hps in Hfit.
  unfold bootutil_img_validate. fold start.
  erewrite bind_ret by (apply img_hash_eq; (done || (unfold is_u32; fold start; lia))). fold start.
  rewrite (proj2 (Z.leb_le _ _)) by (unfold span_size; lia). cbn beta iota. cbn [Z.eqb negb app].
  fold digest. erewrite bind_ret by (by apply iter_begin_ok). cbn beta iota.
  set (off := ih_hdr_size hdr + ih_img_size hdr + start) in *.
  set (it0 := walk_iter hdr fap off IMAGE_TLV_ANY false prot us start).
  erewrite bind_ret by exact Hmax. cbn [it_tlv_end it_tlv_off it_start_off it0 walk_iter]. fold it0.
  rewrite u32_small by (unfold is_u32; lia). rewrite (proj2 (Z.ltb_ge _ _)) by lia.
  destruct (walk_check w (curr_img_idx state) digest it0 Hok Ha) with
    (fuel := S (Z.to_nat (off + prot_size prot + (4 + zlen (enc_tlvs us)) - (off + 4))))
    (off := off + 4) (l := walk_items prot us false) (v := vars_init it0) as (it' & Hloop);
    [cbn; lia|done|done|done|apply sha_len|lia| |..].
  - pose proof (walk_laid w fap hdr start prot us false Himg ltac:(done)) as Hl. exact Hl.
  - pose proof (walk_laid w fap hdr start prot us false Himg ltac:(done)) as Hl.
    apply laid_bound in Hl. fold off in Hl. unfold zlen at 1 in Hl. lia.
  - erewrite bind_ret by exact Hloop. cbn [it_prot_end it0 walk_iter]. rewrite flagged_image by done.
    assert (Hit : ∀ ts v it, check_all w (curr_img_idx state) digest ts (set_v_it v it) =
      (λ v', set_v_it v' it) <$> check_all w (curr_img_idx state) digest ts v).
    { induction ts as [|[b t] ts IH]; intros v it1; [done|]. cbn [check_all]. destruct (_ && _); [done|].
      rewrite tlv_effect_it. destruct (tlv_effect _ _ _ t v); [apply IH|done]. }
    rewrite (Hit _ (vars_init it) it0 : check_all _ _ _ _ (vars_init it0) = _).
    by destruct (check_all _ _ _ _ (vars_init it)).
Qed.

(** ** Signed images *)

(** A TLV that no check looks at. *)
Definition neutral (t : tlv) : bool :=
  negb (fst t =? EXPECTED_HASH_TLV) && negb (bool_decide (EXPECTED_KEY_TLV = Some (fst t))) &&
  negb (bool_decide (EXPECTED_SIG_TLV = Some (fst t))) && negb (fst t =? IMAGE_TLV_SEC_CNT) &&
  negb (fst t =? IMAGE_TLV_UUID_VID) && negb (fst t =? IMAGE_TLV_UUID_CID).

Lemma neutral_effect w i hash t v : neutral t = true → tlv_effect w i hash t v = Some v.
Proof.
  unfold neutral, tlv_effect. destruct t as [type d]. cbn [fst]. intros Hn.
  apply andb_true_iff in Hn as [Hn Hc]. apply andb_true_iff in Hn as [Hn Hv].
  apply andb_true_iff in Hn as [Hn Hs]. apply andb_true_iff in Hn as [Hn Hg].
  apply andb_true_iff in Hn as [Hh Hk]. apply negb_true_iff in Hc, Hv, Hs, Hg, Hk, Hh.
  by rewrite Hh, Hk, Hg, Hs, Hv, Hc, !andb_false_r.
Qed.

Lemma check_all_neutral w i hash ts rest v :
  Forall (λ bt : bool * tlv, neutral (snd bt) = true ∧
    (MCUBOOT_USE_TLV_ALLOW_LIST = true → fst bt = true ∨ fst (snd bt) ∈ allowed_unprot_tlvs)) ts →
  check_all w i hash (ts ++ rest) v = check_all w i hash rest v.
Proof.
  induction 1 as [|[b t] ts [Hn Hal] _ IH]; [done|]. cbn [app check_all fst snd] in *.
  replace (_ && _ && _) with false; [by rewrite neutral_effect|]. symmetry.
  destruct MCUBOOT_USE_TLV_ALLOW_LIST; [|done]. destruct (Hal eq_refl) as [-> | Hin]; [done|].
  rewrite (bool_decide_true _ Hin). by destruct b.
Qed.

(** The counter of the image, as the platform sees it. *)
Definition counter_good w (i c : Z) : Prop :=
  ∃ stored, pf_counter w i = (FIH_SUCCESS, stored) ∧ is_u32 stored ∧ stored <= c ∧
    (MCUBOOT_HW_ROLLBACK_PROT_COUNTER_LIMITED = true → pf_possible w i c = FIH_SUCCESS).

Lemma counter_effect w i hash c v :
  is_u32 c → (MCUBOOT_HW_ROLLBACK_PROT = true → counter_good w i c) →
  tlv_effect w i hash (IMAGE_TLV_SEC_CNT, le_enc 4 c) v =
    Some (if MCUBOOT_HW_ROLLBACK_PROT then set_v_counter v else v).
Proof.
  intros Hc Hg. unfold tlv_effect.
  replace (IMAGE_TLV_SEC_CNT =? EXPECTED_HASH_TLV) with false
    by (unfold EXPECTED_HASH_TLV; destruct MCUBOOT_SHA512, MCUBOOT_SIGN; done).
  rewrite !bool_decide_false
    by (unfold EXPECTED_KEY_TLV, EXPECTED_SIG_TLV; destruct MCUBOOT_SIGN; done).
  destruct MCUBOOT_HW_ROLLBACK_PROT; cbn [andb].
  - destruct (Hg eq_refl) as (stored & -> & Hs & Hle & Hlim). cbn [Z.eqb IMAGE_TLV_SEC_CNT Pos.eqb].
    rewrite zlen_le_enc, le_dec_enc_u32, u32_small by done. cbn [Z.eqb Pos.eqb Z.of_nat Pos.of_succ_nat Pos.succ andb].
    unfold FIH_EQ. rewrite bool_decide_true, (proj2 (Z.leb_le _ _)) by done. cbn [andb].
    destruct MCUBOOT_HW_ROLLBACK_PROT_COUNTER_LIMITED; cbn [andb negb orb]; [|done].
    rewrite (bool_decide_true _ (Hlim eq_refl)). by rewrite orb_true_r.
  - cbn [Z.eqb IMAGE_TLV_SEC_CNT IMAGE_TLV_UUID_VID IMAGE_TLV_UUID_CID Pos.eqb]. by rewrite !andb_false_r.
Qed.

Lemma find_key_hit key (k : nat) i keys :
  keys !! k = Some key → NoDup (sha_digest <$> keys) →
  find_key_from i keys (sha_digest key) IMAGE_HASH_SIZE = i + Z.of_nat k.
Proof.
  revert k i. induction keys as [|key' keys IH]; intros k i Hk Hnd; [done|]. cbn [find_key_from].
  pose proof (sha_updates [key']) as Hd. cbn in Hd. rewrite app_nil_r in Hd. rewrite Hd.
  assert (Hsl : ∀ x, slice (sha_digest x) 0 IMAGE_HASH_SIZE = sha_digest x)
    by (intros x; rewrite <- (sha_len x); apply slice_full).
  rewrite !Hsl. cbn [fmap list_fmap] in Hnd. inversion_clear Hnd as [|?? Hni Hnd'].
  destruct k as [|k]; cbn in Hk.
  - simplify_eq. rewrite bool_decide_true by done. lia.
  - rewrite bool_decide_false; [rewrite (IH k _ Hk Hnd'); lia|].
    intros Heq. apply Hni. rewrite Heq. apply list_elem_of_fmap. exists key. split; [done|].
    by eapply list_elem_of_lookup_2.
Qed.

(** The three TLVs that authenticate an image. *)
Definition signed_by (digest key sig : list Z) (stype : Z) : list tlv :=
  [(EXPECTED_HASH_TLV, digest); (IMAGE_TLV_KEYHASH, sha_digest key); (stype, sig)].

Lemma check_signed w i digest key (k : nat) sig stype v :
  IMAGE_HASH_SIZE <= SIG_BUF_SIZE → EXPECTED_SIG_TLV = Some stype → bootutil_keys !! k = Some key →
  NoDup (sha_digest <$> bootutil_keys) → bootutil_key_cnt <= 256 →
  EXPECTED_SIG_LEN (zlen sig) = true → zlen sig <= SIG_BUF_SIZE →
  check_all w i digest (pair false <$> signed_by digest key sig stype) v =
    Some (set_v_signature (set_v_hash v) (bootutil_verify_sig digest sig (Z.of_nat k))).
Proof.
  intros Hbuf Hst Hk Hnd Hcnt Hlen Hsz.
  assert (Hty : EXPECTED_HASH_TLV ∈ allowed_unprot_tlvs ∧ IMAGE_TLV_KEYHASH ∈ allowed_unprot_tlvs ∧
    stype ∈ allowed_unprot_tlvs ∧ (IMAGE_TLV_KEYHASH =? EXPECTED_HASH_TLV) = false ∧
    (stype =? EXPECTED_HASH_TLV) = false ∧ stype ≠ IMAGE_TLV_KEYHASH).
  { revert Hst. unfold EXPECTED_SIG_TLV, EXPECTED_HASH_TLV, allowed_unprot_tlvs. destruct MCUBOOT_SHA512, MCUBOOT_SIGN;
      (intros [= <-] || done); (split_and!; [rewrite !elem_of_cons; auto 20..|done|done|done]). }
  destruct Hty as (Ha1 & Ha2 & Ha3 & Hn1 & Hn2 & Hn3).
  pose proof (lookup_lt_Some _ _ _ Hk) as Hlt. unfold bootutil_key_cnt, zlen at 1 in Hcnt.
  cbn [signed_by fmap list_fmap check_all fst]. rewrite !(bool_decide_true (_ ∈ _)) by done.
  rewrite !andb_false_r. unfold tlv_effect. rewrite Z.eqb_refl, Hn1, Hn2.
  rewrite (bool_decide_true (digest = digest)) by done. cbn [mbind option_bind].
  unfold EXPECTED_KEY_TLV. rewrite Hst. rewrite (bool_decide_true (Some IMAGE_TLV_KEYHASH = Some IMAGE_TLV_KEYHASH)) by done.
  rewrite (bool_decide_false (Some IMAGE_TLV_KEYHASH = Some stype)) by congruence.
  rewrite (bool_decide_true (Some stype = Some stype)) by done. unfold KEY_BUF_SIZE. rewrite sha_len, Z.ltb_irrefl.
  cbn [mbind option_bind]. unfold bootutil_find_key. rewrite Z.ltb_irrefl.
  rewrite (find_key_hit key k 0) by done. cbn [v_key_id set_v_key]. rewrite Z.add_0_l.
  unfold bootutil_key_cnt, zlen at 1. rewrite (proj2 (Z.ltb_ge _ _)), (proj2 (Z.leb_gt _ _)) by lia. cbn [orb].
  rewrite Hlen, (proj2 (Z.ltb_ge _ _)) by done. cbn [negb orb mbind option_bind].
  by rewrite u8_small by (unfold is_u8; lia).
Qed.

Definition counter_tlv (c : option Z) : list tlv :=
  match c with Some c => [(IMAGE_TLV_SEC_CNT, le_enc 4 c)] | None => [] end.

(** C23: validation is complete: an image that fits, whose protected TLVs carry a
    sufficient security counter if rollback protection is enabled, and whose unprotected TLVs
    end with its digest, the hash of a built-in key and a signature of the digest that
    verifies with that key, is accepted; other TLVs may accompany them, in the unprotected
    section only of the allowed types if there is an allow list. *)
Theorem signed_image_accepted w state hdr fap tmp max prot ps1 ps2 us c key (k : nat) sig stype :
  fm_ok w → fm_area fap → header_ok hdr → 0 < tmp < 4294967296 → IMAGE_HASH_SIZE <= SIG_BUF_SIZE →
  MCUBOOT_UUID_VID = false ∧ MCUBOOT_UUID_CID = false → bootutil_key_cnt <= 256 →
  NoDup (sha_digest <$> bootutil_keys) → bootutil_keys !! k = Some key →
  let digest := sha_digest (slice (vals (fm_cells w fap)) (image_start state fap) (span_size hdr)) in
  tlv_image w fap hdr (image_start state fap) prot (us ++ signed_by digest key sig stype) →
  bootutil_max_image_size state fap w = (Ret max, w) →
  span_size hdr + 4 + zlen (enc_tlvs (us ++ signed_by digest key sig stype)) <= max →
  default [] prot = ps1 ++ counter_tlv c ++ ps2 →
  Forall (λ t, neutral t = true ∧ 0 < zlen (snd t)) (ps1 ++ ps2) →
  Forall (λ t, neutral t = true ∧ (MCUBOOT_USE_TLV_ALLOW_LIST = true → fst t ∈ allowed_unprot_tlvs)) us →
  (∀ c', c = Some c' → is_u32 c' ∧ (MCUBOOT_HW_ROLLBACK_PROT = true → counter_good w (curr_img_idx state) c')) →
  (MCUBOOT_HW_ROLLBACK_PROT = true → c ≠ None) →
  EXPECTED_SIG_TLV = Some stype → EXPECTED_SIG_LEN (zlen sig) = true → zlen sig <= SIG_BUF_SIZE →
  bootutil_verify_sig digest sig (Z.of_nat k) = FIH_SUCCESS →
  bootutil_img_validate state hdr fap tmp [] w = (Ret (FIH_SUCCESS, Some digest), w).
Proof.
  intros Hok Ha Hh Ht Hbuf [Hv Hc] Hcnt Hnd Hk digest Himg Hmax Hfit Hprot Hps Hus Hcn Hcs Hst Hlen Hsz Hver.
  apply Forall_app in Hps as [Hp1 Hp2].
  set (it := TlvIter hdr fap 0 false 0 0 0 0).
  rewrite (validate_eq w state hdr fap tmp max prot (us ++ signed_by digest key sig stype) it);
    try done.
  - unfold image_tlvs. rewrite Hprot, !fmap_app, <- !app_assoc. fold digest.
    assert (Hn : ∀ ps, Forall (λ t, neutral t = true ∧ 0 < zlen (snd t)) ps →
      Forall (λ bt : bool * tlv, neutral (snd bt) = true ∧
        (MCUBOOT_USE_TLV_ALLOW_LIST = true → fst bt = true ∨ fst (snd bt) ∈ allowed_unprot_tlvs)) (pair true <$> ps)).
    { intros ps Hps. apply Forall_fmap. eapply list.Forall_impl; [exact Hps|]. intros t [??]. split; [done|by left]. }
    rewrite check_all_neutral by (by apply Hn).
    assert (Hrest : ∀ v, check_all w (curr_img_idx state) digest
        ((pair true <$> ps2) ++ (pair false <$> us) ++ (pair false <$> signed_by digest key sig stype)) v =
      Some (set_v_signature (set_v_hash v) FIH_SUCCESS)).
    { intros v. rewrite check_all_neutral by (by apply Hn). rewrite check_all_neutral.
      - rewrite (check_signed _ _ _ _ k) by done. by rewrite Hver.
      - apply Forall_fmap. eapply list.Forall_impl; [exact Hus|]. intros t [? Hal]. split; [done|]. intros ?. right. by apply Hal. }
    destruct c as [c|]; cbn [counter_tlv fmap list_fmap app check_all].
    + destruct (Hcn c eq_refl) as [Hc32 Hgood]. rewrite andb_false_r. cbn [andb].
      rewrite counter_effect by done. cbn [mbind option_bind]. rewrite Hrest.
      unfold validate_verdict. rewrite Hv, Hc, Hst. by destruct MCUBOOT_HW_ROLLBACK_PROT.
    + rewrite Hrest. unfold validate_verdict. rewrite Hv, Hc, Hst.
      destruct MCUBOOT_HW_ROLLBACK_PROT; [by destruct Hcs|done].
  - rewrite Hprot, !Forall_app. split_and!.
    + eapply list.Forall_impl; [exact Hp1|]. by intros t [??].
    + destruct c; repeat constructor.
    + eapply list.Forall_impl; [exact Hp2|]. by intros t [??].
Qed.

End Refine.
