(* ===== verification/SwapMisc.v ===== *)
(** * Trailer handling of the swap algorithms

    swap_misc.c: erasing and scrambling trailers, writing the status of a new swap,
    reading the status of an interrupted one, and the closing flags. *)

From S2P Require Import Prelude Effects FlashMap BootConfig Trailer Area Image LoaderState.

Section SwapMisc.
  Context {W : Type} `{FlashMap W} `{BootConfig}.

(** The loop of [swap_erase_trailer_sectors]: the state is the sector and the
    bytes erased so far. *)
Definition erase_trailer_step (state : boot_loader_state) (fap : flash_area) (slot trailer_sz : Z)
    (s : Z * Z) : M W ((Z * Z) + Z) :=
  let '(sector, total_sz) := s in
  sz ← boot_img_sector_size state slot sector;
  off ← boot_img_sector_off state slot sector;
  rc ← boot_erase_region fap off sz false;
  assert (rc =? 0);;
  let sector := sector ⊖ 1 in
  let total_sz := total_sz ⊕ sz in
  if total_sz <? trailer_sz then mret (inl (sector, total_sz)) else mret (inr rc).

Definition swap_erase_trailer_sectors (state : boot_loader_state) (fap : flash_area) : M W Z :=
  if device_requires_erase fap then
    let slot :=
      if bool_decide (fap = BOOT_IMG_AREA state BOOT_SLOT_SECONDARY) then BOOT_SLOT_SECONDARY
      else BOOT_SLOT_PRIMARY in
    let sector := boot_img_num_sectors state slot ⊖ 1 in
    let trailer_sz := boot_trailer_sz (write_sz state) in
    loop (S (Z.to_nat (boot_img_num_sectors state slot)))
      (erase_trailer_step state fap slot trailer_sz) (sector, 0)
  else mret 0.

Definition swap_scramble_trailer_sectors (state : boot_loader_state) (fap : flash_area) : M W Z :=
  o ← boot_trailer_scramble_offset fap (write_sz state);
  match o with
  | inl _ => mret BOOT_EFLASH
  | inr off =>
      rc ← boot_scramble_region fap off (fa_size fap ⊖ off) true;
      if rc <? 0 then mret BOOT_EFLASH else mret 0
  end.

Definition swap_status_init (state : boot_loader_state) (fap : flash_area) (bs : boot_status) : M W Z :=
  let image_index := curr_img_idx state in
  st ← boot_read_swap_state (BOOT_IMG_AREA state BOOT_SLOT_SECONDARY);
  match st with
  | inl _ => abort
  | inr swap_state =>
      (if negb (bs_swap_type bs =? BOOT_SWAP_TYPE_NONE) then
         rc ← boot_write_swap_info fap (bs_swap_type bs) image_index;
         assert (rc =? 0)
       else mret ());;
      (if image_ok swap_state =? BOOT_FLAG_SET then
         rc ← boot_write_image_ok fap;
         assert (rc =? 0)
       else mret ());;
      rc ← boot_write_swap_size fap (bs_swap_size bs);
      assert (rc =? 0);;
      (if uses SWAP_USING_OFFSET then
         rc ← boot_write_unprotected_tlv_sizes fap
                (img_unprotected_tlv_size (BOOT_IMG state BOOT_SLOT_PRIMARY))
                (img_unprotected_tlv_size (BOOT_IMG state BOOT_SLOT_SECONDARY));
         assert (rc =? 0)
       else mret ());;
      rc ← boot_write_magic fap;
      assert (rc =? 0);;
      mret 0
  end.

(** [swap_status_source] and [swap_read_status_bytes] are those of the swap
    algorithm linked in. *)
Definition swap_read_status (swap_status_source : boot_loader_state → M W Z)
    (swap_read_status_bytes : flash_area → boot_loader_state → boot_status → M W (Z * boot_status))
    (state : boot_loader_state) (bs : boot_status) : M W (Z * boot_status) :=
  source ← swap_status_source state;
  let bs := set_bs_source bs source in
  if source =? BOOT_STATUS_SOURCE_NONE then mret (0, bs) else
  fap ←
    (if uses SWAP_USING_SCRATCH && (source =? BOOT_STATUS_SOURCE_SCRATCH) then mret (scratch_area state)
     else if source =? BOOT_STATUS_SOURCE_PRIMARY_SLOT then mret (BOOT_IMG_AREA state BOOT_SLOT_PRIMARY)
     else abort);
  '(rc, bs) ← swap_read_status_bytes fap state bs;
  if negb (rc =? 0) then mret (rc, bs) else
  '(rc, info) ← flash_area_read fap (boot_swap_info_off fap) 1;
  if negb (rc =? 0) then mret (BOOT_EFLASH, bs) else
  swap_info ← (if bootutil_buffer_is_erased fap info then BOOT_SET_SWAP_INFO 0 BOOT_SWAP_TYPE_NONE
               else mret (le_dec info));
  mret (0, set_bs_swap_type bs (BOOT_GET_SWAP_TYPE swap_info)).

Definition swap_set_copy_done (image_index : Z) : M W Z :=
  '(rc, fap) ← flash_area_open (FLASH_AREA_IMAGE_PRIMARY image_index);
  if negb (rc =? 0) then mret BOOT_EFLASH
  else boot_write_copy_done fap.

Definition swap_set_image_ok (image_index : Z) : M W Z :=
  '(rc, fap) ← flash_area_open (FLASH_AREA_IMAGE_PRIMARY image_index);
  if negb (rc =? 0) then mret BOOT_EFLASH else
  st ← boot_read_swap_state fap;
  match st with
  | inl _ => mret BOOT_EFLASH
  | inr state =>
      if image_ok state =? BOOT_FLAG_UNSET then boot_write_image_ok fap else mret 0
  end.

End SwapMisc.
