(* ===== verification/BootLoop.v ===== *)
(** * The boot process

    loader.c and bootutil_loader.c for one image: reading the headers, validating a
    slot, the update by swap or by overwriting, completing an interrupted swap, and
    the whole boot up to the response that says what to start.  Hooks, data sharing
    and the bootstrap option are off; the status change callback has no effect on
    the loader. *)

From S2P Require Import Prelude Effects FlashMap BootConfig Trailer SwapState Area Image Tlv.
From S2P Require Import LoaderState Sectors SwapMisc Validate.

Class LoaderConfig := {
  MCUBOOT_OVERWRITE_ONLY_FAST : bool;
  MCUBOOT_OVERWRITE_ONLY_KEEP_BACKUP : bool;
  MCUBOOT_DOWNGRADE_PREVENTION : bool;
  MCUBOOT_DOWNGRADE_PREVENTION_SECURITY_COUNTER : bool;
  MCUBOOT_VERSION_CMP_USE_BUILD_NUMBER : bool;
  MCUBOOT_VERIFY_LOGICAL_SECTORS : bool;
  MCUBOOT_CHECK_HEADER_LOAD_ADDRESS : bool;
  MCUBOOT_VERIFY_IMG_ADDRESS : bool;
}.

(** Position of the reset vector in an image. *)
Definition RESET_OFFSET : Z := 4.

Record boot_rsp := BootRsp { br_flash_dev_id : Z; br_image_off : Z; br_hdr : image_header }.

Section BootLoop.
  Context {W : Type} `{FlashMap W} `{FlashSectors W} `{BootConfig} `{LoaderConfig}.
  Context `{ValidateConfig} `{Sha} `{Signing} `{Platform W} `{SwapAlgo W}.

(** One of the modes that swap the images. *)
Definition swaps : bool := uses SWAP_USING_SCRATCH || uses SWAP_USING_MOVE || uses SWAP_USING_OFFSET.

(** ** Headers *)

Definition boot_check_header_erased (state : boot_loader_state) (slot : Z) : bool :=
  bootutil_buffer_is_erased (BOOT_IMG_AREA state slot) (le_enc 4 (ih_magic (boot_img_hdr state slot))).

(** The loop over the two slots, written out. *)
Definition boot_read_image_headers (state : boot_loader_state) (require_all : bool) (bs : option boot_status)
  : M W (Z * boot_loader_state) :=
  '(rc, hdr, state) ← boot_read_image_header state BOOT_SLOT_PRIMARY (boot_img_hdr state BOOT_SLOT_PRIMARY) bs;
  let state := set_img_hdr state BOOT_SLOT_PRIMARY hdr in
  if negb (rc =? 0) then mret (rc, state) else
  '(rc, hdr, state) ← boot_read_image_header state BOOT_SLOT_SECONDARY (boot_img_hdr state BOOT_SLOT_SECONDARY) bs;
  let state := set_img_hdr state BOOT_SLOT_SECONDARY hdr in
  if negb (rc =? 0) then mret (if negb require_all then 0 else rc, state) else mret (0, state).

(** ** Validation of a slot *)

(** Where either slot can be started, neither is kept when it is found invalid. *)
Definition ARE_SLOTS_EQUIVALENT : bool := uses DIRECT_XIP || uses RAM_LOAD.

(** The slot holds no bootable image: a leftover trailer is removed. *)
Definition discard_trailer (state : boot_loader_state) (slot : Z) (bs : option boot_status) : M W unit :=
  if swaps && negb (slot =? BOOT_SLOT_PRIMARY) then
    _ ← swap_scramble_trailer_sectors state (BOOT_IMG_AREA state slot);
    if uses SWAP_USING_MOVE then
      match bs with
      | None => fault
      | Some bs =>
          revert ← (if bs_swap_type bs =? BOOT_SWAP_TYPE_REVERT then mret true
                    else t ← boot_swap_type_multi (curr_img_idx state); mret (t =? BOOT_SWAP_TYPE_REVERT));
          if revert : bool then
            _ ← swap_scramble_trailer_sectors state (BOOT_IMG_AREA state BOOT_SLOT_PRIMARY); mret ()
          else mret ()
      end
    else mret ()
  else mret ().

(** An image loaded to the first sector of the secondary slot, where swap using
    offset does not expect it; [None] is a read error. *)
Definition wrong_sector (state : boot_loader_state) (slot : Z) (bs : option boot_status) (expected_swap_type : Z)
  : M W (option bool) :=
  if uses SWAP_USING_OFFSET && negb (slot =? BOOT_SLOT_PRIMARY) then
    match bs with
    | None => fault
    | Some bs =>
        if boot_status_is_reset bs &&
           ((expected_swap_type =? BOOT_SWAP_TYPE_TEST) || (expected_swap_type =? BOOT_SWAP_TYPE_PERM)) then
          '(rc, b) ← flash_area_read (BOOT_IMG_AREA state slot) 0 IMAGE_HEADER_SIZE;
          mret (if negb (rc =? 0) then None else Some (ih_magic (header_of_bytes b) =? IMAGE_MAGIC))
        else mret (Some false)
    end
  else mret (Some false).

(** With [MCUBOOT_DOWNGRADE_PREVENTION] in overwrite mode. *)
Definition version_too_low (state : boot_loader_state) (slot : Z) : bool :=
  uses OVERWRITE_ONLY && MCUBOOT_DOWNGRADE_PREVENTION && negb (slot =? BOOT_SLOT_PRIMARY) &&
  (boot_compare_version MCUBOOT_VERSION_CMP_USE_BUILD_NUMBER
     (ih_ver (boot_img_hdr state BOOT_SLOT_SECONDARY)) (ih_ver (boot_img_hdr state BOOT_SLOT_PRIMARY)) <? 0) &&
  negb (boot_check_header_erased state BOOT_SLOT_PRIMARY).

(** Whether the image in the secondary slot was built for the primary slot; [None]
    is a read error. *)
Definition address_ok (state : boot_loader_state) (slot : Z) : M W (option bool) :=
  let fap := BOOT_IMG_AREA state slot in
  if (MCUBOOT_VERIFY_IMG_ADDRESS || MCUBOOT_CHECK_HEADER_LOAD_ADDRESS) &&
     bool_decide (fap = BOOT_IMG_AREA state BOOT_SLOT_SECONDARY) then
    let hdr := boot_img_hdr state slot in
    let min_addr := fa_off (BOOT_IMG_AREA state BOOT_SLOT_PRIMARY) in
    let max_addr := fa_size (BOOT_IMG_AREA state BOOT_SLOT_PRIMARY) ⊕ min_addr in
    let within addr := negb ((addr <? min_addr) || (max_addr <=? addr)) in
    if MCUBOOT_CHECK_HEADER_LOAD_ADDRESS then mret (Some (within (ih_load_addr hdr)))
    else
      '(rc, b) ← flash_area_read fap (ih_hdr_size hdr ⊕ RESET_OFFSET) 4;
      mret (if negb (rc =? 0) then None else Some (within (le_dec b)))
  else mret (Some true).

Definition boot_validate_slot (state : boot_loader_state) (slot : Z) (bs : option boot_status)
    (expected_swap_type : Z) : M W fih_ret :=
  let fap := BOOT_IMG_AREA state slot in
  let hdr := boot_img_hdr state slot in
  if boot_check_header_erased state slot || negb (Z.land (ih_flags hdr) IMAGE_F_NON_BOOTABLE =? 0) then
    discard_trailer state slot bs;;
    mret FIH_NO_BOOTABLE_IMAGE
  else
    wrong ← wrong_sector state slot bs expected_swap_type;
    match wrong with
    | None => mret FIH_FAILURE
    | Some wrong =>
        if negb wrong && version_too_low state slot then
          _ ← boot_scramble_slot fap slot;
          mret FIH_NO_BOOTABLE_IMAGE
        else
          fih_rc ← (if wrong then mret FIH_NO_BOOTABLE_IMAGE
                    else if negb (boot_check_header_valid fap hdr) then mret FIH_FAILURE
                    else boot_check_image state slot);
          if negb (FIH_EQ fih_rc FIH_SUCCESS) then
            (if negb (slot =? BOOT_SLOT_PRIMARY) || ARE_SLOTS_EQUIVALENT
             then _ ← boot_scramble_slot fap slot; mret () else mret ());;
            mret FIH_NO_BOOTABLE_IMAGE
          else
            ok ← address_ok state slot;
            match ok with
            | None => mret FIH_NO_BOOTABLE_IMAGE
            | Some true => mret fih_rc
            | Some false =>
                _ ← boot_scramble_slot fap slot;
                mret FIH_NO_BOOTABLE_IMAGE
            end
    end.

Definition boot_validated_swap_type (state : boot_loader_state) (bs : boot_status) : M W Z :=
  swap_type ← boot_swap_type_multi (curr_img_idx state);
  if BOOT_IS_UPGRADE swap_type then
    fih_rc ← boot_validate_slot state BOOT_SLOT_SECONDARY (Some bs) swap_type;
    mret (if FIH_EQ fih_rc FIH_SUCCESS then swap_type
          else if FIH_EQ fih_rc FIH_NO_BOOTABLE_IMAGE then BOOT_SWAP_TYPE_NONE
          else BOOT_SWAP_TYPE_FAIL)
  else mret swap_type.

(** ** Overwriting *)

(** With these options only the sectors of the image are erased. *)
Definition copy_fast : bool := MCUBOOT_OVERWRITE_ONLY_FAST || uses SWAP_USING_MOVE || uses SWAP_USING_OFFSET.

(** The erase of the primary slot; the loop variables are [sect] and [size], the
    result is the number of bytes to copy. *)
Definition copy_erase_step (state : boot_loader_state) (sect_count src_size : Z) (s : Z * Z) : M W (Z * Z + Z) :=
  let '(sect, size) := s in
  if negb (sect <? sect_count) then mret (inr size) else
  this_size ← boot_img_sector_size state BOOT_SLOT_PRIMARY sect;
  rc ← boot_erase_region (BOOT_IMG_AREA state BOOT_SLOT_PRIMARY) size this_size false;
  assert (rc =? 0);;
  if copy_fast && (src_size <=? size ⊕ this_size) then
    let size := size ⊕ (src_size ⊖ size) in
    mret (inr (size ⊕ (write_sz state ⊖ size mod write_sz state)))
  else mret (inl (sect ⊕ 1, size ⊕ this_size)).

(** The sectors of the trailer; the loop variables are [sector] and [sz], the
    result is offset and size. *)
Definition trailer_sectors_step (state : boot_loader_state) (trailer_sz : Z) (s : Z * Z) : M W (Z * Z + Z * Z) :=
  let '(sector, sz) := s in
  n ← boot_img_sector_size state BOOT_SLOT_PRIMARY sector;
  off ← boot_img_sector_off state BOOT_SLOT_PRIMARY sector;
  let sz := sz ⊕ n in
  mret (if sz <? trailer_sz then inl (sector ⊖ 1, sz) else inr (off, sz)).

Definition erase_primary_trailer (state : boot_loader_state) : M W unit :=
  let trailer_sz := boot_trailer_sz (write_sz state) in
  '(off, sz) ← loop (S (Z.to_nat trailer_sz)) (trailer_sectors_step state trailer_sz)
                 (boot_img_num_sectors state BOOT_SLOT_PRIMARY ⊖ 1, 0);
  rc ← boot_erase_region (BOOT_IMG_AREA state BOOT_SLOT_PRIMARY) off sz false;
  assert (rc =? 0).

(** Scrambling one sector of the secondary slot. *)
Definition scramble_sector (state : boot_loader_state) (sector : Z) : M W unit :=
  off ← boot_img_sector_off state BOOT_SLOT_SECONDARY sector;
  sz ← boot_img_sector_size state BOOT_SLOT_SECONDARY sector;
  rc ← boot_scramble_region (BOOT_IMG_AREA state BOOT_SLOT_SECONDARY) off sz false;
  assert (rc =? 0).

Definition boot_copy_image (state : boot_loader_state) : M W (Z * boot_loader_state) :=
  '(src_size, state) ←
    (if copy_fast then
       '(rc, n, state) ← boot_read_image_size state BOOT_SLOT_SECONDARY;
       assert (rc =? 0);;
       mret (n, state)
     else mret (0, state));
  let fap_primary_slot := BOOT_IMG_AREA state BOOT_SLOT_PRIMARY in
  let fap_secondary_slot := BOOT_IMG_AREA state BOOT_SLOT_SECONDARY in
  let sect_count := boot_img_num_sectors state BOOT_SLOT_PRIMARY in
  size ← loop (S (Z.to_nat sect_count)) (copy_erase_step state sect_count src_size) (0, 0);
  (if copy_fast then erase_primary_trailer state else mret ());;
  off_src ← (if uses SWAP_USING_OFFSET then boot_img_sector_size state BOOT_SLOT_SECONDARY 0 else mret 0);
  rc ← boot_copy_region fap_secondary_slot fap_primary_slot off_src 0 size;
  if negb (rc =? 0) then mret (rc, state) else
  rc ← (if copy_fast then boot_write_magic fap_primary_slot else mret 0);
  if negb (rc =? 0) then mret (rc, state) else
  rc ← (if MCUBOOT_HW_ROLLBACK_PROT then boot_update_security_counter state BOOT_SLOT_PRIMARY BOOT_SLOT_SECONDARY
        else mret 0);
  if negb (rc =? 0) then mret (rc, state) else
  (if negb MCUBOOT_OVERWRITE_ONLY_KEEP_BACKUP && negb (uses SWAP_USING_MOVE) && negb (uses SWAP_USING_OFFSET)
   then scramble_sector state 0 else mret ());;
  scramble_sector state (boot_img_num_sectors state BOOT_SLOT_SECONDARY ⊖ 1);;
  mret (0, state).

(** ** Swapping *)

(** The larger of the two images, for a swap that starts. *)
Definition swap_copy_size (state : boot_loader_state) : M W (Z * boot_loader_state) :=
  '(copy_size, state) ←
    (if ih_magic (boot_img_hdr state BOOT_SLOT_PRIMARY) =? IMAGE_MAGIC then
       '(rc, n, state) ← boot_read_image_size state BOOT_SLOT_PRIMARY;
       assert (rc =? 0);;
       mret (n, state)
     else mret (0, state));
  '(size, state) ←
    (if ih_magic (boot_img_hdr state BOOT_SLOT_SECONDARY) =? IMAGE_MAGIC then
       '(rc, n, state) ← boot_read_image_size state BOOT_SLOT_SECONDARY;
       assert (rc =? 0);;
       mret (n, state)
     else mret (0, state));
  mret (if copy_size <? size then size else copy_size, state).

Definition boot_swap_image (state : boot_loader_state) (bs : boot_status)
  : M W (boot_status * boot_loader_state) :=
  '(copy_size, state) ←
    (if boot_status_is_reset bs then swap_copy_size state
     else
       f ← boot_find_status state;
       match f with
       | None => abort
       | Some fap =>
           '(rc, swap_size) ← boot_read_swap_size fap;
           assert (rc =? 0);;
           mret (swap_size, state)
       end);
  bs ← swap_run state (set_bs_swap_size bs copy_size) copy_size;
  mret (bs, state).

Definition boot_perform_update (state : boot_loader_state) (bs : boot_status)
  : M W (Z * boot_status * boot_loader_state) :=
  if uses OVERWRITE_ONLY then
    '(rc, state) ← boot_copy_image state;
    assert (rc =? 0);;
    mret (rc, bs, state)
  else
    '(bs, state) ← boot_swap_image state bs;
    let swap_type := state_swap_type state in
    '(rc, swap_type, state) ←
      (if (swap_type =? BOOT_SWAP_TYPE_REVERT) || (swap_type =? BOOT_SWAP_TYPE_PERM) then
         rc ← swap_set_image_ok (curr_img_idx state);
         mret (if negb (rc =? 0) then (rc, BOOT_SWAP_TYPE_PANIC, set_swap_type state BOOT_SWAP_TYPE_PANIC)
               else (rc, swap_type, state))
       else mret (0, swap_type, state));
    '(rc, state) ←
      (if MCUBOOT_HW_ROLLBACK_PROT && (swap_type =? BOOT_SWAP_TYPE_PERM) then
         rc ← boot_update_security_counter state BOOT_SLOT_PRIMARY BOOT_SLOT_SECONDARY;
         mret (rc, if negb (rc =? 0) then set_swap_type state BOOT_SWAP_TYPE_PANIC else state)
       else mret (rc, state));
    if BOOT_IS_UPGRADE swap_type then
      rc ← swap_set_copy_done (curr_img_idx state);
      mret (rc, bs, if negb (rc =? 0) then set_swap_type state BOOT_SWAP_TYPE_PANIC else state)
    else mret (rc, bs, state).

Definition boot_complete_partial_swap (state : boot_loader_state) (bs : boot_status)
  : M W (Z * boot_status * boot_loader_state) :=
  '(bs, state) ← boot_swap_image state bs;
  let state := set_swap_type state (bs_swap_type bs) in
  '(rc, state) ←
    (if (bs_swap_type bs =? BOOT_SWAP_TYPE_REVERT) || (bs_swap_type bs =? BOOT_SWAP_TYPE_PERM) then
       rc ← swap_set_image_ok (curr_img_idx state);
       mret (rc, if negb (rc =? 0) then set_swap_type state BOOT_SWAP_TYPE_PANIC else state)
     else mret (0, state));
  '(rc, state) ←
    (if BOOT_IS_UPGRADE (bs_swap_type bs) then
       rc ← swap_set_copy_done (curr_img_idx state);
       mret (rc, if negb (rc =? 0) then set_swap_type state BOOT_SWAP_TYPE_PANIC else state)
     else mret (rc, state));
  if state_swap_type state =? BOOT_SWAP_TYPE_PANIC then abort else mret (rc, bs, state).

(** ** One boot *)

(** What remains of the preparation once the status is known: complete an
    interrupted swap or determine the type of the next one. *)
Definition prepare_with_status (state : boot_loader_state) (bs : boot_status)
  : M W (boot_status * boot_loader_state) :=
  if negb (boot_status_is_reset bs) then
    if uses OVERWRITE_ONLY then abort else
    '(rc, bs, state) ← boot_complete_partial_swap state bs;
    assert (rc =? 0);;
    '(rc, state) ← boot_read_image_headers state false None;
    assert (rc =? 0);;
    mret (bs, set_swap_type state BOOT_SWAP_TYPE_NONE)
  else if bs_swap_type bs =? BOOT_SWAP_TYPE_NONE then
    t ← boot_validated_swap_type state bs;
    mret (bs, set_swap_type state t)
  else
    fih_rc ← boot_validate_slot state BOOT_SLOT_SECONDARY (Some bs) 0;
    mret (bs, set_swap_type state (if negb (FIH_EQ fih_rc FIH_SUCCESS) then BOOT_SWAP_TYPE_FAIL
                                   else bs_swap_type bs)).

(** The status is an output parameter; it is left alone when the headers cannot be
    read or the slots do not fit together. *)
Definition boot_prepare_image_for_update (state : boot_loader_state) (bs : boot_status)
  : M W (boot_status * boot_loader_state) :=
  let none (state : boot_loader_state) := set_swap_type state BOOT_SWAP_TYPE_NONE in
  '(rc, state) ← boot_read_image_headers state false None;
  if negb (rc =? 0) then mret (bs, none state) else
  compatible ← boot_slots_compatible state;
  if negb compatible then mret (bs, none state) else
  let bs := boot_status_reset in
  '(rc, bs) ← (if uses OVERWRITE_ONLY then mret (0, bs)
               else swap_read_status swap_status_source swap_read_status_bytes state bs);
  if negb (rc =? 0) then mret (bs, none state) else
  '(rc, state) ← (if swaps then boot_read_image_headers state (negb (boot_status_is_reset bs)) (Some bs)
                  else mret (0, state));
  if negb (rc =? 0) then mret (bs, none state) else
  prepare_with_status state bs.

Definition boot_update_hw_rollback_protection (state : boot_loader_state) : M W Z :=
  if MCUBOOT_HW_ROLLBACK_PROT then
    r ← boot_read_swap_state_by_id (FLASH_AREA_IMAGE_PRIMARY (curr_img_idx state));
    match r with
    | inl rc => mret rc
    | inr swap_state =>
        if negb (magic swap_state =? BOOT_MAGIC_GOOD) || (image_ok swap_state =? BOOT_FLAG_SET) then
          boot_update_security_counter state BOOT_SLOT_PRIMARY BOOT_SLOT_PRIMARY
        else mret 0
    end
  else mret 0.

Definition check_downgrade_prevention (state : boot_loader_state) : M W Z :=
  if MCUBOOT_DOWNGRADE_PREVENTION && swaps then
    r ← (if MCUBOOT_DOWNGRADE_PREVENTION_SECURITY_COUNTER then
           '(rc, c0) ← bootutil_get_img_security_cnt state BOOT_SLOT_PRIMARY (BOOT_IMG_AREA state 0);
           if negb (rc =? 0) then mret None else
           '(rc, c1) ← bootutil_get_img_security_cnt state BOOT_SLOT_SECONDARY (BOOT_IMG_AREA state 1);
           mret (Some (if negb (rc =? 0) || (c1 <? c0) then -1 else rc))
         else
           mret (Some (boot_compare_version MCUBOOT_VERSION_CMP_USE_BUILD_NUMBER
                         (ih_ver (boot_img_hdr state BOOT_SLOT_SECONDARY))
                         (ih_ver (boot_img_hdr state BOOT_SLOT_PRIMARY)))));
    match r with
    | None => mret 0
    | Some rc =>
        if rc <? 0 then
          _ ← boot_scramble_slot (BOOT_IMG_AREA state 1) BOOT_SLOT_SECONDARY;
          mret rc
        else mret 0
    end
  else mret 0.

(** The switch over the swap type. *)
Definition perform_swap_type (state : boot_loader_state) (bs : boot_status)
  : M W (boot_status * boot_loader_state) :=
  let swap_type := state_swap_type state in
  let update (state : boot_loader_state) :=
    '(rc, bs, state) ← boot_perform_update state bs;
    assert (rc =? 0);;
    mret (bs, state) in
  if swap_type =? BOOT_SWAP_TYPE_NONE then mret (bs, state)
  else if (swap_type =? BOOT_SWAP_TYPE_TEST) || (swap_type =? BOOT_SWAP_TYPE_PERM) then
    rc ← check_downgrade_prevention state;
    if negb (rc =? 0) then mret (bs, set_swap_type state BOOT_SWAP_TYPE_NONE) else update state
  else if swap_type =? BOOT_SWAP_TYPE_REVERT then update state
  else if swap_type =? BOOT_SWAP_TYPE_FAIL then
    if uses OVERWRITE_ONLY then mret (bs, state) else
    rc ← swap_set_image_ok (curr_img_idx state);
    mret (bs, if negb (rc =? 0) then set_swap_type state BOOT_SWAP_TYPE_PANIC else state)
  else mret (bs, set_swap_type state BOOT_SWAP_TYPE_PANIC).

Definition fill_rsp (state : boot_loader_state) : boot_rsp :=
  BootRsp (fa_device_id (BOOT_IMG_AREA state BOOT_SLOT_PRIMARY)) (fa_off (BOOT_IMG_AREA state BOOT_SLOT_PRIMARY))
    (boot_img_hdr state BOOT_SLOT_PRIMARY).

(** The last look at the primary slot before it is started. *)
Definition final_check (state : boot_loader_state) : M W (option boot_loader_state) :=
  '(rc, state) ← (if negb (state_swap_type state =? BOOT_SWAP_TYPE_NONE)
                  then boot_read_image_headers state false None else mret (0, state));
  if negb (rc =? 0) then mret None else
  valid ← (if MCUBOOT_VALIDATE_PRIMARY_SLOT then
             fih_rc ← boot_validate_slot state BOOT_SLOT_PRIMARY None 0;
             mret (FIH_EQ fih_rc FIH_SUCCESS)
           else mret (ih_magic (boot_img_hdr state BOOT_SLOT_PRIMARY) =? IMAGE_MAGIC));
  if negb valid then mret None else
  rc ← boot_update_hw_rollback_protection state;
  if negb (rc =? 0) then mret None else mret (Some state).

(** One image.  The status is not read before it is reset; a panic is an assertion
    failure. *)
Definition context_boot_go (state : boot_loader_state) : M W (fih_ret * option boot_rsp) :=
  state ← boot_open_all_flash_areas state;
  '(rc, state) ← boot_read_sectors MCUBOOT_VERIFY_LOGICAL_SECTORS state;
  let state := if negb (rc =? 0) then set_swap_type state BOOT_SWAP_TYPE_NONE else state in
  '(bs, state) ← (if negb (rc =? BOOT_EFLASH) then boot_prepare_image_for_update state boot_status_reset
                  else mret (boot_status_reset, state));
  let bs := set_bs_swap_type bs (state_swap_type state) in
  '(bs, state) ← perform_swap_type state bs;
  if state_swap_type state =? BOOT_SWAP_TYPE_PANIC then abort else
  o ← final_check state;
  mret (match o with None => (FIH_FAILURE, None) | Some state => (FIH_SUCCESS, Some (fill_rsp state)) end).

End BootLoop.
