(* ===== verification/MultiImage.v ===== *)
(** * Several images and their dependencies

    The state of the loader for all images, the iteration over them, and the check of
    the dependency entries of an image on the versions of the others: loader.c, for
    the modes that swap and for those that start either slot.  LoaderState.v holds the
    part of the state that belongs to one image; the current image is the index the
    functions take. *)

From S2P Require Import Prelude Effects FlashMap BootConfig Trailer Image Tlv LoaderState Validate BootLoop.

(** ** State *)

(** [BOOT_SLOT_NONE]: no slot is active. *)
Definition BOOT_SLOT_NONE : Z := UINT32_MAX.

(** [struct slot_usage_t]; destination and size belong to RAM loading, the swap state
    to the revert option. *)
Record slot_usage := SlotUsage {
  active_slot : Z;
  primary_available : bool;
  secondary_available : bool;
  img_dst : Z;
  img_sz : Z;
  usage_swap_state : boot_swap_state;
}.

Definition slot_available (u : slot_usage) (slot : Z) : bool :=
  if slot =? BOOT_SLOT_PRIMARY then primary_available u else secondary_available u.
Definition set_slot_available (u : slot_usage) (slot : Z) (b : bool) : slot_usage :=
  let '(p, q) := if slot =? BOOT_SLOT_PRIMARY then (b, secondary_available u) else (primary_available u, b) in
  SlotUsage (active_slot u) p q (img_dst u) (img_sz u) (usage_swap_state u).
Definition set_active_slot (u : slot_usage) (slot : Z) : slot_usage :=
  SlotUsage slot (primary_available u) (secondary_available u) (img_dst u) (img_sz u) (usage_swap_state u).
Definition set_img_load (u : slot_usage) (dst sz : Z) : slot_usage :=
  SlotUsage (active_slot u) (primary_available u) (secondary_available u) dst sz (usage_swap_state u).
Definition set_usage_swap_state (u : slot_usage) (s : boot_swap_state) : slot_usage :=
  SlotUsage (active_slot u) (primary_available u) (secondary_available u) (img_dst u) (img_sz u) s.

(** One image: the loader state and the usage of its slots. *)
Record image_state := ImageState { im_loader : boot_loader_state; im_usage : slot_usage }.

(** [boot_data]: the images and the mask of those to leave out. *)
Record boot_data := BootData { images : list image_state; img_mask : list bool }.

Definition set_image (d : boot_data) (i : Z) (x : image_state) : boot_data :=
  BootData (<[Z.to_nat i := x]> (images d)) (img_mask d).
Definition set_loader (d : boot_data) (i : Z) (x : image_state) (s : boot_loader_state) : boot_data :=
  set_image d i (ImageState s (im_usage x)).
Definition set_usage (d : boot_data) (i : Z) (x : image_state) (u : slot_usage) : boot_data :=
  set_image d i (ImageState (im_loader x) u).

(** ** Iteration *)

Section Iter.
  Context {W S R : Type} (body : Z → S → M W (S + R)).

(** The images in order; the body goes on to the next one or leaves the function. *)
Fixpoint for_images (l : list Z) (s : S) : M W (S + R) :=
  match l with
  | [] => mret (inl s)
  | i :: l =>
      r ← body i s;
      match r with
      | inl s => for_images l s
      | inr r => mret (inr r)
      end
  end.

Definition IMAGES_ITER `{BootConfig} (s : S) : M W (S + R) := for_images (seqZ 0 BOOT_IMAGE_NUMBER) s.

End Iter.

(** ** Dependencies *)

Definition IMAGE_TLV_DEPENDENCY : Z := 0x40.

Record image_dependency := ImageDependency { dep_image_id : Z; image_min_version : image_version }.

Definition IMAGE_DEPENDENCY_SIZE : Z := 12.

Definition dependency_of_bytes (b : list Z) : image_dependency :=
  ImageDependency (le_dec (slice b 0 1))
    (ImageVersion (le_dec (slice b 4 1)) (le_dec (slice b 5 1)) (le_dec (slice b 6 2)) (le_dec (slice b 8 4))).

Section MultiImage.
  Context {W : Type} `{FlashMap W} `{BootConfig} `{LoaderConfig}.

(** With a single image there is no mask. *)
Definition masked (d : boot_data) (i : Z) : M W bool :=
  if 1 <? BOOT_IMAGE_NUMBER then array_get (img_mask d) i else mret false.

(** The slot an image will run from; an index out of range is an access outside of
    the array. *)
Definition dependency_slot (x : image_state) : M W Z :=
  let slot :=
    if ARE_SLOTS_EQUIVALENT then active_slot (im_usage x)
    else if BOOT_IS_UPGRADE (state_swap_type (im_loader x)) then BOOT_SLOT_SECONDARY else BOOT_SLOT_PRIMARY in
  if (slot =? BOOT_SLOT_PRIMARY) || (slot =? BOOT_SLOT_SECONDARY) then mret slot else fault.

(** The swap type after an unsatisfied dependency. *)
Definition demote (t : Z) : Z :=
  if (t =? BOOT_SWAP_TYPE_TEST) || (t =? BOOT_SWAP_TYPE_PERM) then BOOT_SWAP_TYPE_NONE
  else if t =? BOOT_SWAP_TYPE_NONE then BOOT_SWAP_TYPE_REVERT else t.

Definition boot_verify_slot_dependency (d : boot_data) (i : Z) (dep : image_dependency) : M W (Z * boot_data) :=
  x ← array_get (images d) (dep_image_id dep);
  dep_slot ← dependency_slot x;
  let rc := boot_compare_version MCUBOOT_VERSION_CMP_USE_BUILD_NUMBER
              (ih_ver (boot_img_hdr (im_loader x) dep_slot)) (image_min_version dep) in
  if ARE_SLOTS_EQUIVALENT then mret (if 0 <=? rc then 0 else rc, d)
  else if rc <? 0 then
    cur ← array_get (images d) i;
    mret (rc, set_loader d i cur (set_swap_type (im_loader cur) (demote (state_swap_type (im_loader cur)))))
  else mret (0, d).

(** One dependency entry; the loop variables are the iterator and the state. *)
Definition slot_dependencies_step (i : Z) (fap : flash_area) (s : image_tlv_iter * boot_data)
  : M W (image_tlv_iter * boot_data + Z * boot_data) :=
  let '(it, d) := s in
  '(r, it) ← bootutil_tlv_iter_next it;
  match r with
  | TlvError => mret (inr (-1, d))
  | TlvNone => mret (inr (0, d))
  | TlvFound off len _ =>
      if negb (len =? IMAGE_DEPENDENCY_SIZE) then mret (inr (BOOT_EBADIMAGE, d)) else
      '(rc, b) ← LOAD_IMAGE_DATA fap off IMAGE_DEPENDENCY_SIZE len;
      if negb (rc =? 0) then mret (inr (BOOT_EFLASH, d)) else
      let dep := dependency_of_bytes b in
      if BOOT_IMAGE_NUMBER <=? dep_image_id dep then mret (inr (BOOT_EBADARGS, d)) else
      '(rc, d) ← boot_verify_slot_dependency d i dep;
      mret (if negb (rc =? 0) then inr (rc, d) else inl (it, d))
  end.

(** Every entry takes at least four bytes. *)
Definition boot_verify_slot_dependencies (d : boot_data) (i slot : Z) : M W (Z * boot_data) :=
  x ← array_get (images d) i;
  let fap := BOOT_IMG_AREA (im_loader x) slot in
  o ← bootutil_tlv_iter_begin (image_start (im_loader x) fap) (boot_img_hdr (im_loader x) slot) fap
        IMAGE_TLV_DEPENDENCY true;
  match o with
  | None => mret (-1, d)
  | Some it =>
      loop (S (Z.to_nat (it_tlv_end it - it_tlv_off it))) (slot_dependencies_step i fap) (it, d)
  end.

(** ** The modes that swap *)

Definition cancel_swap (x : image_state) : image_state :=
  ImageState (set_swap_type (im_loader x) BOOT_SWAP_TYPE_NONE) (im_usage x).

(** One turn of the loop of [boot_verify_dependencies]; the loop variables are the
    last return code and the state. *)
Definition swap_dependencies_step (i : Z) (s : Z * boot_data) : M W (Z * boot_data + Z * boot_data) :=
  let '(rc, d) := s in
  m ← masked d i;
  if m : bool then mret (inl (rc, d)) else
  x ← array_get (images d) i;
  let t := state_swap_type (im_loader x) in
  let slot := if negb (t =? BOOT_SWAP_TYPE_NONE) && negb (t =? BOOT_SWAP_TYPE_FAIL)
              then BOOT_SLOT_SECONDARY else BOOT_SLOT_PRIMARY in
  '(rc, d) ← boot_verify_slot_dependencies d i slot;
  mret (if rc =? 0 then inl (rc, d) else inr (rc, BootData (cancel_swap <$> images d) (img_mask d))).

(** An image whose dependencies are not met cancels all upgrades. *)
Definition swap_verify_dependencies (d : boot_data) : M W (Z * boot_data) :=
  r ← IMAGES_ITER swap_dependencies_step (-1, d);
  mret (match r with inl r | inr r => r end).

(** ** The modes that start either slot *)

(** The slot with an unmet dependency is not tried again. *)
Definition xip_dependencies_step (i : Z) (s : Z * boot_data) : M W (Z * boot_data + Z * boot_data) :=
  let '(rc, d) := s in
  m ← masked d i;
  if m : bool then mret (inl (rc, d)) else
  x ← array_get (images d) i;
  let slot := active_slot (im_usage x) in
  '(rc, d) ← boot_verify_slot_dependencies d i slot;
  if rc =? 0 then mret (inl (rc, d)) else
  x ← array_get (images d) i;
  mret (inr (rc, set_usage d i x (set_active_slot (set_slot_available (im_usage x) slot false) BOOT_SLOT_NONE))).

Definition xip_verify_dependencies (d : boot_data) : M W (Z * boot_data) :=
  r ← IMAGES_ITER xip_dependencies_step (-1, d);
  mret (match r with inl r | inr r => r end).

End MultiImage.
