(* ===== verification/Serial.v ===== *)
(** * Serial recovery: state, responses and the image upload

    boot_serial.c: the static variables, the encoder of the response and its output, the
    response with a return code, and the upload of an image in chunks.  Image encryption
    and hooks are off, the indication LED is left out.  The UART, the clock and the
    restart belong to the operating system and are a class over the world. *)

From Stdlib Require Import String Ascii.
From S2P Require Import Prelude Effects FlashMap BootConfig Trailer Area LoaderState Sectors Zcbor SerialFrame.

(** ** Build options *)

(** [MCUBOOT_SERIAL_UNALIGNED_BUFFER_SIZE] is [0] when not defined; [payload_addr] is the
    address of the payload of a message, [slot_partition] the partitions of the device
    tree. *)
Class SerialConfig := {
  MCUBOOT_SERIAL_IMG_GRP_IMAGE_STATE : bool;
  MCUBOOT_SERIAL_IMG_GRP_HASH : bool;
  MCUBOOT_SERIAL_IMG_GRP_SLOT_INFO : bool;
  MCUBOOT_SERIAL_DIRECT_IMAGE_UPLOAD : bool;
  MCUBOOT_ERASE_PROGRESSIVELY : bool;
  MCUBOOT_SERIAL_UNALIGNED_BUFFER_SIZE : Z;
  MCUBOOT_VALIDATE_PRIMARY_SLOT_ONCE : bool;
  MCUBOOT_SERIAL_RAW_PROTOCOL : bool;
  payload_addr : Z;
  slot_partition : Z → option Z;
}.

(** [uart_read room] gives the bytes read and whether they end a line; its return code
    is their number, or is not positive. *)
Class Uart (W : Type) := {
  uart_write : list Z → M W unit;
  uart_read : Z → M W (Z * list Z * bool);
  k_uptime_get_32 : M W Z;
}.

Definition MGMT_ERR_EUNKNOWN : Z := 1.
Definition MGMT_ERR_ENOMEM : Z := 2.
Definition MGMT_ERR_EINVAL : Z := 3.
Definition MGMT_ERR_ENOENT : Z := 5.
Definition MGMT_ERR_ENOTSUP : Z := 8.
Definition NMGR_OP_READ : Z := 0.
Definition NMGR_OP_WRITE : Z := 2.
Definition EINVAL : Z := 22.
Definition ENOMEM : Z := 12.

(** Conversion to a signed 32-bit number, [off_t]. *)
Definition s32 (x : Z) : Z := if u32 x <? 2147483648 then u32 x else u32 x - 4294967296.

(** The bytes of a string literal. *)
Fixpoint lit (s : string) : list Z :=
  match s with
  | EmptyString => []
  | String c s => Z.of_nat (nat_of_ascii c) :: lit s
  end.

(** ** State *)

(** The static variables of [bs_upload]. *)
Record upload_state := UploadState {
  img_size : Z;
  curr_off : Z;
  img_num : Z;
  not_yet_erased : Z;
  status_sector : flash_sector;
  up_start_off : Z;
}.

(** The buffer the message is in; its header is at the start of the input buffer, or
    behind the length in the decode buffer. *)
Inductive msg_place := InBuf | DecBuf.

Definition place_off (p : msg_place) : Z := match p with InBuf => 0 | DecBuf => 2 end.

(** The buffer of the response is that of [cbor_state].  [image_max_sizes] is that of
    loader.c; an entry that was not calculated is [None]. *)
Record serial := Serial {
  in_buf : list Z;
  dec_buf : list Z;
  bs_hdr : msg_place;
  cbor_state : zcbor_state;
  upload : upload_state;
  image_max_sizes : list (option Z);
  bs_entry : bool;
  bs_rearm_ms : Z;
  bs_rearm_pending : bool;
  bs_rearm_seen : bool;
}.

Definition set_in_buf (s : serial) (b : list Z) : serial :=
  Serial b (dec_buf s) (bs_hdr s) (cbor_state s) (upload s)
    (image_max_sizes s) (bs_entry s) (bs_rearm_ms s) (bs_rearm_pending s) (bs_rearm_seen s).
Definition set_dec_buf (s : serial) (b : list Z) : serial :=
  Serial (in_buf s) b (bs_hdr s) (cbor_state s) (upload s)
    (image_max_sizes s) (bs_entry s) (bs_rearm_ms s) (bs_rearm_pending s) (bs_rearm_seen s).
Definition set_bs_hdr (s : serial) (p : msg_place) : serial :=
  Serial (in_buf s) (dec_buf s) p (cbor_state s) (upload s)
    (image_max_sizes s) (bs_entry s) (bs_rearm_ms s) (bs_rearm_pending s) (bs_rearm_seen s).
Definition set_cbor (s : serial) (z : zcbor_state) : serial :=
  Serial (in_buf s) (dec_buf s) (bs_hdr s) z (upload s)
    (image_max_sizes s) (bs_entry s) (bs_rearm_ms s) (bs_rearm_pending s) (bs_rearm_seen s).
Definition set_upload (s : serial) (u : upload_state) : serial :=
  Serial (in_buf s) (dec_buf s) (bs_hdr s) (cbor_state s) u
    (image_max_sizes s) (bs_entry s) (bs_rearm_ms s) (bs_rearm_pending s) (bs_rearm_seen s).
Definition set_max_sizes (s : serial) (l : list (option Z)) : serial :=
  Serial (in_buf s) (dec_buf s) (bs_hdr s) (cbor_state s) (upload s)
    l (bs_entry s) (bs_rearm_ms s) (bs_rearm_pending s) (bs_rearm_seen s).
Definition set_entry (s : serial) (b : bool) : serial :=
  Serial (in_buf s) (dec_buf s) (bs_hdr s) (cbor_state s) (upload s)
    (image_max_sizes s) b (bs_rearm_ms s) (bs_rearm_pending s) (bs_rearm_seen s).
Definition set_rearm (s : serial) (ms : Z) (pending seen : bool) : serial :=
  Serial (in_buf s) (dec_buf s) (bs_hdr s) (cbor_state s) (upload s)
    (image_max_sizes s) (bs_entry s) ms pending seen.

Definition set_curr_off (u : upload_state) (x : Z) : upload_state :=
  UploadState (img_size u) x (img_num u) (not_yet_erased u) (status_sector u) (up_start_off u).
Definition set_img_size (u : upload_state) (x : Z) : upload_state :=
  UploadState x (curr_off u) (img_num u) (not_yet_erased u) (status_sector u) (up_start_off u).
Definition set_img_num (u : upload_state) (x : Z) : upload_state :=
  UploadState (img_size u) (curr_off u) x (not_yet_erased u) (status_sector u) (up_start_off u).
Definition set_not_yet_erased (u : upload_state) (x : Z) : upload_state :=
  UploadState (img_size u) (curr_off u) (img_num u) x (status_sector u) (up_start_off u).
Definition set_status_sector (u : upload_state) (x : flash_sector) : upload_state :=
  UploadState (img_size u) (curr_off u) (img_num u) (not_yet_erased u) x (up_start_off u).
Definition set_up_start_off (u : upload_state) (x : Z) : upload_state :=
  UploadState (img_size u) (curr_off u) (img_num u) (not_yet_erased u) (status_sector u) x.

(** ** Effects *)

(** The world of the handlers: that of the platform and the static variables. *)
Section Lift.
  Context {W : Type}.

Abbreviation SM A := (M (W * serial) A).

Definition map_outcome {A B} (f : A → B) (r : outcome A) : outcome B :=
  match r with
  | Ret a => Ret (f a)
  | Reset => Reset
  | Abort => Abort
  | Fault => Fault
  | Diverge => Diverge
  end.

Definition platform {A} (c : M W A) : SM A := λ ws, let '(r, w) := c ws.1 in (r, (w, ws.2)).
Definition get_serial : SM serial := λ ws, (Ret ws.2, ws).
Definition modify (f : serial → serial) : SM unit := λ ws, (Ret (), (ws.1, f ws.2)).

(** An encoder run on the response; whether it succeeded. *)
Definition encode (c : ZM unit) : SM bool := λ ws,
  let '(r, z) := c (cbor_state ws.2) in
  (map_outcome (λ o, if o is Some _ then true else false) r, (ws.1, set_cbor ws.2 z)).

(** A decoder run on a payload. *)
Definition decode {A} (b : list Z) (c : M zcbor_state A) (n_states : Z) : SM A := λ ws,
  ((c (zcbor_new_state b n_states 1)).1, ws).

(** Encoders whose result is not looked at. *)
Fixpoint puts (l : list (ZM unit)) : SM unit :=
  match l with
  | [] => mret ()
  | c :: l => encode c;; puts l
  end.

Definition upload_get : SM upload_state := λ ws, (Ret (upload ws.2), ws).
Definition upload_set (f : upload_state → upload_state) : SM unit := modify (λ s, set_upload s (f (upload s))).

End Lift.

Abbreviation SM W A := (M (W * serial) A).

Section Responses.
  Context {W : Type} `{BootConfig} `{ZcborConfig} `{FrameConfig} `{SerialLib} `{SerialConfig} `{Uart W}.

(** ** The response *)

(** [IMAGE_HASH_SIZE] is that of SHA-256 by default; the size of the response buffer
    follows from the enabled commands. *)
Definition BOOT_SERIAL_MAX_MESSAGE_SIZE (hash_size : Z) : Z :=
  let state_size := if MCUBOOT_SERIAL_IMG_GRP_IMAGE_STATE then 48 else 0 in
  let hash_max := if MCUBOOT_SERIAL_IMG_GRP_HASH then hash_size + 4 else 0 in
  let slot_info := if MCUBOOT_SERIAL_IMG_GRP_SLOT_INFO then 164 else 0 in
  if slot_info <? 128 + state_size + hash_max then 128 + state_size + hash_max else slot_info.

Definition BOOT_SERIAL_OUT_MAX (hash_size : Z) : Z := BOOT_SERIAL_MAX_MESSAGE_SIZE hash_size * BOOT_IMAGE_NUMBER.

Definition CBOR_EXTRA_STATES : Z := if ZCBOR_CANONICAL then 3 else 0.

Definition reset_cbor_state : SM W unit :=
  modify (λ s, set_cbor s (zcbor_new_state (buffer (cbor_state s)) (2 + CBOR_EXTRA_STATES) 0)).

(** The buffer that holds the message. *)
Definition msg_buf (s : serial) : list Z := match bs_hdr s with InBuf => in_buf s | DecBuf => dec_buf s end.
Definition set_msg_buf (s : serial) (b : list Z) : serial :=
  match bs_hdr s with InBuf => set_in_buf s b | DecBuf => set_dec_buf s b end.

Definition get_hdr (s : serial) : nmgr_hdr := hdr_of_bytes (slice (msg_buf s) (place_off (bs_hdr s)) NMGR_HDR_SIZE).
Definition put_hdr (s : serial) (h : nmgr_hdr) : serial :=
  set_msg_buf s (splice (msg_buf s) (place_off (bs_hdr s)) (bytes_of_hdr h)).

(** [boot_serial_output]: the header is changed in place; the bytes are written to the
    UART, in lines or, with the raw protocol, as they are. *)
Definition serial_output : SM W unit :=
  s ← get_serial;
  let data := slice (buffer (cbor_state s)) 0 (payload (pos (cbor_state s))) in
  let '(h, out) := boot_serial_output (get_hdr s) data in
  modify (λ s, put_hdr s h);;
  platform (uart_write (if MCUBOOT_SERIAL_RAW_PROTOCOL then bytes_of_hdr h ++ data else out)).

Definition zcbor_tstr_put_lit (s : string) : ZM unit := zcbor_tstr_encode_ptr (lit s).

Definition bs_rc_rsp (rc_code : Z) : SM W unit :=
  puts [zcbor_map_start_encode 10; zcbor_tstr_put_lit "rc"; zcbor_int32_put rc_code; zcbor_map_end_encode 10];;
  serial_output.

(** ** Areas *)

(** flash_map_extended.c. *)
Definition flash_area_id_from_multi_image_slot (image_index slot : Z) : Z :=
  if slot =? 0 then FLASH_AREA_IMAGE_PRIMARY image_index
  else if (slot =? 1) && negb (uses SINGLE_APPLICATION_SLOT) then FLASH_AREA_IMAGE_SECONDARY image_index
  else - EINVAL.

Definition flash_area_id_from_direct_image (image_id : Z) : Z :=
  if (0 <=? image_id) && (image_id <=? 16) then
    match slot_partition (Z.max 0 (image_id - 1)) with
    | Some id => id
    | None => - EINVAL
    end
  else - EINVAL.

End Responses.

Section Upload.
  Context {W : Type} `{FlashMap W} `{FlashSectors W} `{BootConfig} `{ZcborConfig} `{FrameConfig} `{SerialLib} `{SerialConfig} `{Uart W}.

(** ** Upload *)

Definition BOOT_IMAGE_HAS_STATUS_FIELDS : bool :=
  negb (uses SINGLE_APPLICATION_SLOT || uses FIRMWARE_LOADER || uses SINGLE_APPLICATION_SLOT_RAM_LOAD).

(** Offsets are signed; the comparison with the size of the area is unsigned. *)
Definition erase_range (fap : flash_area) (start end_ : Z) : M W Z :=
  if fa_size fap <=? u32 end_ then mret (- EINVAL) else
  if end_ <? start then mret start else
  '(rc, sect) ← flash_area_get_sector fap end_;
  if negb (rc =? 0) then mret (- EINVAL) else
  let size := u32 (fs_off sect + fs_size sect - start) in
  rc ← boot_erase_region fap (u32 start) size false;
  mret (if negb (rc =? 0) then - EINVAL else s32 (start + size)).

(** The map of an upload request. *)
Definition image_upload_decode : list zcbor_map_decode_key_val :=
  [KeyVal (lit "image") (as_uint zcbor_uint32_decode) None;
   KeyVal (lit "data") (as_string zcbor_bstr_decode) None;
   KeyVal (lit "len") (as_uint zcbor_size_decode) None;
   KeyVal (lit "off") (as_uint zcbor_size_decode) None].

(** The variables the decoder has filled in, by their place in the map. *)
Definition uint_at (map : list zcbor_map_decode_key_val) (i : nat) (default : Z) : Z :=
  match map !! i with
  | Some (KeyVal _ _ (Some (VUint n))) => n
  | _ => default
  end.
Definition string_at (map : list zcbor_map_decode_key_val) (i : nat) : option zcbor_string :=
  match map !! i with
  | Some (KeyVal _ _ (Some (VString s))) => Some s
  | _ => None
  end.
Definition bool_at (map : list zcbor_map_decode_key_val) (i : nat) (default : bool) : bool :=
  match map !! i with
  | Some (KeyVal _ _ (Some (VBool b))) => b
  | _ => default
  end.

Definition decode_map (b : list Z) (map : list zcbor_map_decode_key_val) : SM W (Z * list zcbor_map_decode_key_val * Z) :=
  decode b (zcbor_map_decode_bulk map 0) (4 + CBOR_EXTRA_STATES).

(** Where the image starts in the slot: swap-using-offset leaves the first sector of a
    secondary slot free.  [inr] leaves the handler with the return code, [inl] goes on
    with the return code of the last call. *)
Definition upload_start_off (fap : flash_area) (rc : Z) : SM W (Z + Z) :=
  if negb (uses SWAP_USING_OFFSET && MCUBOOT_SERIAL_DIRECT_IMAGE_UPLOAD) then mret (inl rc) else
  u ← upload_get;
  if (0 <? img_num u) && (img_num u mod 2 =? 0) then
    if negb (MCUBOOT_LOGICAL_SECTOR_SIZE =? 0) then
      upload_set (λ u, set_up_start_off u MCUBOOT_LOGICAL_SECTOR_SIZE);; mret (inl rc)
    else
      '(rc, sectors) ← platform (flash_area_get_sectors (fa_id fap) 1);
      match sectors with
      | [sector] =>
          if negb (rc =? 0) && negb (rc =? - ENOMEM) then mret (inr MGMT_ERR_ENOENT)
          else upload_set (λ u, set_up_start_off u (fs_size sector));; mret (inl rc)
      | _ => mret (inr MGMT_ERR_ENOENT)
      end
  else upload_set (λ u, set_up_start_off u 0);; mret (inl rc).

(** The first chunk starts the upload over. *)
Definition upload_first (fap : flash_area) (img_size_tmp : Z) : SM W (Z + Z) :=
  let area_size := fa_size fap in
  upload_set (λ u, set_curr_off u 0);;
  rc ← (if MCUBOOT_ERASE_PROGRESSIVELY && BOOT_IMAGE_HAS_STATUS_FIELDS then
          off ← platform (boot_status_off fap);
          '(rc, sector) ← platform (flash_area_get_sector fap off);
          if negb (rc =? 0) then mret rc else
          upload_set (λ u, set_status_sector u sector);; mret 0
        else mret 0);
  if negb (rc =? 0) then mret (inr MGMT_ERR_EUNKNOWN) else
  let limit := if MCUBOOT_VALIDATE_PRIMARY_SLOT_ONCE then area_size ⊖ BOOT_MAGIC_SZ else area_size in
  if limit <? img_size_tmp then mret (inr MGMT_ERR_EINVAL) else
  rc ← (if negb MCUBOOT_ERASE_PROGRESSIVELY then platform (boot_erase_region fap 0 area_size false)
        else upload_set (λ u, set_not_yet_erased u 0);; mret 0);
  if negb (rc =? 0) then mret (inr MGMT_ERR_EINVAL) else
  upload_set (λ u, set_img_size u img_size_tmp);;
  upload_start_off fap rc.

(** A further chunk must continue at the current offset and stay within the image; one
    with another offset is answered with the offset expected. *)
Definition upload_next (off len : Z) : SM W (Z + Z) :=
  u ← upload_get;
  mret (if negb (off =? curr_off u) then inr 0
        else if img_size u <? curr_off u ⊕ len then inr MGMT_ERR_EINVAL
        else inl 0).

Definition start_off (u : upload_state) : Z := if uses SWAP_USING_OFFSET then up_start_off u else 0.

(** Erasing as far as the chunk needs it. *)
Definition upload_erase (fap : flash_area) (len : Z) : SM W bool :=
  if negb MCUBOOT_ERASE_PROGRESSIVELY then mret true else
  u ← upload_get;
  e ← platform (erase_range fap (not_yet_erased u) (s32 (curr_off u ⊕ len ⊖ 1 ⊕ start_off u)));
  upload_set (λ u, set_not_yet_erased u e);;
  mret (0 <=? e).

(** One write through the aligned buffer; the loop variables are the chunk from
    [img_chunk] on, [img_chunk_len], [write_size] and [rc].  A failure leaves the
    handler. *)
Definition write_unaligned_step (fap : flash_area) (s : list Z * Z * Z * Z) : SM W (list Z * Z * Z * Z + (list Z * Z * Z + Z)) :=
  let '(chunk, len, write_size, rc) := s in
  if len <? flash_area_align fap then mret (inr (inl (chunk, len, rc))) else
  let write_size := if len <? write_size then len else write_size in
  u ← upload_get;
  rc ← platform (flash_area_write fap (curr_off u ⊕ start_off u) (slice chunk 0 write_size));
  if negb (rc =? 0) then mret (inr (inr rc)) else
  upload_set (λ u, set_curr_off u (curr_off u ⊕ write_size));;
  mret (inl (drop (Z.to_nat write_size) chunk, len - write_size, write_size, rc)).

(** The aligned part of the chunk, [len] bytes; [addr] is the address of the chunk. *)
Definition write_chunk (fap : flash_area) (addr : Z) (chunk : list Z) (len rc : Z) : SM W (list Z * Z * Z + Z) :=
  let align := flash_area_align fap in
  if (0 <? MCUBOOT_SERIAL_UNALIGNED_BUFFER_SIZE) && (1 <? align) && negb (Z.land addr (align - 1) =? 0) then
    loop (S (Z.to_nat len)) (write_unaligned_step fap) (chunk, len, MCUBOOT_SERIAL_UNALIGNED_BUFFER_SIZE, rc)
  else
    u ← upload_get;
    rc ← platform (flash_area_write fap (curr_off u ⊕ start_off u) (slice chunk 0 len));
    mret (inl (chunk, len, rc)).

(** The bytes behind the aligned part, padded; only for the end of the image. *)
Definition write_tail (fap : flash_area) (chunk : list Z) (len rem_bytes : Z) : SM W Z :=
  let align := flash_area_align fap in
  if (BOOT_MAX_ALIGN <? align) || (BOOT_MAX_ALIGN <? rem_bytes) then fault else
  u ← upload_get;
  let wbs_aligned := splice (replicate (Z.to_nat BOOT_MAX_ALIGN) (flash_area_erased_val fap)) 0 (slice chunk len rem_bytes) in
  platform (flash_area_write fap (curr_off u ⊕ len ⊕ start_off u) (slice wbs_aligned 0 align)).

(** The end of the upload: the sector of the trailer is erased. *)
Definition upload_finish (fap : flash_area) : SM W Z :=
  if negb (MCUBOOT_ERASE_PROGRESSIVELY && BOOT_IMAGE_HAS_STATUS_FIELDS) then mret 0 else
  u ← upload_get;
  let start := s32 (fs_off (status_sector u)) in
  e ← platform (erase_range fap start start);
  mret (if e <? 0 then MGMT_ERR_EUNKNOWN else 0).

(** Writing a chunk; [rc] is the return code so far. *)
Definition upload_write (fap : flash_area) (addr : Z) (chunk : list Z) (rc : Z) : SM W Z :=
  let align := flash_area_align fap in
  if align =? 0 then fault else
  let rem_bytes := zlen chunk mod align in
  let len := zlen chunk - rem_bytes in
  u ← upload_get;
  let rem_bytes := if curr_off u ⊕ len ⊕ rem_bytes <? img_size u then 0 else rem_bytes in
  r ← write_chunk fap addr chunk len rc;
  match r with
  | inr rc => mret rc
  | inl (chunk, len, rc) =>
      rc ← (if (rc =? 0) && negb (rem_bytes =? 0) then write_tail fap chunk len rem_bytes else mret rc);
      if negb (rc =? 0) then mret MGMT_ERR_EINVAL else
      upload_set (λ u, set_curr_off u (curr_off u ⊕ (len + rem_bytes)));;
      u ← upload_get;
      if curr_off u =? img_size u then upload_finish fap else mret 0
  end.

(** The request of a payload: its offset, chunk, length and image number. *)
Definition upload_area_id (img_num : Z) : Z :=
  if MCUBOOT_SERIAL_DIRECT_IMAGE_UPLOAD then flash_area_id_from_direct_image img_num
  else flash_area_id_from_multi_image_slot img_num 0.

(** A chunk at an offset of an image of a size; [img_num_tmp] and [img_size_tmp] are
    [UINT_MAX] and [SIZE_MAX] when missing. *)
Definition upload_chunk (img_num_tmp : Z) (addr : Z) (chunk : list Z) (img_size_tmp off : Z) : SM W Z :=
  (if off =? 0 then upload_set (λ u, set_img_num u (if img_num_tmp =? UINT32_MAX then 0 else img_num_tmp)) else mret ());;
  u ← upload_get;
  '(rc, fap) ← platform (flash_area_open (upload_area_id (img_num u)));
  if negb (rc =? 0) then mret MGMT_ERR_EINVAL else
  r ← (if off =? 0 then upload_first fap img_size_tmp else upload_next off (zlen chunk));
  match r with
  | inr rc => mret rc
  | inl rc =>
      ok ← upload_erase fap (zlen chunk);
      if negb ok then mret MGMT_ERR_EINVAL else
      upload_write fap addr chunk rc
  end.

(** The request, up to its return code. *)
Definition upload_request (buf : list Z) : SM W Z :=
  '(rc, map, _) ← decode_map buf image_upload_decode;
  if negb (rc =? 0) then mret MGMT_ERR_EINVAL else
  let off := uint_at map 3 SIZE_MAX in
  match string_at map 1 with
  | Some data =>
      if off =? SIZE_MAX then mret MGMT_ERR_EINVAL else
      upload_chunk (uint_at map 0 UINT32_MAX) (payload_addr + str_value data) (slice buf (str_value data) (str_len data))
        (uint_at map 2 SIZE_MAX) off
  | None => mret MGMT_ERR_EINVAL
  end.

Definition bs_upload (buf : list Z) : SM W unit :=
  rc ← upload_request buf;
  u ← upload_get;
  puts ([zcbor_map_start_encode 10; zcbor_tstr_put_lit "rc"; zcbor_int32_put rc] ++
        (if rc =? 0 then [zcbor_tstr_put_lit "off"; zcbor_uint32_put (curr_off u)] else []) ++
        [zcbor_map_end_encode 10]);;
  serial_output.

End Upload.
