(* ===== verification/SerialImages.v ===== *)
(** * Serial recovery: the state of the images

    boot_serial.c: the list of the images with their state, hash and version, the
    request to test or confirm an image, and the description of the slots;
    bootutil_misc.c: the largest image of a slot.  For the modes with two slots;
    [MCUBOOT_USE_SNPRINTF], image encryption and hooks are off. *)

From Stdlib Require Import String.
From S2P Require Import Prelude Effects FlashMap BootConfig Trailer SwapState Area Image Tlv.
From S2P Require Import LoaderState Sectors Validate BootLoop MultiImage Zcbor SerialFrame Serial.

(** ** Version strings *)

(** The largest power of ten that gives a first digit. *)
Fixpoint u32toa_scale (fuel : nat) (val d : Z) : Z :=
  match fuel with
  | O => d
  | S fuel => if 10 <=? val / d then u32toa_scale fuel val (d ⊗ 10) else d
  end.

Fixpoint u32toa_digits (fuel : nat) (val d n : Z) : list Z :=
  match fuel with
  | O => []
  | S fuel =>
      if d =? 0 then [] else
      let dgt := val / d in
      let val := val mod d in
      let d := d / 10 in
      if negb (n =? 0) || (0 <? dgt) || (d =? 0) then (dgt + 48) :: u32toa_digits fuel val d (n + 1)
      else u32toa_digits fuel val d n
  end.

(** A number of 32 bits has at most ten digits. *)
Definition u32toa (val : Z) : list Z := u32toa_digits 11 val (u32toa_scale 10 val 1) 0.

Definition bs_list_img_ver (ver : image_version) : list Z :=
  u32toa (iv_major ver) ++ lit "." ++ u32toa (iv_minor ver) ++ lit "." ++ u32toa (iv_revision ver) ++
  (if negb (iv_build_num ver =? 0) then lit "." ++ u32toa (iv_build_num ver) else []).

(** ** Images *)

Section Images.
  Context {W : Type} `{FlashMap W} `{FlashSectors W} `{BootConfig} `{LoaderConfig}.
  Context `{ValidateConfig} `{Sha} `{Signing} `{Platform W} `{SwapAlgo W}.
  Context `{ZcborConfig} `{FrameConfig} `{SerialLib} `{SerialConfig} `{Uart W}.

(** The state of all images; each entry is that of its image. *)
Definition zero_slot : slot_img :=
  SlotImg (ImageHeader 0 0 0 0 0 0 (ImageVersion 0 0 0 0) 0) (FlashArea 0 0 0 0) [] 0 0.
Definition boot_state_init : list boot_loader_state :=
  (λ i, LoaderState i zero_slot zero_slot (FlashArea 0 0 0 0) [] 0 0 0 0) <$> seqZ 0 BOOT_IMAGE_NUMBER.

Definition open_all_step (i : Z) (l : list boot_loader_state) : M W (list boot_loader_state + Empty_set) :=
  state ← array_get l i;
  state ← boot_open_all_flash_areas state;
  mret (inl (<[Z.to_nat i := state]> l)).

Definition open_all (l : list boot_loader_state) : M W (list boot_loader_state) :=
  r ← IMAGES_ITER open_all_step l;
  mret (match r with inl l => l | inr e => match e : Empty_set with end end).

(** One entry of the search for the hash; the loop variable is the iterator. *)
Definition get_hash_step (fap : flash_area) (it : image_tlv_iter) : M W (image_tlv_iter + option (list Z)) :=
  '(r, it) ← bootutil_tlv_iter_next it;
  match r with
  | TlvError => mret (inr None)
  | TlvNone => mret (inr None)
  | TlvFound off len type =>
      if type =? EXPECTED_HASH_TLV then
        if negb (len =? IMAGE_HASH_SIZE) then mret (inr None) else
        '(rc, hash) ← flash_area_read fap off len;
        mret (inr (if negb (rc =? 0) then None else Some hash))
      else mret (inl it)
  end.

(** [None] is the return value [-1].  Every entry takes at least four bytes. *)
Definition boot_serial_get_hash (hdr : image_header) (fap : flash_area) (start_off : Z) : M W (option (list Z)) :=
  o ← bootutil_tlv_iter_begin start_off hdr fap IMAGE_TLV_ANY false;
  match o with
  | None => mret None
  | Some it => loop (S (Z.to_nat (it_tlv_end it - it_tlv_off it))) (get_hash_step fap) it
  end.

(** Where the image of a slot starts, with the state that records it. *)
Definition slot_start (state : boot_loader_state) (slot swap_status : Z) : M W (Z * boot_loader_state) :=
  if uses SWAP_USING_OFFSET && (slot =? BOOT_SLOT_SECONDARY) && negb (swap_status =? BOOT_SWAP_TYPE_REVERT) then
    off ← boot_img_sector_size state slot 0;
    mret (off, set_secondary_offset state off)
  else mret (0, state).

(** What a slot is said to be: confirmed, active, pending, permanent. *)
Definition slot_flags (swap_status slot : Z) : bool * bool * bool * bool :=
  let primary := slot =? BOOT_SLOT_PRIMARY in
  if swap_status =? BOOT_SWAP_TYPE_NONE then (primary, primary, false, false)
  else if swap_status =? BOOT_SWAP_TYPE_TEST then (primary, false, negb primary, false)
  else if swap_status =? BOOT_SWAP_TYPE_PERM then (primary, false, negb primary, negb primary)
  else if swap_status =? BOOT_SWAP_TYPE_REVERT then (negb primary, primary, false, false)
  else (false, false, false, false).

Definition put_flag (b : bool) (name : string) : list (ZM unit) :=
  if b then [zcbor_tstr_put_lit name; zcbor_bool_put true] else [].

Definition state_flags (hdr : image_header) (swap_status slot : Z) : list (ZM unit) :=
  let '(confirmed, active, pending, permanent) := slot_flags swap_status slot in
  put_flag (Z.land (ih_flags hdr) IMAGE_F_NON_BOOTABLE =? 0) "bootable" ++ put_flag confirmed "confirmed" ++
  put_flag active "active" ++ put_flag pending "pending" ++ put_flag permanent "permanent".

(** The entry of a slot in the list. *)
Definition slot_entry (image_index slot swap_status : Z) (hdr : image_header) (hash : option (list Z)) : list (ZM unit) :=
  [zcbor_map_start_encode 20] ++
  (if 1 <? BOOT_IMAGE_NUMBER then [zcbor_tstr_put_lit "image"; zcbor_uint32_put image_index] else []) ++
  (if MCUBOOT_SERIAL_IMG_GRP_IMAGE_STATE then state_flags hdr swap_status slot else []) ++
  [zcbor_tstr_put_lit "slot"; zcbor_uint32_put slot] ++
  (if hash is Some h then [zcbor_tstr_put_lit "hash"; zcbor_bstr_encode_ptr h] else []) ++
  [zcbor_tstr_put_lit "version"; zcbor_tstr_encode_ptr (bs_list_img_ver (ih_ver hdr)); zcbor_map_end_encode 20].

(** One slot; the loop variable is the state of the image.  The return code of the read
    is not looked at. *)
Definition list_slot_step (image_index swap_status slot : Z) (state : boot_loader_state) : SM W (boot_loader_state + Empty_set) :=
  let fap := BOOT_IMG_AREA state slot in
  '(start_off, state) ← platform (slot_start state slot swap_status);
  '(_, b) ← platform (flash_area_read fap start_off IMAGE_HEADER_SIZE);
  let hdr := header_of_bytes b in
  fih_rc ← (if ih_magic hdr =? IMAGE_MAGIC then
              '(r, _) ← platform (bootutil_img_validate state hdr fap 64 []); mret r
            else mret FIH_FAILURE);
  if negb (FIH_EQ fih_rc FIH_SUCCESS) then mret (inl state) else
  hash ← (if MCUBOOT_SERIAL_IMG_GRP_HASH then platform (boot_serial_get_hash hdr fap start_off) else mret None);
  puts (slot_entry image_index slot swap_status hdr hash);;
  mret (inl state).

Definition list_image_step (i : Z) (l : list boot_loader_state) : SM W (list boot_loader_state + Empty_set) :=
  swap_status ← (if MCUBOOT_SERIAL_IMG_GRP_IMAGE_STATE || uses SWAP_USING_OFFSET then platform (boot_swap_type_multi i)
                 else mret 0);
  state ← array_get l i;
  r ← for_images (list_slot_step i swap_status) [BOOT_SLOT_PRIMARY; BOOT_SLOT_SECONDARY] state;
  mret (match r with inl state => inl (<[Z.to_nat i := state]> l) | inr e => match e : Empty_set with end end).

Definition bs_list (l : list boot_loader_state) : SM W unit :=
  puts [zcbor_map_start_encode 1; zcbor_tstr_put_lit "images"; zcbor_list_start_encode 5];;
  IMAGES_ITER list_image_step l;;
  puts [zcbor_list_end_encode 5; zcbor_map_end_encode 1];;
  serial_output.

(** ** Setting the state *)

(** One slot of the search for the image with a hash: [inr] when it is found.  An image
    without magic is not validated. *)
Definition set_slot_step (image_index swap_status : Z) (img_hash : list Z) (slot : Z) (state : boot_loader_state)
  : SM W (boot_loader_state + boot_loader_state) :=
  let fap := BOOT_IMG_AREA state slot in
  '(start_off, state) ← platform (slot_start state slot swap_status);
  '(_, b) ← platform (flash_area_read fap start_off IMAGE_HEADER_SIZE);
  let hdr := header_of_bytes b in
  ok ← (if ih_magic hdr =? IMAGE_MAGIC then
          '(r, _) ← platform (bootutil_img_validate state hdr fap 64 []); mret (FIH_EQ r FIH_SUCCESS)
        else mret true);
  if negb ok then mret (inl state) else
  hash ← platform (boot_serial_get_hash hdr fap start_off);
  mret (if bool_decide (hash = Some img_hash) then inr state else inl state).

(** [inr] gives the image found. *)
Definition set_image_step (img_hash : list Z) (i : Z) (l : list boot_loader_state)
  : SM W (list boot_loader_state + Z * list boot_loader_state) :=
  swap_status ← (if uses SWAP_USING_OFFSET then platform (boot_swap_type_multi i) else mret 0);
  state ← array_get l i;
  r ← for_images (set_slot_step i swap_status img_hash) [BOOT_SLOT_PRIMARY; BOOT_SLOT_SECONDARY] state;
  mret (match r with
        | inl state => inl (<[Z.to_nat i := state]> l)
        | inr state => inr (i, <[Z.to_nat i := state]> l)
        end).

Definition image_set_state_decode : list zcbor_map_decode_key_val :=
  [KeyVal (lit "confirm") (as_bool zcbor_bool_decode) None] ++
  (if MCUBOOT_SERIAL_IMG_GRP_HASH then [KeyVal (lit "hash") (as_string zcbor_bstr_decode) None] else []).

(** The image to set, or an error. *)
Definition set_find (buf : list Z) (map : list zcbor_map_decode_key_val) (l : list boot_loader_state)
  : SM W (Z * list boot_loader_state + Z) :=
  if negb MCUBOOT_SERIAL_IMG_GRP_HASH then mret (inl (0, l)) else
  let '(ZString value len) := default (ZString 0 0) (string_at map 1) in
  if (negb (len =? IMAGE_HASH_SIZE) && negb (len =? 0)) || ((len =? 0) && (1 <? BOOT_IMAGE_NUMBER)) then
    mret (inr MGMT_ERR_EINVAL)
  else if len =? 0 then mret (inl (0, l))
  else
    r ← IMAGES_ITER (set_image_step (slice buf value IMAGE_HASH_SIZE)) l;
    mret (match r with
          | inr found => inl found
          | inl _ => inr MGMT_ERR_ENOENT
          end).

Definition bs_set (l : list boot_loader_state) (buf : list Z) : SM W unit :=
  '(rc, map, _) ← decode_map buf image_set_state_decode;
  r ← (if negb (rc =? 0) then mret (inr MGMT_ERR_EINVAL) else set_find buf map l);
  '(rc, l) ← (match r with
              | inl (image_index, l) =>
                  rc ← platform (boot_set_pending_multi image_index (if bool_at map 0 false then 1 else 0));
                  mret (rc, l)
              | inr rc => mret (rc, l)
              end);
  if rc =? 0 then bs_list l else bs_rc_rsp rc.

(** The sectors of the current image. *)
Definition read_sectors_step (i : Z) (l : list boot_loader_state) : M W (list boot_loader_state + Z) :=
  state ← array_get l i;
  '(rc, state) ← boot_read_sectors MCUBOOT_VERIFY_LOGICAL_SECTORS state;
  mret (if negb (rc =? 0) then inr MGMT_ERR_EUNKNOWN else inl (<[Z.to_nat i := state]> l)).

Definition bs_list_set (op : Z) (buf : list Z) : SM W unit :=
  l ← platform (open_all boot_state_init);
  r ← (if uses DIRECT_XIP || uses RAM_LOAD then mret (inl l) else platform (IMAGES_ITER read_sectors_step l));
  rc ← (match r with
        | inr rc => mret rc
        | inl l =>
            if op =? NMGR_OP_READ then bs_list l;; mret 0
            else if MCUBOOT_SERIAL_IMG_GRP_IMAGE_STATE then bs_set l buf;; mret 0
            else mret MGMT_ERR_ENOTSUP
        end);
  (if negb (rc =? 0) then bs_rc_rsp rc else mret ());;
  reset_cbor_state.

(** ** The slots *)

Definition boot_read_sectors_recovery (state : boot_loader_state) : M W (Z * boot_loader_state) :=
  let image_index := curr_img_idx state in
  '(rc, state) ← boot_initialize_area state (FLASH_AREA_IMAGE_PRIMARY image_index);
  if negb (rc =? 0) then mret (BOOT_EFLASH, state) else
  '(rc, state) ← boot_initialize_area state (FLASH_AREA_IMAGE_SECONDARY image_index);
  mret (if negb (rc =? 0) then BOOT_EFLASH_SEC else 0, state).

(** [max_size] is an [int]. *)
Definition fetch_sizes_step (l : list boot_loader_state) (i : Z) (sizes : list (option Z)) : M W (list (option Z) + Empty_set) :=
  state ← array_get l i;
  '(rc, state) ← boot_read_sectors_recovery state;
  if negb (rc =? 0) then mret (inl sizes) else
  max ← bootutil_max_image_size state (BOOT_IMG_AREA state BOOT_SLOT_PRIMARY);
  mret (inl (if 0 <? s32 max then <[Z.to_nat i := Some max]> sizes else sizes)).

Definition boot_fetch_slot_state_sizes (sizes : list (option Z)) : M W (list (option Z)) :=
  l ← open_all boot_state_init;
  r ← IMAGES_ITER (fetch_sizes_step l) sizes;
  mret (match r with inl sizes => sizes | inr e => match e : Empty_set with end end).

Definition boot_get_max_app_size : SM W (list (option Z)) :=
  s ← get_serial;
  (if existsb (λ o : option Z, if o is Some _ then true else false) (image_max_sizes s) then mret ()
   else
     sizes ← platform (boot_fetch_slot_state_sizes (image_max_sizes s));
     modify (λ s, set_max_sizes s sizes));;
  s ← get_serial;
  mret (image_max_sizes s).

Definition CBOR_ENTRIES_SLOT_INFO_IMAGE_MAP : Z := 4.
Definition CBOR_ENTRIES_SLOT_INFO_SLOTS_MAP : Z := 3.
Definition BOOT_NUM_SLOTS : Z := 2.

(** The image number to upload to a slot with. *)
Definition upload_image_id (image_index slot : Z) : list (ZM unit) :=
  if MCUBOOT_SERIAL_DIRECT_IMAGE_UPLOAD then
    [zcbor_tstr_put_lit "upload_image_id"; zcbor_uint32_put (image_index * 2 + slot + 1)]
  else if uses SINGLE_APPLICATION_SLOT || (slot =? 1) then
    [zcbor_tstr_put_lit "upload_image_id"; zcbor_uint32_put image_index]
  else [].

(** What follows the area of a slot: the end of the slot and, after the last one, of the
    image. *)
Definition slot_info_end (image_index slot : Z) (max : option Z) (rc : Z) (fap : flash_area) : list (ZM unit) :=
  (if negb (rc =? 0) then [zcbor_tstr_put_lit "rc"; zcbor_int32_put rc]
   else [zcbor_tstr_put_lit "size"; zcbor_uint32_put (fa_size fap)] ++ upload_image_id image_index slot) ++
  [zcbor_map_end_encode CBOR_ENTRIES_SLOT_INFO_SLOTS_MAP] ++
  (if slot =? BOOT_NUM_SLOTS - 1 then
     [zcbor_list_end_encode BOOT_NUM_SLOTS] ++
     (if negb (rc =? 0) then []
      else if max is Some m then [zcbor_tstr_put_lit "max_image_size"; zcbor_uint32_put m] else []) ++
     [zcbor_map_end_encode CBOR_ENTRIES_SLOT_INFO_IMAGE_MAP]
   else []).

(** One slot; [inr] is a failure to encode. *)
Definition slot_info_step (sizes : list (option Z)) (image_index slot : Z) (_ : unit) : SM W (unit + unit) :=
  ok ← encode (all_ok
    ((if slot =? 0 then
        [zcbor_map_start_encode CBOR_ENTRIES_SLOT_INFO_IMAGE_MAP; zcbor_tstr_put_lit "image"; zcbor_uint32_put image_index;
         zcbor_tstr_put_lit "slots"; zcbor_list_start_encode BOOT_NUM_SLOTS]
      else []) ++
     [zcbor_map_start_encode CBOR_ENTRIES_SLOT_INFO_SLOTS_MAP; zcbor_tstr_put_lit "slot"; zcbor_uint32_put slot]));
  if negb ok then mret (inr ()) else
  '(rc, fap) ← platform (flash_area_open (flash_area_id_from_multi_image_slot image_index slot));
  max ← array_get sizes image_index;
  ok ← encode (all_ok (slot_info_end image_index slot max rc fap));
  mret (if ok : bool then inl () else inr ()).

Definition slot_info_image (sizes : list (option Z)) (image_index : Z) (_ : unit) : SM W (unit + unit) :=
  for_images (slot_info_step sizes image_index) [0; 1] ().

(** A request that does not read is answered with an error and with the slots, and a
    response that does not fit with an error and once more. *)
Definition bs_slot_info (op : Z) (buf : list Z) : SM W unit :=
  (if negb (op =? NMGR_OP_READ) then bs_rc_rsp MGMT_ERR_ENOTSUP else mret ());;
  sizes ← boot_get_max_app_size;
  puts [zcbor_map_start_encode 1; zcbor_tstr_put_lit "images"; zcbor_list_start_encode BOOT_IMAGE_NUMBER];;
  r ← (IMAGES_ITER (slot_info_image sizes) () : SM W (unit + unit));
  ok ← (match r with
        | inl _ => encode (all_ok [zcbor_list_end_encode BOOT_IMAGE_NUMBER; zcbor_map_end_encode 1])
        | inr _ => mret false
        end);
  (if negb ok then reset_cbor_state;; bs_rc_rsp MGMT_ERR_ENOMEM else mret ());;
  serial_output.

End Images.
