(* ===== verification/SerialUpload.v ===== *)
(** * Uploading an image over the serial line

    [bs_upload] of boot_serial.c: a client sends an image in chunks, each with its offset,
    and goes on at the offset of the response.  Chunks may be lost, repeated or sent out
    of order; the handler takes those at the offset it expects, and the bytes in the slot
    are always those of the image. *)

From S2P Require Import Prelude Effects FlashMap BootConfig Trailer Area AreaProps LoaderState Sectors Zcbor SerialFrame Serial.

#[local] Set Default Proof Using "Type*".

(** ** Lifting *)

Section Lifting.
  Context {W : Type}.
  Implicit Types (w : W) (s : serial).

Lemma wp_platform {A} (c : M W A) (Q : A → W * serial → Prop) C w s :
  wp c (λ a w', Q a (w', s)) (λ w', C (w', s)) w → wp (platform c) Q C (w, s).
Proof. unfold wp, platform. cbn [fst snd]. by destruct (c w) as [[] w']. Qed.

Lemma wp_upload_get {A} (k : upload_state → SM W A) Q C w s :
  wp (k (upload s)) Q C (w, s) → wp (upload_get ≫= k) Q C (w, s).
Proof. done. Qed.

Lemma wp_upload_set {A} f (k : unit → SM W A) Q C w s :
  wp (k ()) Q C (w, set_upload s (f (upload s))) → wp (upload_set f ≫= k) Q C (w, s).
Proof. done. Qed.

Lemma set_upload_twice s u u' : set_upload (set_upload s u) u' = set_upload s u'.
Proof. done. Qed.

Lemma set_upload_id s : set_upload s (upload s) = s.
Proof. by destruct s. Qed.
End Lifting.

Lemma s32_small x : 0 <= x < 2147483648 → s32 x = x.
Proof. intros. unfold s32. rewrite u32_small by (unfold is_u32; lia). by rewrite (proj2 (Z.ltb_lt _ _)) by lia. Qed.

(** ** Flash *)

Section Upload.
  Context {W : Type} `{FlashMapOk W} `{BootConfig} (fap : flash_area).
  Hypothesis Ha : fm_area fap.
  Hypothesis Hbig : Forall (λ n, 1 < n) (fm_sizes fap).
  Hypothesis Hre : device_requires_erase fap = true.
  Variable img : list Z.
  Hypothesis Himg : Forall is_u8 img.
  Hypothesis Hfits : zlen img <= fa_size fap.
  Variable w0 : W.
  Implicit Types (w : W) (c lim n : Z).

#[local] Abbreviation so k := (sector_off (fm_sizes fap) k).
#[local] Abbreviation align := (flash_area_align fap).

(** Nothing but the slot has changed since [w0]. *)
Definition only_slot w : Prop :=
  fm_ok w ∧ ∀ fa', fm_area fa' → fa' ≠ fap → fm_cells w fa' = fm_cells w0 fa'.

(** The first [c] bytes of the image are in the slot. *)
Definition has_prefix w c : Prop := slice (vals (fm_cells w fap)) 0 c = slice img 0 c.

(** A multiple of the write alignment. *)
Definition aligned n : Prop := n mod align = 0.

(** The cells from [c] up to [lim] are erased. *)
Record ready w c lim : Prop := {
  rd_only : only_slot w;
  rd_align : aligned c;
  rd_range : 0 <= c ∧ c <= lim ∧ lim <= fa_size fap;
  rd_sector : ∃ i, (i <= length (fm_sizes fap))%nat ∧ lim = so i;
  rd_fresh : all_fresh (slice (fm_cells w fap) c (lim - c));
  rd_prefix : has_prefix w c;
}.

Lemma align_bounds : 1 <= align <= 32.
Proof using Ha.
  destruct (fm_align fap Ha) as (k & Hk & ->). assert (2 ^ 0 <= 2 ^ k <= 2 ^ 5) by (split; apply Z.pow_le_mono_r; lia). lia.
Qed.

Lemma aligned_add a b : aligned a → aligned b → aligned (a + b).
Proof using Ha. pose proof align_bounds. unfold aligned. intros Hx Hy. rewrite Z.add_mod, Hx, Hy by lia. done. Qed.

Lemma aligned_sub a b : aligned a → aligned b → aligned (a - b).
Proof using Ha. pose proof align_bounds. unfold aligned. intros Hx Hy. rewrite Zminus_mod, Hx, Hy, Z.mod_0_l by lia. done. Qed.

Lemma aligned_small a : 0 <= a < align → aligned a → a = 0.
Proof using Type. unfold aligned. intros Ha'. by rewrite Z.mod_small. Qed.

Lemma aligned_down a : aligned (a - a mod align).
Proof using Ha.
  pose proof align_bounds. unfold aligned. rewrite Zminus_mod, Z.mod_mod, Z.sub_diag, Z.mod_0_l by lia. done.
Qed.

Lemma so_aligned i : aligned (so i).
Proof using Ha.
  unfold aligned. pose proof align_bounds. pose proof (fm_align_sectors fap Ha) as Hs. unfold sector_off.
  apply (Forall_take _ i) in Hs. revert Hs. generalize (take i (fm_sizes fap)). intros l. induction l as [|n l IH]; [done|].
  intros [Hn Hl]%Forall_cons_1. change (zsum (n :: l)) with (n + zsum l). rewrite Z.add_mod, Hn, IH by (done || lia). done.
Qed.

Lemma only_slot_trans w w' :
  only_slot w → fm_ok w' → (∀ fa', fm_area fa' → fa' ≠ fap → fm_cells w' fa' = fm_cells w fa') → only_slot w'.
Proof using Type. intros [_ Hw] Hok Hw'. split; [done|]. intros fa' Hf Hne. rewrite Hw' by done. by apply Hw. Qed.

(** Sectors from a boundary on are erased as far as the offset [e] needs it. *)
Lemma erase_range_wp w start e i :
  only_slot w → start = so i → (i <= length (fm_sizes fap))%nat → 0 <= e < fa_size fap →
  wp (erase_range fap start e)
    (λ r w', only_slot w' ∧ start <= r ∧ e < r ∧ (∃ j, (j <= length (fm_sizes fap))%nat ∧ r = so j) ∧
       fm_cells w' fap = splice (fm_cells w fap) start (erased (flash_area_erased_val fap) (r - start)))
    only_slot w.
Proof using Ha Hbig Hre.
  intros Hw -> Hi He. destruct Hw as [Hok Hrest] eqn:Hw'. clear Hw'. pose proof (size_bound fap Ha). pose proof (so_bounds fap Ha i Hi).
  unfold erase_range. rewrite (u32_small e) by (unfold is_u32; lia). rewrite (proj2 (Z.leb_gt _ _)) by lia.
  destruct (e <? so i) eqn:Hes; zsimp.
  - apply wp_ret. split; [done|]. split; [lia|]. split; [lia|]. split; [by exists i|].
    rewrite Z.sub_diag. symmetry. apply (splice_nil (A := cell)). lia.
  - destruct (sector_of w fap e Hok Ha He) as [j Hj]. pose proof (in_sector_S _ _ _ Hj). pose proof (in_sector_length _ _ _ Hj).
    pose proof (so_bounds fap Ha (S j) ltac:(lia)). apply wp_bind. eapply wp_pure; [by eapply get_sector_in|].
    cbn [Z.eqb negb fs_off fs_size]. replace (so j + (so (S j) - so j) - so i) with (so (S j) - so i) by lia.
    rewrite !u32_small by (unfold is_u32; lia).
    assert (Hilt : (i < length (fm_sizes fap))%nat).
    { destruct (decide (i = length (fm_sizes fap))) as [Heq|]; [|lia]. rewrite Heq, (proj2 (fm_sizes_ok fap Ha)) in *. lia. }
    assert (Hin : in_sector (fm_sizes fap) i (so i)).
    { apply in_sector_at; [done|]. pose proof (so_step fap Hbig i Hilt). lia. }
    assert (Hin' : in_sector (fm_sizes fap) j (so i + (so (S j) - so i) - 1)).
    { apply in_sector_at; [done|]. lia. }
    apply wp_bind. eapply wp_mono; [apply (erase_region_wp w fap (so i) (so (S j) - so i) false i j); try done; lia| |].
    + intros rc w' [-> (Hok' & Hc' & Hrest')]. cbn [Z.eqb negb]. apply wp_ret.
      replace (so i + (so (S j) - so i)) with (so (S j)) by lia. rewrite s32_small by lia.
      split; [by apply (only_slot_trans w)|]. split; [lia|]. split; [lia|]. split; [exists (S j); split; [lia|done]|]. done.
    + intros w' (k & l & _ & _ & _ & Hok' & _ & Hrest'). by apply (only_slot_trans w).
Qed.

(** More of the slot becomes ready. *)
Lemma ready_erase w c lim e :
  ready w c lim → 0 <= e < fa_size fap → c <= e →
  wp (erase_range fap lim e) (λ r w', ready w' c r ∧ e < r ∧ 0 <= r) only_slot w.
Proof using Ha Hbig Hre.
  intros [Hw Hal (H0c & Hcl & Hls) (i & Hi & ->) Hfr Hpre] He Hce. destruct (Hw) as [Hok _].
  pose proof (fm_len w fap Hok Ha) as Hlen.
  eapply wp_mono; [by apply (erase_range_wp w (so i) e i)| |done].
  intros r w' (Hw' & Hir & Her & (j & Hj & ->) & Hc). pose proof (so_bounds fap Ha j Hj).
  set (ev := flash_area_erased_val fap) in *.
  assert (Hze : zlen (erased ev (so j - so i)) = so j - so i) by (apply zlen_erased; lia).
  split; [|lia]. split; [done|done|lia|by exists j| |].
  - rewrite Hc. replace (so j - c) with ((so i - c) + (so j - so i)) by lia. rewrite slice_app_split by lia.
    apply Forall_app. split.
    + rewrite slice_splice_disj by (rewrite ?Hze; lia). done.
    + replace (c + (so i - c)) with (so i) by lia. rewrite slice_splice_eq by (rewrite ?Hze; lia). apply all_fresh_erased.
  - unfold has_prefix. rewrite Hc, vals_splice, slice_splice_disj; [done|lia| |lia|left; lia].
    rewrite zlen_vals, zlen_vals, Hze. lia.
Qed.

(** A write at the expected offset extends the image. *)
Lemma ready_write w c lim n :
  ready w c lim → 0 <= n → aligned n → c + n <= lim → c + n <= zlen img →
  wp (flash_area_write fap c (slice img c n)) (λ rc w', rc = 0 ∧ ready w' (c + n) lim) only_slot w.
Proof using Ha Himg Hfits.
  intros [Hw Hal (H0c & Hcl & Hls) Hi Hfr Hpre] Hn Hm Hcn Hci. pose proof align_bounds. destruct (Hw) as [Hok _].
  pose proof (fm_len w fap Hok Ha) as Hlen.
  assert (Hzd : zlen (slice img c n) = n) by (rewrite zlen_slice; lia).
  eapply wp_mono; [apply fm_write; rewrite ?Hzd; try done; try lia| |].
  - by apply Forall_slice.
  - right. assert (Hs : slice (slice (fm_cells w fap) c (lim - c)) 0 n = slice (fm_cells w fap) c n).
    { rewrite slice_slice by lia. by rewrite Z.add_0_r. }
    rewrite <- Hs. by apply Forall_slice.
  - intros rc w' (-> & Hok' & Hc & Hrest). split; [done|].
    assert (Hzw : zlen (written (slice img c n)) = n) by (by rewrite zlen_written).
    split; [by apply (only_slot_trans w)| |lia|done| |].
    + by apply aligned_add.
    + rewrite Hc, slice_splice_disj by (rewrite ?Hzw; lia).
      assert (Hs : slice (slice (fm_cells w fap) c (lim - c)) n (lim - (c + n)) = slice (fm_cells w fap) (c + n) (lim - (c + n))).
      { by rewrite slice_slice by lia. }
      rewrite <- Hs. by apply Forall_slice.
    + unfold has_prefix. rewrite Hc, vals_splice, vals_written, !(slice_app_split _ 0 c n) by lia. f_equal.
      * rewrite slice_splice_disj; [done|lia|rewrite zlen_vals, Hzd; lia|lia|left; lia].
      * rewrite slice_splice_eq; [done|lia|rewrite zlen_vals, Hzd; lia|lia].
  - intros w' [(Hok' & _ & Hrest)|(Hok' & Hrest)]; apply (only_slot_trans w); try done. intros. by apply Hrest.
Qed.

(** The last bytes, padded to the write alignment, complete it. *)
Lemma ready_tail w c lim pad :
  ready w c lim → c < zlen img <= lim → zlen img - c < align → zlen pad = align - (zlen img - c) → Forall is_u8 pad →
  wp (flash_area_write fap c (slice img c (zlen img - c) ++ pad)) (λ rc w', rc = 0 ∧ only_slot w' ∧ has_prefix w' (zlen img)) only_slot w.
Proof using Ha Himg Hfits.
  intros [Hw Hal (H0c & Hcl & Hls) (i & Hi & Hlim) Hfr Hpre] Hc Hlt Hpad Hpb. pose proof align_bounds. destruct (Hw) as [Hok _].
  pose proof (fm_len w fap Hok Ha) as Hlen. set (n := zlen img - c) in *.
  assert (Hzd : zlen (slice img c n) = n) by (rewrite zlen_slice; lia).
  assert (Hzt : zlen (slice img c n ++ pad) = align) by (rewrite zlen_app; lia).
  assert (Hroom : c + align <= lim) by (apply mult_step; [lia|done|rewrite Hlim; apply so_aligned|lia]).
  eapply wp_mono; [apply fm_write; rewrite ?Hzt; try done; try lia| |].
  - apply Z.mod_same. lia.
  - apply Forall_app. split; [by apply Forall_slice|done].
  - right. assert (Hs : slice (slice (fm_cells w fap) c (lim - c)) 0 align = slice (fm_cells w fap) c align).
    { rewrite slice_slice by lia. by rewrite Z.add_0_r. }
    rewrite <- Hs. by apply Forall_slice.
  - intros rc w' (-> & Hok' & Hcc & Hrest). split; [done|]. split; [by apply (only_slot_trans w)|].
    unfold has_prefix. rewrite Hcc, vals_splice, vals_written. replace (zlen img) with (c + n) by lia.
    rewrite !(slice_app_split _ 0 c n) by lia. f_equal.
    + rewrite slice_splice_disj; [done|lia|rewrite zlen_vals, Hzt; lia|lia|left; lia].
    + rewrite slice_splice_inside by (rewrite ?zlen_vals, ?Hzt; lia). rewrite Z.add_0_l, Z.sub_diag, slice_app_l by lia.
      rewrite <- Hzd at 2. by rewrite slice_full.
  - intros w' [(Hok' & _ & Hrest)|(Hok' & Hrest)]; apply (only_slot_trans w); try done. intros. by apply Hrest.
Qed.

(** ** The handler *)

Context `{FlashSectors W} `{SerialConfig}.

Lemma start_off_0 u : up_start_off u = 0 → start_off u = 0.
Proof using Type. unfold start_off. by destruct (uses SWAP_USING_OFFSET). Qed.

(** With swap-using-offset the images start at the beginning of their slots: it is the
    upload to a chosen slot that leaves a sector free. *)
Hypothesis Hstart : uses SWAP_USING_OFFSET && MCUBOOT_SERIAL_DIRECT_IMAGE_UPLOAD = false.
Hypothesis Halign : align <= BOOT_MAX_ALIGN.
Hypothesis Hunal : 0 <= MCUBOOT_SERIAL_UNALIGNED_BUFFER_SIZE ∧ aligned MCUBOOT_SERIAL_UNALIGNED_BUFFER_SIZE.
Hypothesis Hlimit : zlen img <= (if MCUBOOT_VALIDATE_PRIMARY_SLOT_ONCE then fa_size fap ⊖ BOOT_MAGIC_SZ else fa_size fap).

(** When sectors are erased as needed, the one with the trailer is erased at the end: the
    image lies before it. *)
Definition trailer_behind : Prop :=
  MCUBOOT_ERASE_PROGRESSIVELY && BOOT_IMAGE_HAS_STATUS_FIELDS = true →
  ∃ o k, (∀ w, boot_status_off fap w = (Ret o, w)) ∧ in_sector (fm_sizes fap) k o ∧ zlen img <= so k.
Hypothesis Htrailer : trailer_behind.

(** Up to where the slot is erased. *)
Definition erased_to (u : upload_state) : Z := if MCUBOOT_ERASE_PROGRESSIVELY then not_yet_erased u else fa_size fap.

(** The upload of [img] as image [num] has been started. *)
Definition started (num : Z) (u : upload_state) : Prop :=
  img_size u = zlen img ∧ img_num u = num ∧ up_start_off u = 0 ∧
  (MCUBOOT_ERASE_PROGRESSIVELY && BOOT_IMAGE_HAS_STATUS_FIELDS = true →
   ∃ k, (k < length (fm_sizes fap))%nat ∧ fs_off (status_sector u) = so k ∧ zlen img <= so k).

(** The state of the upload. *)
Record uploading (num : Z) w (u : upload_state) : Prop := {
  un_started : started num u;
  un_range : 0 <= curr_off u <= zlen img;
  un_flash : if curr_off u <? zlen img then ready w (curr_off u) (erased_to u) else only_slot w ∧ has_prefix w (zlen img);
}.

(** Where the next chunk is expected after one of [len] bytes at [off]. *)
Definition next_off (off len : Z) : Z := if off + len <? zlen img then off + (len - len mod align) else zlen img.

Lemma upload_erase_wp w s len :
  let u := upload s in
  up_start_off u = 0 → ready w (curr_off u) (erased_to u) → 0 < len → curr_off u + len <= zlen img →
  wp (upload_erase fap len)
    (λ ok ws, ok = true ∧ ∃ e, ws.2 = set_upload s (set_not_yet_erased u e) ∧
       ready ws.1 (curr_off u) (erased_to (set_not_yet_erased u e)) ∧ curr_off u + len <= erased_to (set_not_yet_erased u e))
    (λ ws, only_slot ws.1) (w, s).
Proof using All.
  intros u Hs Hr Hl Hc. pose proof (size_bound fap Ha). destruct (rd_range _ _ _ Hr) as (Hc0 & ? & ?).
  unfold upload_erase, erased_to in *. destruct MCUBOOT_ERASE_PROGRESSIVELY; cbn [negb].
  - apply wp_upload_get, wp_bind, wp_platform. fold u. rewrite (start_off_0 u Hs).
    rewrite !(u32_small (curr_off u + len)), !(u32_small (curr_off u + len - 1)), Z.add_0_r, u32_small, s32_small
      by (unfold is_u32; rewrite ?u32_small; unfold is_u32; lia).
    eapply wp_mono; [apply (ready_erase w (curr_off u)); [done|lia|lia]| |done].
    intros r w' (Hr' & Hlt & Hpos). apply wp_upload_set, wp_ret. split; [by apply Z.leb_le|].
    exists r. cbn [fst snd not_yet_erased set_not_yet_erased]. split; [done|]. split; [done|lia].
  - apply wp_ret. split; [done|]. exists (not_yet_erased u). cbn [fst snd].
    split; [by destruct s as [? ? ? ? [] ? ? ? ? ?]|]. split; [done|lia].
Qed.

(** One write of the loop through the aligned buffer. *)
Lemma write_unaligned_step_wp w s c lim chunk n m ws :
  let u := upload s in
  up_start_off u = 0 → curr_off u = c + (n - m) → ready w (c + (n - m)) lim → 0 <= c → 0 <= m <= n → n <= zlen chunk →
  aligned n → aligned m → 0 < ws → aligned ws →
  slice chunk 0 n = slice img c n → c + n <= zlen img → c + n <= lim →
  wp (write_unaligned_step fap (drop (Z.to_nat (n - m)) chunk, m, ws, 0))
    (λ r st, match r with
             | inl (chunk', m', ws', rc) => 0 <= m' < m ∧ aligned m' ∧ 0 < ws' ∧ aligned ws' ∧ rc = 0 ∧
                 chunk' = drop (Z.to_nat (n - m')) chunk ∧ st.2 = set_upload s (set_curr_off u (c + (n - m'))) ∧ ready st.1 (c + (n - m')) lim
             | inr (inl (chunk', m', rc)) => m' = 0 ∧ m = 0 ∧ rc = 0 ∧ chunk' = drop (Z.to_nat n) chunk ∧ st = (w, s)
             | inr (inr _) => False
             end) (λ st, only_slot st.1) (w, s).
Proof using All.
  intros u Hs Hcu Hr Hc Hm Hnz Hna Hma Hws Hwsa Heq Hci Hcl. pose proof align_bounds. pose proof (size_bound fap Ha).
  unfold write_unaligned_step. destruct (m <? align) eqn:Hlt; zsimp.
  - apply wp_ret. apply aligned_small in Hma; [|lia]. subst m. rewrite Z.sub_0_r. done.
  - set (k := if m <? ws then m else ws).
    assert (Hk : 0 < k <= m ∧ aligned k) by (unfold k; destruct (m <? ws) eqn:?; zsimp; split; lia || done).
    apply wp_upload_get, wp_bind, wp_platform. fold u. rewrite (start_off_0 u Hs), Hcu.
    rewrite Z.add_0_r, u32_small by (unfold is_u32; lia).
    assert (Hd : slice (drop (Z.to_nat (n - m)) chunk) 0 k = slice img (c + (n - m)) k).
    { assert (Hd : slice (drop (Z.to_nat (n - m)) chunk) 0 k = slice chunk (n - m) k) by done. rewrite Hd.
      assert (Hsl : slice (slice chunk 0 n) (n - m) k = slice chunk (n - m) k) by (by rewrite slice_slice by lia).
      rewrite <- Hsl, Heq. by rewrite slice_slice by lia. }
    rewrite Hd. eapply wp_mono; [apply (ready_write w _ lim); [done|lia|apply Hk|lia|lia]| |done].
    intros rc w' [-> Hr']. cbn [Z.eqb negb]. apply wp_upload_set, wp_ret. fold u. rewrite Hcu, u32_small by (unfold is_u32; lia).
    replace (c + (n - m) + k) with (c + (n - (m - k))) in * by lia. rewrite drop_drop. cbn [fst snd].
    split; [lia|]. split; [apply aligned_sub; [done|apply Hk]|].
    split; [lia|]. split; [apply Hk|]. split; [done|]. split; [f_equal; lia|done].
Qed.

(** The aligned part: written at once, or piece by piece with the offset counted up. *)
Lemma write_chunk_wp w s addr lim chunk n :
  let u := upload s in let c := curr_off u in
  up_start_off u = 0 → ready w c lim → 0 <= n <= zlen chunk → aligned n →
  slice chunk 0 n = slice img c n → c + n <= zlen img → c + n <= lim →
  wp (write_chunk fap addr chunk n 0)
    (λ r st, ∃ m, r = inl (drop (Z.to_nat (n - m)) chunk, m, 0) ∧ 0 <= m <= n ∧
       st.2 = set_upload s (set_curr_off u (c + (n - m))) ∧ ready st.1 (c + n) lim)
    (λ st, only_slot st.1) (w, s).
Proof using All.
  intros u c Hs Hr Hn Hna Heq Hci Hcl. pose proof (size_bound fap Ha). destruct (rd_range _ _ _ Hr) as (Hc0 & _ & _).
  unfold write_chunk. destruct ((0 <? MCUBOOT_SERIAL_UNALIGNED_BUFFER_SIZE) && _ && _) eqn:Hcase.
  - zsimp. set (I := λ (t : list Z * Z * Z * Z) (st : W * serial),
                 let '(chunk', m, ws, rc) := t in
                 chunk' = drop (Z.to_nat (n - m)) chunk ∧ 0 <= m <= n ∧ aligned m ∧ 0 < ws ∧ aligned ws ∧ rc = 0 ∧
                 st.2 = set_upload s (set_curr_off u (c + (n - m))) ∧ ready st.1 (c + (n - m)) lim).
    apply (wp_loop I (λ t, t.1.1.2)).
    + intros [[[chunk' m] ws] rc] [w1 s1] (-> & Hm & Hma & Hws & Hwsa & -> & Hs1 & Hr1). cbn [fst snd] in *. subst s1.
      eapply wp_mono; [apply (write_unaligned_step_wp w1 _ c lim chunk n m ws); try done; lia| |done].
      intros [[[[chunk'' m'] ws'] rc']|[[[chunk'' m'] rc']|rc']] [w2 s2]; [| |done].
      * intros (Hm' & Hma' & Hws' & Hwsa' & -> & -> & Hs2 & Hr2). cbn [fst snd] in *. rewrite Hs2. unfold I. cbn [fst snd].
        split; [|lia]. split; [done|]. split; [lia|done].
      * intros (-> & -> & -> & -> & [= -> ->]). exists 0. rewrite Z.sub_0_r in *. done.
    + unfold I. rewrite Z.sub_diag, Z.add_0_r. cbn [fst snd]. split; [done|]. split; [lia|]. split; [done|]. split; [lia|].
      split; [apply Hunal|]. split; [done|]. split; [by destruct s as [? ? ? ? [] ? ? ? ? ?]|done].
    + cbn. lia.
    + cbn. lia.
  - apply wp_upload_get, wp_bind, wp_platform. fold u. rewrite (start_off_0 u Hs), Z.add_0_r, u32_small by (fold c; unfold is_u32; lia).
    rewrite Heq. eapply wp_mono; [apply (ready_write w c lim n); done || lia| |done].
    intros rc w' [-> Hr']. apply wp_ret. exists n. rewrite Z.sub_diag, Z.add_0_r. cbn [fst snd].
    split; [done|]. split; [lia|]. split; [by destruct s as [? ? ? ? [] ? ? ? ? ?]|done].
Qed.

Lemma write_tail_wp w s lim chunk m rem :
  let u := upload s in let c := curr_off u + m in
  up_start_off u = 0 → ready w c lim → 0 <= curr_off u → 0 <= m → slice chunk m rem = slice img c rem → 0 < rem < align → c + rem = zlen img →
  zlen img <= lim →
  wp (write_tail fap chunk m rem) (λ rc st, rc = 0 ∧ st.2 = s ∧ only_slot st.1 ∧ has_prefix st.1 (zlen img)) (λ st, only_slot st.1) (w, s).
Proof using All.
  intros u c Hs Hr Hc0 Hm Heq Hrem Hend Hlim. pose proof (size_bound fap Ha). pose proof align_bounds.
  unfold write_tail. rewrite !(proj2 (Z.ltb_ge _ _)) by lia. cbn [orb]. apply wp_upload_get, wp_platform. fold u.
  rewrite (start_off_0 u Hs), Z.add_0_r, !u32_small by (unfold is_u32; rewrite ?u32_small; unfold is_u32; lia). fold c. rewrite Heq.
  set (ev := flash_area_erased_val fap). assert (Hzs : zlen (slice img c rem) = rem) by (rewrite zlen_slice; lia).
  assert (Hw : slice (splice (replicate (Z.to_nat BOOT_MAX_ALIGN) ev) 0 (slice img c rem)) 0 align =
               slice img c (zlen img - c) ++ replicate (Z.to_nat (align - rem)) ev).
  { replace (zlen img - c) with rem by lia. replace align with (rem + (align - rem)) at 1 by lia.
    assert (Hzr : zlen (replicate (Z.to_nat BOOT_MAX_ALIGN) ev) = BOOT_MAX_ALIGN) by (rewrite zlen_replicate; lia).
    rewrite slice_app_split by lia. f_equal; [by rewrite slice_splice_eq by (rewrite ?Hzr; lia)|].
    rewrite slice_splice_disj by (rewrite ?Hzs, ?Hzr; lia). apply slice_replicate; lia. }
  rewrite Hw. eapply wp_mono; [apply (ready_tail w c lim); try done; try lia| |done].
  - rewrite zlen_replicate. lia.
  - apply Forall_replicate_is_u8. by apply fm_erased_val.
  - intros rc w' (-> & Hw1 & Hw2). done.
Qed.

(** Erasing the sector of the trailer leaves the image alone. *)
Lemma upload_finish_wp w s num :
  uploading num w (upload s) → curr_off (upload s) = zlen img →
  wp (upload_finish fap) (λ rc st, rc = 0 ∧ st.2 = s ∧ uploading num st.1 (upload s)) (λ st, only_slot st.1) (w, s).
Proof using All.
  intros [Hstd Hrg Hfl] Hc. pose proof Hstd as (_ & _ & _ & Hst). unfold upload_finish. rewrite Hc in Hfl. rewrite Z.ltb_irrefl in Hfl. destruct Hfl as [Hw Hp].
  destruct (MCUBOOT_ERASE_PROGRESSIVELY && BOOT_IMAGE_HAS_STATUS_FIELDS) eqn:Hcase; cbn [negb].
  - destruct (Hst eq_refl) as (k & Hk & Hso & Hle). pose proof (size_bound fap Ha). pose proof (so_bounds fap Ha k ltac:(lia)).
    pose proof (so_step fap Hbig k Hk). pose proof (so_bounds fap Ha (S k) ltac:(lia)).
    apply wp_upload_get, wp_bind, wp_platform. rewrite Hso, s32_small by lia.
    eapply wp_mono; [apply (erase_range_wp w (so k) (so k) k); done || lia| |done].
    intros r w' (Hw' & Hr & _ & (j & Hj & ->) & Hcells). pose proof (so_bounds fap Ha j Hj). rewrite (proj2 (Z.ltb_ge _ _)) by lia. apply wp_ret.
    split; [done|]. split; [done|]. split; [done|done|]. cbn [fst snd].
    rewrite Hc, Z.ltb_irrefl. split; [done|]. destruct Hw as [Hok _]. pose proof (fm_len w fap Hok Ha).
    unfold has_prefix. rewrite Hcells, vals_splice, slice_splice_disj; [done|lia| |lia|left; lia].
    rewrite !zlen_vals, zlen_erased by lia. lia.
  - apply wp_ret. split; [done|]. split; [done|]. split; [done|done|]. cbn [fst snd]. by rewrite Hc, Z.ltb_irrefl.
Qed.

(** The offset after the chunk. *)
Lemma upload_advance_wp w s num c lim m x :
  let u := upload s in
  started num u → 0 <= curr_off u → 0 <= m → curr_off u + m + x = c → 0 <= x → 0 <= c <= zlen img → erased_to u = lim →
  (if c <? zlen img then ready w c lim else only_slot w ∧ has_prefix w (zlen img)) →
  wp (upload_set (λ u, set_curr_off u (curr_off u ⊕ (m + x)));;
      u ← upload_get; if curr_off u =? img_size u then upload_finish fap else mret 0)
    (λ rc st, rc = 0 ∧ ∃ u', st.2 = set_upload s u' ∧ uploading num st.1 u' ∧ curr_off u' = c)
    (λ st, only_slot st.1) (w, s).
Proof using All.
  intros u Hstd Hc0 Hm Hcx Hx Hrg Hlim Hfl. pose proof (size_bound fap Ha).
  apply wp_upload_set, wp_upload_get. fold u. rewrite u32_small by (unfold is_u32; lia).
  replace (curr_off u + (m + x)) with c by lia. set (u' := set_curr_off u c).
  assert (Hup : uploading num w u').
  { split; [done|done|]. unfold erased_to in *. cbn [u' curr_off set_curr_off not_yet_erased] in *. by rewrite Hlim. }
  change (upload (set_upload s u')) with u'. destruct Hstd as (Hsz & _).
  change (curr_off u') with c. change (img_size u') with (img_size u). rewrite Hsz.
  destruct (c =? zlen img) eqn:Hce; zsimp.
  - eapply wp_mono; [apply (upload_finish_wp w (set_upload s u') num); done| |done].
    intros rc [w' s'] (-> & Hs' & Hup'). split; [done|]. exists u'. done.
  - apply wp_ret. split; [done|]. exists u'. done.
Qed.

Lemma upload_write_wp w s addr len num :
  let u := upload s in let c := curr_off u in
  started num u → ready w c (erased_to u) → 0 < len → c + len <= zlen img → c + len <= erased_to u →
  wp (upload_write fap addr (slice img c len) 0)
    (λ rc st, rc = 0 ∧ ∃ u', st.2 = set_upload s u' ∧ uploading num st.1 u' ∧ curr_off u' = next_off c len)
    (λ st, only_slot st.1) (w, s).
Proof using All.
  intros u c Hstd Hr Hl Hci Hcl. pose proof (size_bound fap Ha). pose proof align_bounds as Hab. destruct (rd_range _ _ _ Hr) as (Hc0 & _ & _).
  pose proof Hstd as (Hsz & _ & Hs0 & _).
  unfold upload_write. rewrite (proj2 (Z.eqb_neq _ _)) by lia.
  assert (Hzc : zlen (slice img c len) = len) by (rewrite zlen_slice; lia). rewrite Hzc.
  pose proof (aligned_down len) as Hna. assert (Hrem : 0 <= len mod align < align) by (apply Z.mod_pos_bound; lia).
  assert (Hle : len mod align <= len) by (apply Z.mod_le; lia).
  unfold next_off. set (rem := len mod align) in *. clearbody rem. set (n := len - rem) in *.
  apply wp_upload_get. fold u c. rewrite Hsz, !u32_small by (unfold is_u32; rewrite ?u32_small; unfold is_u32; lia).
  replace (c + n + rem) with (c + len) by lia.
  assert (Hsub : ∀ a b, 0 <= a → 0 <= b → a + b <= len → slice (slice img c len) a b = slice img (c + a) b) by (intros; apply slice_slice; lia).
  apply wp_bind. eapply wp_mono; [apply (write_chunk_wp w s addr (erased_to u)); fold u c; rewrite ?Hzc; try done; try lia| |done].
  { rewrite Hsub by lia. by rewrite Z.add_0_r. }
  intros r [w1 s1] (m & -> & Hm & Hs1 & Hr1). fold u c in Hs1, Hr1. cbn [fst snd Z.eqb andb] in *. subst s1.
  set (s1 := set_upload s (set_curr_off u (c + (n - m)))).
  destruct (c + len <? zlen img) eqn:Hlast; zsimp.
  - cbn [Z.eqb negb]. apply wp_bind, wp_ret. cbn [Z.eqb negb].
    eapply wp_mono; [apply (upload_advance_wp w1 s1 num (c + n) (erased_to u)); cbn [s1 upload set_upload curr_off set_curr_off]; try done; try lia| |done].
    { by rewrite (proj2 (Z.ltb_lt _ _)) by lia. }
    intros rc st (-> & u' & Hst & Hu'). split; [done|]. exists u'. by rewrite Hst.
  - assert (Hend : c + len = zlen img) by lia. destruct (rem =? 0) eqn:Hr0; zsimp; cbn [negb].
    + apply wp_bind, wp_ret. cbn [Z.eqb negb].
      eapply wp_mono; [apply (upload_advance_wp w1 s1 num (zlen img) (erased_to u)); cbn [s1 upload set_upload curr_off set_curr_off]; try done; try lia| |done].
      { rewrite Z.ltb_irrefl. split; [apply Hr1|]. replace (zlen img) with (c + n) by lia. apply Hr1. }
      intros rc st (-> & u' & Hst & Hu'). split; [done|]. exists u'. by rewrite Hst.
    + apply wp_bind. eapply wp_mono; [apply (write_tail_wp w1 s1 (erased_to u)); cbn [s1 upload set_upload curr_off set_curr_off]; try done; try lia| |done].
      { by replace (c + (n - m) + m) with (c + n) by lia. }
      { assert (Hd : slice (drop (Z.to_nat (n - m)) (slice img c len)) m rem = slice (slice img c len) n rem).
        { unfold slice at 1 3. rewrite drop_drop. do 2 f_equal. lia. }
        rewrite Hd, Hsub by lia. f_equal. lia. }
      intros rc [w2 s2] (-> & Hs2 & Hw2 & Hp2). cbn [fst snd Z.eqb negb] in *. subst s2.
      eapply wp_mono; [apply (upload_advance_wp w2 s1 num (zlen img) (erased_to u)); cbn [s1 upload set_upload curr_off set_curr_off]; try done; try lia| |done].
      { by rewrite Z.ltb_irrefl. }
      intros rc st (-> & u' & Hst & Hu'). split; [done|]. exists u'. by rewrite Hst.
Qed.

Lemma erase_slot_wp w :
  only_slot w → wp (boot_erase_region fap 0 (fa_size fap) false) (λ rc w', rc = 0 ∧ ready w' 0 (fa_size fap)) only_slot w.
Proof using All.
  intros Hw. destruct (Hw) as [Hok _]. pose proof (size_bound fap Ha). pose proof (fm_len w fap Hok Ha) as Hlen.
  destruct (sector_of w fap 0 Hok Ha ltac:(lia)) as [i Hi]. destruct (sector_of w fap (fa_size fap - 1) Hok Ha ltac:(lia)) as [j Hj].
  assert (Hi0 : so i = 0).
  { pose proof (in_sector_S _ _ _ Hi). pose proof (in_sector_length _ _ _ Hi). pose proof (so_bounds fap Ha i ltac:(lia)). lia. }
  assert (Hj1 : so (S j) = fa_size fap).
  { pose proof (in_sector_S _ _ _ Hj). pose proof (in_sector_length _ _ _ Hj). pose proof (so_bounds fap Ha (S j) ltac:(lia)). lia. }
  eapply wp_mono; [apply (erase_region_wp w fap 0 (fa_size fap) false i j); try done; lia| |].
  - intros rc w' [-> (Hok' & Hc & Hrest)]. split; [done|]. unfold erase_span in Hc. rewrite Hi0, Hj1, Z.sub_0_r in Hc.
    split; [by apply (only_slot_trans w)|unfold aligned; apply Z.mod_0_l; pose proof align_bounds; lia|lia| | |done].
    + exists (length (fm_sizes fap)). split; [done|]. symmetry. apply (fm_sizes_ok fap Ha).
    + rewrite Z.sub_0_r, Hc, slice_splice_eq by (rewrite ?zlen_erased; lia). apply all_fresh_erased.
  - intros w' (k & l & _ & _ & _ & Hok' & _ & Hrest). by apply (only_slot_trans w).
Qed.

Lemma upload_first_wp w s num :
  only_slot w → img_num (upload s) = num → up_start_off (upload s) = 0 →
  wp (upload_first fap (zlen img))
    (λ r st, r = inl 0 ∧ ∃ u', st.2 = set_upload s u' ∧ started num u' ∧ curr_off u' = 0 ∧ ready st.1 0 (erased_to u'))
    (λ st, only_slot st.1) (w, s).
Proof using All.
  intros Hw Hn Hs0. unfold upload_first. apply wp_upload_set. set (u := set_curr_off (upload s) 0).
  apply wp_bind. eapply (wp_mono _ (λ rc st, rc = 0 ∧ st.1 = w ∧ ∃ x, st.2 = set_upload s (set_status_sector u x) ∧
    (MCUBOOT_ERASE_PROGRESSIVELY && BOOT_IMAGE_HAS_STATUS_FIELDS = true →
      ∃ k, (k < length (fm_sizes fap))%nat ∧ fs_off x = so k ∧ zlen img <= so k)) _ (λ st, only_slot st.1)).
  { destruct (MCUBOOT_ERASE_PROGRESSIVELY && BOOT_IMAGE_HAS_STATUS_FIELDS) eqn:Hcase.
    - destruct (Htrailer Hcase) as (o & k & Ho & Hk & Hle). apply wp_bind, wp_platform. eapply wp_pure; [apply Ho|].
      apply wp_bind, wp_platform. eapply wp_pure; [eapply get_sector_in; [done|apply Hw|done]|]. cbn [Z.eqb negb].
      apply wp_upload_set, wp_ret. split; [done|]. split; [done|]. eexists. split; [done|]. intros _. exists k.
      split; [by eapply in_sector_length|done].
    - apply wp_ret. split; [done|]. split; [done|]. exists (status_sector u). done. }
  2: done.
  intros rc [w1 s1] (-> & Hw1 & x & Hs1 & Hst). cbn [fst snd Z.eqb negb] in *. subst w1 s1.
  rewrite (proj2 (Z.ltb_ge _ (zlen img))) by lia. set (u1 := set_status_sector u x) in *.
  apply wp_bind. eapply (wp_mono _ (λ rc st, rc = 0 ∧ ∃ e, st.2 = set_upload s (set_not_yet_erased u1 e) ∧
     ready st.1 0 (erased_to (set_not_yet_erased u1 e))) _ (λ st, only_slot st.1)).
  { unfold erased_to. destruct MCUBOOT_ERASE_PROGRESSIVELY; cbn [negb].
    - apply wp_upload_set, wp_ret. split; [done|]. exists 0. split; [done|]. pose proof (size_bound fap Ha). cbn [fst snd not_yet_erased set_not_yet_erased].
      split; [done|unfold aligned; apply Z.mod_0_l; pose proof align_bounds; lia|lia|by exists 0%nat; split; [lia|]|apply Forall_nil|done].
    - apply wp_platform. eapply wp_mono; [by apply erase_slot_wp| |done]. intros rc w' [-> Hr]. split; [done|].
      exists (not_yet_erased u1). done. }
  2: done.
  intros rc [w2 s2] (-> & e & Hs2 & Hr2). cbn [fst snd Z.eqb negb] in *. subst s2. apply wp_upload_set.
  unfold upload_start_off. rewrite Hstart. cbn [negb]. apply wp_ret. split; [done|]. eexists. split; [done|].
  split; [split; [done|]; split; [done|]; split; [done|exact Hst]|]. done.
Qed.

(** A chunk of the image: at the start of the image it starts the upload, at the expected
    offset it continues it, elsewhere it is ignored. *)
Lemma upload_chunk_wp w s num num_tmp size_tmp addr off len :
  let u := upload s in
  (∀ w, fm_ok w → flash_area_open (upload_area_id num) w = (Ret (0, fap), w)) →
  only_slot w → up_start_off u = 0 → 0 <= off → 0 < len → off + len <= zlen img →
  (off = 0 ∧ (if num_tmp =? UINT32_MAX then 0 else num_tmp) = num ∧ size_tmp = zlen img ∨ off ≠ 0 ∧ uploading num w u) →
  wp (upload_chunk num_tmp addr (slice img off len) size_tmp off)
    (λ rc st, rc = 0 ∧ ∃ u', st.2 = set_upload s u' ∧ uploading num st.1 u' ∧
       curr_off u' = if (off =? 0) || (off =? curr_off u) then next_off off len else curr_off u)
    (λ st, only_slot st.1) (w, s).
Proof using All.
  intros u Hopen Hw Hs0 Ho Hl Hol Hcase. pose proof (size_bound fap Ha). unfold upload_chunk.
  assert (Hzc : zlen (slice img off len) = len) by (rewrite zlen_slice; lia). rewrite Hzc.
  assert (Hrest : ∀ w1 u1, started num u1 → curr_off u1 = off → ready w1 off (erased_to u1) →
    wp (ok ← upload_erase fap len; if negb ok then mret MGMT_ERR_EINVAL else upload_write fap addr (slice img off len) 0)
      (λ rc st, rc = 0 ∧ ∃ u', st.2 = set_upload s u' ∧ uploading num st.1 u' ∧ curr_off u' = next_off off len)
      (λ st, only_slot st.1) (w1, set_upload s u1)).
  { intros w1 u1 Hstd <- Hr. apply wp_bind.
    eapply wp_mono; [apply (upload_erase_wp w1 (set_upload s u1) len); [apply Hstd|done|done|cbn; lia]| |done].
    intros ok [w2 s2] (-> & e & Hs2 & Hr2 & Hle). cbn [fst snd negb] in *. subst s2.
    eapply wp_mono; [apply (upload_write_wp w2 (set_upload s (set_not_yet_erased u1 e)) addr len num); try done| |done].
    intros rc st (-> & u' & Hst & Hu'). split; [done|]. by exists u'. }
  destruct Hcase as [(-> & Hnum & ->)|[Hne Hup]].
  - cbn [Z.eqb orb]. apply wp_upload_set, wp_upload_get. rewrite Hnum. set (u1 := set_img_num (upload s) num).
    apply wp_bind, wp_platform. eapply wp_pure; [apply Hopen, Hw|]. cbn [Z.eqb negb]. apply wp_bind.
    eapply wp_mono; [apply (upload_first_wp w (set_upload s u1) num); done| |done].
    intros r [w2 s2] (-> & u' & Hs2 & Hstd & Hc & Hr). cbn [fst snd] in *. subst s2. by apply Hrest.
  - rewrite (proj2 (Z.eqb_neq _ _) Hne). cbn [orb]. apply wp_bind, wp_ret, wp_upload_get. fold u. pose proof Hup as [Hstd Hrg Hfl].
    pose proof Hstd as (Hsz & -> & _). apply wp_bind, wp_platform. eapply wp_pure; [apply Hopen, Hw|]. cbn [Z.eqb negb].
    unfold upload_next. apply wp_bind, wp_upload_get. fold u. destruct (off =? curr_off u) eqn:Hoff; zsimp; cbn [negb]; apply wp_ret.
    + rewrite Hsz, <- Hoff, u32_small by (unfold is_u32; lia). rewrite (proj2 (Z.ltb_ge (zlen img) (off + len))) by lia.
      rewrite <- Hoff, (proj2 (Z.ltb_lt _ _)) in Hfl by lia. rewrite <- (set_upload_id s). by apply Hrest.
    + apply wp_ret. split; [done|]. exists u. split; [symmetry; apply set_upload_id|done].
Qed.

End Upload.
