(* ===== verification/DirectXip.v ===== *)
(** * Starting either slot

    loader.c and swap_scratch.c with [MCUBOOT_DIRECT_XIP]: no image is moved; of the
    slots of each image the one with the highest version that can be validated is
    started from where it is.  With the revert option an image that was started once
    and has not confirmed itself is erased.  Hooks, data sharing and the lock of the
    security counter are off. *)

From S2P Require Import Prelude Effects FlashMap BootConfig Trailer Area Image Tlv.
From S2P Require Import LoaderState Sectors Validate BootLoop MultiImage.

Definition IMAGE_F_ROM_FIXED : Z := 0x100.

Class XipConfig := { MCUBOOT_DIRECT_XIP_REVERT : bool }.

Section DirectXip.
  Context {W : Type} `{FlashMap W} `{FlashSectors W} `{BootConfig} `{LoaderConfig} `{XipConfig}.
  Context `{ValidateConfig} `{Sha} `{Signing} `{Platform W} `{SwapAlgo W}.

(** ** The usage of the slots *)

(** One image of [boot_open_all_flash_areas]. *)
Definition open_areas_step (i : Z) (d : boot_data) : M W (boot_data + Empty_set) :=
  m ← masked d i;
  if m : bool then mret (inl d) else
  x ← array_get (images d) i;
  state ← boot_open_all_flash_areas (im_loader x);
  mret (inl (set_loader d i x state)).

Definition xip_open_areas (d : boot_data) : M W boot_data :=
  r ← IMAGES_ITER open_areas_step d;
  mret (match r with inl d => d | inr e => match e : Empty_set with end end).

(** One image of [boot_get_slot_usage]; an error is the code returned. *)
Definition slot_usage_step (i : Z) (d : boot_data) : M W (boot_data + Z * boot_data) :=
  m ← masked d i;
  if m : bool then mret (inl d) else
  x ← array_get (images d) i;
  '(rc, state) ← boot_read_image_headers (im_loader x) false None;
  if negb (rc =? 0) then mret (inr (rc, set_loader d i x state)) else
  let found slot := boot_check_header_valid (BOOT_IMG_AREA state slot) (boot_img_hdr state slot) in
  let u := set_slot_available (im_usage x) BOOT_SLOT_PRIMARY (found BOOT_SLOT_PRIMARY) in
  let u := set_slot_available u BOOT_SLOT_SECONDARY (found BOOT_SLOT_SECONDARY) in
  mret (inl (set_image d i (ImageState state (set_active_slot u BOOT_SLOT_NONE)))).

Definition boot_get_slot_usage (d : boot_data) : M W (Z * boot_data) :=
  r ← IMAGES_ITER slot_usage_step d;
  mret (match r with inl d => (0, d) | inr r => r end).

(** The loop over the two slots, as a fold over their numbers. *)
Definition highest_version_step (x : image_state) (candidate_slot slot : Z) : Z :=
  if slot_available (im_usage x) slot then
    if candidate_slot =? BOOT_SLOT_NONE then slot
    else if boot_compare_version MCUBOOT_VERSION_CMP_USE_BUILD_NUMBER
              (ih_ver (boot_img_hdr (im_loader x) slot)) (ih_ver (boot_img_hdr (im_loader x) candidate_slot)) =? 1
    then slot else candidate_slot
  else candidate_slot.

Definition find_slot_with_highest_version (x : image_state) : Z :=
  fold_left (highest_version_step x) [BOOT_SLOT_PRIMARY; BOOT_SLOT_SECONDARY] BOOT_SLOT_NONE.

(** ** Loading *)

(** True for an image built for another address. *)
Definition boot_rom_address_check (x : image_state) : bool :=
  let slot := active_slot (im_usage x) in
  let hdr := boot_img_hdr (im_loader x) slot in
  negb (Z.land (ih_flags hdr) IMAGE_F_ROM_FIXED =? 0) &&
  negb (ih_load_addr hdr =? fa_off (BOOT_IMG_AREA (im_loader x) slot)).

(** An image started before without confirming itself, or with a bad trailer, is
    erased; one that was not started before is marked as started. *)
Definition boot_select_or_erase (x : image_state) : M W (Z * image_state) :=
  let fap := BOOT_IMG_AREA (im_loader x) (active_slot (im_usage x)) in
  r ← boot_read_swap_state fap;
  match r with
  | inl _ => abort
  | inr s =>
      let x := ImageState (im_loader x) (set_usage_swap_state (im_usage x) s) in
      if negb (magic s =? BOOT_MAGIC_GOOD) ||
         ((copy_done s =? BOOT_FLAG_SET) && negb (image_ok s =? BOOT_FLAG_SET)) then
        rc ← boot_scramble_region fap 0 (fa_size fap) false;
        assert (rc =? 0);;
        mret (-1, x)
      else if negb (copy_done s =? BOOT_FLAG_SET) then
        _ ← boot_write_copy_done fap;
        mret (0, x)
      else mret (0, x)
  end.

(** The active slot cannot be used. *)
Definition give_up_slot (u : slot_usage) : slot_usage :=
  set_active_slot (set_slot_available u (active_slot u) false) BOOT_SLOT_NONE.

(** The checks of the slot just made active. *)
Definition try_slot (x : image_state) : M W (bool * image_state) :=
  if boot_rom_address_check x then mret (false, x) else
  '(rc, x) ← (if MCUBOOT_DIRECT_XIP_REVERT then boot_select_or_erase x else mret (0, x));
  if negb (rc =? 0) then mret (false, x) else
  fih_rc ← boot_validate_slot (im_loader x) (active_slot (im_usage x)) None 0;
  mret (FIH_EQ fih_rc FIH_SUCCESS, x).

(** One turn of the loop over the slots of an image; the result says whether a slot
    is active. *)
Definition load_image_step (i : Z) (d : boot_data) : M W (boot_data + bool * boot_data) :=
  x ← array_get (images d) i;
  if negb (active_slot (im_usage x) =? BOOT_SLOT_NONE) then mret (inr (true, d)) else
  let slot := find_slot_with_highest_version x in
  if slot =? BOOT_SLOT_NONE then mret (inr (false, d)) else
  let x := ImageState (im_loader x) (set_active_slot (im_usage x) slot) in
  m ← masked d i;
  if m : bool then mret (inl (set_image d i x)) else
  '(ok, x) ← try_slot x;
  if ok : bool then mret (inr (true, set_image d i x))
  else mret (inl (set_usage d i x (give_up_slot (im_usage x)))).

(** Each turn but the last makes a slot active or unavailable. *)
Definition LOAD_FUEL : nat := 6.

Definition load_image (i : Z) (d : boot_data) : M W (boot_data + boot_data) :=
  '(ok, d) ← loop LOAD_FUEL (load_image_step i) d;
  mret (if ok : bool then inl d else inr d).

Definition boot_load_and_validate_images (d : boot_data) : M W (fih_ret * boot_data) :=
  r ← IMAGES_ITER load_image d;
  mret (match r with inl d => (FIH_SUCCESS, d) | inr d => (FIH_FAILURE, d) end).

(** ** The boot *)

(** With the revert option, only for an image that has confirmed itself. *)
Definition xip_update_hw_rollback_protection (x : image_state) : M W Z :=
  if MCUBOOT_HW_ROLLBACK_PROT then
    if negb MCUBOOT_DIRECT_XIP_REVERT || (image_ok (usage_swap_state (im_usage x)) =? BOOT_FLAG_SET) then
      boot_update_security_counter (im_loader x) (active_slot (im_usage x)) (active_slot (im_usage x))
    else mret 0
  else mret 0.

Definition rollback_step (d : boot_data) (i : Z) (_ : unit) : M W (unit + Z) :=
  m ← masked d i;
  if m : bool then mret (inl ()) else
  x ← array_get (images d) i;
  rc ← xip_update_hw_rollback_protection x;
  mret (if negb (rc =? 0) then inr rc else inl ()).

(** The first image that is not masked is started. *)
Definition first_image_step (d : boot_data) (i : Z) (_ : unit) : M W (unit + Z) :=
  m ← masked d i;
  mret (if m : bool then inl () else inr i).

Definition xip_fill_rsp (d : boot_data) : M W (option boot_rsp) :=
  r ← IMAGES_ITER (first_image_step d) ();
  match r with
  | inl _ => mret None
  | inr i =>
      x ← array_get (images d) i;
      let slot := active_slot (im_usage x) in
      let area := BOOT_IMG_AREA (im_loader x) slot in
      mret (Some (BootRsp (fa_device_id area) (fa_off area) (boot_img_hdr (im_loader x) slot)))
  end.

(** One turn of the loop over sets of slots: load a slot of each image, then check
    the dependencies. *)
Definition xip_select_step (d : boot_data) : M W (boot_data + bool * boot_data) :=
  '(fih_rc, d) ← boot_load_and_validate_images d;
  if negb (FIH_EQ fih_rc FIH_SUCCESS) then mret (inr (false, d)) else
  if 1 <? BOOT_IMAGE_NUMBER then
    '(rc, d) ← xip_verify_dependencies d;
    mret (if negb (rc =? 0) then inl d else inr (true, d))
  else mret (inr (true, d)).

(** Each turn but the last makes a slot unavailable. *)
Definition SELECT_FUEL : nat := S (2 * Z.to_nat BOOT_IMAGE_NUMBER).

Definition xip_context_boot_go (d : boot_data) : M W (fih_ret * option boot_rsp * boot_data) :=
  d ← xip_open_areas d;
  '(rc, d) ← boot_get_slot_usage d;
  if negb (rc =? 0) then mret (FIH_FAILURE, None, d) else
  '(ok, d) ← loop SELECT_FUEL xip_select_step d;
  if negb ok then mret (FIH_FAILURE, None, d) else
  r ← IMAGES_ITER (rollback_step d) ();
  match r with
  | inr _ => mret (FIH_FAILURE, None, d)
  | inl _ => rsp ← xip_fill_rsp d; mret (FIH_SUCCESS, rsp, d)
  end.

(** [boot_go_for_image_id]: only the given image. *)
Definition xip_boot_go_for_image_id (d : boot_data) (image_id : Z) : M W (fih_ret * option boot_rsp * boot_data) :=
  if BOOT_IMAGE_NUMBER <=? image_id then mret (FIH_FAILURE, None, d) else
  let mask := <[Z.to_nat image_id := false]> (replicate (Z.to_nat BOOT_IMAGE_NUMBER) true) in
  xip_context_boot_go (if 1 <? BOOT_IMAGE_NUMBER then BootData (images d) mask else d).

(** [app_max_size] of swap_scratch.c in these modes: the smaller of the two slots. *)
Definition xip_app_max_size (x : image_state) : Z :=
  let slot := active_slot (im_usage x) in
  let other := if slot =? BOOT_SLOT_PRIMARY then BOOT_SLOT_SECONDARY else BOOT_SLOT_PRIMARY in
  let primary_sz := fa_size (BOOT_IMG_AREA (im_loader x) slot) in
  let secondary_sz := fa_size (BOOT_IMG_AREA (im_loader x) other) in
  if secondary_sz <? primary_sz then secondary_sz else primary_sz.

End DirectXip.
