(* ===== verification/SerialConsole.v ===== *)
(** * Serial recovery: commands and the console

    boot_serial.c: the commands of the default group, the dispatch of a message, the raw
    protocol, and the loop that reads the console.  Idling and the watchdog have no
    effect on the model; a restart is the outcome [Reset]. *)

From Stdlib Require Import String.
From S2P Require Import Prelude Effects FlashMap BootConfig Trailer SwapState Area Image Tlv.
From S2P Require Import LoaderState Sectors Validate BootLoop MultiImage DirectXip Zcbor SerialFrame Serial SerialImages.

(** [MCUBOOT_SERIAL_RAW_PROTOCOL_INPUT_TIMEOUT] with its time in milliseconds. *)
Class ConsoleConfig := {
  MCUBOOT_BOOT_MGMT_ECHO : bool;
  MCUBOOT_BOOT_MGMT_BOOTLOADER_INFO : bool;
  MCUBOOT_BOOT_MGMT_MCUMGR_PARAMS : bool;
  MCUBOOT_PERUSER_MGMT_GROUP_ENABLED : bool;
  MCUBOOT_SERIAL_WAIT_FOR_DFU : bool;
  MCUBOOT_SERIAL_INACTIVITY_TIMEOUT : bool;
  RAW_PROTOCOL_INPUT_TIMEOUT_MS : option Z;
}.

(** The handler of the other groups: return code and response. *)
Class Peruser (W : Type) := {
  bs_peruser_system_specific : nmgr_hdr → list Z → zcbor_state → M W (Z * zcbor_state);
}.

Definition MGMT_GROUP_ID_DEFAULT : Z := 0.
Definition MGMT_GROUP_ID_IMAGE : Z := 1.
Definition NMGR_ID_ECHO : Z := 0.
Definition NMGR_ID_CONS_ECHO_CTRL : Z := 1.
Definition NMGR_ID_RESET : Z := 5.
Definition NMGR_ID_MCUMGR_PARAMS : Z := 6.
Definition NMGR_ID_BOOTLOADER_INFO : Z := 8.
Definition IMGMGR_NMGR_ID_STATE : Z := 0.
Definition IMGMGR_NMGR_ID_UPLOAD : Z := 1.
Definition IMGMGR_NMGR_ID_SLOT_INFO : Z := 6.

Section Console.
  Context {W : Type} `{FlashMap W} `{FlashSectors W} `{BootConfig} `{LoaderConfig} `{XipConfig}.
  Context `{ValidateConfig} `{Sha} `{Signing} `{Platform W} `{SwapAlgo W}.
  Context `{ZcborConfig} `{FrameConfig} `{SerialLib} `{SerialConfig} `{Uart W} `{ConsoleConfig} `{Peruser W}.

(** ** Commands of the default group *)

(** One entry of an echo request: the value of the key ["d"] ends the loop. *)
Definition echo_step (_ : unit) : M zcbor_state (unit + option zcbor_string) :=
  key ← zcbor_tstr_decode;
  match key with
  | None => mret (inr None)
  | Some key =>
      c ← (if str_len key =? 1 then read_bytes (str_value key) 1 else mret []);
      if bool_decide (c = lit "d") then v ← zcbor_tstr_decode; mret (inr v)
      else
        ok ← zcbor_any_skip;
        mret (if ok is Some _ then inl () else inr None)
  end.

(** Every entry takes at least one byte. *)
Definition echo_decode : ZM zcbor_string :=
  (_ ←? zcbor_map_start_decode;
   p ← get_pos;
   v ←? loop (S (bytes_left p)) echo_step ();
   _ ←? zcbor_map_end_decode;
   ok_ v)%zcbor.

Definition bs_echo (buf : list Z) : SM W unit :=
  o ← decode buf echo_decode (4 + CBOR_EXTRA_STATES);
  match o with
  | None => reset_cbor_state;; bs_rc_rsp MGMT_ERR_EINVAL
  | Some v =>
      puts [zcbor_map_start_encode 10; zcbor_tstr_put_lit "r"];;
      ok ← encode (all_ok [zcbor_tstr_encode_ptr (slice buf (str_value v) (str_len v)); zcbor_map_end_encode 10]);
      if ok : bool then serial_output else reset_cbor_state;; bs_rc_rsp MGMT_ERR_ENOMEM
  end.

(** [enum mcuboot_mode]. *)
Definition bs_bootloader_info_mode : Z :=
  match MCUBOOT_MODE with
  | SINGLE_APPLICATION_SLOT => 0
  | SWAP_USING_SCRATCH => 1
  | OVERWRITE_ONLY => 2
  | SWAP_USING_MOVE => 3
  | SWAP_USING_OFFSET => 9
  | DIRECT_XIP => if MCUBOOT_DIRECT_XIP_REVERT then 5 else 4
  | RAM_LOAD => 6
  | FIRMWARE_LOADER => 7
  | SINGLE_APPLICATION_SLOT_RAM_LOAD => 8
  end.

(** The answer to a query, which is empty when there is none. *)
Definition bootloader_info (query : list Z) : option (list (ZM unit)) :=
  if bool_decide (query = []) then Some [zcbor_tstr_put_lit "bootloader"; zcbor_tstr_put_lit "Adaboot"]
  else if bool_decide (query = lit "mode") then
    Some ([zcbor_tstr_put_lit "mode"; zcbor_uint32_put bs_bootloader_info_mode] ++
          (if MCUBOOT_DOWNGRADE_PREVENTION then [zcbor_tstr_put_lit "no-downgrade"; zcbor_bool_put true] else []))
  else if bool_decide (query = lit "slot") then Some [zcbor_tstr_put_lit "slot"; zcbor_uint32_put BOOT_SLOT_PRIMARY]
  else None.

Definition bs_bootloader_info (buf : list Z) : SM W unit :=
  '(rc, map, _) ← decode_map buf [KeyVal (lit "query") (as_string zcbor_tstr_decode) None];
  if negb (rc =? 0) then bs_rc_rsp MGMT_ERR_EINVAL else
  let '(ZString value len) := default (ZString 0 0) (string_at map 0) in
  encode (zcbor_map_start_encode 10);;
  match bootloader_info (slice buf value len) with
  | None => reset_cbor_state;; bs_rc_rsp MGMT_ERR_ENOTSUP
  | Some l =>
      ok ← encode (all_ok (l ++ [zcbor_map_end_encode 10]));
      if ok : bool then serial_output else reset_cbor_state;; bs_rc_rsp MGMT_ERR_EINVAL
  end.

Definition bs_mcumgr_params : SM W unit :=
  ok ← encode (all_ok [zcbor_map_start_encode 2; zcbor_tstr_put_lit "buf_size"; zcbor_uint32_put MCUBOOT_SERIAL_MAX_RECEIVE_SIZE;
                       zcbor_tstr_put_lit "buf_count"; zcbor_uint32_put 1; zcbor_map_end_encode 2]);
  if ok : bool then serial_output else reset_cbor_state;; bs_rc_rsp MGMT_ERR_ENOMEM.

Definition sys_reboot : SM W unit := λ ws, (Reset, ws).

Definition bs_reset : SM W unit := bs_rc_rsp 0;; sys_reboot.

(** ** Dispatch *)

Definition image_command (h : nmgr_hdr) (buf : list Z) : SM W unit :=
  if nh_id h =? IMGMGR_NMGR_ID_STATE then bs_list_set (nh_op h) buf
  else if nh_id h =? IMGMGR_NMGR_ID_UPLOAD then bs_upload buf
  else if MCUBOOT_SERIAL_IMG_GRP_SLOT_INFO && (nh_id h =? IMGMGR_NMGR_ID_SLOT_INFO) then bs_slot_info (nh_op h) buf
  else bs_rc_rsp MGMT_ERR_ENOTSUP.

Definition default_command (h : nmgr_hdr) (buf : list Z) : SM W unit :=
  if MCUBOOT_BOOT_MGMT_ECHO && (nh_id h =? NMGR_ID_ECHO) then bs_echo buf
  else if nh_id h =? NMGR_ID_CONS_ECHO_CTRL then bs_rc_rsp 0
  else if nh_id h =? NMGR_ID_RESET then bs_reset
  else if MCUBOOT_BOOT_MGMT_BOOTLOADER_INFO && (nh_id h =? NMGR_ID_BOOTLOADER_INFO) then bs_bootloader_info buf
  else if MCUBOOT_BOOT_MGMT_MCUMGR_PARAMS && (nh_id h =? NMGR_ID_MCUMGR_PARAMS) then bs_mcumgr_params
  else bs_rc_rsp MGMT_ERR_ENOTSUP.

Definition peruser_command (h : nmgr_hdr) (buf : list Z) : SM W unit :=
  s ← get_serial;
  '(rc, z) ← platform (bs_peruser_system_specific h buf (cbor_state s));
  modify (λ s, set_cbor s z);;
  if rc =? 0 then serial_output else mret ().

(** After a command the countdown starts over, or the loop no longer ends. *)
Definition command_seen : SM W unit :=
  if negb MCUBOOT_SERIAL_WAIT_FOR_DFU then mret () else
  modify (λ s, if MCUBOOT_SERIAL_INACTIVITY_TIMEOUT && (0 <? bs_rearm_ms s) then set_rearm s (bs_rearm_ms s) true true
               else set_entry s true).

Definition place_buf (s : serial) (p : msg_place) : list Z := match p with InBuf => in_buf s | DecBuf => dec_buf s end.

(** [boot_serial_input] on the message of [len] bytes at a place; it must lie in the
    buffer. *)
Definition boot_serial_input (p : msg_place) (len : Z) : SM W unit :=
  s ← get_serial;
  if zlen (place_buf s p) <? place_off p + len then fault else
  let hdr := hdr_of_bytes (slice (place_buf s p) (place_off p) NMGR_HDR_SIZE) in
  if (len <? NMGR_HDR_SIZE) || (negb (nh_op hdr =? NMGR_OP_READ) && negb (nh_op hdr =? NMGR_OP_WRITE)) ||
     (ntohs (nh_len hdr) <? len - NMGR_HDR_SIZE) then mret () else
  let hdr := set_nh_group hdr (ntohs (nh_group hdr)) in
  modify (λ s, put_hdr (set_bs_hdr s p) hdr);;
  let buf := slice (place_buf s p) (place_off p + NMGR_HDR_SIZE) (len - NMGR_HDR_SIZE) in
  reset_cbor_state;;
  (if nh_group hdr =? MGMT_GROUP_ID_IMAGE then image_command hdr buf
   else if nh_group hdr =? MGMT_GROUP_ID_DEFAULT then default_command hdr buf
   else if MCUBOOT_PERUSER_MGMT_GROUP_ENABLED then peruser_command hdr buf
   else bs_rc_rsp MGMT_ERR_ENOTSUP);;
  command_seen.

(** ** The raw protocol *)

(** One packet at the front of the buffer, which holds [len] bytes. *)
Definition input_raw_step (len : Z) : SM W (Z + Z) :=
  if len <? NMGR_HDR_SIZE then mret (inr len) else
  s ← get_serial;
  let hdr := hdr_of_bytes (slice (in_buf s) 0 NMGR_HDR_SIZE) in
  let pkt_len := NMGR_HDR_SIZE + ntohs (nh_len hdr) in
  if (negb (nh_op hdr =? NMGR_OP_READ) && negb (nh_op hdr =? NMGR_OP_WRITE)) || (max_input <? pkt_len) then mret (inr 0) else
  if len <? pkt_len then mret (inr len) else
  boot_serial_input InBuf pkt_len;;
  if pkt_len <? len then
    modify (λ s, set_in_buf s (splice (in_buf s) 0 (slice (in_buf s) pkt_len (len - pkt_len))));;
    mret (inl (len - pkt_len))
  else mret (inl 0).

(** The number of bytes left; every packet takes at least eight. *)
Definition boot_serial_input_raw (len : Z) : SM W Z := loop (S (Z.to_nat len)) input_raw_step len.

(** ** The console *)

(** The variables of the loop. *)
Record console := Console { con_off : Z; con_dec_off : Z; con_timeout : Z; con_raw_start : Z }.

(** What is done with [rc] bytes read, up to the check of the time. *)
Definition console_input (c : console) (rc : Z) (full_line : bool) : SM W console :=
  let off := con_off c + rc in
  if MCUBOOT_SERIAL_RAW_PROTOCOL then
    start ← (if RAW_PROTOCOL_INPUT_TIMEOUT_MS is Some _ then platform k_uptime_get_32 else mret (con_raw_start c));
    off ← boot_serial_input_raw off;
    mret (Console off (con_dec_off c) (con_timeout c) start)
  else if negb full_line then
    mret (Console (if off =? max_input then 0 else off) (con_dec_off c) (con_timeout c) (con_raw_start c))
  else
    s ← get_serial;
    '(rc, dec, dec_off) ← console_line (in_buf s) off rc (dec_buf s) (con_dec_off c);
    modify (λ s, set_dec_buf s dec);;
    (if rc =? 1 then boot_serial_input DecBuf (dec_off - 2) else mret ());;
    mret (Console 0 dec_off (con_timeout c) (con_raw_start c)).

(** A partial packet expires; the time used counts when waiting for an upload; a command
    starts the countdown over. *)
Definition check_timeout (start : Z) (c : console) : SM W console :=
  off ← (match RAW_PROTOCOL_INPUT_TIMEOUT_MS with
         | Some ms =>
             if 0 <? con_off c then now ← platform k_uptime_get_32; mret (if ms <=? now ⊖ con_raw_start c then 0 else con_off c)
             else mret (con_off c)
         | None => mret (con_off c)
         end);
  elapsed ← (if MCUBOOT_SERIAL_WAIT_FOR_DFU then now ← platform k_uptime_get_32; mret (s32 (now ⊖ start)) else mret 0);
  s ← get_serial;
  let rearm := MCUBOOT_SERIAL_INACTIVITY_TIMEOUT && bs_rearm_pending s in
  (if rearm then modify (λ s, set_rearm s (bs_rearm_ms s) false (bs_rearm_seen s)) else mret ());;
  mret (Console off (con_dec_off c) (if rearm then bs_rearm_ms s else con_timeout c - elapsed) (con_raw_start c)).

Definition console_step (c : console) : SM W (console + unit) :=
  s ← get_serial;
  if negb ((0 <? con_timeout c) || bs_entry s) then mret (inr ()) else
  start ← (if MCUBOOT_SERIAL_WAIT_FOR_DFU then platform k_uptime_get_32 else mret 0);
  '(rc, bytes, full_line) ← platform (uart_read (max_input - con_off c));
  modify (λ s, set_in_buf s (splice (in_buf s) (con_off c) bytes));;
  c ← (if (rc <=? 0) && negb full_line then mret c else console_input c rc full_line);
  c ← check_timeout start c;
  mret (inl c).

(** The loop may go on forever: it is run for [fuel] rounds. *)
Definition boot_serial_read_console (fuel : nat) (timeout_in_ms : Z) : SM W unit :=
  loop fuel console_step (Console 0 0 timeout_in_ms 0).

Definition boot_serial_start (fuel : nat) : SM W unit :=
  modify (λ s, set_entry (set_rearm s 0 (bs_rearm_pending s) (bs_rearm_seen s)) true);;
  boot_serial_read_console fuel 0.

Definition boot_serial_check_start (fuel : nat) (timeout_in_ms : Z) : SM W unit :=
  modify (λ s, set_entry (set_rearm s 0 (bs_rearm_pending s) (bs_rearm_seen s)) false);;
  boot_serial_read_console fuel timeout_in_ms.

Definition boot_serial_start_inactivity (fuel : nat) (timeout_in_ms rearm_in_ms : Z) : SM W bool :=
  modify (λ s, set_entry (set_rearm s rearm_in_ms false false) false);;
  boot_serial_read_console fuel timeout_in_ms;;
  s ← get_serial;
  mret (bs_rearm_seen s).

End Console.
