(* ===== verification/SerialSession.v ===== *)
(** * An upload session

    From the messages of a client to the image in flash: [boot_serial_input] on upload
    requests, any number of them, repeated or out of order, with their map entries in any
    order and with entries it does not know. *)

From Stdlib Require Import String.
From S2P Require Import Prelude Effects FlashMap BootConfig Trailer SwapState Area AreaProps Image Tlv.
From S2P Require Import LoaderState Sectors Validate BootLoop MultiImage DirectXip.
From S2P Require Import Zcbor ZcborProps ZcborRound ZcborEncode SerialFrame SerialFrameProps Serial SerialImages SerialConsole SerialUpload.

#[local] Set Default Proof Using "Type*".
#[local] Open Scope string_scope.
#[local] Open Scope list_scope.
#[local] Open Scope Z_scope.

(** ** Headers *)

Lemma hdr_round h : hdr_ok h → hdr_of_bytes (bytes_of_hdr h) = h.
Proof.
  destruct h as [op ver res flags len group seq id]. intros (Hop & Hver & Hres & Hfl & Hlen & Hgr & Hseq & Hid).
  unfold is_u8, is_u16 in *. cbn [nh_op nh_version nh_res1 nh_flags nh_len nh_group nh_seq nh_id] in *.
  set (h := NmgrHdr _ _ _ _ _ _ _ _). unfold hdr_of_bytes.
  change (le_dec (slice (bytes_of_hdr h) 0 1)) with (op + 8 * ver + 32 * res + 256 * 0).
  change (slice (bytes_of_hdr h) 2 2) with (le_enc 2 len). change (slice (bytes_of_hdr h) 4 2) with (le_enc 2 group).
  rewrite !le_dec_enc_u16 by done. change (le_dec (slice (bytes_of_hdr h) 1 1)) with (flags + 256 * 0).
  change (le_dec (slice (bytes_of_hdr h) 6 1)) with (seq + 256 * 0). change (le_dec (slice (bytes_of_hdr h) 7 1)) with (id + 256 * 0).
  change 7 with (Z.ones 3). change 3 with (Z.ones 2) at 3. rewrite !Z.land_ones, !Z.shiftr_div_pow2 by lia.
  change (2 ^ 3) with 8. change (2 ^ 2) with 4. change (2 ^ 5) with 32. unfold h. f_equal; lia.
Qed.

Lemma ntohs_htons x : is_u16 x → ntohs (htons x) = x.
Proof. unfold is_u16. intros Hx. unfold ntohs, htons. cbn. lia. Qed.

(** ** Requests *)

Section Requests.
  Context {W : Type} `{FlashMap W} `{FlashSectors W} `{BootConfig} `{ZcborConfig} `{SerialConfig}.

(** The entries of a request for [chunk] at [off] of an image of [size] bytes: length and
    image number belong to the first chunk; image [0] is the default. *)
Definition upload_entries (num size off : Z) (chunk : list Z) (es : list entry) : Prop :=
  NoDup es.*1 ∧ lit "data" ∈ es.*1 ∧ lit "off" ∈ es.*1 ∧
  (off = 0 → lit "len" ∈ es.*1 ∧ (lit "image" ∈ es.*1 ∨ num = 0)) ∧
  Forall (λ e, is_u32 (zlen e.1) ∧ cbor_ok e.2 ∧
    (e.1 = lit "image" → e.2 = CUint num) ∧ (e.1 = lit "data" → e.2 = CBytes chunk) ∧
    (e.1 = lit "len" → e.2 = CUint size) ∧ (e.1 = lit "off" → e.2 = CUint off)) es.

(** What the keys stand for. *)
Definition upload_val (num size off : Z) (chunk : list Z) (k : list Z) : cbor_val :=
  if bool_decide (k = lit "image") then SUint num
  else if bool_decide (k = lit "data") then SBytes chunk
  else if bool_decide (k = lit "len") then SUint size
  else SUint off.

Lemma bstr_decodes l : is_u32 (zlen l) → decodes (as_string zcbor_bstr_decode) (CBytes l) (SBytes l).
Proof. intros Hl. by apply str_decodes. Qed.

Lemma upload_entry_decodes num size off chunk e :
  is_u32 num → is_u32 size → is_u32 off → is_u32 (zlen chunk) →
  is_u32 (zlen e.1) → cbor_ok e.2 → (e.1 = lit "image" → e.2 = CUint num) → (e.1 = lit "data" → e.2 = CBytes chunk) →
  (e.1 = lit "len" → e.2 = CUint size) → (e.1 = lit "off" → e.2 = CUint off) →
  entry_decodes (upload_val num size off chunk) image_upload_decode e.
Proof.
  intros Hn Hs Ho Hc Hk Hok Hi Hd Hl Hf. split; [done|]. split; [done|].
  repeat apply Forall_cons; [| | | |by apply Forall_nil]; cbn [kv_key kv_decoder]; intros Hkey; rewrite <- Hkey.
  - rewrite (Hi (eq_sym Hkey)). by apply (uint_decodes num).
  - rewrite (Hd (eq_sym Hkey)). by apply (bstr_decodes chunk).
  - rewrite (Hl (eq_sym Hkey)). by apply (uint_decodes size).
  - rewrite (Hf (eq_sym Hkey)). by apply (uint_decodes off).
Qed.

(** The handler understands the request. *)
Lemma upload_request_eq num size off chunk ind es (ws : W * serial) :
  upload_entries num size off chunk es → cbor_ok (CMap ind (entries_items es)) →
  0 <= num < UINT32_MAX → is_u32 size → 0 <= off < UINT32_MAX → is_u32 (zlen chunk) →
  ∃ num_tmp size_tmp addr,
    upload_request (cbor_enc (CMap ind (entries_items es))) ws = upload_chunk num_tmp addr chunk size_tmp off ws ∧
    (off = 0 → size_tmp = size ∧ (if num_tmp =? UINT32_MAX then 0 else num_tmp) = num).
Proof.
  intros (Hnd & Hdata & Hoff & Hfirst & Hes) Hok Hnum Hsize Hof Hck. set (buf := cbor_enc _). unfold UINT32_MAX in Hnum, Hof.
  assert (Hdec : Forall (entry_decodes (upload_val num size off chunk) image_upload_decode) es).
  { revert Hes. apply Forall_impl. intros e (? & ? & ? & ? & ? & ?). apply upload_entry_decodes; try done; unfold is_u32; lia. }
  set (s0 := zcbor_new_state buf (4 + CBOR_EXTRA_STATES) 1).
  destruct (bulk_complete (upload_val num size off chunk) image_upload_decode 0 s0 ind es) as (map' & m & s' & Hrun & Hfill); try done.
  - cbn. lia.
  - apply (bool_decide_unpack (NoDup _)). by vm_compute.
  - by repeat constructor.
  - unfold holds. cbn [pos s0 zcbor_new_state payload payload_end buffer at_]. unfold at_. cbn. split; [done|]. split; [done|]. split; [done|]. apply slice_full.
  - unfold s0, zcbor_new_state, CBOR_EXTRA_STATES. cbn. destruct ZCBOR_CANONICAL; done.
  - assert (Hd : decode_map buf image_upload_decode ws = (Ret (0, map', m), ws)).
    { unfold decode_map, decode. fold s0. by rewrite Hrun. }
    inversion Hfill as [|? r1 ? m1 (_ & _ & H1in & H1out) Hf1]; subst. inversion Hf1 as [|? r2 ? m2 (_ & _ & H2in & _) Hf2]; subst.
    inversion Hf2 as [|? r3 ? m3 (_ & _ & H3in & H3out) Hf3]; subst. inversion Hf3 as [|? r4 ? m4 (_ & _ & H4in & _) Hf4]; subst.
    inversion Hf4; subst. cbn [kv_key kv_found] in *.
    destruct (H2in Hdata) as (v2 & Hv2 & Hden2). destruct (H4in Hoff) as (v4 & Hv4 & Hden4).
    change (denotes buf v2 (SBytes chunk)) in Hden2. change (denotes buf v4 (SUint off)) in Hden4.
    destruct v2 as [|str|]; try done. destruct v4 as [x4| |]; try done. cbn in Hden4. subst x4. cbn [denotes] in Hden2. destruct Hden2 as (Hsl & _).
    unfold upload_request. rewrite (bind_ret _ _ _ _ _ Hd). cbn [Z.eqb negb].
    set (map' := [r1; r2; r3; r4]).
    assert (Hs2 : string_at map' 1 = Some str) by (unfold string_at; cbn; destruct r2; cbn in Hv2; by subst).
    assert (Hu4 : uint_at map' 3 SIZE_MAX = off) by (unfold uint_at; cbn; destruct r4; cbn in Hv4; by subst).
    rewrite Hs2, Hu4. unfold SIZE_MAX at 1. rewrite (proj2 (Z.eqb_neq _ _)) by (unfold UINT32_MAX; lia).
    rewrite Hsl. do 3 eexists. split; [done|]. intros H0off. destruct (Hfirst H0off) as [Hlen Himage]. split.
    + destruct (H3in Hlen) as (v3 & Hv3 & Hden3). change (denotes buf v3 (SUint size)) in Hden3.
      destruct v3 as [x3| |]; try done. cbn in Hden3. subst x3. unfold uint_at. cbn. destruct r3. cbn in Hv3. by subst.
    + destruct (decide (lit "image" ∈ es.*1)) as [Hin|Hout].
      * destruct (H1in Hin) as (v1 & Hv1 & Hden1). change (denotes buf v1 (SUint num)) in Hden1.
        destruct v1 as [x1| |]; try done. cbn in Hden1. subst x1. unfold uint_at. cbn. destruct r1. cbn in Hv1. subst.
        by rewrite (proj2 (Z.eqb_neq _ _)) by (unfold UINT32_MAX; lia).
      * destruct Himage as [Him|Him]; [done|subst num]. specialize (H1out Hout). unfold uint_at. cbn. destruct r1. cbn in H1out. by subst.
Qed.

End Requests.

(** ** Responses *)

(** Writing to the UART leaves the flash alone. *)
Class UartOk (W : Type) `{FlashMapOk W} `{Uart W} := {
  uart_write_ok w d : fm_ok w →
    ∃ w', uart_write d w = (Ret (), w') ∧ fm_ok w' ∧ ∀ fa, fm_area fa → fm_cells w' fa = fm_cells w fa;
}.

Section Responses.
  Context {W : Type} `{ZcborConfig}.

Lemma puts_eq l (w : W) s z :
  all_ok l (cbor_state s) = (Ret (Some ()), z) → puts l (w, s) = (Ret (), (w, set_cbor s z)).
Proof.
  revert s. induction l as [|c l IH]; intros s; cbn [all_ok puts].
  - intros [= <-]. by destruct s.
  - unfold zbind, encode, mbind, M_bind. cbn [fst snd]. destruct (c (cbor_state s)) as [[[[]|]| | | |] z']; try done.
    intros Hall. cbn [map_outcome]. rewrite (IH (set_cbor s z')) by done. done.
Qed.

Lemma emits_weaken c l n k k' : k <= k' → emits c l n k → emits c l n k'.
Proof. intros Hk Hc s Hr Hb. apply Hc; [done|]. intros Hcan. specialize (Hb Hcan). lia. Qed.

Lemma text_emits t : is_u32 (zlen (lit t)) → emits (zcbor_tstr_put_lit t) (cbor_enc (CText (lit t))) 1 0.
Proof. intros. by apply str_emits. Qed.

(** The map written for a successful upload request. *)
Definition upload_rsp (off : Z) : cbor :=
  CMap (negb ZCBOR_CANONICAL) [CText (lit "rc"); CUint 0; CText (lit "off"); CUint off].

Lemma upload_rsp_len off : is_u32 off → zlen (cbor_enc (upload_rsp off)) <= 15.
Proof.
  intros Ho. unfold upload_rsp. cbn [cbor_enc flat_map app]. change (cbor_head 3 (zlen (lit "rc"))) with [98]. change (cbor_head 0 0) with [0].
  change (cbor_head 3 (zlen (lit "off"))) with [99].
  assert (Hh : zlen (cbor_head 0 off) <= 5) by (unfold cbor_head; unfold is_u32 in Ho; repeat case_match; zsimp; unfold zlen; cbn [length]; rewrite ?length_rev, ?length_le_enc; lia).
  set (l := zlen _ / 2). unfold cbor_seq. destruct (negb ZCBOR_CANONICAL).
  - rewrite !zlen_cons, !zlen_app, ?zlen_cons, ?zlen_nil. change (zlen (lit "rc")) with 2. change (zlen (lit "off")) with 3. lia.
  - change (cbor_head 5 l) with [162]. rewrite !zlen_app, ?zlen_cons, ?zlen_nil. change (zlen (lit "rc")) with 2. change (zlen (lit "off")) with 3. lia.
Qed.

End Responses.

(** ** Messages *)

Section Session.
  Context {W : Type} `{FlashMapOk W} `{FlashSectors W} `{BootConfig} `{LoaderConfig} `{XipConfig}.
  Context `{ValidateConfig} `{Sha} `{Signing} `{Platform W} `{SwapAlgo W}.
  Context `{ZcborConfig} `{FrameConfig} `{SerialLib} `{SerialConfig} `{!Uart W} `{!UartOk W} `{ConsoleConfig} `{Peruser W}.
  Variable fap : flash_area.
  Hypothesis Ha : fm_area fap.
  Hypothesis Hbig : Forall (λ n, 1 < n) (fm_sizes fap).
  Hypothesis Hre : device_requires_erase fap = true.
  Variable img : list Z.
  Hypothesis Himg : Forall is_u8 img.
  Variable num : Z.
  Hypothesis Hnum : 0 <= num < UINT32_MAX.
  Hypothesis Hopen : ∀ w, fm_ok w → flash_area_open (upload_area_id num) w = (Ret (0, fap), w).
  Hypothesis Hstart : uses SWAP_USING_OFFSET && MCUBOOT_SERIAL_DIRECT_IMAGE_UPLOAD = false.
  Hypothesis Halign : flash_area_align fap <= BOOT_MAX_ALIGN.
  Hypothesis Hunal : 0 <= MCUBOOT_SERIAL_UNALIGNED_BUFFER_SIZE ∧ aligned fap MCUBOOT_SERIAL_UNALIGNED_BUFFER_SIZE.
  Hypothesis Hfits : zlen img <= fa_size fap.
  Hypothesis Hlimit : zlen img <= (if MCUBOOT_VALIDATE_PRIMARY_SLOT_ONCE then fa_size fap ⊖ BOOT_MAGIC_SZ else fa_size fap).
  Hypothesis Htrailer : trailer_behind fap img.
  Variable w0 : W.
  Implicit Types (w : W) (s : serial).

(** A message that carries [len] bytes of the image at [off]. *)
Record upload_msg (off len : Z) (m : list Z) : Prop := {
  um_range : 0 <= off ∧ 0 < len ∧ off + len <= zlen img;
  um_room : zlen m + 2 <= max_input;
  um_parts : ∃ h ind es, m = bytes_of_hdr h ++ cbor_enc (CMap ind (entries_items es)) ∧
    hdr_ok h ∧ (nh_op h = NMGR_OP_READ ∨ nh_op h = NMGR_OP_WRITE) ∧
    ntohs (nh_group h) = MGMT_GROUP_ID_IMAGE ∧ nh_id h = IMGMGR_NMGR_ID_UPLOAD ∧
    zlen m - NMGR_HDR_SIZE <= ntohs (nh_len h) ∧
    upload_entries num (zlen img) off (slice img off len) es ∧ cbor_ok (CMap ind (entries_items es));
}.

(** The buffers have their sizes. *)
Definition sane s : Prop := zlen (dec_buf s) = max_input ∧ 16 <= zlen (buffer (cbor_state s)) ∧ up_start_off (upload s) = 0.

#[local] Abbreviation uploads := (uploading fap img w0 num).

(** The state of the upload does not depend on the UART. *)
Lemma uploads_same w w' u :
  fm_ok w' → (∀ fa, fm_area fa → fm_cells w' fa = fm_cells w fa) → uploads w u → uploads w' u.
Proof using Ha.
  intros Hok Hc [Hstd Hrg Hfl]. split; [done|done|].
  assert (Ho : only_slot fap w0 w → only_slot fap w0 w').
  { intros Hw. apply (only_slot_trans fap w0 w); [done|done|]. intros. by apply Hc. }
  destruct (curr_off u <? zlen img).
  - destruct Hfl as [? ? ? ? Hfr Hp]. unfold has_prefix in *. rewrite <- (Hc fap Ha) in Hfr, Hp. split; auto.
  - destruct Hfl as [? Hp]. unfold has_prefix in *. rewrite <- (Hc fap Ha) in Hp. auto.
Qed.

Lemma uploads_only w u : uploads w u → only_slot fap w0 w.
Proof using Type. intros [_ _ Hfl]. destruct (curr_off u <? zlen img); [apply Hfl|apply Hfl]. Qed.

(** The response, sent with the header of the request. *)
Definition sent_rsp (h : nmgr_hdr) (off : Z) : list Z :=
  let data := cbor_enc (upload_rsp off) in
  let '(h', out) := boot_serial_output h data in
  if MCUBOOT_SERIAL_RAW_PROTOCOL then bytes_of_hdr h' ++ data else out.

Lemma serial_output_wp w s data Q C :
  fm_ok w → slice (buffer (cbor_state s)) 0 (payload (pos (cbor_state s))) = data →
  (let '(h', out) := boot_serial_output (get_hdr s) data in
   ∀ w', uart_write (if MCUBOOT_SERIAL_RAW_PROTOCOL then bytes_of_hdr h' ++ data else out) w = (Ret (), w') → fm_ok w' →
     (∀ fa, fm_area fa → fm_cells w' fa = fm_cells w fa) → Q () (w', put_hdr s h')) →
  wp serial_output Q C (w, s).
Proof using UartOk0.
  intros Hok Hd HQ. unfold serial_output, wp. unfold mbind at 1, M_bind at 1. cbn [get_serial fst snd]. rewrite Hd.
  destruct (boot_serial_output (get_hdr s) data) as [h' out]. unfold mbind, M_bind, modify, platform. cbn [fst snd].
  destruct (uart_write_ok w (if MCUBOOT_SERIAL_RAW_PROTOCOL then bytes_of_hdr h' ++ data else out) Hok) as (w' & Hw & Hok' & Hc).
  rewrite Hw. by apply HQ.
Qed.

Lemma upload_puts_wp w s off Q C :
  is_u32 off → cbor_state s = zcbor_new_state (buffer (cbor_state s)) (2 + CBOR_EXTRA_STATES) 0 → 16 <= zlen (buffer (cbor_state s)) →
  (∀ z, slice (buffer z) 0 (payload (pos z)) = cbor_enc (upload_rsp off) → zlen (buffer z) = zlen (buffer (cbor_state s)) → Q () (w, set_cbor s z)) →
  wp (puts [zcbor_map_start_encode 10; zcbor_tstr_put_lit "rc"; zcbor_int32_put 0; zcbor_tstr_put_lit "off"; zcbor_uint32_put off;
            zcbor_map_end_encode 10]) Q C (w, s).
Proof using All.
  intros Ho Hnew Hroom HQ. pose proof (upload_rsp_len off Ho) as Hlen. pose proof (zlen_nonneg (cbor_enc (upload_rsp off))).
  set (b := buffer (cbor_state s)) in *.
  destruct (map_emits [zcbor_tstr_put_lit "rc"; zcbor_int32_put 0; zcbor_tstr_put_lit "off"; zcbor_uint32_put off]
              [CText (lit "rc"); CUint 0; CText (lit "off"); CUint off] 10 0) with (s := cbor_state s) as (z & Hrun & Hw).
  - repeat apply Forall2_cons_2; [..|by apply Forall2_nil_2].
    + by apply text_emits.
    + by apply int_emits.
    + by apply text_emits.
    + by apply uint_emits.
  - lia.
  - lia.
  - intros _. done.
  - rewrite Hnew. unfold room. cbn [pos zcbor_new_state payload payload_end buffer]. fold (upload_rsp off). lia.
  - intros Hcan. rewrite Hnew. unfold zcbor_new_state, CBOR_EXTRA_STATES. rewrite Hcan. cbn. done.
  - fold (upload_rsp off) in Hw. destruct Hw as [Hb Hp _ _ _ _]. rewrite Hnew in Hb, Hp. cbn [pos zcbor_new_state payload buffer] in Hb, Hp.
    pose proof (puts_eq _ w s z Hrun) as Hput. cbn [app] in Hput. unfold wp. rewrite Hput. apply HQ.
    + rewrite Hb, Hp, Z.add_0_l. apply slice_splice_eq; lia.
    + rewrite Hb. apply zlen_splice; lia.
Qed.

(** Where the upload stands after a chunk. *)
Definition track (c : Z) (r : Z * Z) : Z :=
  if (r.1 =? 0) || (r.1 =? c) then next_off fap img r.1 r.2 else c.

Lemma bs_upload_wp w s h off len ind es :
  cbor_state s = zcbor_new_state (buffer (cbor_state s)) (2 + CBOR_EXTRA_STATES) 0 → 16 <= zlen (buffer (cbor_state s)) →
  get_hdr s = h →
  upload_entries num (zlen img) off (slice img off len) es → cbor_ok (CMap ind (entries_items es)) →
  0 <= off → 0 < len → off + len <= zlen img → only_slot fap w0 w → up_start_off (upload s) = 0 →
  (off = 0 ∨ uploads w (upload s)) →
  wp (bs_upload (cbor_enc (CMap ind (entries_items es))))
    (λ _ st, ∃ w1 u z h', uploads w1 u ∧ curr_off u = track (curr_off (upload s)) (off, len) ∧
       uart_write (sent_rsp h (curr_off u)) w1 = (Ret (), st.1) ∧ uploads st.1 u ∧
       zlen (buffer z) = zlen (buffer (cbor_state s)) ∧ st.2 = put_hdr (set_cbor (set_upload s u) z) h')
    (λ st, only_slot fap w0 st.1) (w, s).
Proof using All.
  intros Hnew Hroom Hh Hes Hok Ho Hl Hol Hw Hs0 Hcase. pose proof (size_bound fap Ha).
  assert (Hzc : zlen (slice img off len) = len) by (rewrite zlen_slice; lia).
  destruct (upload_request_eq num (zlen img) off (slice img off len) ind es (w, s)) as (num_tmp & size_tmp & addr & Hreq & Hfirst);
    try done; try (unfold is_u32, UINT32_MAX; lia).
  unfold bs_upload. apply wp_bind. eapply wp_eq; [exact Hreq|].
  eapply wp_mono; [apply (upload_chunk_wp fap Ha Hbig Hre img Himg Hfits w0 Hstart Halign Hunal Hlimit Htrailer w s num); try done| |done].
  { destruct (decide (off = 0)) as [E|E]; [left; destruct (Hfirst E); auto|right; split; [done|]; by destruct Hcase]. }
  intros rc [w1 s1] (-> & u & Hs1 & Hup & Hcu). cbn [fst snd] in *. subst s1. apply wp_upload_get.
  change (upload (set_upload s u)) with u. cbn [Z.eqb app]. apply wp_bind.
  pose proof (un_range _ _ _ _ _ _ Hup) as Hrg.
  apply upload_puts_wp; [unfold is_u32; lia|done|done|]. intros z Hz Hzb.
  eapply (serial_output_wp w1 _ _); [by apply (uploads_only w1 u)|exact Hz|].
  change (get_hdr (set_cbor (set_upload s u) z)) with (get_hdr s). rewrite Hh.
  destruct (boot_serial_output h (cbor_enc (upload_rsp (curr_off u)))) as [h' out] eqn:Hout. intros w2 Hw2 Hok2 Hc2.
  exists w1, u, z, h'. split; [done|]. split; [exact Hcu|]. split; [unfold sent_rsp; by rewrite Hout|].
  split; [by apply (uploads_same w1)|]. split; [exact Hzb|done].
Qed.

(** A decoded message is put behind its length and handled. *)
Definition deliver (m : list Z) : SM W unit :=
  modify (λ s, set_dec_buf s (splice (dec_buf s) 2 m));;
  boot_serial_input DecBuf (zlen m).

Lemma wp_modify {A} f (k : unit → SM W A) Q C w s : wp (k ()) Q C (w, f s) → wp (modify f ≫= k) Q C (w, s).
Proof using Type. done. Qed.

Lemma wp_get_serial {A} (k : serial → SM W A) Q C w s : wp (k s) Q C (w, s) → wp (get_serial ≫= k) Q C (w, s).
Proof using Type. done. Qed.

Lemma command_seen_wp (Q : unit → W * serial → Prop) C w s :
  (∀ s', in_buf s' = in_buf s → dec_buf s' = dec_buf s → cbor_state s' = cbor_state s → upload s' = upload s → Q () (w, s')) → wp command_seen Q C (w, s).
Proof using Type.
  intros HQ. unfold command_seen. destruct MCUBOOT_SERIAL_WAIT_FOR_DFU; cbn [negb]; [|by apply wp_ret, HQ].
  unfold wp, modify. cbn [fst snd]. apply HQ; cbv beta; destruct (MCUBOOT_SERIAL_INACTIVITY_TIMEOUT && (0 <? bs_rearm_ms s)); reflexivity.
Qed.

Lemma put_hdr_dec s h : bs_hdr s = DecBuf → 10 <= zlen (dec_buf s) → zlen (dec_buf (put_hdr s h)) = zlen (dec_buf s).
Proof using All.
  intros Hp Hz. unfold put_hdr, set_msg_buf, msg_buf, place_off. rewrite Hp. cbn [dec_buf set_dec_buf]. apply zlen_splice; [lia|].
  change (zlen (bytes_of_hdr h)) with 8. lia.
Qed.

(** What a request leaves behind: the response has been written, with the offset
    expected next. *)
Definition answered (m : list Z) (c : Z) (st : W * serial) : Prop :=
  sane st.2 ∧ uploads st.1 (upload st.2) ∧ curr_off (upload st.2) = c ∧
  ∃ h p w1, m = bytes_of_hdr h ++ p ∧ hdr_ok h ∧
    uart_write (sent_rsp (set_nh_group h MGMT_GROUP_ID_IMAGE) c) w1 = (Ret (), st.1).

Lemma deliver_wp w s off len m :
  sane s → upload_msg off len m → only_slot fap w0 w → (off = 0 ∨ uploads w (upload s)) →
  wp (deliver m) (λ _, answered m (track (curr_off (upload s)) (off, len))) (λ st, only_slot fap w0 st.1) (w, s).
Proof using All.
  intros (Hdec & Hcb & Hs0) [(Ho & Hl & Hol) Hroom (h & ind & es & Hm & Hh & Hop & Hgr & Hid & Hlen & Hes & Hok)] Hw Hcase.
  set (p := cbor_enc (CMap ind (entries_items es))) in *. destruct (bytes_of_hdr_bytes h Hh) as [_ Hz8]. unfold NMGR_HDR_SIZE in *.
  assert (Hzm : zlen m = 8 + zlen p) by (rewrite Hm, zlen_app; lia). pose proof (zlen_nonneg p).
  unfold deliver. apply wp_modify. set (s1 := set_dec_buf s _).
  assert (Hz1 : zlen (dec_buf s1) = max_input) by (cbn [s1 dec_buf set_dec_buf]; rewrite zlen_splice by lia; done).
  assert (Hsl : ∀ a n, 0 <= a → 0 <= n → a + n <= zlen m → slice (dec_buf s1) (2 + a) n = slice m a n).
  { intros a n Ha0 Hn Han. cbn [s1 dec_buf set_dec_buf]. rewrite slice_splice_inside by lia. f_equal. lia. }
  assert (Hhdr : hdr_of_bytes (slice (dec_buf s1) 2 8) = h).
  { rewrite <- (Z.add_0_r 2), Hsl, Hm, slice_app_l by lia. rewrite <- Hz8, slice_full. by apply hdr_round. }
  assert (Hpay : slice (dec_buf s1) 10 (zlen m - 8) = p).
  { change 10 with (2 + 8). rewrite Hsl, Hm, slice_app_r by lia. replace (8 - zlen (bytes_of_hdr h)) with 0 by lia.
    replace (zlen (bytes_of_hdr h ++ p) - 8) with (zlen p) by (rewrite <- Hm; lia). apply slice_full. }
  unfold boot_serial_input. apply wp_get_serial. cbn [place_buf place_off]. unfold NMGR_HDR_SIZE.
  rewrite (proj2 (Z.ltb_ge (zlen (dec_buf s1)) _)), Hhdr by lia.
  rewrite (proj2 (Z.ltb_ge (zlen m) 8)), (proj2 (Z.ltb_ge (ntohs (nh_len h)) _)) by lia. rewrite Hgr.
  assert (Hcond : negb (nh_op h =? NMGR_OP_READ) && negb (nh_op h =? NMGR_OP_WRITE) = false) by (destruct Hop as [-> | ->]; done).
  rewrite Hcond. cbn [orb]. set (h1 := set_nh_group h MGMT_GROUP_ID_IMAGE). apply wp_modify. change (2 + 8) with 10. rewrite Hpay.
  set (s2 := put_hdr (set_bs_hdr s1 DecBuf) h1). apply wp_modify. set (s3 := set_cbor s2 _).
  assert (Hh1 : hdr_ok h1).
  { unfold hdr_ok, h1, MGMT_GROUP_ID_IMAGE, is_u8, is_u16 in *. cbn [nh_op nh_version nh_res1 nh_flags nh_len nh_group nh_seq nh_id set_nh_group]. lia. }
  assert (Hget : get_hdr s3 = h1).
  { unfold get_hdr. change (slice (msg_buf s3) (place_off (bs_hdr s3)) NMGR_HDR_SIZE) with (slice (splice (dec_buf s1) 2 (bytes_of_hdr h1)) 2 8).
    rewrite slice_splice_eq; [by apply hdr_round|lia|change (zlen (bytes_of_hdr h1)) with 8; lia|done]. }
  unfold h1 at 1 2. cbn [nh_group nh_id set_nh_group]. change (MGMT_GROUP_ID_IMAGE =? MGMT_GROUP_ID_IMAGE) with true. cbv iota.
  unfold image_command. cbn [nh_id set_nh_group h1]. rewrite Hid. change (IMGMGR_NMGR_ID_UPLOAD =? IMGMGR_NMGR_ID_STATE) with false.
  change (IMGMGR_NMGR_ID_UPLOAD =? IMGMGR_NMGR_ID_UPLOAD) with true. cbv iota. apply wp_bind.
  eapply wp_mono; [apply (bs_upload_wp w s3 h1 off len ind es); done| |done].
  intros _ [w4 s4] (w1 & u & z & h' & Hu1 & Hcu & Hsent & Hu4 & Hzb & Hs4). cbn [fst snd] in *. subst s4.
  change (curr_off u = track (curr_off (upload s)) (off, len)) in Hcu. apply command_seen_wp. intros s5 _ Hd5 Hc5 Hu5. unfold answered, sane. cbn [fst snd]. rewrite Hd5, Hc5, Hu5.
  change (upload (put_hdr (set_cbor (set_upload s3 u) z) h')) with u. change (cbor_state (put_hdr (set_cbor (set_upload s3 u) z) h')) with z.
  rewrite put_hdr_dec; [|done|].
  2:{ change (dec_buf (set_cbor (set_upload s3 u) z)) with (splice (dec_buf s1) 2 (bytes_of_hdr h1)).
      rewrite zlen_splice; [lia|lia|]. change (zlen (bytes_of_hdr h1)) with 8. lia. }
  split; [|split; [done|split; [exact Hcu|]]].
  - split; [|split; [|by apply Hu4]].
    + change (dec_buf (set_cbor (set_upload s3 u) z)) with (splice (dec_buf s1) 2 (bytes_of_hdr h1)).
      rewrite zlen_splice; [done|lia|]. change (zlen (bytes_of_hdr h1)) with 8. lia.
    + rewrite Hzb. exact Hcb.
  - exists h, p, w1. split; [done|]. split; [done|]. by rewrite <- Hcu.
Qed.

(** ** Sessions *)

Fixpoint deliver_all (ms : list (list Z)) : SM W unit :=
  match ms with
  | [] => mret ()
  | m :: ms => deliver m;; deliver_all ms
  end.

(** The client's view: the slot holds the first [c] bytes of the image, nothing else has
    changed. *)
Definition holds_to (c : Z) (st : W * serial) : Prop :=
  curr_off (upload st.2) = c ∧ only_slot fap w0 st.1 ∧ has_prefix fap img st.1 c.

Lemma uploads_prefix w u : uploads w u → has_prefix fap img w (curr_off u).
Proof using Type.
  intros [_ Hrg Hfl]. destruct (curr_off u <? zlen img) eqn:Hlt; zsimp; [apply Hfl|].
  replace (curr_off u) with (zlen img) by (clear -Hrg Hlt; lia). apply Hfl.
Qed.

Lemma session_wp rs ms w s :
  Forall2 (λ r m, upload_msg r.1 r.2 m) rs ms → sane s → uploads w (upload s) →
  wp (deliver_all ms) (λ _, holds_to (fold_left track rs (curr_off (upload s)))) (λ st, only_slot fap w0 st.1) (w, s).
Proof using All.
  intros Hms. revert w s. induction Hms as [|[off len] m rs ms Hm _ IH]; intros w s Hs Hup; cbn [deliver_all fold_left].
  - apply wp_ret. split; [done|]. split; [by eapply uploads_only|by apply uploads_prefix].
  - apply wp_bind. eapply wp_mono; [apply (deliver_wp w s off len m); [done|done|by eapply uploads_only|by right]| |done].
    intros [] [w1 s1] (Hs1 & Hup1 & Hc1 & _). cbn [fst snd] in *. rewrite <- Hc1. by apply IH.
Qed.


(** A client that goes on where the response tells it to, with [k] bytes at a time. *)
Fixpoint client (fuel : nat) (k c : Z) : list (Z * Z) :=
  match fuel with
  | O => []
  | S fuel => if c <? zlen img then let len := Z.min k (zlen img - c) in (c, len) :: client fuel k (next_off fap img c len) else []
  end.

Lemma next_off_progress c k :
  flash_area_align fap <= k → 0 <= c < zlen img → let n := next_off fap img c (Z.min k (zlen img - c)) in c < n <= zlen img.
Proof using All.
  intros Hk Hc. pose proof (align_bounds fap Ha). unfold next_off. destruct (_ <? _) eqn:Hlt; zsimp; [|lia].
  replace (Z.min k (zlen img - c)) with k in * by lia. pose proof (Z.mod_pos_bound k (flash_area_align fap)) as Hmod.
  specialize (Hmod ltac:(lia)). lia.
Qed.

Lemma client_ends fuel k c :
  flash_area_align fap <= k → 0 <= c <= zlen img → zlen img - c <= Z.of_nat fuel → fold_left track (client fuel k c) c = zlen img.
Proof using All.
  intros Hk. revert c. induction fuel as [|fuel IH]; intros c Hc Hf; cbn [client fold_left]; [lia|].
  destruct (c <? zlen img) eqn:Hlt; zsimp; cbn [fold_left]; [|lia].
  unfold track at 2. cbn [fst snd]. rewrite Z.eqb_refl, orb_true_r.
  pose proof (next_off_progress c k Hk ltac:(lia)) as Hn. cbv zeta in Hn. apply IH; lia.
Qed.


End Session.
