(* ===== verification/SerialProps.v ===== *)
(** * Serial recovery on arbitrary input

    Whatever the bytes of a message are, handling it ends without an access outside of
    the buffers; messages other than those on images leave the flash alone.  Numbers and
    versions are printed in decimal. *)

From Stdlib Require Import String.
From S2P Require Import Prelude Effects FlashMap BootConfig Trailer SwapState Area Image Tlv.
From S2P Require Import LoaderState Sectors Validate BootLoop MultiImage DirectXip.
From S2P Require Import Zcbor ZcborProps ZcborRound ZcborEncode SerialFrame SerialFrameProps Serial SerialImages SerialConsole SerialUpload SerialSession.

#[local] Set Default Proof Using "Type*".

(** ** The decoders *)

Section Decoders.
  Context `{ZcborConfig} `{SerialConfig} {W : Type}.
  Variable b : list Z.
  Hypothesis Hb : Forall is_u8 b.

Lemma decode_wp {A} (c : M zcbor_state A) n Q C (ws : W * serial) :
  wp c (λ a _, Q a ws) (λ _, False) (zcbor_new_state b n 1) → wp (decode b c n) Q C ws.
Proof using Type. unfold wp, decode. by destruct (c _) as [[] ?]. Qed.

Lemma decode_map_wp map Q C (ws : W * serial) :
  Forall (entry_ok b) map → (∀ rc map' m, Forall (entry_ok b) map' → Q (rc, map', m) ws) → wp (decode_map b map) Q C ws.
Proof using Hb.
  intros Hmap HQ. apply decode_wp. eapply wp_mono; [by apply bulk_safe; [|apply new_state_ok|]| |done].
  intros [[rc map'] m] s' (_ & Hmap' & _). by apply HQ.
Qed.

(** One entry of an echo request. *)
Lemma echo_step_wp s :
  state_ok b s → wp (echo_step ()) (λ r s', state_ok b s' ∧ if r is inl _ then at_ s < at_ s' else True) (λ _, False) s.
Proof using Hb.
  intros Hs. unfold echo_step. wp_step (str_decode_safe b Hb ZCBOR_MAJOR_TYPE_TSTR); [done|].
  intros [key|] s1 [Hs1 Hr]; [|by apply wp_ret]. destruct Hr as [Hlt (Hv & Hl & Hvl & _)].
  apply wp_bind. eapply (wp_mono _ (λ _ s', s' = s1) _ (λ _, False)); [|intros c s2 ->|done].
  - case_if H1; [|by apply wp_ret]. unfold wp, read_bytes. destruct Hs1 as (-> & _).
    by rewrite (proj2 (Z.leb_le _ _)), (proj2 (Z.leb_le _ _)) by lia.
  - case_if Hd.
    + wp_step (str_decode_safe b Hb ZCBOR_MAJOR_TYPE_TSTR); [done|]. intros v s2 [Hs2 _]. by apply wp_ret.
    + wp_step (zcbor_any_skip_wp b Hb); [done|]. intros [[]|] s2 Hs2; apply wp_ret; (split; [by apply Hs2|]); [|done].
      destruct Hs2 as [_ Hs2]. lia.
Qed.

Lemma echo_loop_wp n s :
  state_ok b s → zlen b - at_ s < Z.of_nat n → wp (loop n echo_step ()) (λ _ s', state_ok b s') (λ _, False) s.
Proof using Hb.
  revert s. induction n as [|n IH]; intros s Hs Hn.
  { destruct Hs as (_ & (? & ? & ?) & _). unfold at_ in *. lia. }
  cbn [loop]. wp_step echo_step_wp; [done|]. intros [[]|r] s1 [Hs1 Hr]; [|by apply wp_ret]. apply IH; [done|lia].
Qed.

Lemma echo_decode_wp s : state_ok b s → wp echo_decode (λ _ s', state_ok b s') (λ _, False) s.
Proof using Hb.
  intros Hs. unfold echo_decode, zbind. wp_step (map_start_safe b Hb); [done|]. intros [[]|] s1 [Hs1 _]; [|by apply wp_ret].
  apply wp_get_pos. wp_step echo_loop_wp; [done| |].
  { rewrite Nat2Z.inj_succ, (bytes_left_eq b) by done. lia. }
  intros [v|] s2 Hs2; [|by apply wp_ret]. wp_step (map_end_wp b Hb); [done|]. intros [[]|] s3 Hs3; by apply wp_ret.
Qed.

End Decoders.

(** ** The handlers *)

Section Handlers.
  Context {W : Type} `{FlashMapOk W} `{FlashSectors W} `{BootConfig} `{LoaderConfig} `{XipConfig}.
  Context `{ValidateConfig} `{Sha} `{Signing} `{Platform W} `{SwapAlgo W}.
  Context `{ZcborConfig} `{FrameConfig} `{SerialLib} `{SerialConfig} `{!Uart W} `{!UartOk W} `{ConsoleConfig} `{Peruser W}.
  Variable room : Z.
  Hypothesis Hmax : 10 <= max_input.
  Implicit Types (w : W) (s : serial).

(** The buffers have their sizes and the encoder is inside its one. *)
Definition tidy s : Prop := zlen (in_buf s) = max_input ∧ zlen (dec_buf s) = max_input ∧ enc_ok room (cbor_state s).

(** The flash and the upload are as before. *)
Definition calm w s (st : W * serial) : Prop :=
  fm_ok st.1 ∧ (∀ fa, fm_area fa → fm_cells st.1 fa = fm_cells w fa) ∧ tidy st.2 ∧ upload st.2 = upload s.

Lemma calm_trans w s w' s' st : calm w s (w', s') → calm w' s' st → calm w s st.
Proof using Type.
  intros (_ & Hc & _ & Hu) (Hok & Hc' & Ht & Hu'). cbn [fst snd] in *. split; [done|]. split; [|split; [done|by rewrite Hu', Hu]].
  intros fa Hfa. rewrite Hc' by done. by apply Hc.
Qed.

Lemma calm_cbor w s z : fm_ok w → tidy s → enc_ok room z → calm w s (w, set_cbor s z).
Proof using Type. intros Hok (? & ? & ?) Hz. done. Qed.

Lemma encode_wp c w s Q C : enc_safe room c → tidy s → (∀ r z, enc_ok room z → Q r (w, set_cbor s z)) → wp (encode c) Q C (w, s).
Proof using Type.
  intros Hc (_ & _ & Hz) HQ. specialize (Hc _ Hz). unfold wp, encode in *. cbn [fst snd].
  destruct (c (cbor_state s)) as [[o| | | |] z]; try done. by apply HQ.
Qed.

Lemma puts_wp l w s : Forall (enc_safe room) l → fm_ok w → tidy s → wp (puts l) (λ _, calm w s) (λ _, False) (w, s).
Proof using Type.
  intros Hl Hok. revert s. induction Hl as [|c l Hc _ IH]; intros s Ht; cbn [puts]; [by apply wp_ret|].
  apply wp_bind, encode_wp; [done|done|]. intros _ z Hz. pose proof (calm_cbor w s z Hok Ht Hz) as Hcalm.
  eapply wp_mono; [apply IH, Hcalm| |done]. intros [] st Hst. by apply (calm_trans w s w (set_cbor s z)).
Qed.

Lemma put_hdr_tidy s h : tidy s → tidy (put_hdr s h).
Proof using Hmax.
  intros (Hi & Hd & Hz). unfold put_hdr, set_msg_buf, msg_buf, place_off. destruct (bs_hdr s); (split; [|split; [|done]]); try done;
    cbn [in_buf dec_buf set_in_buf set_dec_buf]; rewrite zlen_splice; try done; try lia; change (zlen (bytes_of_hdr h)) with 8; lia.
Qed.

Lemma output_wp w s : fm_ok w → tidy s → wp serial_output (λ _, calm w s) (λ _, False) (w, s).
Proof using Hmax UartOk0.
  intros Hok Ht. eapply serial_output_wp; [done|done|]. destruct (boot_serial_output _ _) as [h' out]. intros w' _ Hok' Hc.
  split; [done|]. split; [done|]. split; [by apply put_hdr_tidy|]. cbn [snd]. unfold put_hdr, set_msg_buf. by destruct (bs_hdr s).
Qed.

Lemma then_wp {A} (c : SM W A) w s (k : A → SM W unit) :
  wp c (λ _, calm w s) (λ _, False) (w, s) →
  (∀ a w' s', fm_ok w' → tidy s' → wp (k a) (λ _, calm w' s') (calm w' s') (w', s')) →
  wp (c ≫= k) (λ _, calm w s) (calm w s) (w, s).
Proof using Type.
  intros Hc Hk. apply wp_bind. eapply wp_mono; [exact Hc| |done]. intros a [w' s'] Hst. destruct (Hst) as (Hok' & _ & Ht' & _).
  eapply wp_mono; [by apply Hk| |]; intros; by apply (calm_trans w s w' s').
Qed.

(** ** Commands *)

(** A command that leaves the flash alone, whatever becomes of it. *)
Definition safe_cmd (c : SM W unit) : Prop :=
  ∀ w s, fm_ok w → tidy s → wp c (λ _, calm w s) (calm w s) (w, s).

Lemma uint_put_safe v : enc_safe room (zcbor_uint32_put v).
Proof using Type. apply value_encode_safe. lia. Qed.
Lemma int_put_safe v : enc_safe room (zcbor_int32_put v).
Proof using Type. unfold zcbor_int32_put. case_if Hv; apply value_encode_safe; lia. Qed.
Lemma bool_put_safe v : enc_safe room (zcbor_bool_put v).
Proof using Type. apply value_encode_safe. lia. Qed.
Lemma tstr_put_safe l : enc_safe room (zcbor_tstr_encode_ptr l).
Proof using Type. apply str_encode_safe. Qed.
Lemma map_start_put_safe n : enc_safe room (zcbor_map_start_encode n).
Proof using Type. apply start_encode_safe. Qed.
Lemma map_end_put_safe n : 0 <= n <= 23 → enc_safe room (zcbor_map_end_encode n).
Proof using Type. apply end_encode_safe. Qed.

Ltac encoders :=
  repeat first [ apply Forall_app_2 | apply List.Forall_nil | apply List.Forall_cons
               | apply uint_put_safe | apply int_put_safe | apply bool_put_safe | apply tstr_put_safe
               | apply map_start_put_safe | apply map_end_put_safe; lia ].

Lemma safe_weaken (c : SM W unit) w s : wp c (λ _, calm w s) (λ _, False) (w, s) → wp c (λ _, calm w s) (calm w s) (w, s).
Proof using Type. intros Hc. eapply wp_mono; [exact Hc|done|done]. Qed.

Lemma rc_rsp_safe rc : safe_cmd (bs_rc_rsp rc).
Proof using Hmax UartOk0.
  intros w s Hok Ht. unfold bs_rc_rsp. apply then_wp; [apply puts_wp; [encoders|done|done]|].
  intros [] w' s' Hok' Ht'. by apply safe_weaken, output_wp.
Qed.

Lemma reset_rsp_safe rc : safe_cmd (reset_cbor_state;; bs_rc_rsp rc).
Proof using Hmax UartOk0.
  intros w s Hok Ht. apply wp_modify. set (s' := set_cbor s _).
  assert (Ht' : tidy s').
  { destruct Ht as (? & ? & Hz & Hp & Hb). split; [done|]. split; [done|]. unfold enc_ok, s', zcbor_new_state, pos_in. cbn [cbor_state set_cbor buffer pos backup_list payload payload_end].
    pose proof (zlen_nonneg (buffer (cbor_state s))). split; [done|]. split; [lia|apply List.Forall_nil]. }
  eapply wp_mono; [by apply (rc_rsp_safe rc w s')| |]; intros; by apply (calm_trans w s w s').
Qed.

(** The response is sent if it could be encoded. *)
Lemma answer_safe l rc :
  Forall (enc_safe room) l → safe_cmd (ok ← encode (all_ok l); if ok : bool then serial_output else reset_cbor_state;; bs_rc_rsp rc).
Proof using Hmax UartOk0.
  intros Hl w s Hok Ht. apply then_wp.
  - apply encode_wp; [by apply all_ok_safe|done|]. intros r z Hz. by apply calm_cbor.
  - intros [] w' s' Hok' Ht'; [by apply safe_weaken, output_wp|by apply reset_rsp_safe].
Qed.

Lemma echo_safe buf : Forall is_u8 buf → safe_cmd (bs_echo buf).
Proof using Hmax UartOk0.
  intros Hb w s Hok Ht. unfold bs_echo. apply wp_bind, decode_wp. eapply wp_mono; [by apply (echo_decode_wp buf Hb), new_state_ok| |done].
  intros [v|] _ _; [|by apply reset_rsp_safe]. apply then_wp; [apply puts_wp; [encoders|done|done]|].
  intros [] w' s' Hok' Ht'. apply answer_safe; [encoders|done|done].
Qed.

Lemma info_safe buf : Forall is_u8 buf → safe_cmd (bs_bootloader_info buf).
Proof using Hmax UartOk0.
  intros Hb w s Hok Ht. unfold bs_bootloader_info. apply wp_bind, decode_map_wp; [done| |].
  { apply List.Forall_cons; [|apply List.Forall_nil]. split; [|done]. apply as_string_safe; [done|]. by apply str_decode_safe. }
  intros rc map' m _. case_if Hrc; [by apply rc_rsp_safe|]. destruct (default _ _) as [v l]. apply then_wp.
  - apply encode_wp; [encoders|done|]. intros r z Hz. by apply calm_cbor.
  - intros _ w' s' Hok' Ht'. unfold bootloader_info. repeat case_match; simplify_eq; try (by apply reset_rsp_safe); (apply answer_safe; [encoders|done|done]).
Qed.

Lemma params_safe : safe_cmd bs_mcumgr_params.
Proof using Hmax UartOk0. intros w s Hok Ht. unfold bs_mcumgr_params. apply answer_safe; [encoders|done|done]. Qed.

Lemma reset_safe : safe_cmd bs_reset.
Proof using Hmax UartOk0.
  intros w s Hok Ht. apply wp_bind. eapply wp_mono; [by apply (rc_rsp_safe 0)| |done]. intros [] [w' s'] Hst. exact Hst.
Qed.

Lemma default_safe h buf : Forall is_u8 buf → safe_cmd (default_command h buf).
Proof using Hmax UartOk0.
  intros Hb. unfold default_command. repeat case_match; auto using rc_rsp_safe, echo_safe, info_safe, params_safe, reset_safe.
Qed.

(** C20: A message of any bytes that is not about images, in either buffer and of any
    length that fits: it is handled without an access outside of the buffers, in a bounded
    number of steps, and neither it nor the restart it may ask for changes the flash or the
    state of an upload. *)
Theorem other_groups_safe p len w s :
  fm_ok w → tidy s → Forall is_u8 (place_buf s p) → place_off p + len <= max_input → MCUBOOT_PERUSER_MGMT_GROUP_ENABLED = false →
  ntohs (nh_group (hdr_of_bytes (slice (place_buf s p) (place_off p) NMGR_HDR_SIZE))) ≠ MGMT_GROUP_ID_IMAGE →
  wp (boot_serial_input p len) (λ _, calm w s) (calm w s) (w, s).
Proof using Hmax UartOk0.
  intros Hok Ht Hb Hlen Hper Hgr. unfold boot_serial_input. apply wp_get_serial.
  rewrite (proj2 (Z.ltb_ge _ _)) by (destruct Ht as (? & ? & _), p; cbn [place_buf place_off] in *; lia). case_if Hbad; [by apply wp_ret|].
  set (h := set_nh_group _ _). apply wp_modify, wp_modify. set (s1 := put_hdr _ h). set (s2 := set_cbor s1 _).
  assert (Ht2 : calm w s (w, s2)).
  { assert (Ht1 : tidy s1) by (by apply put_hdr_tidy). destruct Ht1 as (? & ? & Hz & _). pose proof (zlen_nonneg (buffer (cbor_state s1))).
    split; [done|]. split; [done|]. split; [|by destruct p]. split; [done|]. split; [done|]. unfold enc_ok, pos_in.
    cbn [snd s2 cbor_state set_cbor zcbor_new_state buffer pos payload payload_end backup_list]. split; [done|]. split; [lia|apply List.Forall_nil]. }
  unfold h at 1. cbn [nh_group set_nh_group]. rewrite (proj2 (Z.eqb_neq _ _) Hgr), Hper.
  set (cmd := if _ =? MGMT_GROUP_ID_DEFAULT then _ else _).
  assert (Hcmd : safe_cmd cmd) by (unfold cmd; case_match; [by apply default_safe, Forall_slice|apply rc_rsp_safe]).
  apply wp_bind. eapply wp_mono; [apply Hcmd; [done|apply Ht2]| |].
  - intros [] [w3 s3] Hst. apply command_seen_wp. intros s4 Hi Hd Hc Hu. apply (calm_trans w s w s2); [done|].
    destruct Hst as (? & ? & Ht3 & Hu3). split; [done|]. split; [done|]. unfold tidy in *. cbn [fst snd] in *. by rewrite Hi, Hd, Hc, Hu.
  - intros st Hst. by apply (calm_trans w s w s2).
Qed.

End Handlers.

(** ** Numbers in decimal *)

(** The number a string of digits stands for. *)
Definition decimal (l : list Z) : Z := fold_left (λ v c, v * 10 + (c - 48)) l 0.

Lemma decimal_acc l v : fold_left (λ v c, v * 10 + (c - 48)) l v = v * 10 ^ zlen l + decimal l.
Proof.
  unfold decimal. revert v. induction l as [|c l IH]; intros v; cbn [fold_left]; [rewrite zlen_nil; lia|].
  rewrite IH, (IH (0 * 10 + (c - 48))), zlen_cons, Z.pow_add_r by (pose proof (zlen_nonneg l); lia). lia.
Qed.

Lemma pow10_S (k : nat) : 10 ^ Z.of_nat (S k) = 10 * 10 ^ Z.of_nat k.
Proof. rewrite Nat2Z.inj_succ, Z.pow_succ_r by lia. done. Qed.

Lemma u32toa_scale_spec fuel (k : nat) val :
  is_u32 val → 10 ^ Z.of_nat k <= Z.max 1 val → (k + fuel >= 10)%nat →
  ∃ j : nat, u32toa_scale fuel val (10 ^ Z.of_nat k) = 10 ^ Z.of_nat j ∧ val < 10 ^ Z.of_nat (S j) ∧ 10 ^ Z.of_nat j <= Z.max 1 val.
Proof.
  intros Hv. revert k. induction fuel as [|fuel IH]; intros k Hk Hf; cbn [u32toa_scale].
  - exists k. split; [done|]. split; [|done]. assert (10 ^ 10 <= 10 ^ Z.of_nat k) by (apply Z.pow_le_mono_r; lia).
    rewrite pow10_S. unfold is_u32 in Hv. change (10 ^ 10) with 10000000000 in *. lia.
  - assert (Hp : 0 < 10 ^ Z.of_nat k) by (apply Z.pow_pos_nonneg; lia). destruct (10 <=? val / 10 ^ Z.of_nat k) eqn:Hd; zsimp.
    + assert (Hge : 10 * 10 ^ Z.of_nat k <= val) by (apply Z.div_le_lower_bound in Hd || (pose proof (Z.mul_div_le val (10 ^ Z.of_nat k) Hp); nia)).
      assert (He : 10 ^ Z.of_nat k ⊗ 10 = 10 ^ Z.of_nat (S k)) by (rewrite pow10_S, u32_small by (unfold is_u32 in *; lia); lia).
      rewrite He. apply IH; [rewrite pow10_S; lia|lia].
    + exists k. split; [done|]. split; [|done]. rewrite pow10_S. pose proof (Z.div_mod val (10 ^ Z.of_nat k)). pose proof (Z.mod_pos_bound val _ Hp). nia.
Qed.

(** All digits from a power of ten on, as soon as one has to be printed. *)
Lemma u32toa_digits_spec fuel (k : nat) val n :
  0 <= val < 10 ^ Z.of_nat (S k) → 0 <= n → (n ≠ 0 ∨ 10 ^ Z.of_nat k <= val ∨ k = 0%nat) → (fuel > k)%nat →
  let l := u32toa_digits fuel val (10 ^ Z.of_nat k) n in
  decimal l = val ∧ zlen l = Z.of_nat (S k) ∧ Forall (λ c, 48 <= c <= 57) l ∧ head l = Some (val / 10 ^ Z.of_nat k + 48).
Proof.
  revert k val n. induction fuel as [|fuel IH]; intros k val n Hv Hn Hp Hf l; [lia|]. subst l. cbn [u32toa_digits].
  assert (Hk : 0 < 10 ^ Z.of_nat k) by (apply Z.pow_pos_nonneg; lia). rewrite (proj2 (Z.eqb_neq _ _)) by lia.
  rewrite pow10_S in Hv. set (d := 10 ^ Z.of_nat k) in *.
  pose proof (Z.div_mod val d ltac:(lia)) as Hdm. pose proof (Z.mod_pos_bound val d Hk) as Hmb. set (q := val / d) in *. set (r := val mod d) in *.
  assert (Hq : 0 <= q <= 9) by nia.
  assert (Hcond : negb (n =? 0) || (0 <? q) || (d / 10 =? 0) = true).
  { destruct Hp as [Hp|[Hp|Hp]].
    - by rewrite (proj2 (Z.eqb_neq _ _) Hp).
    - rewrite (proj2 (Z.ltb_lt 0 q)) by nia. by rewrite orb_true_r.
    - unfold d. rewrite Hp. by rewrite orb_true_r. }
  rewrite Hcond. clear Hcond. clearbody q r. destruct k as [|k].
  - assert (Hd : d = 1) by done. rewrite Hd in *. change (1 / 10) with 0. assert (Hnil : u32toa_digits fuel r 0 (n + 1) = []) by (by destruct fuel).
    rewrite Hnil. unfold decimal. cbn [fold_left head]. split; [lia|]. split; [done|]. split; [|done].
    apply List.Forall_cons; [lia|apply List.Forall_nil].
  - assert (Hd : d / 10 = 10 ^ Z.of_nat k) by (unfold d; rewrite pow10_S, Z.mul_comm, Z.div_mul by lia; done). rewrite Hd.
    destruct (IH k r (n + 1)) as (Hdec & Hlen & Hall & _); [exact Hmb|lia|left; lia|lia|].
    unfold decimal at 1. cbn [fold_left head]. rewrite decimal_acc, Hdec, Hlen, zlen_cons, Hlen. unfold d in Hdm. split; [lia|].
    split; [lia|]. split; [|done]. apply List.Forall_cons; [lia|done].
Qed.

Lemma u32toa_spec val :
  is_u32 val →
  decimal (u32toa val) = val ∧ 1 <= zlen (u32toa val) ∧ 10 ^ (zlen (u32toa val) - 1) <= Z.max 1 val ∧
  Forall (λ c, 48 <= c <= 57) (u32toa val).
Proof.
  intros Hv. unfold u32toa. destruct (u32toa_scale_spec 10 0 val Hv) as (j & Hs & Hlt & Hle); [change (10 ^ Z.of_nat 0) with 1; lia|lia|].
  change (10 ^ Z.of_nat 0) with 1 in Hs. rewrite Hs.
  assert (Hj : (j < 11)%nat).
  { destruct (decide (j < 11)%nat); [done|]. assert (10 ^ 10 <= 10 ^ Z.of_nat j) by (apply Z.pow_le_mono_r; lia).
    change (10 ^ 10) with 10000000000 in *. unfold is_u32 in Hv. lia. }
  destruct (u32toa_digits_spec 11 j val 0) as (Hd & Hl & Hf & _); [unfold is_u32 in Hv; lia|lia| |lia|].
  { right. destruct j; [by right|]. left. assert (10 ^ 1 <= 10 ^ Z.of_nat (S j)) by (apply Z.pow_le_mono_r; lia). lia. }
  rewrite Hd, Hl. split; [done|]. split; [lia|]. split; [|done]. replace (Z.of_nat (S j) - 1) with (Z.of_nat j) by lia. done.
Qed.

(** The length of a number below a power of ten. *)
Lemma u32toa_len val k : is_u32 val → 0 < k → val < 10 ^ k → zlen (u32toa val) <= k.
Proof.
  intros Hv Hk Hlt. destruct (u32toa_spec val Hv) as (_ & _ & Hl & _). destruct (decide (zlen (u32toa val) <= k)) as [|Hn]; [done|].
  assert (10 ^ k <= 10 ^ (zlen (u32toa val) - 1)) by (apply Z.pow_le_mono_r; lia).
  assert (10 ^ 1 <= 10 ^ k) by (apply Z.pow_le_mono_r; lia). lia.
Qed.

(** The parts of a string between dots. *)
Fixpoint dotted (l : list Z) : list (list Z) :=
  match l with
  | [] => [[]]
  | c :: l => if c =? 46 then [] :: dotted l else
      match dotted l with p :: ps => (c :: p) :: ps | [] => [[c]] end
  end.

Lemma dotted_last l : Forall (λ c, 48 <= c <= 57) l → dotted l = [l].
Proof.
  induction l as [|c l IH]; intros Hl; [done|]. apply Forall_cons_1 in Hl as [Hc Hl]. cbn [dotted].
  rewrite (proj2 (Z.eqb_neq _ _)) by lia. by rewrite IH.
Qed.

Lemma dotted_app l r : Forall (λ c, 48 <= c <= 57) l → dotted (l ++ lit "." ++ r) = l :: dotted r.
Proof.
  induction l as [|c l IH]; intros Hl; [done|]. apply Forall_cons_1 in Hl as [Hc Hl]. cbn [dotted app].
  rewrite (proj2 (Z.eqb_neq _ _)) by lia. by rewrite IH.
Qed.

(** The text of a version in the list of images reads back as the version: between its
    dots it has the decimal numbers of the major, minor and revision fields, and of the
    build number when that is not zero.  It has at most 24 characters, as the comment at
    the function reckons. *)
Theorem version_printed ver :
  is_u8 (iv_major ver) → is_u8 (iv_minor ver) → is_u16 (iv_revision ver) → is_u32 (iv_build_num ver) →
  decimal <$> dotted (bs_list_img_ver ver) =
    [iv_major ver; iv_minor ver; iv_revision ver] ++ (if iv_build_num ver =? 0 then [] else [iv_build_num ver]) ∧
  zlen (bs_list_img_ver ver) <= 24.
Proof.
  intros Ha Hb Hc Hd. assert (Ha' : is_u32 (iv_major ver)) by (unfold is_u8, is_u32 in *; lia).
  assert (Hb' : is_u32 (iv_minor ver)) by (unfold is_u8, is_u32 in *; lia). assert (Hc' : is_u32 (iv_revision ver)) by (unfold is_u16, is_u32 in *; lia).
  destruct (u32toa_spec _ Ha') as (Ea & _ & _ & Fa). destruct (u32toa_spec _ Hb') as (Eb & _ & _ & Fb).
  destruct (u32toa_spec _ Hc') as (Ec & _ & _ & Fc). destruct (u32toa_spec _ Hd) as (Ed & _ & _ & Fd).
  pose proof (u32toa_len _ 3 Ha' ltac:(lia) ltac:(unfold is_u8 in Ha; lia)). pose proof (u32toa_len _ 3 Hb' ltac:(lia) ltac:(unfold is_u8 in Hb; lia)).
  pose proof (u32toa_len _ 5 Hc' ltac:(lia) ltac:(unfold is_u16 in Hc; lia)). pose proof (u32toa_len _ 10 Hd ltac:(lia) ltac:(unfold is_u32 in Hd; lia)).
  assert (Hdot : zlen (lit ".") = 1) by done. unfold bs_list_img_ver. destruct (iv_build_num ver =? 0); cbn [negb].
  - rewrite app_nil_r, dotted_app, dotted_app, dotted_last, !zlen_app by assumption. cbn [fmap list_fmap]. rewrite Ea, Eb, Ec. split; [reflexivity|lia].
  - rewrite dotted_app, dotted_app, dotted_app, dotted_last, !zlen_app by assumption. cbn [fmap list_fmap]. rewrite Ea, Eb, Ec, Ed. split; [reflexivity|lia].
Qed.
