(* ===== verification/RamLoad.v ===== *)
(** * Loading images to RAM

    ram_load.c: the image in the active slot is copied to the address in its header,
    after a check of the address against the executable RAM and the images loaded
    before.  The RAM is a function from addresses to bytes that the operations take and
    return.  Image encryption is off. *)

From S2P Require Import Sectors Prelude Effects FlashMap BootConfig Area Image LoaderState MultiImage.

Definition IMAGE_F_RAM_LOAD : Z := 0x20.

(** The RAM of the platform; with several regions the platform tells the one of an
    image as return code, start and size. *)
Class RamConfig := {
  IMAGE_RAM_BASE : Z;
  IMAGE_EXECUTABLE_RAM_START : Z;
  IMAGE_EXECUTABLE_RAM_SIZE : Z;
  MULTIPLE_EXECUTABLE_RAM_REGIONS : bool;
  boot_get_image_exec_ram_info : Z → Z * Z * Z;
}.

Definition sram : Type := Z → Z.

Definition sram_write (m : sram) (addr : Z) (d : list Z) : sram :=
  λ a, if (addr <=? a) && (a <? addr + zlen d) then d !!! Z.to_nat (a - addr) else m a.

Definition sram_read (m : sram) (addr len : Z) : list Z := m <$> seqZ addr len.

Section RamLoad.
  Context {W : Type} `{FlashMap W} `{BootConfig} `{RamConfig} `{SwapAlgo W}.

(** Start and size of the RAM for an image. *)
Definition exec_ram (i : Z) : option (Z * Z) :=
  if MULTIPLE_EXECUTABLE_RAM_REGIONS then
    let '(rc, start, size) := boot_get_image_exec_ram_info i in if negb (rc =? 0) then None else Some (start, size)
  else Some (IMAGE_EXECUTABLE_RAM_START, IMAGE_EXECUTABLE_RAM_SIZE).

Definition boot_verify_ram_load_address (i : Z) (u : slot_usage) : Z :=
  match exec_ram i with
  | None => BOOT_EBADSTATUS
  | Some (exec_ram_start, exec_ram_size) =>
      if img_dst u <? exec_ram_start then BOOT_EBADIMAGE else
      match boot_u32_safe_add (img_dst u) (img_sz u) with
      | None => BOOT_EBADIMAGE
      | Some img_end_addr => if exec_ram_start ⊕ exec_ram_size <? img_end_addr then BOOT_EBADIMAGE else 0
      end
  end.

(** The bytes the driver delivers end up in RAM, also when it reports an error. *)
Definition boot_copy_image_to_sram (x : image_state) (slot dst sz : Z) (m : sram) : M W (Z * sram) :=
  '(rc, b) ← flash_area_read (BOOT_IMG_AREA (im_loader x) slot) 0 sz;
  mret (rc, sram_write m (IMAGE_RAM_BASE + dst) b).

Definition do_regions_overlap (start_a end_a start_b end_b : Z) : bool :=
  if end_a <? start_b then false
  else if start_a <=? start_b then true
  else start_a <? end_b.

(** The usages [l] from image [k] on, against the region of image [i]. *)
Fixpoint overlaps_any (i start_a end_a : Z) (k : Z) (l : list image_state) : bool :=
  match l with
  | [] => false
  | x :: l =>
      let u := im_usage x in
      if (active_slot u =? BOOT_SLOT_NONE) || (k =? i) then overlaps_any i start_a end_a (k + 1) l
      else do_regions_overlap start_a end_a (img_dst u) (img_dst u ⊕ img_sz u) || overlaps_any i start_a end_a (k + 1) l
  end.

Definition boot_check_ram_load_overlapping (d : boot_data) (i : Z) (u : slot_usage) : Z :=
  if overlaps_any i (img_dst u) (img_dst u ⊕ img_sz u) 0 (images d) then -1 else 0.

(** The active slot of image [i].  A failure of the address checks leaves destination
    and size set; other failures clear them or leave them as they were. *)
Definition boot_load_image_to_sram (d : boot_data) (i : Z) (m : sram) : M W (Z * boot_data * sram) :=
  x ← array_get (images d) i;
  let slot := active_slot (im_usage x) in
  let hdr := boot_img_hdr (im_loader x) slot in
  if Z.land (ih_flags hdr) IMAGE_F_RAM_LOAD =? 0 then
    mret (BOOT_EBADIMAGE, set_usage d i x (set_img_load (im_usage x) 0 0), m)
  else
    let dst := ih_load_addr hdr in
    '(rc, sz, state) ← boot_read_image_size (im_loader x) slot;
    let x := ImageState state (im_usage x) in
    if negb (rc =? 0) then mret (rc, set_image d i x, m) else
    let u := set_img_load (im_usage x) dst sz in
    let d := set_usage d i x u in
    let rc := boot_verify_ram_load_address i u in
    if negb (rc =? 0) then mret (rc, d, m) else
    let rc := if 1 <? BOOT_IMAGE_NUMBER then boot_check_ram_load_overlapping d i u else 0 in
    if negb (rc =? 0) then mret (rc, d, m) else
    '(rc, m) ← boot_copy_image_to_sram x slot dst sz m;
    mret (rc, if negb (rc =? 0) then set_usage d i x (set_img_load u 0 0) else d, m).

(** The image is overwritten with zeros. *)
Definition boot_remove_image_from_sram (d : boot_data) (i : Z) (m : sram) : M W (Z * boot_data * sram) :=
  x ← array_get (images d) i;
  let u := im_usage x in
  mret (0, set_usage d i x (set_img_load u 0 0),
        sram_write m (IMAGE_RAM_BASE + img_dst u) (replicate (Z.to_nat (img_sz u)) 0)).

Definition boot_remove_image_from_flash (x : image_state) (slot : Z) : M W Z :=
  boot_scramble_slot (BOOT_IMG_AREA (im_loader x) slot) slot.

(** An image from outside of the slots takes the place of the active one. *)
Definition boot_load_image_from_flash_to_sram (d : boot_data) (i : Z) (hdr : image_header) (fap : flash_area) (m : sram)
  : M W (Z * boot_data * sram) :=
  x ← array_get (images d) i;
  let slot := active_slot (im_usage x) in
  let state := set_img_area (set_img_hdr (im_loader x) slot hdr) slot fap in
  boot_load_image_to_sram (set_loader d i x state) i m.

End RamLoad.
