(* ===== verification/SwapOffset.v ===== *)
(** * Swap using offset

    swap_offset.c: the image in the secondary slot lies one sector up; sector by
    sector the primary slot is copied to the secondary and the secondary, one sector
    above, back to the primary, with a status byte after each half. *)

From S2P Require Import Prelude Effects FlashMap BootConfig Trailer SwapState Area Image.
From S2P Require Import Tlv LoaderState SwapMisc.

Section SwapOffset.
  Context {W : Type} `{FlashMap W} `{BootConfig}.

(** The loop of [find_last_idx]; at most one turn per byte. *)
Definition find_last_idx (state : boot_loader_state) (swap_size : Z) : M W Z :=
  sector_sz ← boot_img_sector_size state BOOT_SLOT_PRIMARY 0;
  loop (S (Z.to_nat swap_size))
    (λ '(sz, last_idx),
       let sz := sz ⊕ sector_sz in
       if swap_size <=? sz then mret (inr last_idx) else mret (inl (sz, last_idx ⊕ 1)))
    (0, 0).

(** ** Status *)

(** One iteration over the status entries, from the last to the first. *)
Definition status_bytes_step (fap : flash_area) (off write_sz : Z) (s : Z * Z * Z * Z)
  : M W ((Z * Z * Z * Z) + (Z + Z * Z)) :=
  let '(i, found_idx, erased_sections, last_rc) := s in
  if negb (0 <? i) then mret (inr (inr (found_idx, erased_sections))) else
  '(rc, status) ← flash_area_read fap (off ⊕ (i - 1) * write_sz) 1;
  if rc <? 0 then mret (inr (inl BOOT_EFLASH)) else
  if bootutil_buffer_is_erased fap status then
    mret (inl (i - 1, found_idx, if negb (rc =? last_rc) then erased_sections + 1 else erased_sections, rc))
  else
    mret (inl (i - 1, if found_idx =? -1 then i else found_idx, erased_sections, rc)).

Definition swap_read_status_bytes (fap : flash_area) (state : boot_loader_state) (bs : boot_status)
  : M W (Z * boot_status) :=
  let max_entries := boot_status_entries (curr_img_idx state) fap in
  if max_entries <? 0 then mret (BOOT_EBADARGS, bs) else
  let wsz := u8 (write_sz state) in
  off ← boot_status_off fap;
  r ← loop (S (Z.to_nat max_entries)) (status_bytes_step fap off wsz) (max_entries, -1, 0, 1);
  match r with
  | inl rc => mret (rc, bs)
  | inr (found_idx, erased_sections) =>
      (if (1 <? erased_sections) && negb MCUBOOT_VALIDATE_PRIMARY_SLOT then abort else mret ());;
      if found_idx =? -1 then mret (0, bs)
      else
        mret (0, set_bs_op
                   (set_bs_next bs (found_idx / BOOT_STATUS_SWAP_STATE_COUNT + BOOT_STATUS_IDX_0)
                      (found_idx mod BOOT_STATUS_SWAP_STATE_COUNT + BOOT_STATUS_STATE_0))
                   BOOT_STATUS_OP_SWAP)
  end.

Definition swap_status_source (state : boot_loader_state) : M W Z :=
  p ← boot_read_swap_state (BOOT_IMG_AREA state BOOT_SLOT_PRIMARY);
  match p with
  | inl _ => abort
  | inr state_primary_slot =>
      s ← boot_read_swap_state (BOOT_IMG_AREA state BOOT_SLOT_SECONDARY);
      match s with
      | inl _ => abort
      | inr state_secondary_slot =>
          if (magic state_primary_slot =? BOOT_MAGIC_GOOD) &&
             (copy_done state_primary_slot =? BOOT_FLAG_UNSET) &&
             negb (magic state_secondary_slot =? BOOT_MAGIC_GOOD)
          then mret BOOT_STATUS_SOURCE_PRIMARY_SLOT
          else mret BOOT_STATUS_SOURCE_NONE
      end
  end.

(** [BOOT_STATUS_ASSERT]: a failed status write is only counted when the primary
    slot is validated afterwards. *)
Definition status_assert (b : bool) : M W unit :=
  if MCUBOOT_VALIDATE_PRIMARY_SLOT then mret () else assert b.

(** ** Exchanging one sector *)

(** Erase [dst] at [off_dst] and copy [sz] bytes there. *)
Definition erase_copy (fap_src fap_dst : flash_area) (off_src off_dst sz : Z) : M W unit :=
  rc ← boot_erase_region fap_dst off_dst sz false;
  assert (rc =? 0);;
  rc ← boot_copy_region fap_src fap_dst off_src off_dst sz;
  assert (rc =? 0).

Definition boot_swap_sectors (idx sz : Z) (state : boot_loader_state) (bs : boot_status)
    (fap_pri fap_sec : flash_area) (skip_primary skip_secondary : bool) : M W boot_status :=
  pri_off ← boot_img_sector_off state BOOT_SLOT_PRIMARY idx;
  sec_off ← boot_img_sector_off state BOOT_SLOT_SECONDARY idx;
  sec_up_off ← boot_img_sector_off state BOOT_SLOT_PRIMARY (idx + 1);
  bs ← (if bs_state bs =? BOOT_STATUS_STATE_0 then
          (if skip_primary then mret () else erase_copy fap_pri fap_sec pri_off sec_off sz);;
          rc ← boot_write_status state bs;
          let bs := set_bs_state bs BOOT_STATUS_STATE_1 in
          status_assert (rc =? 0);;
          mret bs
        else mret bs);
  if bs_state bs =? BOOT_STATUS_STATE_1 then
    (if skip_secondary then mret () else erase_copy fap_sec fap_pri sec_up_off pri_off sz);;
    rc ← boot_write_status state bs;
    let bs := set_bs_next bs (bs_idx bs ⊕ 1) BOOT_STATUS_STATE_0 in
    status_assert (rc =? 0);;
    mret bs
  else mret bs.

Definition boot_swap_sectors_revert (idx sz : Z) (state : boot_loader_state) (bs : boot_status)
    (fap_pri fap_sec : flash_area) (skip_primary skip_secondary : bool) : M W boot_status :=
  pri_off ← boot_img_sector_off state BOOT_SLOT_PRIMARY idx;
  sec_off ← boot_img_sector_off state BOOT_SLOT_SECONDARY (idx + 1);
  sec_up_off ← boot_img_sector_off state BOOT_SLOT_PRIMARY idx;
  bs ← (if bs_state bs =? BOOT_STATUS_STATE_0 then
          (if skip_primary then mret () else erase_copy fap_pri fap_sec pri_off sec_off sz);;
          rc ← boot_write_status state bs;
          let bs := set_bs_state bs BOOT_STATUS_STATE_1 in
          status_assert (rc =? 0);;
          mret bs
        else mret bs);
  if bs_state bs =? BOOT_STATUS_STATE_1 then
    (if skip_secondary then mret () else erase_copy fap_sec fap_pri sec_up_off pri_off sz);;
    rc ← boot_write_status state bs;
    let bs := set_bs_next bs (bs_idx bs ⊕ 1) BOOT_STATUS_STATE_0 in
    status_assert (rc =? 0);;
    mret bs
  else mret bs.

(** ** The swap *)

Definition fixup_revert (state : boot_loader_state) (bs : boot_status) (fap_sec : flash_area) : M W unit :=
  if negb (bs_swap_type bs =? BOOT_SWAP_TYPE_REVERT) || negb (bs_idx bs =? BOOT_STATUS_IDX_0) then mret ()
  else
    st ← boot_read_swap_state fap_sec;
    match st with
    | inl _ => abort
    | inr swap_state =>
        if magic swap_state =? BOOT_MAGIC_UNSET then
          rc ← swap_scramble_trailer_sectors state fap_sec;
          assert (rc =? 0);;
          rc ← boot_write_copy_done fap_sec;
          assert (rc =? 0);;
          rc ← swap_status_init state fap_sec bs;
          assert (rc =? 0)
        else mret ()
    end.

(** The search for the first trailer sector; one turn per sector. *)
Definition first_trailer_idx (sector_sz trailer_sz num_sectors : Z) : M W Z :=
  loop (S (Z.to_nat trailer_sz))
    (λ '(sz, idx),
       let sz := sz ⊕ sector_sz in
       if trailer_sz <=? sz then mret (inr idx) else mret (inl (sz, idx ⊖ 1)))
    (0, num_sectors ⊖ 1).

(** [used_sectors]: whole sectors taken by an image. *)
Definition used_sectors (hdr : image_header) (unprotected_tlv_size sector_sz : Z) : M W Z :=
  udiv (ih_hdr_size hdr ⊕ unprotected_tlv_size ⊕ ih_protect_tlv_size hdr ⊕ ih_img_size hdr
          ⊕ sector_sz ⊖ 1) sector_sz.

(** One turn of the loop over the sectors. *)
Definition swap_loop_step (state : boot_loader_state) (fap_pri fap_sec : flash_area) (revert : bool)
    (sector_sz last_idx used_pri used_sec : Z) (s : Z * boot_status)
  : M W ((Z * boot_status) + boot_status) :=
  let '(idx, bs) := s in
  if negb (idx <=? last_idx) then mret (inr bs) else
  bs ← (if (bs_idx bs ⊖ BOOT_STATUS_IDX_0) <=? idx then
          if revert then
            let mirror_idx := last_idx ⊖ idx in
            boot_swap_sectors_revert mirror_idx sector_sz state bs fap_pri fap_sec
              (used_pri <? mirror_idx) (used_sec <? mirror_idx)
          else
            boot_swap_sectors idx sector_sz state bs fap_pri fap_sec
              (used_pri <? idx) (used_sec <? idx)
        else mret bs);
  mret (inl (idx ⊕ 1, bs)).

(** The check for free space when a new swap starts. *)
Definition swap_fits (state : boot_loader_state) (bs : boot_status) (last_idx sector_sz : Z) : M W bool :=
  if boot_status_is_reset bs then
    first ← first_trailer_idx sector_sz (boot_trailer_sz (write_sz state))
              (boot_img_num_sectors state BOOT_SLOT_PRIMARY);
    mret (negb (first <=? last_idx))
  else mret true.

(** Initialising the areas that store the swap status. *)
Definition swap_init_areas (state : boot_loader_state) (bs : boot_status) : M W unit :=
  let fap_pri := BOOT_IMG_AREA state BOOT_SLOT_PRIMARY in
  let fap_sec := BOOT_IMG_AREA state BOOT_SLOT_SECONDARY in
  if bs_idx bs =? BOOT_STATUS_IDX_0 then
    (if negb (bs_source bs =? BOOT_STATUS_SOURCE_PRIMARY_SLOT) then
       rc ← swap_scramble_trailer_sectors state fap_pri;
       assert (rc =? 0);;
       rc ← swap_status_init state fap_pri bs;
       assert (rc =? 0)
     else mret ());;
    rc ← swap_scramble_trailer_sectors state fap_sec;
    assert (rc =? 0)
  else mret ().

(** The part of [swap_run] that moves sectors.  The values read by
    [boot_read_unprotected_tlv_sizes] are used also when the read fails; then they
    are not initialised, which the model treats as an invalid access. *)
Definition swap_exchange (state : boot_loader_state) (bs : boot_status) (last_idx sector_sz : Z)
  : M W boot_status :=
  let fap_pri := BOOT_IMG_AREA state BOOT_SLOT_PRIMARY in
  let fap_sec := BOOT_IMG_AREA state BOOT_SLOT_SECONDARY in
  tlvs ← boot_read_unprotected_tlv_sizes fap_pri;
  match tlvs with
  | inl _ => fault
  | inr (tlv_pri, tlv_sec) =>
      let bs := set_bs_op bs BOOT_STATUS_OP_SWAP in
      used_pri ← used_sectors (boot_img_hdr state BOOT_SLOT_PRIMARY) tlv_pri sector_sz;
      used_sec ← used_sectors (boot_img_hdr state BOOT_SLOT_SECONDARY) tlv_sec sector_sz;
      revert ←
        (if bs_swap_type bs =? BOOT_SWAP_TYPE_REVERT then mret true
         else t ← boot_swap_type_multi (curr_img_idx state); mret (t =? BOOT_SWAP_TYPE_REVERT));
      bs ← loop (S (S (Z.to_nat last_idx)))
             (swap_loop_step state fap_pri fap_sec revert sector_sz last_idx used_pri used_sec) (0, bs);
      if revert : bool then
        off ← boot_img_sector_off state BOOT_SLOT_SECONDARY 0;
        rc ← boot_scramble_region fap_sec off sector_sz false;
        assert (rc =? 0);;
        rc ← swap_scramble_trailer_sectors state fap_sec;
        assert (rc =? 0);;
        mret bs
      else mret bs
  end.

Definition swap_run (state : boot_loader_state) (bs : boot_status) (copy_size : Z) : M W boot_status :=
  last_idx ← find_last_idx state copy_size;
  sector_sz ← boot_img_sector_size state BOOT_SLOT_PRIMARY 0;
  fits ← swap_fits state bs last_idx sector_sz;
  if negb fits then mret (set_bs_swap_type bs BOOT_SWAP_TYPE_NONE) else
  fixup_revert state bs (BOOT_IMG_AREA state BOOT_SLOT_SECONDARY);;
  swap_init_areas state bs;;
  swap_exchange state bs last_idx sector_sz.

End SwapOffset.
