(* ===== verification/SwapHeaders.v ===== *)
(** * Headers and sizes during a swap with offset

    The rest of swap_offset.c: where the header of an image is while the swap is
    under way, the size of an image with its TLVs, whether the slots can be swapped
    at all, and the largest image that fits. *)

From S2P Require Import Prelude Effects FlashMap BootConfig Trailer SwapState Area Image.
From S2P Require Import Sectors Tlv LoaderState SwapMisc SwapOffset.

Section SwapHeaders.
  Context {W : Type} `{FlashMap W} `{BootConfig}.

(** Slot and offset at which the header of the image that started in [slot] is
    looked for, with an interrupted swap. *)
Definition header_place (revert : bool) (slot : Z) (bs : boot_status) (last_idx sz : Z) : Z * Z :=
  if revert then
    if slot =? 0 then
      if (last_idx <? bs_idx bs ⊖ BOOT_STATUS_IDX_0) ||
         ((bs_idx bs ⊖ BOOT_STATUS_IDX_0 =? last_idx) && (bs_state bs =? BOOT_STATUS_STATE_1))
      then (1, sz) else (0, 0)
    else if slot =? 1 then
      if (last_idx <? bs_idx bs ⊖ BOOT_STATUS_IDX_0) ||
         ((bs_idx bs ⊖ BOOT_STATUS_IDX_0 =? last_idx) && (bs_state bs =? BOOT_STATUS_STATE_2))
      then (0, 0) else (1, 0)
    else (slot, 0)
  else if slot =? 0 then
    if ((BOOT_STATUS_IDX_0 <? bs_idx bs) ||
        ((bs_idx bs =? BOOT_STATUS_IDX_0) && (bs_state bs =? BOOT_STATUS_STATE_1))) &&
       (bs_idx bs <=? last_idx)
    then (1, 0) else (0, 0)
  else if slot =? 1 then
    if BOOT_STATUS_IDX_0 <? bs_idx bs then (0, 0) else (1, sz)
  else (slot, 0).

(** The [||] of the two revert conditions. *)
Definition is_revert (state : boot_loader_state) (bs : boot_status) : M W bool :=
  if bs_swap_type bs =? BOOT_SWAP_TYPE_REVERT then mret true
  else t ← boot_swap_type_multi (curr_img_idx state); mret (t =? BOOT_SWAP_TYPE_REVERT).

(** The slot and offset to read, and whether the other sector is tried as well;
    [None] is a failure to find the swap size. *)
Definition header_source (state : boot_loader_state) (slot : Z) (bs : option boot_status)
  : M W (option (Z * Z * bool)) :=
  match bs with
  | None =>
      off ← (if slot =? BOOT_SLOT_SECONDARY then
               t ← boot_swap_type_multi (curr_img_idx state);
               if negb (t =? BOOT_SWAP_TYPE_REVERT) then boot_img_sector_size state BOOT_SLOT_SECONDARY 0
               else mret 0
             else mret 0);
      mret (Some (slot, off, true))
  | Some bs =>
      if negb (boot_status_is_reset bs) then
        f ← boot_find_status state;
        match f with
        | None => mret None
        | Some fap =>
            '(rc, swap_size) ← boot_read_swap_size fap;
            if negb (rc =? 0) then mret None else
            last_idx ← find_last_idx state swap_size;
            sz ← boot_img_sector_size state BOOT_SLOT_PRIMARY 0;
            revert ← is_revert state bs;
            let '(slot, off) := header_place revert slot bs last_idx sz in
            mret (Some (slot, off, false))
        end
      else
        revert ← is_revert state bs;
        off ← (if revert : bool then mret 0
               else if slot =? BOOT_SLOT_SECONDARY then boot_img_sector_size state BOOT_SLOT_SECONDARY 0
               else mret 0);
        mret (Some (slot, off, true))
  end.

(** The header is an output parameter; a failed read leaves it as it was.  The
    bootstrap option is off. *)
Definition boot_read_image_header (state : boot_loader_state) (slot : Z) (hdr : image_header)
    (bs : option boot_status) : M W (Z * image_header * boot_loader_state) :=
  src ← header_source state slot bs;
  match src with
  | None => mret (BOOT_EFLASH, hdr, state)
  | Some (slot, off, check_other_sector) =>
      let fap := BOOT_IMG_AREA state slot in
      '(rc, b) ← flash_area_read fap off IMAGE_HEADER_SIZE;
      if negb (rc =? 0) then mret (BOOT_EFLASH, hdr, state) else
      let hdr := header_of_bytes b in
      other ←
        (if check_other_sector && negb (ih_magic hdr =? IMAGE_MAGIC) && (slot =? BOOT_SLOT_SECONDARY) then
           t ← boot_swap_type_multi (curr_img_idx state);
           off ← (if negb (t =? BOOT_SWAP_TYPE_REVERT) then mret 0
                  else boot_img_sector_size state BOOT_SLOT_SECONDARY 0);
           '(rc, b) ← flash_area_read fap off IMAGE_HEADER_SIZE;
           mret (if negb (rc =? 0) then None else Some (off, header_of_bytes b))
         else mret (Some (off, hdr)));
      match other with
      | None => mret (BOOT_EFLASH, hdr, state)
      | Some (off, hdr) =>
          let state :=
            if (ih_magic hdr =? IMAGE_MAGIC) && bool_decide (is_Some bs) && (slot =? BOOT_SLOT_SECONDARY)
            then set_secondary_offset state off else state in
          if bool_decide (is_Some bs) && negb (ih_magic hdr =? IMAGE_MAGIC) then mret (-1, hdr, state)
          else mret (0, hdr, state)
      end
  end.

(** Total size of an image with its TLVs; the size of the unprotected TLVs is kept
    in the state. *)
Definition boot_read_image_size (state : boot_loader_state) (slot : Z) : M W (Z * Z * boot_loader_state) :=
  let fap := BOOT_IMG_AREA state slot in
  let hdr := boot_img_hdr state slot in
  let off := BOOT_TLV_OFF hdr in
  let secondary_slot_off := if slot =? BOOT_SLOT_SECONDARY then secondary_offset state else 0 in
  '(rc, b) ← flash_area_read fap (off ⊕ secondary_slot_off) 4;
  if negb (rc =? 0) then mret (BOOT_EFLASH, 0, state) else
  let '(it_magic, it_tlv_tot) := pair_of_bytes b in
  let protect_tlv_size := ih_protect_tlv_size hdr in
  info ←
    (if it_magic =? IMAGE_TLV_PROT_INFO_MAGIC then
       if negb (protect_tlv_size =? it_tlv_tot) then mret (inl BOOT_EBADIMAGE) else
       '(rc, b) ← flash_area_read fap (off ⊕ secondary_slot_off ⊕ it_tlv_tot) 4;
       if negb (rc =? 0) then mret (inl BOOT_EFLASH) else mret (inr (pair_of_bytes b))
     else if negb (protect_tlv_size =? 0) then mret (inl BOOT_EBADIMAGE)
     else mret (inr (it_magic, it_tlv_tot)));
  match info with
  | inl rc => mret (rc, 0, state)
  | inr (it_magic, it_tlv_tot) =>
      if negb (it_magic =? IMAGE_TLV_INFO_MAGIC) then mret (BOOT_EBADIMAGE, 0, state)
      else mret (0, off ⊕ protect_tlv_size ⊕ it_tlv_tot, set_img_tlv_size state slot it_tlv_tot)
  end.

(** The comparison of sector sizes, from sector [i]. *)
Definition same_layout_step (state : boot_loader_state) (n : Z) (i : Z) : M W (Z + bool) :=
  if negb (i <? n) then mret (inr true) else
  p ← boot_img_sector_size state BOOT_SLOT_PRIMARY i;
  q ← boot_img_sector_size state BOOT_SLOT_SECONDARY i;
  if negb (p =? q) then mret (inr false) else mret (inl (i ⊕ 1)).

(** Without expected erase and write sizes.  The test after the loop, for a primary
    slot with more sectors than the secondary, cannot be reached. *)
Definition boot_slots_compatible (state : boot_loader_state) : M W bool :=
  let num_sectors_pri := boot_img_num_sectors state BOOT_SLOT_PRIMARY in
  let num_sectors_sec := boot_img_num_sectors state BOOT_SLOT_SECONDARY in
  if negb (num_sectors_pri =? num_sectors_sec) && negb (num_sectors_pri ⊕ 1 =? num_sectors_sec) then mret false
  else if BOOT_MAX_IMG_SECTORS <? num_sectors_pri then mret false
  else
    let n := num_sectors_sec ⊖ 1 in
    loop (S (S (Z.to_nat n))) (same_layout_step state n) 0.

(** The result is an [int]; it is not negative for slots below 2 GiB. *)
Definition app_max_size (state : boot_loader_state) : M W Z :=
  sector_sz ← boot_img_sector_size state BOOT_SLOT_PRIMARY 0;
  let trailer_sz := ALIGN_UP (boot_trailer_sz (write_sz state)) sector_sz in
  let available_pri_sz := (boot_img_num_sectors state BOOT_SLOT_PRIMARY ⊗ sector_sz) ⊖ trailer_sz in
  let available_sec_sz :=
    (boot_img_num_sectors state BOOT_SLOT_SECONDARY ⊗ sector_sz) ⊖ trailer_sz ⊖ sector_sz in
  mret (if available_pri_sz <? available_sec_sz then available_pri_sz else available_sec_sz).

End SwapHeaders.

(** swap_offset.c as the algorithm linked in. *)
Definition swap_offset_algo {W : Type} `{FlashMap W} `{BootConfig} : Sectors.SwapAlgo W := {|
  Sectors.app_max_size := app_max_size;
  Sectors.boot_slots_compatible := boot_slots_compatible;
  Sectors.boot_read_image_header := boot_read_image_header;
  Sectors.boot_read_image_size := boot_read_image_size;
  Sectors.swap_status_source := swap_status_source;
  Sectors.swap_read_status_bytes := swap_read_status_bytes;
  Sectors.swap_run := swap_run;
|}.
