(* ===== verification/SwapMove.v ===== *)
(** * Swap using move

    swap_move.c: the image in the primary slot is first moved up by one sector, the
    last sector first; then, sector by sector, the secondary slot is copied down to
    the primary and the moved sector to the secondary.  Each move and each half of an
    exchange is followed by a status byte.  The code shared with swap_offset.c (the
    status assertion, an erase followed by a copy, one iteration over the status
    entries, the search for the first trailer sector) is that of SwapOffset.v. *)

From S2P Require Import Prelude Effects FlashMap BootConfig Trailer SwapState Area Image.
From S2P Require Import Sectors Tlv LoaderState SwapMisc SwapOffset.

Section SwapMove.
  Context {W : Type} `{FlashMap W} `{BootConfig}.

(** The number of sectors; at most one turn per byte. *)
Definition find_last_idx (state : boot_loader_state) (swap_size : Z) : M W Z :=
  sector_sz ← boot_img_sector_size state BOOT_SLOT_PRIMARY 0;
  loop (S (Z.to_nat swap_size))
    (λ '(sz, last_idx),
       let sz := sz ⊕ sector_sz in
       let last_idx := last_idx ⊕ 1 in
       if swap_size <=? sz then mret (inr last_idx) else mret (inl (sz, last_idx)))
    (0, 0).

(** ** Headers *)

(** Slot and offset of a header while a swap is under way. *)
Definition header_place (slot : Z) (bs : boot_status) (last_idx sz : Z) : Z * Z :=
  if (bs_op bs =? BOOT_STATUS_OP_MOVE) && (slot =? 0) && (last_idx <? bs_idx bs) then (slot, sz)
  else if bs_op bs =? BOOT_STATUS_OP_SWAP then
    if (1 <? bs_idx bs) && (bs_idx bs <=? last_idx) then (if slot =? 0 then 1 else 0, 0)
    else if bs_idx bs =? 1 then
      if slot =? 0 then (slot, sz)
      else if (slot =? 1) && (bs_state bs =? 2) then (0, 0) else (slot, 0)
    else (slot, 0)
  else (slot, 0).

Definition boot_read_image_header (state : boot_loader_state) (slot : Z) (hdr : image_header)
    (bs : option boot_status) : M W (Z * image_header * boot_loader_state) :=
  src ←
    (match bs with
     | Some bs =>
         if negb (boot_status_is_reset bs) then
           f ← boot_find_status state;
           match f with
           | None => mret None
           | Some fap =>
               '(rc, swap_size) ← boot_read_swap_size fap;
               if negb (rc =? 0) then mret None else
               last_idx ← find_last_idx state swap_size;
               sz ← boot_img_sector_size state BOOT_SLOT_PRIMARY 0;
               mret (Some (header_place slot bs last_idx sz))
           end
         else mret (Some (slot, 0))
     | None => mret (Some (slot, 0))
     end);
  match src with
  | None => mret (BOOT_EFLASH, hdr, state)
  | Some (slot, off) =>
      '(rc, b) ← flash_area_read (BOOT_IMG_AREA state slot) off IMAGE_HEADER_SIZE;
      if negb (rc =? 0) then mret (BOOT_EFLASH, hdr, state) else
      let hdr := header_of_bytes b in
      mret (if bool_decide (is_Some bs) && negb (ih_magic hdr =? IMAGE_MAGIC) then -1 else 0, hdr, state)
  end.

(** ** Status *)

Definition swap_read_status_bytes (fap : flash_area) (state : boot_loader_state) (bs : boot_status)
  : M W (Z * boot_status) :=
  let max_entries := boot_status_entries (curr_img_idx state) fap in
  if max_entries <? 0 then mret (BOOT_EBADARGS, bs) else
  let wsz := u8 (write_sz state) in
  off ← boot_status_off fap;
  r ← loop (S (Z.to_nat max_entries)) (status_bytes_step fap off wsz) (max_entries, -1, 0, 1);
  match r with
  | inl rc => mret (rc, bs)
  | inr (found_idx, erased_sections) =>
      (if (1 <? erased_sections) && negb MCUBOOT_VALIDATE_PRIMARY_SLOT then abort else mret ());;
      let move_entries := BOOT_MAX_IMG_SECTORS * BOOT_STATUS_MOVE_STATE_COUNT in
      if found_idx =? -1 then mret (0, bs)
      else if found_idx <? move_entries then
        mret (0, set_bs_op
                   (set_bs_next bs (found_idx / BOOT_STATUS_MOVE_STATE_COUNT + BOOT_STATUS_IDX_0)
                      (found_idx mod BOOT_STATUS_MOVE_STATE_COUNT + BOOT_STATUS_STATE_0))
                   BOOT_STATUS_OP_MOVE)
      else
        mret (0, set_bs_op
                   (set_bs_next bs ((found_idx - move_entries) / BOOT_STATUS_SWAP_STATE_COUNT + BOOT_STATUS_IDX_0)
                      ((found_idx - move_entries) mod BOOT_STATUS_SWAP_STATE_COUNT + BOOT_STATUS_STATE_0))
                   BOOT_STATUS_OP_SWAP)
  end.

Definition swap_status_source (state : boot_loader_state) : M W Z :=
  p ← boot_read_swap_state (BOOT_IMG_AREA state BOOT_SLOT_PRIMARY);
  match p with
  | inl _ => abort
  | inr state_primary_slot =>
      s ← boot_read_swap_state (BOOT_IMG_AREA state BOOT_SLOT_SECONDARY);
      match s with
      | inl _ => abort
      | inr state_secondary_slot =>
          if (magic state_primary_slot =? BOOT_MAGIC_GOOD) &&
             (copy_done state_primary_slot =? BOOT_FLAG_UNSET) &&
             negb (magic state_secondary_slot =? BOOT_MAGIC_GOOD)
          then mret BOOT_STATUS_SOURCE_PRIMARY_SLOT
          else mret BOOT_STATUS_SOURCE_NONE
      end
  end.

(** ** Slots *)

(** The comparison of sector sizes, from sector [i]. *)
Definition same_layout_step (state : boot_loader_state) (n : Z) (i : Z) : M W (Z + bool) :=
  if negb (i <? n) then mret (inr true) else
  p ← boot_img_sector_size state BOOT_SLOT_PRIMARY i;
  q ← boot_img_sector_size state BOOT_SLOT_SECONDARY i;
  if negb (p =? q) then mret (inr false) else mret (inl (i ⊕ 1)).

(** Without expected erase and write sizes; the last test compares the extra sector
    of the primary slot with the last one of the loop, or with 0 if there is none. *)
Definition boot_slots_compatible (state : boot_loader_state) : M W bool :=
  let num_sectors_pri := boot_img_num_sectors state BOOT_SLOT_PRIMARY in
  let num_sectors_sec := boot_img_num_sectors state BOOT_SLOT_SECONDARY in
  if negb (num_sectors_pri =? num_sectors_sec) && negb (num_sectors_pri =? num_sectors_sec ⊕ 1) then mret false
  else if BOOT_MAX_IMG_SECTORS <? num_sectors_pri then mret false
  else
    same ← loop (S (S (Z.to_nat num_sectors_sec))) (same_layout_step state num_sectors_sec) 0;
    if negb same then mret false
    else if num_sectors_sec <? num_sectors_pri then
      sector_sz_pri ← (if num_sectors_sec =? 0 then mret 0
                       else boot_img_sector_size state BOOT_SLOT_PRIMARY (num_sectors_sec - 1));
      extra ← boot_img_sector_size state BOOT_SLOT_PRIMARY num_sectors_sec;
      mret (sector_sz_pri =? extra)
    else mret true.

(** The result is an [int]; it is not negative for slots below 2 GiB. *)
Definition app_max_size (state : boot_loader_state) : M W Z :=
  sector_sz ← boot_img_sector_size state BOOT_SLOT_PRIMARY 0;
  let padding_sz := sector_sz in
  let trailer_sz := ALIGN_UP (boot_trailer_sz (write_sz state)) sector_sz in
  let available_pri_sz :=
    (boot_img_num_sectors state BOOT_SLOT_PRIMARY ⊗ sector_sz) ⊖ trailer_sz ⊖ padding_sz in
  let available_sec_sz := (boot_img_num_sectors state BOOT_SLOT_SECONDARY ⊗ sector_sz) ⊖ trailer_sz in
  mret (if available_pri_sz <? available_sec_sz then available_pri_sz else available_sec_sz).

(** ** Moving and exchanging one sector *)

(** Sector [idx - 1] of the primary slot is copied to [idx]; before the first move
    the trailers are prepared. *)
Definition boot_move_sector_up (idx sz : Z) (state : boot_loader_state) (bs : boot_status)
    (fap_pri fap_sec : flash_area) : M W boot_status :=
  new_off ← boot_img_sector_off state BOOT_SLOT_PRIMARY idx;
  old_off ← boot_img_sector_off state BOOT_SLOT_PRIMARY (idx - 1);
  (if bs_idx bs =? BOOT_STATUS_IDX_0 then
     (if negb (bs_source bs =? BOOT_STATUS_SOURCE_PRIMARY_SLOT) then
        rc ← swap_scramble_trailer_sectors state fap_pri;
        assert (rc =? 0);;
        rc ← swap_status_init state fap_pri bs;
        assert (rc =? 0)
      else mret ());;
     rc ← swap_scramble_trailer_sectors state fap_sec;
     assert (rc =? 0)
   else mret ());;
  erase_copy fap_pri fap_pri old_off new_off sz;;
  rc ← boot_write_status state bs;
  let bs := set_bs_next bs (bs_idx bs ⊕ 1) (bs_state bs) in
  status_assert (rc =? 0);;
  mret bs.

Definition boot_swap_sectors (idx sz : Z) (state : boot_loader_state) (bs : boot_status)
    (fap_pri fap_sec : flash_area) : M W boot_status :=
  pri_up_off ← boot_img_sector_off state BOOT_SLOT_PRIMARY idx;
  pri_off ← boot_img_sector_off state BOOT_SLOT_PRIMARY (idx - 1);
  sec_off ← boot_img_sector_off state BOOT_SLOT_SECONDARY (idx - 1);
  bs ← (if bs_state bs =? BOOT_STATUS_STATE_0 then
          erase_copy fap_sec fap_pri sec_off pri_off sz;;
          rc ← boot_write_status state bs;
          let bs := set_bs_state bs BOOT_STATUS_STATE_1 in
          status_assert (rc =? 0);;
          mret bs
        else mret bs);
  if bs_state bs =? BOOT_STATUS_STATE_1 then
    erase_copy fap_pri fap_sec pri_up_off sec_off sz;;
    rc ← boot_write_status state bs;
    let bs := set_bs_next bs (bs_idx bs ⊕ 1) BOOT_STATUS_STATE_0 in
    status_assert (rc =? 0);;
    mret bs
  else mret bs.

(** ** The swap *)

Definition fixup_revert (state : boot_loader_state) (bs : boot_status) (fap_sec : flash_area) : M W unit :=
  if negb (bs_swap_type bs =? BOOT_SWAP_TYPE_REVERT) || negb (bs_op bs =? BOOT_STATUS_OP_MOVE) ||
     negb (bs_idx bs =? BOOT_STATUS_IDX_0) then mret ()
  else
    st ← boot_read_swap_state fap_sec;
    match st with
    | inl _ => abort
    | inr swap_state =>
        if magic swap_state =? BOOT_MAGIC_UNSET then
          rc ← swap_scramble_trailer_sectors state fap_sec;
          assert (rc =? 0);;
          rc ← boot_write_image_ok fap_sec;
          assert (rc =? 0);;
          rc ← boot_write_swap_size fap_sec (bs_swap_size bs);
          assert (rc =? 0);;
          rc ← boot_write_magic fap_sec;
          assert (rc =? 0)
        else mret ()
    end.

(** One turn of each of the two loops. *)
Definition move_loop_step (state : boot_loader_state) (fap_pri fap_sec : flash_area) (sector_sz last_idx : Z)
    (s : Z * boot_status) : M W ((Z * boot_status) + boot_status) :=
  let '(idx, bs) := s in
  if negb (0 <? idx) then mret (inr bs) else
  bs ← (if idx <=? last_idx ⊖ bs_idx bs ⊕ 1
        then boot_move_sector_up idx sector_sz state bs fap_pri fap_sec else mret bs);
  mret (inl (idx ⊖ 1, bs)).

Definition swap_loop_step (state : boot_loader_state) (fap_pri fap_sec : flash_area) (sector_sz last_idx : Z)
    (s : Z * boot_status) : M W ((Z * boot_status) + boot_status) :=
  let '(idx, bs) := s in
  if negb (idx <=? last_idx) then mret (inr bs) else
  bs ← (if bs_idx bs <=? idx then boot_swap_sectors idx sector_sz state bs fap_pri fap_sec else mret bs);
  mret (inl (idx ⊕ 1, bs)).

(** The check for free space when a new swap starts. *)
Definition swap_fits (state : boot_loader_state) (bs : boot_status) (last_idx sector_sz : Z) : M W bool :=
  if boot_status_is_reset bs then
    first ← first_trailer_idx sector_sz (boot_trailer_sz (write_sz state))
              (boot_img_num_sectors state BOOT_SLOT_PRIMARY);
    mret (negb (first <=? last_idx))
  else mret true.

Definition swap_run (state : boot_loader_state) (bs : boot_status) (copy_size : Z) : M W boot_status :=
  last_idx ← find_last_idx state copy_size;
  sector_sz ← boot_img_sector_size state BOOT_SLOT_PRIMARY 0;
  fits ← swap_fits state bs last_idx sector_sz;
  if negb fits then mret (set_bs_swap_type bs BOOT_SWAP_TYPE_NONE) else
  let fap_pri := BOOT_IMG_AREA state BOOT_SLOT_PRIMARY in
  let fap_sec := BOOT_IMG_AREA state BOOT_SLOT_SECONDARY in
  fixup_revert state bs fap_sec;;
  bs ← (if bs_op bs =? BOOT_STATUS_OP_MOVE then
          bs ← loop (S (S (Z.to_nat last_idx))) (move_loop_step state fap_pri fap_sec sector_sz last_idx)
                 (last_idx, bs);
          mret (set_bs_next bs BOOT_STATUS_IDX_0 (bs_state bs))
        else mret bs);
  let bs := set_bs_op bs BOOT_STATUS_OP_SWAP in
  loop (S (S (Z.to_nat last_idx))) (swap_loop_step state fap_pri fap_sec sector_sz last_idx) (1, bs).

End SwapMove.

(** swap_move.c as the algorithm linked in. *)
Definition swap_move_algo {W : Type} `{FlashMap W} `{BootConfig} : Sectors.SwapAlgo W := {|
  Sectors.app_max_size := app_max_size;
  Sectors.boot_slots_compatible := boot_slots_compatible;
  Sectors.boot_read_image_header := boot_read_image_header;
  Sectors.boot_read_image_size := misc_read_image_size;
  Sectors.swap_status_source := swap_status_source;
  Sectors.swap_read_status_bytes := swap_read_status_bytes;
  Sectors.swap_run := swap_run;
|}.
