(* ===== verification/SwapScratch.v ===== *)
(** * Swap using scratch, and the functions of the overwrite mode

    swap_scratch.c: groups of sectors that fit in the scratch area are exchanged
    through it, from the end of the slots to their start, with a status byte after
    each of the three copies.  The file is also linked in the overwrite mode, which
    uses its functions on sector layouts and headers. *)

From S2P Require Import Prelude Effects FlashMap BootConfig Trailer SwapState Area Image.
From S2P Require Import Sectors Tlv LoaderState SwapMisc SwapOffset.

(** [boot_status_tables]: magic of the primary slot, magic of the scratch area,
    copy-done flag of the primary slot, source. *)
Record boot_status_table := StatusTable {
  bst_magic_primary_slot : Z;
  bst_magic_scratch : Z;
  bst_copy_done_primary_slot : Z;
  bst_status_source : Z;
}.

Definition boot_status_tables : list boot_status_table := [
  StatusTable BOOT_MAGIC_GOOD BOOT_MAGIC_NOTGOOD BOOT_FLAG_SET BOOT_STATUS_SOURCE_NONE;
  StatusTable BOOT_MAGIC_GOOD BOOT_MAGIC_NOTGOOD BOOT_FLAG_UNSET BOOT_STATUS_SOURCE_PRIMARY_SLOT;
  StatusTable BOOT_MAGIC_ANY BOOT_MAGIC_GOOD BOOT_FLAG_ANY BOOT_STATUS_SOURCE_SCRATCH;
  StatusTable BOOT_MAGIC_UNSET BOOT_MAGIC_ANY BOOT_FLAG_UNSET BOOT_STATUS_SOURCE_PRIMARY_SLOT
].

Section SwapScratch.
  Context {W : Type} `{FlashMap W} `{BootConfig}.

Definition boot_scratch_area_size (state : boot_loader_state) : Z := fa_size (scratch_area state).

(** ** Sector layout *)

(** The loop runs over sectors, and faults when it leaves the table; with logical
    sectors it takes at most one turn per byte of the trailer. *)
Definition boot_get_first_trailer_sector (state : boot_loader_state) (slot trailer_sz : Z) : M W Z :=
  let first := boot_img_num_sectors state slot ⊖ 1 in
  sector_sz ← boot_img_sector_size state slot first;
  loop (S (S (Z.to_nat (trailer_sz + boot_img_num_sectors state slot))))
    (λ '(first, sz),
       if negb (sz <? trailer_sz) then mret (inr first) else
       sector_sz ← boot_img_sector_size state slot (first ⊖ 1);
       mret (inl (first ⊖ 1, sz ⊕ sector_sz)))
    (first, sector_sz).

Definition get_first_trailer_sector_end_off (state : boot_loader_state) (slot trailer_sz : Z) : M W Z :=
  first ← boot_get_first_trailer_sector state slot trailer_sz;
  off ← boot_img_sector_off state slot first;
  sz ← boot_img_sector_size state slot first;
  mret (off ⊕ sz).

Definition app_max_size_adjust_to_trailer (state : boot_loader_state) (slot_size : Z) : M W Z :=
  let slot_trailer_sz := boot_trailer_sz (write_sz state) in
  let slot_trailer_off := slot_size ⊖ slot_trailer_sz in
  primary_end_off ← get_first_trailer_sector_end_off state BOOT_SLOT_PRIMARY slot_trailer_sz;
  secondary_end_off ← get_first_trailer_sector_end_off state BOOT_SLOT_SECONDARY slot_trailer_sz;
  let trailer_sector_end_off :=
    if secondary_end_off <? primary_end_off then primary_end_off else secondary_end_off in
  let trailer_sz_in_first_sector := trailer_sector_end_off ⊖ slot_trailer_off in
  let scratch_trailer_sz := boot_scratch_trailer_sz (write_sz state) in
  let trailer_padding :=
    if trailer_sz_in_first_sector <? scratch_trailer_sz
    then scratch_trailer_sz ⊖ trailer_sz_in_first_sector else 0 in
  mret (slot_trailer_off ⊖ trailer_padding).

(** The variables of the scan over both sector tables. *)
Record scan := Scan {
  sc_i : Z; sc_j : Z; sc_sz0 : Z; sc_sz1 : Z; sc_smaller : Z; sc_pri : Z; sc_sec : Z;
}.

(** One turn; [inr None] when the sectors do not fit each other or the scratch area.
    Both [boot_slots_compatible] and [app_max_size] contain the loop; the first sums
    up both slots, the second the primary one.  Decompression is off. *)
Definition scan_step (state : boot_loader_state) (s : scan) : M W (scan + option scan) :=
  let '(Scan i j sz0 sz1 smaller pri sec) := s in
  if negb ((i <? boot_img_num_sectors state BOOT_SLOT_PRIMARY) ||
           (j <? boot_img_num_sectors state BOOT_SLOT_SECONDARY)) then mret (inr (Some s)) else
  o ← (if sz0 =? sz1 then
         p ← boot_img_sector_size state BOOT_SLOT_PRIMARY i;
         q ← boot_img_sector_size state BOOT_SLOT_SECONDARY j;
         mret (Some (Scan (i ⊕ 1) (j ⊕ 1) (sz0 ⊕ p) (sz1 ⊕ q) smaller pri sec))
       else if sz0 <? sz1 then
         p ← boot_img_sector_size state BOOT_SLOT_PRIMARY i;
         mret (if smaller =? 2 then None else Some (Scan (i ⊕ 1) j (sz0 ⊕ p) sz1 1 pri sec))
       else
         q ← boot_img_sector_size state BOOT_SLOT_SECONDARY j;
         mret (if smaller =? 1 then None else Some (Scan i (j ⊕ 1) sz0 (sz1 ⊕ q) 2 pri sec)));
  match o with
  | None => mret (inr None)
  | Some s =>
      if negb (uses OVERWRITE_ONLY) && (sc_sz0 s =? sc_sz1 s) then
        if (boot_scratch_area_size state <? sc_sz0 s) || (boot_scratch_area_size state <? sc_sz1 s)
        then mret (inr None)
        else mret (inl (Scan (sc_i s) (sc_j s) 0 0 0 (sc_pri s ⊕ sc_sz0 s) (sc_sec s ⊕ sc_sz1 s)))
      else mret (inl s)
  end.

(** Every turn goes on in one of the tables. *)
Definition scan_sectors (state : boot_loader_state) : M W (option scan) :=
  loop (S (S (Z.to_nat (2 * BOOT_MAX_IMG_SECTORS + boot_img_num_sectors state BOOT_SLOT_PRIMARY +
                        boot_img_num_sectors state BOOT_SLOT_SECONDARY))))
    (scan_step state) (Scan 0 0 0 0 0 0 0).

Definition boot_slots_compatible (state : boot_loader_state) : M W bool :=
  let num_sectors_primary := boot_img_num_sectors state BOOT_SLOT_PRIMARY in
  let num_sectors_secondary := boot_img_num_sectors state BOOT_SLOT_SECONDARY in
  if (BOOT_MAX_IMG_SECTORS <? num_sectors_primary) || (BOOT_MAX_IMG_SECTORS <? num_sectors_secondary)
  then mret false
  else
    o ← scan_sectors state;
    mret (match o with
          | None => false
          | Some s => (sc_i s =? num_sectors_primary) && (sc_j s =? num_sectors_secondary) &&
                      (sc_pri s =? sc_sec s)
          end).

(** The result is an [int]; DirectXIP and RAM loading have their own version. *)
Definition app_max_size (state : boot_loader_state) : M W Z :=
  o ← scan_sectors state;
  match o with
  | None => mret 0
  | Some s =>
      if uses OVERWRITE_ONLY then mret (if sc_sz1 s <? sc_sz0 s then sc_sz1 s else sc_sz0 s)
      else if uses SWAP_USING_SCRATCH then app_max_size_adjust_to_trailer state (sc_pri s)
      else mret (sc_pri s)
  end.

(** ** Status *)

(** One status entry; the loop variables are [i], [found] and [found_idx], the result
    has [invalid] in addition. *)
Definition scratch_status_step (fap : flash_area) (off write_sz max_entries : Z) (s : Z * bool * Z)
  : M W (Z * bool * Z + option (Z * bool * Z * bool)) :=
  let '(i, found, found_idx) := s in
  if negb (i <? max_entries) then mret (inr (Some (i, found, found_idx, false))) else
  '(rc, status) ← flash_area_read fap (off ⊕ i * write_sz) 1;
  if rc <? 0 then mret (inr None) else
  if bootutil_buffer_is_erased fap status then
    mret (inl (i + 1, found, if found && (found_idx =? 0) then i else found_idx))
  else if negb found then mret (inl (i + 1, true, found_idx))
  else if negb (found_idx =? 0) then mret (inr (Some (i, found, found_idx, true)))
  else mret (inl (i + 1, found, found_idx)).

Definition swap_read_status_bytes (fap : flash_area) (state : boot_loader_state) (bs : boot_status)
  : M W (Z * boot_status) :=
  off ← boot_status_off fap;
  let max_entries := boot_status_entries (curr_img_idx state) fap in
  if max_entries <? 0 then mret (BOOT_EBADARGS, bs) else
  r ← loop (S (Z.to_nat max_entries)) (scratch_status_step fap off (write_sz state) max_entries) (0, false, 0);
  match r with
  | None => mret (BOOT_EFLASH, bs)
  | Some (i, found, found_idx, invalid) =>
      (if invalid && negb MCUBOOT_VALIDATE_PRIMARY_SLOT then abort else mret ());;
      if found : bool then
        let found_idx := if found_idx =? 0 then i else found_idx in
        mret (0, set_bs_next bs (found_idx / BOOT_STATUS_STATE_COUNT + 1) (found_idx mod BOOT_STATUS_STATE_COUNT + 1))
      else mret (0, bs)
  end.

(** The first matching row of the tables. *)
Fixpoint status_table_scan (primary : boot_swap_state) (scratch : option boot_swap_state)
    (tables : list boot_status_table) : Z :=
  match tables with
  | [] => BOOT_STATUS_SOURCE_NONE
  | t :: tables =>
      if boot_magic_compatible_check (bst_magic_primary_slot t) (magic primary) &&
         (if scratch is Some s then boot_magic_compatible_check (bst_magic_scratch t) (magic s) else true) &&
         ((bst_copy_done_primary_slot t =? BOOT_FLAG_ANY) || (bst_copy_done_primary_slot t =? copy_done primary))
      then bst_status_source t
      else status_table_scan primary scratch tables
  end.

Definition swap_status_source (state : boot_loader_state) : M W Z :=
  p ← boot_read_swap_state (BOOT_IMG_AREA state BOOT_SLOT_PRIMARY);
  match p with
  | inl _ => abort
  | inr state_primary_slot =>
      if uses SWAP_USING_SCRATCH then
        s ← boot_read_swap_state (scratch_area state);
        match s with
        | inl _ => abort
        | inr state_scratch =>
            let source := status_table_scan state_primary_slot (Some state_scratch) boot_status_tables in
            mret (if (1 <? BOOT_IMAGE_NUMBER) && (source =? BOOT_STATUS_SOURCE_SCRATCH) &&
                     negb (image_num state_scratch =? curr_img_idx state)
                  then BOOT_STATUS_SOURCE_NONE else source)
        end
      else mret (status_table_scan state_primary_slot None boot_status_tables)
  end.

(** ** The groups of sectors *)

(** The sectors up to [last_sector_idx] that fit in the scratch area: their size and
    the first of them. *)
Definition boot_copy_sz (state : boot_loader_state) (last_sector_idx : Z) : M W (Z * Z) :=
  loop (S (S (Z.to_nat last_sector_idx)))
    (λ '(i, sz),
       if i <? 0 then mret (inr (sz, i + 1)) else
       n ← boot_img_sector_size state BOOT_SLOT_PRIMARY i;
       let new_sz := sz ⊕ n in
       if boot_scratch_area_size state <? new_sz then mret (inr (sz, i + 1)) else mret (inl (i - 1, new_sz)))
    (last_sector_idx, 0).

(** Every turn goes on in one of the tables, or by a logical sector. *)
Definition find_last_sector_idx (state : boot_loader_state) (copy_size : Z) : M W Z :=
  loop (S (S (Z.to_nat (copy_size + 2 * BOOT_MAX_IMG_SECTORS))))
    (λ '(pi, si, p, s),
       '(pi, p) ← (if (p <? copy_size) || (p <? s) then
                     n ← boot_img_sector_size state BOOT_SLOT_PRIMARY pi; mret (pi + 1, p ⊕ n)
                   else mret (pi, p));
       '(si, s) ← (if (s <? copy_size) || (s <? p) then
                     n ← boot_img_sector_size state BOOT_SLOT_SECONDARY si; mret (si + 1, s ⊕ n)
                   else mret (si, s));
       mret (if (copy_size <=? p) && (copy_size <=? s) && (p =? s) then inr (pi - 1) else inl (pi, si, p, s)))
    (0, 0, 0, 0).

(** Bounded by the number of sectors, unless one of them does not fit the scratch
    area: then the loop does not end. *)
Definition find_swap_count (state : boot_loader_state) (copy_size : Z) : M W Z :=
  last_sector_idx ← find_last_sector_idx state copy_size;
  loop (S (S (Z.to_nat last_sector_idx)))
    (λ '(last, swap_count),
       if last <? 0 then mret (inr swap_count) else
       '(_, first) ← boot_copy_sz state last;
       mret (inl (first - 1, swap_count ⊕ 1)))
    (last_sector_idx, 0).

(** ** Exchanging one group of sectors *)

(** Offset of the group, and the number of bytes to copy: a trailer in the group is
    left out, and so is what would overwrite the trailer of the scratch area. *)
Definition swap_extent (state : boot_loader_state) (idx sz first_trailer_sector : Z) : M W (Z * Z) :=
  img_off ← boot_img_sector_off state BOOT_SLOT_PRIMARY idx;
  trailer_off ← boot_img_sector_off state BOOT_SLOT_PRIMARY first_trailer_sector;
  if trailer_off <? img_off ⊕ sz then
    let copy_sz := fa_size (BOOT_IMG_AREA state BOOT_SLOT_PRIMARY) ⊖ img_off ⊖ boot_trailer_sz (write_sz state) in
    scratch_trailer_off ← boot_status_off (scratch_area state);
    mret (img_off, if scratch_trailer_off <? copy_sz then scratch_trailer_off else copy_sz)
  else mret (img_off, sz).

(** Erasing all of the scratch area. *)
Definition erase_scratch_area (state : boot_loader_state) : M W unit :=
  rc ← boot_erase_region (scratch_area state) 0 (fa_size (scratch_area state)) false;
  assert (rc =? 0).

Definition erase_unless_empty (fap : flash_area) (off erase_sz : Z) : M W unit :=
  if 0 <? erase_sz then
    rc ← boot_erase_region fap off erase_sz false;
    assert (rc =? 0)
  else mret ().

(** The first copy: secondary slot to scratch. *)
Definition swap_state_0 (state : boot_loader_state) (bs : boot_status) (img_off copy_sz : Z) : M W boot_status :=
  let fap_primary_slot := BOOT_IMG_AREA state BOOT_SLOT_PRIMARY in
  let fap_scratch := scratch_area state in
  erase_scratch_area state;;
  (if bs_idx bs =? BOOT_STATUS_IDX_0 then
     rc ← swap_status_init state fap_scratch bs;
     assert (rc =? 0);;
     if bs_use_scratch bs =? 0 then
       rc ← swap_scramble_trailer_sectors state fap_primary_slot;
       assert (rc =? 0);;
       rc ← swap_status_init state fap_primary_slot bs;
       assert (rc =? 0);;
       erase_scratch_area state
     else mret ()
   else mret ());;
  rc ← boot_copy_region (BOOT_IMG_AREA state BOOT_SLOT_SECONDARY) fap_scratch img_off 0 copy_sz;
  assert (rc =? 0);;
  rc ← boot_write_status state bs;
  status_assert (rc =? 0);;
  mret (set_bs_state bs BOOT_STATUS_STATE_1).

(** The second copy: primary slot to secondary slot. *)
Definition swap_state_1 (state : boot_loader_state) (bs : boot_status) (img_off sz copy_sz : Z) : M W boot_status :=
  let fap_primary_slot := BOOT_IMG_AREA state BOOT_SLOT_PRIMARY in
  let fap_secondary_slot := BOOT_IMG_AREA state BOOT_SLOT_SECONDARY in
  erase_sz ←
    (if bs_idx bs =? BOOT_STATUS_IDX_0 then
       rc ← swap_scramble_trailer_sectors state fap_secondary_slot;
       assert (rc =? 0);;
       if negb (bs_use_scratch bs =? 0) then
         first ← boot_get_first_trailer_sector state BOOT_SLOT_SECONDARY (boot_trailer_sz (write_sz state));
         off ← boot_img_sector_off state BOOT_SLOT_SECONDARY first;
         mret (off ⊖ img_off)
       else mret sz
     else mret sz);
  erase_unless_empty fap_secondary_slot img_off erase_sz;;
  rc ← boot_copy_region fap_primary_slot fap_secondary_slot img_off img_off copy_sz;
  assert (rc =? 0);;
  rc ← boot_write_status state bs;
  status_assert (rc =? 0);;
  mret (set_bs_state bs BOOT_STATUS_STATE_2).

(** The trailer kept in the scratch area is moved to the primary slot. *)
Definition restore_trailer (state : boot_loader_state) (bs : boot_status) (img_off copy_sz : Z) : M W unit :=
  let fap_primary_slot := BOOT_IMG_AREA state BOOT_SLOT_PRIMARY in
  let fap_scratch := scratch_area state in
  scratch_trailer_off ← boot_status_off fap_scratch;
  rc ← boot_copy_region fap_scratch fap_primary_slot scratch_trailer_off (img_off ⊕ copy_sz)
         ((BOOT_STATUS_STATE_COUNT - 1) ⊗ write_sz state);
  status_assert (rc =? 0);;
  st ← boot_read_swap_state fap_scratch;
  match st with
  | inl _ => abort
  | inr swap_state =>
      (if image_ok swap_state =? BOOT_FLAG_SET then
         rc ← boot_write_image_ok fap_primary_slot;
         assert (rc =? 0)
       else mret ());;
      (if negb (swap_type swap_state =? BOOT_SWAP_TYPE_NONE) then
         rc ← boot_write_swap_info fap_primary_slot (swap_type swap_state) (curr_img_idx state);
         assert (rc =? 0)
       else mret ());;
      rc ← boot_write_swap_size fap_primary_slot (bs_swap_size bs);
      assert (rc =? 0);;
      rc ← boot_write_magic fap_primary_slot;
      assert (rc =? 0)
  end.

(** The third copy: scratch to primary slot. *)
Definition swap_state_2 (state : boot_loader_state) (bs : boot_status) (img_off sz copy_sz first_trailer_sector : Z)
  : M W boot_status :=
  let fap_primary_slot := BOOT_IMG_AREA state BOOT_SLOT_PRIMARY in
  let fap_scratch := scratch_area state in
  let use_scratch := negb (bs_use_scratch bs =? 0) in
  erase_sz ←
    (if use_scratch then
       rc ← swap_scramble_trailer_sectors state fap_primary_slot;
       assert (rc =? 0);;
       off ← boot_img_sector_off state BOOT_SLOT_PRIMARY first_trailer_sector;
       mret (off ⊖ img_off)
     else mret sz);
  erase_unless_empty fap_primary_slot img_off erase_sz;;
  rc ← boot_copy_region fap_scratch fap_primary_slot 0 img_off copy_sz;
  assert (rc =? 0);;
  (if use_scratch then restore_trailer state bs img_off copy_sz else mret ());;
  let bs := set_bs_use_scratch bs 0 in
  rc ← boot_write_status state bs;
  let bs := set_bs_next bs (bs_idx bs ⊕ 1) BOOT_STATUS_STATE_0 in
  status_assert (rc =? 0);;
  (if use_scratch then
     rc ← boot_scramble_region fap_scratch 0 (fa_size fap_scratch) true;
     assert (rc =? 0)
   else mret ());;
  mret bs.

Definition boot_swap_sectors (idx sz : Z) (state : boot_loader_state) (bs : boot_status) : M W boot_status :=
  first_trailer_sector ← boot_get_first_trailer_sector state BOOT_SLOT_PRIMARY (boot_trailer_sz (write_sz state));
  '(img_off, copy_sz) ← swap_extent state idx sz first_trailer_sector;
  let bs := set_bs_use_scratch bs
              (if (bs_idx bs =? BOOT_STATUS_IDX_0) && negb (copy_sz =? sz) then 1 else 0) in
  bs ← (if bs_state bs =? BOOT_STATUS_STATE_0 then swap_state_0 state bs img_off copy_sz else mret bs);
  bs ← (if bs_state bs =? BOOT_STATUS_STATE_1 then swap_state_1 state bs img_off sz copy_sz else mret bs);
  if bs_state bs =? BOOT_STATUS_STATE_2 then swap_state_2 state bs img_off sz copy_sz first_trailer_sector
  else mret bs.

Definition swap_run (state : boot_loader_state) (bs : boot_status) (copy_size : Z) : M W boot_status :=
  last_sector_idx ← find_last_sector_idx state copy_size;
  loop (S (S (Z.to_nat last_sector_idx)))
    (λ '(last, swap_idx, bs),
       if last <? 0 then mret (inr bs) else
       '(sz, first) ← boot_copy_sz state last;
       bs ← (if bs_idx bs ⊖ BOOT_STATUS_IDX_0 <=? swap_idx then boot_swap_sectors first sz state bs else mret bs);
       mret (inl (first - 1, swap_idx ⊕ 1, bs)))
    (last_sector_idx, 0, bs).

(** ** Headers *)

(** While the groups are exchanged the headers move last.  A failure to find the
    status is not noticed, its result is dereferenced. *)
Definition boot_read_image_header (state : boot_loader_state) (slot : Z) (hdr : image_header)
    (bs : option boot_status) : M W (Z * image_header * boot_loader_state) :=
  o ←
    (match bs with
     | Some bs =>
         if uses SWAP_USING_SCRATCH && negb (boot_status_is_reset bs) then
           f ← boot_find_status state;
           match f with
           | None => fault
           | Some fap =>
               '(rc, swap_size) ← boot_read_swap_size fap;
               if negb (rc =? 0) then mret None else
               swap_count ← find_swap_count state swap_size;
               let step := bs_idx bs ⊖ BOOT_STATUS_IDX_0 in
               mret (Some
                 (if swap_count <=? step then
                    BOOT_IMG_AREA state (if slot =? BOOT_SLOT_PRIMARY then BOOT_SLOT_SECONDARY else BOOT_SLOT_PRIMARY)
                  else if step =? swap_count ⊖ 1 then
                    if (slot =? BOOT_SLOT_SECONDARY) && (BOOT_STATUS_STATE_1 <=? bs_state bs) then scratch_area state
                    else if (slot =? BOOT_SLOT_PRIMARY) && (BOOT_STATUS_STATE_2 <=? bs_state bs)
                    then BOOT_IMG_AREA state BOOT_SLOT_SECONDARY
                    else BOOT_IMG_AREA state slot
                  else BOOT_IMG_AREA state slot))
           end
         else mret (Some (BOOT_IMG_AREA state slot))
     | None => mret (Some (BOOT_IMG_AREA state slot))
     end);
  match o with
  | None => mret (BOOT_EFLASH, hdr, state)
  | Some fap =>
      '(rc, b) ← flash_area_read fap 0 IMAGE_HEADER_SIZE;
      mret (if negb (rc =? 0) then (BOOT_EFLASH, hdr, state) else (0, header_of_bytes b, state))
  end.

End SwapScratch.

(** swap_scratch.c as the algorithm linked in. *)
Definition swap_scratch_algo {W : Type} `{FlashMap W} `{BootConfig} : Sectors.SwapAlgo W := {|
  Sectors.app_max_size := app_max_size;
  Sectors.boot_slots_compatible := boot_slots_compatible;
  Sectors.boot_read_image_header := boot_read_image_header;
  Sectors.boot_read_image_size := misc_read_image_size;
  Sectors.swap_status_source := swap_status_source;
  Sectors.swap_read_status_bytes := swap_read_status_bytes;
  Sectors.swap_run := swap_run;
|}.
