(* ===== verification/FlashKeeps.v ===== *)
(** * The flash stays well-formed under all of bootutil

    With the laws of AnyFlash.v every function that works on slots and trailers keeps
    the invariant of the flash, whatever its arguments and the contents it finds. *)

From S2P Require Import Prelude Effects Partial FlashMap AnyFlash BootConfig Trailer SwapState Area Image Tlv.
From S2P Require Import Sectors LoaderState SwapMisc SwapOffset SwapHeaders.
#[local] Set Default Proof Using "Type*".

(** ** Reading *)

Section Reads.
  Context {W : Type} `{AnyFlash W} `{BootConfig} (I : W → Prop) `{!Refines I}.

#[local] Abbreviation fine c := (keeps (W := W) I c (λ _, True)).

Lemma read_swap_state_keeps fap : fine (boot_read_swap_state fap).
Proof.
  unfold boot_read_swap_state, boot_read_copy_done, boot_read_image_ok, boot_read_flag. keep.
Qed.
#[local] Hint Resolve read_swap_state_keeps : keep.

Lemma read_swap_state_by_id_keeps id : fine (boot_read_swap_state_by_id id).
Proof. unfold boot_read_swap_state_by_id. keep. Qed.
#[local] Hint Resolve read_swap_state_by_id_keeps : keep.

Lemma swap_type_keeps i : fine (boot_swap_type_multi i).
Proof. unfold boot_swap_type_multi. keep. Qed.

#[local] Hint Resolve swap_type_keeps : keep.

Lemma tlv_begin_keeps start hdr fap type prot : fine (bootutil_tlv_iter_begin start hdr fap type prot).
Proof. unfold bootutil_tlv_iter_begin. keep. Qed.

Lemma tlv_next_keeps it : fine (bootutil_tlv_iter_next it).
Proof. unfold bootutil_tlv_iter_next, tlv_iter_step. keep. Qed.

Lemma find_status_keeps state : fine (boot_find_status state).
Proof.
  unfold boot_find_status. generalize (@None flash_area). induction (_ : list flash_area) as [|fa l IH];
    intros o; cbn [find_status_in]; keep.
Qed.

Lemma read_swap_size_keeps fap : fine (boot_read_swap_size fap).
Proof. unfold boot_read_swap_size. keep. Qed.

Lemma read_tlv_sizes_keeps fap : fine (boot_read_unprotected_tlv_sizes fap).
Proof. unfold boot_read_unprotected_tlv_sizes. keep. Qed.

Lemma sector_size_keeps state slot i : fine (boot_img_sector_size state slot i).
Proof. unfold boot_img_sector_size. keep. Qed.

Lemma sector_off_keeps state slot i : fine (boot_img_sector_off state slot i).
Proof. unfold boot_img_sector_off. keep. Qed.

Lemma status_off_keeps fa : fine (boot_status_off fa).
Proof. unfold boot_status_off. keep. Qed.

End Reads.

#[export] Hint Resolve read_swap_state_by_id_keeps read_swap_state_keeps swap_type_keeps tlv_begin_keeps tlv_next_keeps
  find_status_keeps read_swap_size_keeps read_tlv_sizes_keeps sector_size_keeps sector_off_keeps status_off_keeps : keep.

Section Keeps.
  Context {W : Type} `{AnyFlash W} `{BootConfig}.

#[local] Abbreviation fine c := (keeps (W := W) any_ok c (λ _, True)).

(** ** Trailers *)

Lemma write_magic_keeps fap : fine (boot_write_magic fap).
Proof.
  unfold boot_write_magic. cbv zeta. eapply keeps_bind; [apply any_write|].
  - apply Forall_splice; [|apply magic_bytes]. apply Forall_replicate, any_erased_val.
  - keep.
Qed.

Lemma write_trailer_keeps fap off inbuf : Forall is_u8 inbuf → fine (boot_write_trailer fap off inbuf).
Proof.
  intros Hb. unfold boot_write_trailer. cbv zeta. keep_step; [keep|]. eapply keeps_bind; [apply any_write|keep].
  apply Forall_app. split; [done|]. apply Forall_replicate, any_erased_val.
Qed.

Lemma write_trailer_flag_keeps fap off v : is_u8 v → fine (boot_write_trailer_flag fap off v).
Proof. intros Hv. apply write_trailer_keeps. by apply Forall_singleton. Qed.

Lemma write_image_ok_keeps fap : fine (boot_write_image_ok fap).
Proof. by apply write_trailer_flag_keeps. Qed.

Lemma write_copy_done_keeps fap : fine (boot_write_copy_done fap).
Proof. by apply write_trailer_flag_keeps. Qed.

Lemma write_swap_info_keeps fap t n : fine (boot_write_swap_info fap t n).
Proof.
  unfold boot_write_swap_info, BOOT_SET_SWAP_INFO. eapply (keeps_bind _ _ _ is_u8); [keep; unfold is_u8, u8; lia|].
  intros i Hi. apply write_trailer_keeps. by apply Forall_singleton.
Qed.

Lemma write_swap_size_keeps fap n : fine (boot_write_swap_size fap n).
Proof. apply write_trailer_keeps, le_enc_bytes. Qed.

Lemma write_tlv_sizes_keeps fap p q : fine (boot_write_unprotected_tlv_sizes fap p q).
Proof. apply write_trailer_keeps, le_enc_bytes. Qed.

#[local] Hint Resolve write_magic_keeps write_trailer_keeps write_image_ok_keeps write_copy_done_keeps
  write_swap_info_keeps write_swap_size_keeps write_tlv_sizes_keeps : keep.

(** ** Erasing and scrambling *)

Lemma erase_region_keeps fa off size b : fine (boot_erase_region fa off size b).
Proof. unfold boot_erase_region, erase_region_step. keep. Qed.
#[local] Hint Resolve erase_region_keeps : keep.

Lemma scramble_region_keeps fa off size b : fine (boot_scramble_region fa off size b).
Proof.
  unfold boot_scramble_region. keep. unfold scramble_region_step. keep_step; [keep|].
  eapply keeps_bind; [apply any_write, Forall_slice, Forall_replicate, any_erased_val|keep].
Qed.
#[local] Hint Resolve scramble_region_keeps : keep.

Lemma scramble_slot_keeps fa slot : fine (boot_scramble_slot fa slot).
Proof. unfold boot_scramble_slot, boot_header_scramble_off_sz, boot_trailer_scramble_offset. keep. Qed.
#[local] Hint Resolve scramble_slot_keeps : keep.

(** ** Status entries and copying *)

Lemma write_status_keeps state bs : fine (boot_write_status state bs).
Proof.
  unfold boot_write_status. cbv zeta. eapply keeps_bind; [eapply (status_off_keeps any_ok)|]. intros o _.
  eapply keeps_bind; [apply any_write, Forall_slice, Forall_insert|keep].
  - apply Forall_replicate, any_erased_val.
  - unfold is_u8, u8. lia.
Qed.
#[local] Hint Resolve write_status_keeps : keep.

Lemma copy_region_keeps src dst so d sz : fine (boot_copy_region src dst so d sz).
Proof.
  unfold boot_copy_region, copy_region_step. apply (keeps_loop _ _ _ _ (λ _, True)); [done|]. intros n _.
  keep_step; [keep|]. eapply keeps_bind; [eapply (keeps_read any_ok)|]. intros [rc b] Hb.
  keep_step; [keep|]. eapply keeps_bind; [by apply any_write|keep].
Qed.
#[local] Hint Resolve copy_region_keeps : keep.

(** ** swap_misc.c *)

Lemma erase_trailer_keeps state fap : fine (swap_erase_trailer_sectors state fap).
Proof. unfold swap_erase_trailer_sectors, erase_trailer_step. keep. Qed.
#[local] Hint Resolve erase_trailer_keeps : keep.

Lemma scramble_trailer_keeps state fap : fine (swap_scramble_trailer_sectors state fap).
Proof. unfold swap_scramble_trailer_sectors, boot_trailer_scramble_offset. keep. Qed.
#[local] Hint Resolve scramble_trailer_keeps : keep.

Lemma status_init_keeps state fap bs : fine (swap_status_init state fap bs).
Proof. unfold swap_status_init. keep. Qed.
#[local] Hint Resolve status_init_keeps : keep.

Lemma read_status_keeps source bytes state bs :
  (∀ s, fine (source s)) → (∀ fa s b, fine (bytes fa s b)) → fine (swap_read_status source bytes state bs).
Proof. intros. unfold swap_read_status, BOOT_SET_SWAP_INFO. keep. Qed.

Lemma set_copy_done_keeps i : fine (swap_set_copy_done i).
Proof. unfold swap_set_copy_done. keep. Qed.

Lemma set_image_ok_keeps i : fine (swap_set_image_ok i).
Proof. unfold swap_set_image_ok. keep. Qed.

End Keeps.

#[export] Hint Resolve write_magic_keeps write_trailer_keeps write_image_ok_keeps write_copy_done_keeps
  write_swap_info_keeps write_swap_size_keeps write_tlv_sizes_keeps erase_region_keeps scramble_region_keeps
  scramble_slot_keeps write_status_keeps copy_region_keeps erase_trailer_keeps scramble_trailer_keeps
  status_init_keeps set_copy_done_keeps set_image_ok_keeps : keep.

(** ** The loader state *)

(** The slots of the state are [p] and [q] of image [i]; the headers have been read
    from flash or are still zero. *)
Record slots_ok (i : Z) (p q : flash_area) (s : boot_loader_state) : Prop := {
  so_idx : curr_img_idx s = i;
  so_pri : img_area (img_primary s) = p;
  so_sec : img_area (img_secondary s) = q;
  so_hdr_pri : header_ok (img_hdr (img_primary s));
  so_hdr_sec : header_ok (img_hdr (img_secondary s));
}.

Lemma so_hdr i p q s slot : slots_ok i p q s → header_ok (boot_img_hdr s slot).
Proof. intros []. unfold boot_img_hdr, BOOT_IMG. by destruct (slot =? BOOT_SLOT_PRIMARY). Qed.

#[local] Ltac setter :=
  intros []; unfold set_img_hdr, set_img_tlv_size, set_img_sectors, set_img_num_sectors, set_img, BOOT_IMG in *;
  match goal with |- context [?x =? BOOT_SLOT_PRIMARY] => destruct (x =? BOOT_SLOT_PRIMARY) end;
  by constructor.

Section States.
  Context (i : Z) (p q : flash_area) (s : boot_loader_state).

Lemma slots_set_hdr slot h : header_ok h → slots_ok i p q s → slots_ok i p q (set_img_hdr s slot h).
Proof. intros Hh. setter. Qed.

Lemma slots_set_tlv_size slot n : slots_ok i p q s → slots_ok i p q (set_img_tlv_size s slot n).
Proof. setter. Qed.

Lemma slots_set_sectors slot l : slots_ok i p q s → slots_ok i p q (set_img_sectors s slot l).
Proof. setter. Qed.

Lemma slots_set_num_sectors slot n : slots_ok i p q s → slots_ok i p q (set_img_num_sectors s slot n).
Proof. setter. Qed.

Lemma slots_set_swap_type t : slots_ok i p q s → slots_ok i p q (set_swap_type s t).
Proof. by intros []. Qed.

Lemma slots_set_secondary_offset o : slots_ok i p q s → slots_ok i p q (set_secondary_offset s o).
Proof. by intros []. Qed.

Lemma slots_set_write_sz n : slots_ok i p q s → slots_ok i p q (set_write_sz s n).
Proof. by intros []. Qed.

Lemma slots_set_scratch fa l n : slots_ok i p q s → slots_ok i p q (set_scratch s fa l n).
Proof. by intros []. Qed.

End States.

#[export] Hint Resolve slots_set_hdr slots_set_tlv_size slots_set_sectors slots_set_num_sectors slots_set_swap_type
  slots_set_secondary_offset slots_set_write_sz slots_set_scratch : keep.

(** What the boot loop relies on of a swap algorithm. *)
Class SwapKeeps (W : Type) `{AnyFlash W} `{SwapAlgo W} := {
  sk_max state w0 : keeps (λ w, w = w0) (Sectors.app_max_size state) (λ _, True);
  sk_compatible state : keeps any_ok (Sectors.boot_slots_compatible state) (λ _, True);
  sk_header i p q state slot hdr bs : slots_ok i p q state → header_ok hdr →
    keeps any_ok (Sectors.boot_read_image_header state slot hdr bs)
      (λ r, header_ok (snd (fst r)) ∧ slots_ok i p q (snd r));
  sk_size i p q state slot : slots_ok i p q state →
    keeps any_ok (Sectors.boot_read_image_size state slot) (λ r, slots_ok i p q (snd r));
  sk_source state : keeps any_ok (Sectors.swap_status_source state) (λ _, True);
  sk_bytes fa state bs : keeps any_ok (Sectors.swap_read_status_bytes fa state bs) (λ _, True);
  sk_run state bs n : keeps any_ok (Sectors.swap_run state bs n) (λ _, True);
}.

#[export] Hint Resolve sk_compatible sk_header sk_size sk_source sk_bytes sk_run : keep.

(** ** swap_offset.c *)

Section Offset.
  Context {W : Type} `{AnyFlash W} `{BootConfig}.

#[local] Abbreviation fine c := (keeps (W := W) any_ok c (λ _, True)).

Lemma find_last_idx_keeps state n : fine (find_last_idx state n).
Proof. unfold find_last_idx. keep. Qed.
#[local] Hint Resolve find_last_idx_keeps : keep.

Lemma read_status_bytes_keeps fap state bs : fine (swap_read_status_bytes fap state bs).
Proof. unfold swap_read_status_bytes, status_bytes_step. keep. Qed.

Lemma status_source_keeps state : fine (swap_status_source state).
Proof. unfold swap_status_source. keep. Qed.

Lemma swap_loop_keeps state p q rev sz last a b s : fine (swap_loop_step state p q rev sz last a b s).
Proof.
  unfold swap_loop_step, boot_swap_sectors, boot_swap_sectors_revert, erase_copy, status_assert. keep.
Qed.
#[local] Hint Resolve swap_loop_keeps : keep.

Lemma swap_run_keeps state bs n : fine (swap_run state bs n).
Proof.
  unfold swap_run, swap_exchange, swap_init_areas, fixup_revert, swap_fits, first_trailer_idx, used_sectors. keep.
Qed.

Lemma header_source_keeps state slot bs : fine (header_source state slot bs).
Proof. unfold header_source, is_revert. keep. Qed.
#[local] Hint Resolve header_source_keeps : keep.

Lemma read_header_keeps i p q state slot hdr bs :
  slots_ok i p q state → header_ok hdr →
  keeps any_ok (boot_read_image_header state slot hdr bs) (λ r, header_ok (snd (fst r)) ∧ slots_ok i p q (snd r)).
Proof.
  intros Hs Hh. unfold boot_read_image_header. eapply keeps_bind; [apply header_source_keeps|].
  intros [[[sl off] chk]|] _; [|keep]. eapply keeps_bind; [eapply (keeps_read any_ok)|]. intros [rc b] Hb.
  keep_step; [keep|]. cbv zeta.
  apply (keeps_bind _ _ _ (λ o, match o with Some (_, h) => header_ok h | None => True end)).
  - keep_step; [|keep; by apply header_of_bytes_ok]. keep_step. keep_step; [keep|].
    eapply keeps_bind; [eapply (keeps_read any_ok)|]. intros [rc' b'] Hb'. apply keeps_ret. case_if Hrc; [done|]. by apply header_of_bytes_ok.
  - intros [[o h]|] Ho; [|keep; split; [by apply header_of_bytes_ok|done]].
    assert (Hs' : ∀ b : bool, slots_ok i p q (if b then set_secondary_offset state o else state)).
    { intros []; [by apply slots_set_secondary_offset|done]. }
    keep; split; (done || apply Hs').
Qed.

Lemma read_size_keeps i p q state slot :
  slots_ok i p q state → keeps any_ok (boot_read_image_size state slot) (λ r, slots_ok i p q (snd r)).
Proof. intros Hs. unfold boot_read_image_size. keep. by apply slots_set_tlv_size. Qed.

Lemma slots_compatible_keeps state : fine (boot_slots_compatible state).
Proof. unfold boot_slots_compatible, same_layout_step. keep. Qed.

#[export] Instance swap_offset_keeps : @SwapKeeps W _ _ _ swap_offset_algo.
Proof.
  split; cbn.
  - intros state w0. unfold app_max_size, boot_img_sector_size. keep.
  - apply slots_compatible_keeps.
  - apply read_header_keeps.
  - apply read_size_keeps.
  - apply status_source_keeps.
  - apply read_status_bytes_keeps.
  - apply swap_run_keeps.
Qed.

End Offset.
