(* ===== verification/SwapScratchProps.v ===== *)
(** * Sector layouts in swap_scratch.c

    The scan that compares the sectors of the two slots: it accepts slots with the
    same sectors that fit in the scratch area, and it runs out of the sector tables
    when one slot has two sectors more than the other. *)

From S2P Require Import Prelude Effects FlashMap BootConfig Trailer LoaderState Sectors SwapScratch.
#[local] Open Scope mcu_scope.
#[local] Set Default Proof Using "Type*".

Section Scan.
  Context {W : Type} `{FlashMap W} `{BootConfig}.
  Implicit Types (w : W) (state : boot_loader_state).

(** Slot [slot] has [k] sectors of [n] bytes, in a table filled up with zeros. *)
Record uniform state (slot : Z) (k : nat) (n : Z) : Prop := {
  un_table : ∃ l, img_sectors (BOOT_IMG state slot) = sector_table l ∧ length l = k ∧ Forall (λ s, fs_size s = n) l;
  un_count : boot_img_num_sectors state slot = Z.of_nat k;
  un_max : Z.of_nat k <= BOOT_MAX_IMG_SECTORS;
}.

Section Uniform.
  Context (state : boot_loader_state) (np ns : nat) (n : Z).
  Hypothesis Hdev : MCUBOOT_LOGICAL_SECTOR_SIZE = 0.
  Hypothesis Hp : uniform state BOOT_SLOT_PRIMARY np n.
  Hypothesis Hs : uniform state BOOT_SLOT_SECONDARY ns n.
  Hypothesis Hn : 0 < n.
  Hypothesis Hmax : BOOT_MAX_IMG_SECTORS * n < 4294967296.
  Hypothesis Hfit : uses OVERWRITE_ONLY = false → n <= boot_scratch_area_size state.

(** A lookup in such a table. *)
Lemma uniform_size slot k i w :
  uniform state slot k n → 0 <= i →
  boot_img_sector_size state slot i w =
    if i <? Z.of_nat k then (Ret n, w) else if i <? BOOT_MAX_IMG_SECTORS then (Ret 0, w) else (Fault, w).
Proof using Hdev.
  intros [(l & Hl & Hlen & Hall) Hc Hm] Hi. unfold boot_img_sector_size. rewrite Hdev. cbn [Z.eqb negb].
  unfold array_get, mbind, M_bind. rewrite (proj2 (Z.ltb_ge i 0)) by lia. rewrite Hl. unfold sector_table.
  assert (Hz : zlen l = Z.of_nat k) by (unfold zlen; lia). rewrite Hz.
  case_if Hik.
  - rewrite lookup_app_l by lia. destruct (l !! Z.to_nat i) as [s|] eqn:Hs'.
    + cbn. by rewrite (Forall_lookup_1 _ _ _ _ Hall Hs').
    + apply lookup_ge_None in Hs'. lia.
  - rewrite lookup_app_r by lia. case_if Him.
    + by rewrite lookup_replicate_2 by lia.
    + rewrite lookup_ge_None_2; [done|]. rewrite length_replicate. lia.
Qed.

(** The variables after [k] pairs of sectors; in the overwrite mode the sizes are not
    reset. *)
Definition paired (k : nat) : scan :=
  let kn := Z.of_nat k * n in
  if uses OVERWRITE_ONLY then Scan (Z.of_nat k) (Z.of_nat k) kn kn 0 0 0
  else Scan (Z.of_nat k) (Z.of_nat k) 0 0 0 kn kn.

Lemma size_in slot k i w :
  uniform state slot k n → 0 <= i < Z.of_nat k → boot_img_sector_size state slot i w = (Ret n, w).
Proof using Hdev. intros Hu Hi. rewrite (uniform_size _ _ _ _ Hu) by lia. by rewrite (proj2 (Z.ltb_lt _ _)) by lia. Qed.

Lemma size_past slot k i w :
  uniform state slot k n → Z.of_nat k <= i < BOOT_MAX_IMG_SECTORS → boot_img_sector_size state slot i w = (Ret 0, w).
Proof using Hdev.
  intros Hu Hi. rewrite (uniform_size _ _ _ _ Hu) by lia. rewrite (proj2 (Z.ltb_ge _ _)) by lia.
  by rewrite (proj2 (Z.ltb_lt _ _)) by lia.
Qed.

Lemma size_out slot k i w :
  uniform state slot k n → BOOT_MAX_IMG_SECTORS <= i → boot_img_sector_size state slot i w = (Fault, w).
Proof using Hdev.
  intros Hu Hi. pose proof (un_max _ _ _ _ Hu). rewrite (uniform_size _ _ _ _ Hu) by lia.
  rewrite (proj2 (Z.ltb_ge _ _)) by lia. by rewrite (proj2 (Z.ltb_ge _ _)) by lia.
Qed.

Lemma small_prod (k : nat) : Z.of_nat k <= BOOT_MAX_IMG_SECTORS → 0 <= Z.of_nat k * n <= BOOT_MAX_IMG_SECTORS * n.
Proof using Hn Hmax. intros. nia. Qed.

(** Both slots have another sector. *)
Lemma paired_step (k : nat) w :
  (k < np)%nat → (k < ns)%nat → scan_step state (paired k) w = (Ret (inl (paired (S k))), w).
Proof using All.
  intros Hk1 Hk2. pose proof (un_max _ _ _ _ Hp). pose proof (small_prod k ltac:(lia)). pose proof (small_prod (S k) ltac:(lia)).
  assert (Hkn : Z.of_nat (S k) * n = Z.of_nat k * n + n) by lia.
  assert (BOOT_MAX_IMG_SECTORS < 4294967296) by nia.
  unfold scan_step, paired. rewrite (un_count _ _ _ _ Hp), (un_count _ _ _ _ Hs).
  destruct (uses OVERWRITE_ONLY) eqn:Ho; cbv beta iota zeta.
  all: rewrite (proj2 (Z.ltb_lt (Z.of_nat k) (Z.of_nat np))) by lia; cbn [orb negb]; rewrite Z.eqb_refl.
  all: erewrite bind_ret; [|etransitivity; [apply bind_ret, (size_in _ _ _ _ Hp); lia|];
      etransitivity; [apply bind_ret, (size_in _ _ _ _ Hs); lia|]; reflexivity].
  all: cbn [mret M_ret sc_i sc_j sc_sz0 sc_sz1 sc_pri sc_sec andb negb].
  all: rewrite !(u32_small (Z.of_nat k + 1)) by (unfold is_u32; lia).
  - rewrite !u32_small by (unfold is_u32; lia). by rewrite Hkn, Nat2Z.inj_succ, <- Z.add_1_r.
  - rewrite !(u32_small (0 + n)), Z.add_0_l, Z.eqb_refl by (unfold is_u32; nia). specialize (Hfit eq_refl).
    rewrite (proj2 (Z.ltb_ge _ _)) by lia. cbn [orb]. rewrite !u32_small by (unfold is_u32; lia). by rewrite Hkn, Nat2Z.inj_succ, <- Z.add_1_r.
Qed.

Lemma paired_loop (k fuel : nat) w :
  (k <= np)%nat → (k <= ns)%nat →
  loop (k + fuel) (scan_step state) (paired 0) w = loop fuel (scan_step state) (paired k) w.
Proof using All.
  revert fuel. induction k as [|k IH]; intros fuel Hk1 Hk2; [done|].
  replace (S k + fuel)%nat with (k + S fuel)%nat by lia. rewrite IH by lia. apply loop_continue, paired_step; lia.
Qed.

Lemma scan_start : paired 0 = Scan 0 0 0 0 0 0 0.
Proof using Type. unfold paired. by case (uses OVERWRITE_ONLY). Qed.

(** The fuel of the scan covers both tables. *)
Lemma scan_fuel (k : nat) w :
  (k <= np)%nat → (k <= ns)%nat →
  ∃ fuel, (Z.to_nat BOOT_MAX_IMG_SECTORS < fuel)%nat ∧
    scan_sectors state w = loop fuel (scan_step state) (paired k) w.
Proof using All.
  intros Hk1 Hk2. pose proof (un_max _ _ _ _ Hp). unfold scan_sectors. rewrite <- scan_start.
  rewrite (un_count _ _ _ _ Hp), (un_count _ _ _ _ Hs).
  set (f := S (S (Z.to_nat _))). exists (f - k)%nat. split; [unfold f; lia|].
  rewrite <- (paired_loop k) by done. f_equal. unfold f. lia.
Qed.

(** The same sectors in both slots: the scan ends after the last pair. *)
Lemma scan_equal w : np = ns → scan_sectors state w = (Ret (Some (paired np)), w).
Proof using All.
  intros Heq. destruct (scan_fuel np w) as ([|fuel] & Hf & ->); [lia..|]. apply loop_exit.
  unfold scan_step, paired. rewrite (un_count _ _ _ _ Hp), (un_count _ _ _ _ Hs), Heq.
  destruct (uses OVERWRITE_ONLY); by rewrite Z.ltb_irrefl.
Qed.

(** The primary slot has ended, the secondary has not: only the index of the primary
    table goes on. *)
Definition overrun (i smaller : Z) : scan :=
  let kn := Z.of_nat np * n in
  if uses OVERWRITE_ONLY then Scan i (Z.of_nat np + 1) kn (kn + n) smaller 0 0
  else Scan i (Z.of_nat np + 1) 0 n smaller kn kn.

Lemma overrun_start w : (np + 2 <= ns)%nat → scan_step state (paired np) w = (Ret (inl (overrun (Z.of_nat np + 1) 0)), w).
Proof using All.
  intros Hlt. pose proof (un_max _ _ _ _ Hs). pose proof (small_prod (S np) ltac:(lia)).
  assert (BOOT_MAX_IMG_SECTORS < 4294967296) by nia.
  unfold scan_step, paired, overrun. rewrite (un_count _ _ _ _ Hp), (un_count _ _ _ _ Hs).
  destruct (uses OVERWRITE_ONLY) eqn:Ho; cbv beta iota zeta.
  all: rewrite (proj2 (Z.ltb_lt (Z.of_nat np) (Z.of_nat ns))), orb_true_r by lia; cbn [negb]; rewrite Z.eqb_refl.
  all: erewrite bind_ret; [|etransitivity; [apply bind_ret, (size_past _ _ _ _ Hp); lia|];
      etransitivity; [apply bind_ret, (size_in _ _ _ _ Hs); lia|]; reflexivity].
  all: cbn [mret M_ret sc_i sc_j sc_sz0 sc_sz1 sc_pri sc_sec andb negb]; rewrite !u32_small by (unfold is_u32; lia).
  - by rewrite Z.add_0_r.
  - by rewrite !Z.add_0_l, (proj2 (Z.eqb_neq 0 n)) by lia.
Qed.

Lemma overrun_step i sm w :
  (np + 2 <= ns)%nat → Z.of_nat np < i < BOOT_MAX_IMG_SECTORS → sm <> 2 →
  scan_step state (overrun i sm) w = (Ret (inl (overrun (i + 1) 1)), w).
Proof using All.
  intros Hlt Hi Hsm. pose proof (un_max _ _ _ _ Hs). pose proof (small_prod (S np) ltac:(lia)).
  assert (BOOT_MAX_IMG_SECTORS < 4294967296) by nia.
  unfold scan_step, overrun. rewrite (un_count _ _ _ _ Hp), (un_count _ _ _ _ Hs).
  destruct (uses OVERWRITE_ONLY) eqn:Ho; cbv beta iota zeta.
  all: rewrite (proj2 (Z.ltb_lt (Z.of_nat np + 1) (Z.of_nat ns))), orb_true_r by lia; cbn [negb].
  all: rewrite (proj2 (Z.eqb_neq _ _)), (proj2 (Z.ltb_lt _ _)) by lia.
  all: erewrite bind_ret; [|etransitivity; [apply bind_ret, (size_past _ _ _ _ Hp); lia|];
      rewrite (proj2 (Z.eqb_neq sm 2)) by done; reflexivity].
  all: cbn [mret M_ret sc_i sc_j sc_sz0 sc_sz1 sc_pri sc_sec andb negb]; rewrite !u32_small by (unfold is_u32; lia).
  - by rewrite Z.add_0_r.
  - by rewrite !Z.add_0_l, (proj2 (Z.eqb_neq 0 n)) by lia.
Qed.

Lemma overrun_fault i sm w :
  (np + 2 <= ns)%nat → BOOT_MAX_IMG_SECTORS <= i → scan_step state (overrun i sm) w = (Fault, w).
Proof using All.
  intros Hlt Hi. pose proof (un_max _ _ _ _ Hs). unfold scan_step, overrun.
  rewrite (un_count _ _ _ _ Hp), (un_count _ _ _ _ Hs). destruct (uses OVERWRITE_ONLY) eqn:Ho; cbv beta iota zeta.
  all: rewrite (proj2 (Z.ltb_lt (Z.of_nat np + 1) (Z.of_nat ns))), orb_true_r by lia; cbn [negb].
  all: rewrite (proj2 (Z.eqb_neq _ _)), (proj2 (Z.ltb_lt _ _)) by lia.
  all: unfold mbind, M_bind; by rewrite (size_out _ _ _ _ Hp) by lia.
Qed.

Lemma overrun_loop (d fuel : nat) i sm w :
  (np + 2 <= ns)%nat → Z.of_nat np < i → i + Z.of_nat d = BOOT_MAX_IMG_SECTORS → sm <> 2 → (d < fuel)%nat →
  loop fuel (scan_step state) (overrun i sm) w = (Fault, w).
Proof using All.
  revert fuel i sm. induction d as [|d IH]; intros [|fuel] i sm Hlt Hi Hd Hsm Hf; try lia.
  - cbn [loop]. unfold mbind, M_bind. by rewrite overrun_fault by lia.
  - erewrite loop_continue by (apply overrun_step; lia). apply IH; lia.
Qed.

Lemma scan_overrun w : (np + 2 <= ns)%nat → scan_sectors state w = (Fault, w).
Proof using All.
  intros Hlt. pose proof (un_max _ _ _ _ Hs). destruct (scan_fuel np w) as ([|fuel] & Hf & ->); [lia..|].
  erewrite loop_continue by (by apply overrun_start).
  apply (overrun_loop (Z.to_nat (BOOT_MAX_IMG_SECTORS - Z.of_nat np - 1))); lia.
Qed.

End Uniform.

(** C28: for slots with sectors of one size that fit in the scratch area, the
    compatibility check of swap_scratch.c accepts slots with the same number of sectors.
    When the secondary slot has at least two sectors more than the primary, the scan
    does not report it: it runs past the end of the sector table of the primary slot, in
    the check and in the computation of the maximal image size. *)
Theorem slots_scan state (np ns : nat) n w :
  MCUBOOT_LOGICAL_SECTOR_SIZE = 0 → uniform state BOOT_SLOT_PRIMARY np n → uniform state BOOT_SLOT_SECONDARY ns n →
  0 < n → BOOT_MAX_IMG_SECTORS * n < 4294967296 →
  (uses OVERWRITE_ONLY = false → n <= boot_scratch_area_size state) →
  (np = ns → boot_slots_compatible state w = (Ret true, w)) ∧
  ((np + 2 <= ns)%nat → boot_slots_compatible state w = (Fault, w) ∧ app_max_size state w = (Fault, w)).
Proof.
  intros Hdev Hp Hs Hn Hmax Hfit. unfold boot_slots_compatible, app_max_size, mbind, M_bind.
  rewrite (un_count _ _ _ _ Hp), (un_count _ _ _ _ Hs).
  rewrite !(proj2 (Z.ltb_ge _ _)) by (eapply un_max; eassumption). cbn [orb]. split.
  - intros Heq. erewrite scan_equal by eassumption. unfold paired. subst ns.
    destruct (uses OVERWRITE_ONLY); cbn; by rewrite ?Z.eqb_refl.
  - intros Hlt. by erewrite scan_overrun by eassumption.
Qed.

End Scan.
