(* ===== verification/AlgoKeeps.v ===== *)
(** * The other swap algorithms keep the flash well-formed

    The interface [SwapKeeps] of FlashKeeps.v for swap_move.c and swap_scratch.c, so
    that what is proved of the boot holds with each of the three algorithms. *)

From S2P Require Import Prelude Effects Partial FlashMap AnyFlash BootConfig Trailer SwapState Area Image Tlv.
From S2P Require Import Sectors LoaderState SwapMisc SwapOffset FlashKeeps SwapMove SwapScratch.
#[local] Set Default Proof Using "Type*".

Section Shared.
  Context {W : Type} `{AnyFlash W} `{BootConfig}.

#[local] Abbreviation fine c := (keeps (W := W) any_ok c (λ _, True)).

Lemma misc_size_keeps i p q state slot :
  slots_ok i p q state → keeps any_ok (misc_read_image_size state slot) (λ r, slots_ok i p q (snd r)).
Proof. intros Hs. unfold misc_read_image_size. keep. Qed.

Lemma status_assert_keeps b : fine (status_assert b).
Proof. unfold status_assert. keep. Qed.

Lemma erase_copy_keeps src dst so d sz : fine (erase_copy src dst so d sz).
Proof. unfold erase_copy. keep. Qed.

Lemma status_step_keeps fap off wsz s : fine (status_bytes_step fap off wsz s).
Proof. unfold status_bytes_step. keep. Qed.

End Shared.

#[export] Hint Resolve status_assert_keeps erase_copy_keeps status_step_keeps : keep.

Section Move.
  Context {W : Type} `{AnyFlash W} `{BootConfig}.

#[local] Abbreviation fine c := (keeps (W := W) any_ok c (λ _, True)).

Lemma move_last_idx_keeps state n : fine (SwapMove.find_last_idx state n).
Proof. unfold SwapMove.find_last_idx. keep. Qed.
#[local] Hint Resolve move_last_idx_keeps : keep.

Lemma move_loop_keeps state p q sz last s : fine (SwapMove.move_loop_step state p q sz last s).
Proof. unfold SwapMove.move_loop_step, SwapMove.boot_move_sector_up. keep. Qed.

Lemma exchange_loop_keeps state p q sz last s : fine (SwapMove.swap_loop_step state p q sz last s).
Proof. unfold SwapMove.swap_loop_step, SwapMove.boot_swap_sectors. keep. Qed.
#[local] Hint Resolve move_loop_keeps exchange_loop_keeps : keep.

Lemma move_header_keeps i p q state slot hdr bs :
  slots_ok i p q state → header_ok hdr →
  keeps any_ok (SwapMove.boot_read_image_header state slot hdr bs)
    (λ r, header_ok (snd (fst r)) ∧ slots_ok i p q (snd r)).
Proof.
  intros Hs Hh. unfold SwapMove.boot_read_image_header. apply (keeps_bind _ _ _ (λ _, True)); [keep|].
  intros [[sl off]|] _; [|by apply keeps_ret]. eapply keeps_bind; [eapply (keeps_read any_ok)|].
  intros [rc b] Hb. keep; split; (done || by apply header_of_bytes_ok).
Qed.

#[export] Instance swap_move_keeps : @SwapKeeps W _ _ _ swap_move_algo.
Proof.
  split; cbn.
  - intros state w0. unfold SwapMove.app_max_size, boot_img_sector_size. keep.
  - unfold SwapMove.boot_slots_compatible, SwapMove.same_layout_step. keep.
  - apply move_header_keeps.
  - apply misc_size_keeps.
  - unfold SwapMove.swap_status_source. keep.
  - unfold SwapMove.swap_read_status_bytes. keep.
  - unfold SwapMove.swap_run, SwapMove.fixup_revert, SwapMove.swap_fits, first_trailer_idx. keep.
Qed.

End Move.

Section Scratch.
  Context {W : Type} `{AnyFlash W} `{BootConfig}.

#[local] Abbreviation fine c := (keeps (W := W) any_ok c (λ _, True)).

(** The scans over the sector tables, for any invariant. *)
Section Pure.
  Context (I : W → Prop).
#[local] Abbreviation fine c := (keeps I c (λ _, True)).

Lemma size_pure state slot i : fine (boot_img_sector_size state slot i).
Proof. unfold boot_img_sector_size. keep. Qed.

Lemma off_pure state slot i : fine (boot_img_sector_off state slot i).
Proof. unfold boot_img_sector_off. keep. Qed.
#[local] Hint Resolve size_pure off_pure : keep.

Lemma first_trailer_pure state slot n : fine (boot_get_first_trailer_sector state slot n).
Proof. unfold boot_get_first_trailer_sector. keep. Qed.
#[local] Hint Resolve first_trailer_pure : keep.

Lemma scan_pure state : fine (scan_sectors state).
Proof. unfold scan_sectors, scan_step. keep. Qed.
#[local] Hint Resolve scan_pure : keep.

Lemma max_size_pure state : fine (SwapScratch.app_max_size state).
Proof.
  unfold SwapScratch.app_max_size, app_max_size_adjust_to_trailer, get_first_trailer_sector_end_off. keep.
Qed.

Lemma copy_sz_pure state n : fine (boot_copy_sz state n).
Proof. unfold boot_copy_sz. keep. Qed.

Lemma last_sector_pure state n : fine (find_last_sector_idx state n).
Proof. unfold find_last_sector_idx. keep. Qed.
#[local] Hint Resolve copy_sz_pure last_sector_pure : keep.

Lemma swap_count_pure state n : fine (find_swap_count state n).
Proof. unfold find_swap_count. keep. Qed.

End Pure.
#[local] Hint Resolve first_trailer_pure scan_pure copy_sz_pure last_sector_pure swap_count_pure : keep.

Lemma scratch_swap_keeps idx sz state bs : fine (SwapScratch.boot_swap_sectors idx sz state bs).
Proof.
  unfold SwapScratch.boot_swap_sectors, swap_extent, swap_state_0, swap_state_1, swap_state_2, restore_trailer,
    erase_scratch_area, erase_unless_empty. keep.
Qed.
#[local] Hint Resolve scratch_swap_keeps : keep.

Lemma scratch_header_keeps i p q state slot hdr bs :
  slots_ok i p q state → header_ok hdr →
  keeps any_ok (SwapScratch.boot_read_image_header state slot hdr bs)
    (λ r, header_ok (snd (fst r)) ∧ slots_ok i p q (snd r)).
Proof.
  intros Hs Hh. unfold SwapScratch.boot_read_image_header. apply (keeps_bind _ _ _ (λ _, True)); [keep|].
  intros [fap|] _; [|by apply keeps_ret]. eapply keeps_bind; [eapply (keeps_read any_ok)|].
  intros [rc b] Hb. apply keeps_ret. case_if Hrc; [done|]. split; [by apply header_of_bytes_ok|done].
Qed.

#[export] Instance swap_scratch_keeps : @SwapKeeps W _ _ _ swap_scratch_algo.
Proof.
  split; cbn.
  - intros. apply max_size_pure.
  - unfold SwapScratch.boot_slots_compatible. keep.
  - apply scratch_header_keeps.
  - apply misc_size_keeps.
  - unfold SwapScratch.swap_status_source. keep.
  - unfold SwapScratch.swap_read_status_bytes, scratch_status_step. keep.
  - unfold SwapScratch.swap_run. keep.
Qed.

End Scratch.
