(* ===== verification/SecureBoot.v ===== *)
(** * What is started has been authenticated

    The whole boot, on arbitrary contents of the flash: with validation of the primary
    slot enabled, whatever the slots and trailers hold and whichever way the boot
    takes, an image is handed over for execution only after it was validated, and the
    flash has not changed since. *)

From S2P Require Import Prelude Effects Partial FlashMap AnyFlash BootConfig Trailer SwapState Area Image Tlv.
From S2P Require Import TlvProps LoaderState Sectors Validate ValidateProps SwapMisc BootLoop SwapHeaders FlashKeeps.
#[local] Set Default Proof Using "Type*".

(** The environment of the boot: the sector tables are read without effect on the
    flash, and so is the security counter updated. *)
Class BootWorld (W : Type) `{AnyFlash W} `{FlashSectors W} `{PlatformOk W} := {
  bw_get_sectors id n w : snd (flash_area_get_sectors id n w) = w;
  bw_counter_update i c w : any_ok w →
    returns (boot_nv_security_counter_update i c)
      (λ _ w', any_ok w' ∧ ∀ fa, fm_area fa → fm_cells w' fa = fm_cells w fa) w;
}.

Section Reads.
  Context {W : Type} `{BootWorld W} `{BootConfig} `{ValidateConfig} `{Sha} `{Signing} `{!SwapAlgo W} `{!SwapKeeps W}.
  Context (I : W → Prop) `{!Refines I}.

#[local] Abbreviation fine c := (keeps (W := W) I c (λ _, True)).

Lemma get_sectors_keeps id n : fine (flash_area_get_sectors id n).
Proof. apply keeps_same; [done|]. intros. apply bw_get_sectors. Qed.

Lemma load_keeps fap off cap n : fine (LOAD_IMAGE_DATA fap off cap n).
Proof. unfold LOAD_IMAGE_DATA. keep. Qed.
#[local] Hint Resolve load_keeps : keep.

Lemma img_hash_keeps state hdr fap tmp seed : fine (bootutil_img_hash state hdr fap tmp seed).
Proof. unfold bootutil_img_hash, hash_step. keep. Qed.

#[local] Hint Resolve img_hash_keeps : keep.

#[local] Ltac pure := apply keeps_same; [done|]; intros w _.

Lemma counter_get_keeps i : fine (boot_nv_security_counter_get i).
Proof. pure. by rewrite pf_counter_get. Qed.

Lemma update_possible_keeps i c : fine (boot_nv_security_counter_is_update_possible i c).
Proof. pure. by rewrite pf_update_possible. Qed.

Lemma vid_match_keeps i u : fine (boot_uuid_vid_match i u).
Proof. pure. by rewrite pf_vid_match. Qed.

Lemma cid_match_keeps i u : fine (boot_uuid_cid_match i u).
Proof. pure. by rewrite pf_cid_match. Qed.

Lemma max_size_keeps state fap : fine (bootutil_max_image_size state fap).
Proof.
  unfold bootutil_max_image_size. keep; intros w Hw; (eapply returns_mono; [by eapply (sk_max state w)|]); by intros ? ? [_ ->].
Qed.

#[local] Hint Resolve counter_get_keeps update_possible_keeps vid_match_keeps cid_match_keeps max_size_keeps : keep.

Lemma check_tlv_keeps i fap hash off len type v : fine (check_tlv i fap hash off len type v).
Proof.
  unfold check_tlv, check_hash, check_key, check_signature, check_counter, check_uuid. keep.
Qed.
#[local] Hint Resolve check_tlv_keeps : keep.

Lemma check_image_keeps state slot : fine (boot_check_image state slot).
Proof. unfold boot_check_image, bootutil_img_validate, validate_step. keep. Qed.

Lemma security_cnt_keeps state slot fap : fine (bootutil_get_img_security_cnt state slot fap).
Proof. unfold bootutil_get_img_security_cnt. keep. Qed.
#[local] Hint Resolve security_cnt_keeps : keep.

Lemma update_counter_keeps state slot hslot :
  (∀ i c, fine (boot_nv_security_counter_update i c)) → fine (boot_update_security_counter state slot hslot).
Proof. intros. unfold boot_update_security_counter. keep. Qed.

Lemma hw_rollback_keeps `{!LoaderConfig} state :
  (∀ i c, fine (boot_nv_security_counter_update i c)) → fine (boot_update_hw_rollback_protection state).
Proof.
  intros Hu. pose proof (λ s l m, update_counter_keeps s l m Hu). unfold boot_update_hw_rollback_protection. keep.
Qed.

End Reads.

#[export] Hint Resolve get_sectors_keeps check_image_keeps security_cnt_keeps : keep.

(** ** Every way through the boot *)

Section Boot.
  Context {W : Type} `{BootWorld W} `{BootConfig} `{ValidateConfig} `{Sha} `{Signing} `{!SwapAlgo W} `{!SwapKeeps W}.
  Context `{LoaderConfig} (i : Z) (p q : flash_area).

#[local] Abbreviation fine c := (keeps (W := W) any_ok c (λ _, True)).
#[local] Abbreviation good := (slots_ok i p q).

(** Steps through code that passes the loader state on. *)
#[local] Ltac boot_step :=
  cbv beta zeta;
  lazymatch goal with
  | |- keeps _ (@mbind _ _ ?A _ _ _) _ =>
      first [ eapply keeps_bind; [solve [eauto 4 with keep nocore]|intros ? ?]
            | lazymatch A with
              | boot_loader_state => apply (keeps_bind _ _ _ good)
              | (_ * boot_loader_state)%type => apply (keeps_bind _ _ _ (λ r, good (snd r)))
              | _ => apply (keeps_bind _ _ _ (λ _, True))
              end; [|intros ? ?] ]
  | |- keeps _ (mret _) _ => apply keeps_ret; cbn [fst snd]; repeat case_match; eauto with keep
  | _ => keep_step
  end.
#[local] Ltac boot := intros; repeat boot_step; try done.

Lemma counter_update_keeps j c : fine (boot_nv_security_counter_update j c).
Proof. intros w Hw. eapply returns_mono; [by apply bw_counter_update|]. by intros a w' [? _]. Qed.

Lemma update_security_counter_keeps state slot hslot : fine (boot_update_security_counter state slot hslot).
Proof. eapply (update_counter_keeps any_ok). apply counter_update_keeps. Qed.
#[local] Hint Resolve update_security_counter_keeps : keep.

Lemma initialize_area_keeps state id : good state → keeps any_ok (boot_initialize_area state id) (λ r, good (snd r)).
Proof.
  unfold boot_initialize_area, initialize_area_device, initialize_area_logical. boot.
Qed.
#[local] Hint Resolve initialize_area_keeps : keep.

Lemma read_sectors_keeps v state : good state → keeps any_ok (boot_read_sectors v state) (λ r, good (snd r)).
Proof.
  unfold boot_read_sectors, boot_verify_logical_sectors, verify_sectors_step. boot.
Qed.
#[local] Hint Resolve read_sectors_keeps : keep.

Lemma read_headers_keeps state all bs :
  good state → keeps any_ok (boot_read_image_headers state all bs) (λ r, good (snd r)).
Proof.
  intros Hs. unfold boot_read_image_headers.
  eapply keeps_bind; [apply (sk_header i p q); [done|by eapply so_hdr]|]. intros [[rc h] s1] [Hh Hs1]. cbn [fst snd] in *.
  assert (Hg : good (set_img_hdr s1 BOOT_SLOT_PRIMARY h)) by eauto with keep.
  boot_step; [boot|].
  eapply keeps_bind; [apply (sk_header i p q); [done|by eapply so_hdr]|]. intros [[rc2 h2] s2] [Hh2 Hs2]. cbn [fst snd] in *.
  boot.
Qed.
#[local] Hint Resolve read_headers_keeps : keep.

Lemma validate_slot_keeps state slot bs t : fine (boot_validate_slot state slot bs t).
Proof. unfold boot_validate_slot, discard_trailer, wrong_sector, address_ok. boot. Qed.
#[local] Hint Resolve validate_slot_keeps : keep.

Lemma validated_swap_type_keeps state bs : fine (boot_validated_swap_type state bs).
Proof. unfold boot_validated_swap_type. boot. Qed.
#[local] Hint Resolve validated_swap_type_keeps : keep.

Lemma copy_image_keeps state : good state → keeps any_ok (boot_copy_image state) (λ r, good (snd r)).
Proof.
  unfold boot_copy_image, copy_erase_step, erase_primary_trailer, trailer_sectors_step, scramble_sector. boot.
Qed.
#[local] Hint Resolve copy_image_keeps : keep.

Lemma swap_image_keeps state bs : good state → keeps any_ok (boot_swap_image state bs) (λ r, good (snd r)).
Proof. unfold boot_swap_image, swap_copy_size. boot. Qed.
#[local] Hint Resolve swap_image_keeps : keep.

Lemma perform_update_keeps state bs : good state → keeps any_ok (boot_perform_update state bs) (λ r, good (snd r)).
Proof. unfold boot_perform_update. boot. Qed.
#[local] Hint Resolve perform_update_keeps : keep.

Lemma partial_swap_keeps state bs :
  good state → keeps any_ok (boot_complete_partial_swap state bs) (λ r, good (snd r)).
Proof. unfold boot_complete_partial_swap. boot. Qed.
#[local] Hint Resolve partial_swap_keeps : keep.

Lemma prepare_keeps state bs :
  good state → keeps any_ok (boot_prepare_image_for_update state bs) (λ r, good (snd r)).
Proof.
  pose proof (λ s b, read_status_keeps swap_status_source swap_read_status_bytes s b sk_source sk_bytes).
  unfold boot_prepare_image_for_update, prepare_with_status. boot.
Qed.
#[local] Hint Resolve prepare_keeps : keep.

Lemma perform_swap_type_keeps state bs :
  good state → keeps any_ok (perform_swap_type state bs) (λ r, good (snd r)).
Proof. unfold perform_swap_type, check_downgrade_prevention. boot. Qed.
#[local] Hint Resolve perform_swap_type_keeps : keep.

End Boot.

(** ** The image started *)

Section Secure.
  Context {W : Type} `{BootWorld W} `{BootConfig} `{ShaOk} `{Signing} `{!SwapAlgo W} `{!SwapKeeps W}.
  Context `{LoaderConfig} (i : Z) (p q : flash_area).
  Hypothesis Hp : fm_area p.
  Hypothesis Hpq : p ≠ q.
  Hypothesis Hbuf : IMAGE_HASH_SIZE <= SIG_BUF_SIZE.
  Hypothesis Hkeys : bootutil_key_cnt <= 256.
  Hypothesis Htmp : 0 < BOOT_TMPBUF_SZ < 4294967296.

(** Validation without assumptions on the size the swap algorithm allows. *)
Lemma validate_returns fa w state hdr tmp :
  fm_area fa → any_ok w → header_ok hdr → 0 < tmp < 4294967296 → image_start state fa = 0 →
  returns (bootutil_img_validate state hdr fa tmp [])
    (λ r w', w' = w ∧ (fst r = FIH_SUCCESS → ∃ limit, trusted w (curr_img_idx state) hdr fa 0 limit)) w.
Proof using All.
  intros Hfa Hok Hh Ht Hst. pose proof (any_fm_ok w Hok) as Hfm.
  assert (Hrd : reads_answer w fa).
  { intros off len. destruct (any_read w fa off len Hok) as (rc & b & ? & ?). by exists rc, b. }
  assert (Hs : 0 <= image_start state fa < 2147483648) by (rewrite Hst; lia).
  assert (Hsame : keeps (λ w', w' = w) (bootutil_max_image_size state fa) (λ _, True)).
  { unfold bootutil_max_image_size, boot_status_off. keep; apply sk_max. }
  specialize (Hsame w eq_refl). unfold returns in Hsame.
  destruct (bootutil_max_image_size state fa w) as [o w1] eqn:Hm.
  destruct (fm_bounds fa Hfa) as (? & ? & ?).
  destruct o as [max| | | |].
  { destruct Hsame as [_ ->]. eapply returns_mono; [eapply returns_wp, validate_wp; eauto|]. rewrite Hst. intros [r h] w' [-> Hr].
    split; [done|]. eauto. }
  all: unfold bootutil_img_validate; rewrite Hst; apply returns_bind; unfold returns at 1;
    rewrite img_hash_eq, Hst by (done || (unfold is_u32; lia));
    destruct (0 + span_size hdr <=? fa_size fa) eqn:Hin; [|by apply returns_ret]; zsimp; cbn [Z.eqb negb];
    apply returns_bind; (eapply returns_mono; [eapply returns_wp, iter_begin_safe; (done || lia)|]);
    intros [it|] w' [-> _]; [|by apply returns_ret]; cbv zeta;
    unfold returns, mbind, M_bind; by rewrite Hm.
Qed.

Lemma good_start state : slots_ok i p q state → image_start state p = 0.
Proof using Hpq.
  intros []. unfold image_start, boot_get_state_secondary_offset. destruct (uses _); [|done].
  rewrite bool_decide_false; [done|]. unfold BOOT_IMG_AREA, BOOT_IMG. cbn. congruence.
Qed.

Lemma address_returns state slot w : any_ok w → returns (address_ok state slot) (λ _ w', w' = w) w.
Proof using Type.
  intros Hok. unfold address_ok. cbv zeta. case_if Ha; [|by apply returns_ret]. case_if Hc; [by apply returns_ret|].
  apply returns_bind. unfold returns at 1.
  destruct (any_read w (BOOT_IMG_AREA state slot) (ih_hdr_size (boot_img_hdr state slot) ⊕ RESET_OFFSET) 4 Hok)
    as (rc & b & Heq & _).
  rewrite Heq. by apply returns_ret.
Qed.

Lemma wrong_returns state slot bs t w : any_ok w → returns (wrong_sector state slot bs t) (λ _ w', w' = w) w.
Proof using Type.
  intros Hok. unfold wrong_sector. case_if Ho; [|by apply returns_ret]. destruct bs as [bs|]; [|done].
  case_if Hr; [|by apply returns_ret]. apply returns_bind. unfold returns at 1.
  destruct (any_read w (BOOT_IMG_AREA state slot) 0 IMAGE_HEADER_SIZE Hok) as (rc & b & Heq & _).
  rewrite Heq. by apply returns_ret.
Qed.

(** A slot passes only if its image is trusted, and nothing is changed then. *)
Lemma slot_validated state slot bs t w :
  any_ok w → slots_ok i p q state → fm_area (BOOT_IMG_AREA state slot) →
  image_start state (BOOT_IMG_AREA state slot) = 0 →
  returns (boot_validate_slot state slot bs t)
    (λ r w', r = FIH_SUCCESS →
      w' = w ∧ ∃ limit, trusted w i (boot_img_hdr state slot) (BOOT_IMG_AREA state slot) 0 limit) w.
Proof using All.
  intros Hok Hg Hfa Hst. unfold boot_validate_slot. cbv zeta.
  assert (Hany : ∀ {A} (c : M W A), returns (c ;; mret FIH_NO_BOOTABLE_IMAGE) (λ r w', r = FIH_SUCCESS →
      w' = w ∧ ∃ limit, trusted w i (boot_img_hdr state slot) (BOOT_IMG_AREA state slot) 0 limit) w).
  { intros A c. apply returns_bind. unfold returns at 1. by destruct (c w) as [[] ?]. }
  case_if He; [apply Hany|].
  apply returns_bind. eapply returns_mono; [by apply wrong_returns|]. intros [wrong|] w1 ->; [|by apply returns_ret].
  case_if Hv; [apply Hany|].
  apply returns_bind. destruct wrong; [apply returns_ret, Hany|]. case_if Hhv; [apply returns_ret, Hany|].
  unfold boot_check_image. apply returns_bind.
  eapply returns_mono; [apply (validate_returns _ w state); [done..|by eapply so_hdr|done|done]|].
  intros [r h] w' [-> Hr]. apply returns_ret. cbn [fst] in Hr.
  case_if Hrc; [apply Hany|]. unfold FIH_EQ in Hrc. case_bool_decide; [subst r|done].
  destruct (Hr eq_refl) as [limit Htr]. rewrite (so_idx _ _ _ _ Hg) in Htr.
  apply returns_bind. eapply returns_mono; [by apply address_returns|].
  intros [[]|] w' ->; [by apply returns_ret; eauto|apply Hany|by apply returns_ret].
Qed.

(** The primary slot. *)
Lemma primary_validated state w t :
  any_ok w → slots_ok i p q state →
  returns (boot_validate_slot state BOOT_SLOT_PRIMARY None t)
    (λ r w', r = FIH_SUCCESS → w' = w ∧ ∃ limit, trusted w i (boot_img_hdr state BOOT_SLOT_PRIMARY) p 0 limit) w.
Proof using All.
  intros Hok Hg. pose proof (so_pri _ _ _ _ Hg) as Hpri.
  change (img_area (img_primary state)) with (BOOT_IMG_AREA state BOOT_SLOT_PRIMARY) in Hpri.
  rewrite <- Hpri. apply slot_validated; rewrite ?Hpri; try done. by apply good_start.
Qed.

(** The flash still holds what it held in [w1]. *)
Definition unchanged (w1 w : W) : Prop :=
  any_ok w ∧ ∀ fa, fm_area fa → fm_cells w fa = fm_cells w1 fa.

Lemma unchanged_refines w1 : Refines (unchanged w1).
Proof using Type. by intros w []. Qed.

Lemma unchanged_counter w1 j c : keeps (unchanged w1) (boot_nv_security_counter_update j c) (λ _, True).
Proof using H5.
  intros w [Hok Hc]. eapply returns_mono; [by apply bw_counter_update|]. intros a w' [Hok' Hc']. split; [done|].
  split; [done|]. intros fa Hfa. by rewrite Hc', Hc.
Qed.

(** What the response of a successful boot says. *)
Definition started (o : option boot_loader_state) (w' : W) : Prop :=
  match o with
  | None => True
  | Some state => slots_ok i p q state ∧ ∃ w1 limit, unchanged w1 w' ∧
      trusted w1 i (boot_img_hdr state BOOT_SLOT_PRIMARY) p 0 limit
  end.

Lemma final_check_started state w :
  MCUBOOT_VALIDATE_PRIMARY_SLOT = true → any_ok w → slots_ok i p q state → returns (final_check state) started w.
Proof using All.
  intros Hval Hok Hg. unfold final_check. apply returns_bind.
  assert (Hr : keeps any_ok (if negb (state_swap_type state =? BOOT_SWAP_TYPE_NONE)
      then boot_read_image_headers state false None else mret (0, state)) (λ r, slots_ok i p q (snd r))).
  { case_if Ht; [by apply read_headers_keeps|by apply keeps_ret]. }
  eapply returns_mono; [by apply Hr|]. clear Hr. intros [rc s1] w1 [Hg1 Hok1]. cbn [snd] in Hg1.
  case_if Hrc; [by apply returns_ret|]. rewrite Hval. apply returns_bind, returns_bind.
  eapply returns_mono; [by apply primary_validated|]. intros r w2 Hr. apply returns_ret.
  case_if Hrs; [by apply returns_ret|]. unfold FIH_EQ in Hrs. case_bool_decide; [subst r|done].
  destruct (Hr eq_refl) as [-> [limit Htr]]. apply returns_bind.
  pose proof (unchanged_refines w1). eapply returns_mono.
  { apply (hw_rollback_keeps (unchanged w1) s1); [apply unchanged_counter|by split]. }
  intros rc2 w3 [_ Hun]. case_if Hrc2; apply returns_ret; [done|]. cbn. eauto.
Qed.

(** Opening the slots fills in the areas. *)
Lemma open_areas_good state w :
  (∀ w, flash_area_open (FLASH_AREA_IMAGE_PRIMARY i) w = (Ret (0, p), w)) →
  (∀ w, flash_area_open (FLASH_AREA_IMAGE_SECONDARY i) w = (Ret (0, q), w)) →
  any_ok w → curr_img_idx state = i → header_ok (img_hdr (img_primary state)) →
  header_ok (img_hdr (img_secondary state)) →
  returns (boot_open_all_flash_areas state) (λ s w', slots_ok i p q s ∧ any_ok w') w.
Proof using Type.
  intros Hop Hoq Hok Hi Hh1 Hh2. unfold boot_open_all_flash_areas. rewrite Hi.
  eapply returns_bind_eq; [apply Hop|]. eapply returns_bind_eq; [done|]. cbv zeta.
  change (curr_img_idx (set_img_area state BOOT_SLOT_PRIMARY p)) with (curr_img_idx state). rewrite Hi.
  eapply returns_bind_eq; [apply Hoq|]. eapply returns_bind_eq; [done|]. cbv zeta.
  assert (Hg : slots_ok i p q (set_img_area (set_img_area state BOOT_SLOT_PRIMARY p) BOOT_SLOT_SECONDARY q)) by (by constructor).
  case_if Hs; [|by apply returns_ret].
  apply returns_bind. eapply returns_mono; [by eapply (keeps_open any_ok)|]. intros [rc scr] w1 [_ Hok1].
  apply returns_bind. eapply returns_mono; [by eapply keeps_assert|]. intros _ w2 [_ Hok2].
  apply returns_ret. split; [|done]. by apply slots_set_scratch.
Qed.

(** The boot up to the last check. *)
Lemma boot_to_final_check state w (Q : fih_ret * option boot_rsp → W → Prop) :
  (∀ w, flash_area_open (FLASH_AREA_IMAGE_PRIMARY i) w = (Ret (0, p), w)) →
  (∀ w, flash_area_open (FLASH_AREA_IMAGE_SECONDARY i) w = (Ret (0, q), w)) →
  any_ok w → curr_img_idx state = i →
  header_ok (img_hdr (img_primary state)) → header_ok (img_hdr (img_secondary state)) →
  (∀ s w1, slots_ok i p q s → any_ok w1 → returns (final_check s)
     (λ o, Q (match o with None => (FIH_FAILURE, None) | Some s => (FIH_SUCCESS, Some (fill_rsp s)) end)) w1) →
  returns (context_boot_go state) Q w.
Proof using H5 SwapKeeps0.
  intros Hop Hoq Hok Hi Hh1 Hh2 Hfin.
  unfold context_boot_go. apply returns_bind. eapply returns_mono; [by apply open_areas_good|].
  intros s1 w1 [Hg1 Hok1]. apply returns_bind. eapply returns_mono; [by apply (read_sectors_keeps i p q)|].
  intros [rc s2] w2 [Hg2 Hok2]. cbn [snd] in Hg2. cbv zeta.
  assert (Hg3 : slots_ok i p q (if negb (rc =? 0) then set_swap_type s2 BOOT_SWAP_TYPE_NONE else s2)).
  { case_if Hrc; [by apply slots_set_swap_type|done]. }
  set (s3 := if negb (rc =? 0) then _ else s2) in *.
  apply returns_bind. eapply (returns_mono _ (λ r w', slots_ok i p q (snd r) ∧ any_ok w')).
  { case_if He; [by apply prepare_keeps|by apply returns_ret]. }
  intros [bs s4] w4 [Hg4 Hok4]. cbn [snd] in Hg4.
  apply returns_bind. eapply returns_mono; [by apply (perform_swap_type_keeps i p q)|].
  intros [bs5 s5] w5 [Hg5 Hok5]. cbn [snd] in Hg5. case_if Hpanic; [done|].
  apply returns_bind. eapply returns_mono; [by apply Hfin|]. intros o w6 HQ. by apply returns_ret.
Qed.

(** C3: secure boot.  Whatever the flash holds, and with whichever swap algorithm keeps
    the flash a flash: if the boot succeeds with validation of the primary slot enabled,
    the response points to the primary slot, and the image there was found trusted, that
    is complete, with its digest in its TLVs and, if signing is enabled, a signature over
    it by one of the built-in keys; and the flash has not changed since. *)
Theorem secure_boot state w rsp w' :
  (∀ w, flash_area_open (FLASH_AREA_IMAGE_PRIMARY i) w = (Ret (0, p), w)) →
  (∀ w, flash_area_open (FLASH_AREA_IMAGE_SECONDARY i) w = (Ret (0, q), w)) →
  MCUBOOT_VALIDATE_PRIMARY_SLOT = true → any_ok w → curr_img_idx state = i →
  header_ok (img_hdr (img_primary state)) → header_ok (img_hdr (img_secondary state)) →
  context_boot_go state w = (Ret (FIH_SUCCESS, rsp), w') →
  ∃ hdr w1 limit, rsp = Some (BootRsp (fa_device_id p) (fa_off p) hdr) ∧ unchanged w1 w' ∧
    trusted w1 i hdr p 0 limit.
Proof using All.
  intros Hop Hoq Hval Hok Hi Hh1 Hh2 Hgo.
  enough (Hr : returns (context_boot_go state) (λ r w', fst r = FIH_SUCCESS →
      ∃ hdr w1 limit, snd r = Some (BootRsp (fa_device_id p) (fa_off p) hdr) ∧ unchanged w1 w' ∧
        trusted w1 i hdr p 0 limit) w).
  { by apply (returns_eq _ _ _ _ _ Hr Hgo). }
  apply boot_to_final_check; try done. intros s5 w5 Hg5 Hok5.
  eapply returns_mono; [by apply final_check_started|].
  intros [s6|] w6 Hst; [|done]. destruct Hst as (Hg6 & w7 & limit & Hun & Htr).
  intros _. exists (boot_img_hdr s6 BOOT_SLOT_PRIMARY), w7, limit. split_and!; try done.
  cbn [snd]. unfold fill_rsp, BOOT_IMG_AREA, BOOT_IMG. cbn. by rewrite (so_pri _ _ _ _ Hg6).
Qed.

Lemma final_check_keeps state w :
  any_ok w → slots_ok i p q state → returns (final_check state) (λ _ w', any_ok w') w.
Proof using H5 SwapKeeps0.
  intros Hok Hg. unfold final_check. apply returns_bind.
  assert (Hr : keeps any_ok (if negb (state_swap_type state =? BOOT_SWAP_TYPE_NONE)
      then boot_read_image_headers state false None else mret (0, state)) (λ r, slots_ok i p q (snd r))).
  { case_if Ht; [by apply read_headers_keeps|by apply keeps_ret]. }
  eapply returns_mono; [by apply Hr|]. clear Hr. intros [rc s1] w1 [Hg1 Hok1]. cbn [snd] in Hg1.
  case_if Hrc; [by apply returns_ret|]. apply returns_bind. eapply (returns_mono _ (λ _ w', any_ok w')).
  { case_if Hv; [|by apply returns_ret]. apply returns_bind.
    eapply returns_mono; [by apply validate_slot_keeps|]. intros r w2 [_ ?]. by apply returns_ret. }
  intros valid w2 Hok2. case_if Hvl; [by apply returns_ret|]. apply returns_bind. eapply returns_mono.
  { apply (hw_rollback_keeps any_ok s1); [apply counter_update_keeps|done]. }
  intros rc2 w3 [_ Hok3]. case_if Hrc2; by apply returns_ret.
Qed.


End Secure.
