(* ===== verification/XipProps.v ===== *)
(** * Properties of starting either slot

    The choice of a slot, the end of the search for slots that can be started together,
    and what the revert option does to an image. *)

From S2P Require Import Prelude Effects Partial FlashMap BootConfig Trailer TrailerProps SwapState SwapStateProps.
From S2P Require Import Area AreaProps Image ImageProps Tlv TlvProps.
From S2P Require Import LoaderState Sectors Validate BootLoop MultiImage DirectXip.

(** ** The search ends *)

Definition b2n (b : bool) : nat := if b then 1 else 0.

Definition slots_left (u : slot_usage) : nat := b2n (primary_available u) + b2n (secondary_available u).

Lemma slots_left_le u : (slots_left u <= 2)%nat.
Proof. unfold slots_left. destruct (primary_available u), (secondary_available u); cbn; lia. Qed.

Lemma slots_left_taken u slot :
  slot_available u slot = true → slots_left u = S (slots_left (set_slot_available u slot false)).
Proof.
  unfold slot_available, slots_left, set_slot_available.
  destruct (slot =? BOOT_SLOT_PRIMARY); cbn; intros ->; cbn; lia.
Qed.

Definition total_left (l : list image_state) : nat := sum_list ((λ x, slots_left (im_usage x)) <$> l).

Lemma total_left_le l : (total_left l <= 2 * length l)%nat.
Proof.
  induction l as [|x l IH]; [done|]. unfold total_left in *. cbn. pose proof (slots_left_le (im_usage x)). lia.
Qed.

Lemma total_left_insert l i x y :
  l !! i = Some x → (total_left (<[i := y]> l) + slots_left (im_usage x) = total_left l + slots_left (im_usage y))%nat.
Proof.
  assert (Hc : ∀ z l, total_left (z :: l) = (slots_left (im_usage z) + total_left l)%nat) by done.
  revert i. induction l as [|z l IH]; intros [|i] Hi; [done..| |].
  - injection Hi as ->. change (<[0%nat := y]> (x :: l)) with (y :: l). rewrite !Hc. lia.
  - specialize (IH i Hi). change (<[S i := y]> (z :: l)) with (z :: <[i := y]> l). rewrite !Hc. lia.
Qed.

Section Search.
  Context {W : Type} `{FlashMap W} `{FlashSectors W} `{BootConfig} `{LoaderConfig} `{XipConfig}.
  Context `{ValidateConfig} `{Sha} `{Signing} `{Platform W} `{SwapAlgo W}.

(** The slot found is one that is available. *)
Lemma find_slot_cases x :
  let slot := find_slot_with_highest_version x in
  slot = BOOT_SLOT_NONE ∧ slots_left (im_usage x) = O ∨
  (slot = BOOT_SLOT_PRIMARY ∨ slot = BOOT_SLOT_SECONDARY) ∧ slot_available (im_usage x) slot = true.
Proof.
  unfold find_slot_with_highest_version, highest_version_step, slots_left, slot_available. cbn.
  destruct (primary_available _) eqn:Hp, (secondary_available _) eqn:Hs; cbn; rewrite ?Hp, ?Hs; cbn; [|auto..].
  destruct (_ =? 1); cbn; rewrite ?Hp, ?Hs; auto.
Qed.

Definition is_masked (d : boot_data) (i : Z) : bool :=
  (1 <? BOOT_IMAGE_NUMBER) && default false (img_mask d !! Z.to_nat i).

#[local] Abbreviation gives c P := (keeps (W := W) (λ _, True) c P).

Lemma gives_any {A} (c : M W A) : gives c (λ _, True).
Proof. intros w _. unfold returns. by destruct (c w) as [[] ?]. Qed.
#[local] Hint Resolve gives_any : keep.

Lemma masked_is d i : gives (masked d i) (λ m, m = is_masked d i).
Proof.
  unfold masked, is_masked. destruct (1 <? BOOT_IMAGE_NUMBER); [|by apply keeps_ret].
  intros w _. unfold returns, array_get. case_if Hi; [done|]. by destruct (img_mask d !! _).
Qed.

Lemma array_get_is {A} (l : list A) i : gives (array_get l i) (λ x, 0 <= i ∧ l !! Z.to_nat i = Some x).
Proof. intros w _. unfold returns, array_get. case_if Hi; [done|]. zsimp. destruct (l !! _) eqn:Hl; [|done]. done. Qed.

(** Where an active slot is one of the available slots. *)
Definition usage_ok (u : slot_usage) : Prop :=
  active_slot u = BOOT_SLOT_NONE ∨
  (active_slot u = BOOT_SLOT_PRIMARY ∨ active_slot u = BOOT_SLOT_SECONDARY) ∧ slot_available u (active_slot u) = true.

Lemma give_up_left u :
  usage_ok u → active_slot u ≠ BOOT_SLOT_NONE → slots_left u = S (slots_left (give_up_slot u)).
Proof. intros [Hu|[_ Hu]] Hne; [done|]. by apply slots_left_taken. Qed.

(** The checks of a slot do not change the usage. *)
Lemma try_slot_usage x :
  gives (try_slot x) (λ r, slots_left (im_usage (snd r)) = slots_left (im_usage x) ∧
    active_slot (im_usage (snd r)) = active_slot (im_usage x) ∧
    ∀ slot, slot_available (im_usage (snd r)) slot = slot_available (im_usage x) slot).
Proof.
  unfold try_slot. case_if Hr; [by apply keeps_ret|].
  apply (keeps_bind _ _ _ (λ r, ∃ s, im_usage (snd r) = set_usage_swap_state (im_usage x) s)).
  - case_if Hrev; [|apply keeps_ret; exists (usage_swap_state (im_usage x)); by destruct x as [? []]].
    unfold boot_select_or_erase. keep; by eexists.
  - intros [rc y] [s Hs]. cbn [snd] in Hs. case_if Hrc; [apply keeps_ret; cbn [snd]; by rewrite Hs|].
    eapply keeps_bind; [apply gives_any|].
    intros r _. apply keeps_ret. cbn [snd]. by rewrite Hs.
Qed.

(** Turns left for one image. *)
Definition load_measure (i : Z) (d : boot_data) : nat :=
  match images d !! Z.to_nat i with
  | Some x => 2 * slots_left (im_usage x) + b2n (active_slot (im_usage x) =? BOOT_SLOT_NONE)
  | None => 0
  end.

Lemma load_image_step_less i d :
  gives (load_image_step i d)
    (λ r, match r with inl d' => (load_measure i d' < load_measure i d)%nat | inr _ => True end).
Proof.
  unfold load_image_step. eapply keeps_bind; [apply array_get_is|]. intros x [Hi Hx]. case_if Ha; [by apply keeps_ret|].
  zsimp. cbv zeta. case_if Hn; [by apply keeps_ret|]. zsimp.
  destruct (find_slot_cases x) as [[? _]|[Hs Hav]]; [done|].
  set (slot := find_slot_with_highest_version x) in *.
  assert (Hl : load_measure i d = (2 * slots_left (im_usage x) + 1)%nat).
  { unfold load_measure. rewrite Hx, Ha. by cbn. }
  assert (Hlen := lookup_lt_Some _ _ _ Hx).
  eapply keeps_bind; [apply masked_is|]. intros m ->. case_if Hm.
  - apply keeps_ret. rewrite Hl. unfold load_measure. cbn [images set_image].
    rewrite list_lookup_insert_eq by done. cbn [im_usage active_slot set_active_slot].
    rewrite (proj2 (Z.eqb_neq slot BOOT_SLOT_NONE)) by done. change (slots_left (set_active_slot _ _)) with (slots_left (im_usage x)).
    cbn. lia.
  - eapply keeps_bind; [apply try_slot_usage|]. intros [ok y] (Hly & Hay & Havy). cbn [snd im_usage] in *.
    case_if Hok; apply keeps_ret; [done|]. rewrite Hl. unfold load_measure. cbn [images set_image set_usage].
    rewrite list_lookup_insert_eq by done. cbn [im_usage].
    assert (Hu : slots_left (im_usage y) = S (slots_left (give_up_slot (im_usage y)))).
    { apply slots_left_taken. by rewrite Hay, Havy. }
    change (slots_left (set_active_slot _ _)) with (slots_left (im_usage x)) in Hly.
    destruct (_ =? BOOT_SLOT_NONE); cbn; lia.
Qed.

Lemma load_loop_ends i d rest w :
  loop_or rest LOAD_FUEL (load_image_step i) d w = loop LOAD_FUEL (load_image_step i) d w.
Proof.
  apply (loop_or_ends rest (λ _, True) (load_measure i)); [|done|].
  - intros s _. eapply keeps_mono; [apply load_image_step_less|]. by intros [] ?.
  - unfold load_measure, LOAD_FUEL. destruct (images d !! _) as [x|]; [|lia].
    pose proof (slots_left_le (im_usage x)). destruct (_ =? _); cbn; lia.
Qed.

(** ** All images *)

Lemma keeps_for_images {S R} (I : W → Prop) (body : Z → S → M W (S + R)) (P : list Z → S → Prop) (Q : R → Prop) l s :
  (∀ pre i post s, l = pre ++ i :: post → P pre s →
     keeps I (body i s) (λ r, match r with inl s' => P (pre ++ [i]) s' | inr r => Q r end)) →
  P [] s → keeps I (for_images body l s) (λ r, match r with inl s' => P l s' | inr r => Q r end).
Proof.
  intros Hbody. enough (Hgen : ∀ post pre s, l = pre ++ post → P pre s →
    keeps I (for_images body post s) (λ r, match r with inl s' => P l s' | inr r => Q r end)) by (by apply (Hgen l [])).
  induction post as [|i post IH]; intros pre s' Hl Hs; cbn [for_images].
  - rewrite app_nil_r in Hl. subst. by apply keeps_ret.
  - eapply keeps_bind; [by eapply Hbody|]. intros [s2|r] Hr; [|by apply keeps_ret].
    apply (IH (pre ++ [i])); [|done]. by rewrite <- app_assoc.
Qed.

(** Only image [i] differs. *)
Record only_image (i : Z) (d d' : boot_data) : Prop := {
  oi_mask : img_mask d' = img_mask d;
  oi_len : length (images d') = length (images d);
  oi_rest j : 0 <= j → j ≠ i → images d' !! Z.to_nat j = images d !! Z.to_nat j;
}.

Lemma only_image_set i d x : 0 <= i → only_image i d (set_image d i x).
Proof.
  intros Hi. split; [done|apply length_insert|]. intros j Hj Hne. cbn. apply list_lookup_insert_ne. lia.
Qed.

Lemma only_image_refl i d : only_image i d d.
Proof. done. Qed.

Lemma only_image_trans i d1 d2 d3 : only_image i d1 d2 → only_image i d2 d3 → only_image i d1 d3.
Proof. intros [] []. split; [congruence..|]. intros. rewrite <- oi_rest0 by done. auto. Qed.

Definition image_usage (d : boot_data) (i : Z) : option slot_usage := im_usage <$> images d !! Z.to_nat i.

(** The state between two turns of the search. *)
Record searching (d : boot_data) : Prop := {
  se_len : zlen (images d) = BOOT_IMAGE_NUMBER;
  se_some : ∃ i, 0 <= i < BOOT_IMAGE_NUMBER ∧ is_masked d i = false;
  se_usage i u : 0 <= i → is_masked d i = false → image_usage d i = Some u → usage_ok u;
}.

Lemma is_masked_mask d d' i : img_mask d' = img_mask d → is_masked d' i = is_masked d i.
Proof. unfold is_masked. by intros ->. Qed.

Lemma searching_set d i x :
  0 <= i → searching d → (is_masked d i = false → usage_ok (im_usage x)) → searching (set_image d i x).
Proof.
  intros Hi [Hlen (k & Hk & Hm) Hu] Hx. split.
  - cbn [images set_image]. unfold zlen in *. by rewrite length_insert.
  - by exists k.
  - intros j u Hj0 Hj. change (is_masked d j = false) in Hj. unfold image_usage. cbn [images set_image].
    intros Hju. destruct (decide (Z.to_nat j = Z.to_nat i)) as [He|He].
    + rewrite He in Hju. destruct (decide (Z.to_nat i < length (images d))%nat) as [Hl|Hl].
      * rewrite list_lookup_insert_eq in Hju by done. injection Hju as <-. apply Hx. revert Hj. unfold is_masked. by rewrite He.
      * by rewrite lookup_ge_None_2 in Hju by (rewrite length_insert; lia).
    + rewrite list_lookup_insert_ne in Hju by done. by apply (Hu j).
Qed.

(** A turn of the search for a slot of image [i]. *)
Lemma load_image_step_ok i d :
  searching d →
  gives (load_image_step i d)
    (λ r, let d' := match r with inl d' => d' | inr (_, d') => d' end in
      searching d' ∧ only_image i d d' ∧ (total_left (images d') <= total_left (images d))%nat ∧
      match r with inr (true, d') => ∃ u, image_usage d' i = Some u ∧ active_slot u ≠ BOOT_SLOT_NONE | _ => True end).
Proof.
  intros Hd. unfold load_image_step. eapply keeps_bind; [apply array_get_is|]. intros x [Hi Hx].
  case_if Ha; zsimp.
  { apply keeps_ret. split_and!; [done..|]. exists (im_usage x). unfold image_usage. by rewrite Hx. }
  cbv zeta. case_if Hn; zsimp; [by apply keeps_ret|].
  destruct (find_slot_cases x) as [[? _]|[Hs Hav]]; [done|].
  set (slot := find_slot_with_highest_version x) in *. assert (Hlt := lookup_lt_Some _ _ _ Hx).
  eapply keeps_bind; [apply masked_is|]. intros m ->. case_if Hm.
  - apply keeps_ret. cbv zeta. split_and!; [apply searching_set; [done..|congruence]|by apply only_image_set| |done].
    pose proof (total_left_insert _ _ _ (ImageState (im_loader x) (set_active_slot (im_usage x) slot)) Hx) as Ht.
    cbn [images set_image im_usage] in *. change (slots_left (set_active_slot _ _)) with (slots_left (im_usage x)) in Ht. lia.
  - eapply keeps_bind; [apply try_slot_usage|]. intros [ok y] (Hly & Hay & Havy). cbn [snd im_usage] in *.
    change (slots_left (set_active_slot _ _)) with (slots_left (im_usage x)) in Hly.
    change (active_slot (set_active_slot _ _)) with slot in Hay.
    case_if Hok; apply keeps_ret; cbv zeta.
    + pose proof (total_left_insert _ _ _ y Hx) as Ht.
      split_and!; [apply searching_set; [done..|]|by apply only_image_set|cbn [images set_image] in *; lia|].
      * intros _. right. rewrite Hay, Havy. done.
      * exists (im_usage y). split; [|by rewrite Hay]. unfold image_usage. cbn. by rewrite list_lookup_insert_eq.
    + pose proof (total_left_insert _ _ _ (ImageState (im_loader y) (give_up_slot (im_usage y))) Hx) as Ht.
      pose proof (slots_left_taken (im_usage y) slot ltac:(by rewrite Havy)) as Hg.
      unfold set_usage. split_and!; [apply searching_set; [done..|by left]|by apply only_image_set| |done].
      cbn [images set_image im_usage] in *. unfold give_up_slot in *. rewrite Hay in *.
      change (slots_left (set_active_slot ?u _)) with (slots_left u) in Ht. lia.
Qed.

(** What loading keeps, from [d] to [d']. *)
Definition advanced (d d' : boot_data) : Prop :=
  searching d' ∧ img_mask d' = img_mask d ∧ (total_left (images d') <= total_left (images d))%nat.

Definition loaded (d : boot_data) (i : Z) : Prop :=
  ∃ u, image_usage d i = Some u ∧ active_slot u ≠ BOOT_SLOT_NONE.

Lemma load_image_ok i d :
  searching d →
  gives (load_image i d)
    (λ r, match r with inl d' => advanced d d' ∧ only_image i d d' ∧ loaded d' i | inr d' => True end).
Proof.
  intros Hd. unfold load_image.
  apply (keeps_bind _ _ _ (λ r, fst r = true → advanced d (snd r) ∧ only_image i d (snd r) ∧ loaded (snd r) i)).
  - apply (keeps_loop _ _ _ _ (λ d', advanced d d' ∧ only_image i d d')); [done|].
    intros d1 [(Hs1 & Hm1 & Ht1) Ho1]. eapply keeps_mono; [by apply load_image_step_ok|].
    intros r (Hs & Ho & Ht & Hr). set (d2 := match r with inl d' => d' | inr (_, d') => d' end) in *.
    assert (Hd2 : advanced d d2 ∧ only_image i d d2).
    { split; [|by eapply only_image_trans]. split_and!; [done| |lia]. rewrite <- Hm1. apply Ho. }
    destruct r as [?|[[] ?]]; [done| |done]. intros _. destruct Hd2. auto.
  - intros [[] d'] Hr; apply keeps_ret; [|done]. by apply Hr.
Qed.

Lemma loaded_other i d d' j : 0 <= j → j ≠ i → only_image i d d' → loaded d j → loaded d' j.
Proof. intros Hj Hne Ho (u & Hu & Hn). exists u. split; [|done]. unfold image_usage in *. by rewrite (oi_rest _ _ _ Ho). Qed.

Lemma iter_index pre i post j :
  seqZ 0 BOOT_IMAGE_NUMBER = pre ++ i :: post → j ∈ pre ++ [i] → 0 <= j < BOOT_IMAGE_NUMBER.
Proof.
  intros Hl Hj. assert (Hin : j ∈ seqZ 0 BOOT_IMAGE_NUMBER).
  { rewrite Hl, cons_middle, app_assoc. apply elem_of_app. by left. }
  apply elem_of_seqZ in Hin. lia.
Qed.

Lemma elem_of_last (pre : list Z) i j : j ∈ pre ++ [i] → j ≠ i → j ∈ pre.
Proof. intros Hj Hne. apply elem_of_app in Hj as [Hj|Hj]; [done|]. by apply list_elem_of_singleton in Hj. Qed.

Lemma last_elem (pre : list Z) i : i ∈ pre ++ [i].
Proof. apply elem_of_app. right. by apply list_elem_of_singleton. Qed.

Lemma load_all_ok d :
  searching d →
  gives (boot_load_and_validate_images d)
    (λ r, fst r = FIH_SUCCESS → advanced d (snd r) ∧ ∀ i, 0 <= i < BOOT_IMAGE_NUMBER → loaded (snd r) i).
Proof.
  intros Hd. unfold boot_load_and_validate_images, IMAGES_ITER.
  eapply keeps_bind.
  { apply (keeps_for_images _ _ (λ pre d', advanced d d' ∧ ∀ i, i ∈ pre → loaded d' i) (λ _, True)).
    - intros pre i post d1 Hl [(Hs1 & Hm1 & Ht1) Hp]. eapply keeps_mono; [by apply load_image_ok|].
      pose proof (iter_index pre i post i Hl (last_elem pre i)).
      intros [d2|]; [|done]. intros ((Hs2 & Hm2 & Ht2) & Ho & Hlo). split; [split_and!; [done|congruence|lia]|].
      intros j Hj. destruct (decide (j = i)) as [->|Hne]; [done|].
      pose proof (iter_index pre i post j Hl Hj). apply (loaded_other i d1); try done; [lia|].
      apply Hp. by eapply elem_of_last.
    - split; [done|]. intros i Hi. by apply elem_of_nil in Hi. }
  intros [d'|d'] Hr; apply keeps_ret; cbn; [|done]. intros _. destruct Hr as [Ha Hlo]. split; [done|].
  intros i Hi. apply Hlo, elem_of_seqZ. lia.
Qed.

(** With equivalent slots the check of the dependencies does not change the state. *)
Lemma slot_dependencies_same d i slot :
  ARE_SLOTS_EQUIVALENT = true → gives (boot_verify_slot_dependencies d i slot) (λ r, snd r = d).
Proof.
  intros Heq. unfold boot_verify_slot_dependencies. eapply keeps_bind; [apply gives_any|]. intros x _. cbv zeta.
  eapply keeps_bind; [apply gives_any|]. intros [it|] _; [|by apply keeps_ret].
  apply (keeps_loop _ _ _ _ (λ s, snd s = d)); [done|]. intros [it1 d1] Hd1. cbn in Hd1. subst d1.
  unfold slot_dependencies_step, boot_verify_slot_dependency. rewrite Heq. keep_step. destruct a as [[off len ty| |] it2]; [|by apply keeps_ret..].
  keep_step; [by apply keeps_ret|]. keep_step. destruct a as [rc b]. keep_step; [by apply keeps_ret|]. cbv zeta. keep_step; [by apply keeps_ret|].
  apply (keeps_bind _ _ _ (λ r, snd r = d)).
  - eapply keeps_bind; [apply gives_any|]. intros y _. eapply keeps_bind; [apply gives_any|]. intros s _. by apply keeps_ret.
  - intros [rc2 d2] Hd2. cbn in Hd2. subst. apply keeps_ret. by case_if Hc.
Qed.

(** A slot with an unmet dependency is given up. *)
Lemma xip_dependencies_step_ok i d rc :
  ARE_SLOTS_EQUIVALENT = true → searching d → loaded d i →
  gives (xip_dependencies_step i (rc, d))
    (λ r, match r with
          | inl (rc', d') => d' = d ∧ (rc' = 0 ∨ is_masked d i = true ∧ rc' = rc)
          | inr (rc', d') => rc' ≠ 0 ∧ searching d' ∧ img_mask d' = img_mask d ∧
              (total_left (images d') < total_left (images d))%nat
          end).
Proof.
  intros Heq Hd (u & Hu & Hact). unfold xip_dependencies_step. eapply keeps_bind; [apply masked_is|]. intros m ->.
  case_if Hm; [apply keeps_ret; auto|].
  eapply keeps_bind; [apply array_get_is|]. intros x [Hi Hx]. cbv zeta.
  eapply keeps_bind; [by apply slot_dependencies_same|]. intros [rc1 d1] Hd1. cbn in Hd1. subst d1.
  case_if Hrc; [apply keeps_ret; zsimp; auto|]. zsimp.
  eapply keeps_bind; [apply array_get_is|]. intros y [_ Hy]. rewrite Hx in Hy. injection Hy as <-. apply keeps_ret.
  assert (Hxu : image_usage d i = Some (im_usage x)) by (unfold image_usage; by rewrite Hx).
  rewrite Hxu in Hu. injection Hu as <-. pose proof (se_usage _ Hd i _ Hi Hm Hxu) as Hok.
  pose proof (give_up_left _ Hok Hact) as Hg. split_and!; [done| |done|].
  - apply searching_set; [done..|]. by left.
  - pose proof (total_left_insert _ _ _ (ImageState (im_loader x) (give_up_slot (im_usage x))) Hx) as Ht.
    cbn [images set_image set_usage im_usage] in *. unfold give_up_slot in *. lia.
Qed.

Lemma xip_verify_ok d :
  ARE_SLOTS_EQUIVALENT = true → searching d → (∀ i, 0 <= i < BOOT_IMAGE_NUMBER → loaded d i) →
  gives (xip_verify_dependencies d)
    (λ r, if fst r =? 0 then snd r = d
          else searching (snd r) ∧ img_mask (snd r) = img_mask d ∧ (total_left (images (snd r)) < total_left (images d))%nat).
Proof.
  intros Heq Hd Hlo. unfold xip_verify_dependencies, IMAGES_ITER. eapply keeps_bind.
  { apply (keeps_for_images _ _ (λ pre s, snd s = d ∧ (fst s = 0 ∨ ∀ i, i ∈ pre → is_masked d i = true))
             (λ r, fst r ≠ 0 ∧ searching (snd r) ∧ img_mask (snd r) = img_mask d ∧
                (total_left (images (snd r)) < total_left (images d))%nat)).
    - intros pre i post [rc d1] Hl [Hd1 Hp]. cbn [fst snd] in *. subst d1.
      pose proof (iter_index pre i post i Hl (last_elem pre i)).
      eapply keeps_mono; [by apply xip_dependencies_step_ok, Hlo|]. intros [[rc' d']|[rc' d']]; [|done].
      intros [-> Hr]. cbn [fst snd]. split; [done|]. destruct Hr as [->|[Hm ->]]; [by left|].
      destruct Hp as [->|Hp]; [by left|]. right. intros j Hj. destruct (decide (j = i)) as [->|Hne]; [done|].
      apply Hp. by eapply elem_of_last.
    - split; [done|]. right. intros i Hi. by apply elem_of_nil in Hi. }
  intros [[rc d']|[rc d']] Hr; apply keeps_ret; cbn [fst snd] in *.
  2:{ destruct Hr as [Hrc Hr]. by rewrite (proj2 (Z.eqb_neq _ _) Hrc). }
  destruct Hr as [-> [->|Hall]]; [done|]. destruct (se_some _ Hd) as (k & Hk & Hm).
  rewrite Hall in Hm by (apply elem_of_seqZ; lia). done.
Qed.

Lemma select_step_less d :
  ARE_SLOTS_EQUIVALENT = true → searching d →
  gives (xip_select_step d)
    (λ r, match r with
          | inl d' => searching d' ∧ img_mask d' = img_mask d ∧ (total_left (images d') < total_left (images d))%nat
          | inr (ok, d') => ok = true → img_mask d' = img_mask d ∧ zlen (images d') = BOOT_IMAGE_NUMBER ∧
              ∀ i, 0 <= i < BOOT_IMAGE_NUMBER → loaded d' i
          end).
Proof.
  intros Heq Hd. unfold xip_select_step. eapply keeps_bind; [by apply load_all_ok|]. intros [r d1] Hr.
  case_if Hs; [by apply keeps_ret|]. unfold FIH_EQ in Hs. case_bool_decide as He; [|done].
  destruct (Hr He) as [(Hs1 & Hm1 & Ht1) Hlo]. cbn [snd] in *. pose proof (se_len _ Hs1).
  case_if Hn; [|by apply keeps_ret].
  eapply keeps_bind; [by apply xip_verify_ok|]. intros [rc d2] Hr2. apply keeps_ret. cbn [fst snd] in *.
  destruct (rc =? 0); cbn [negb]; [by subst d2|]. destruct Hr2 as (Hs2 & Hm2 & Ht2).
  split_and!; [done|congruence|lia].
Qed.

Lemma select_loop_ends d rest w :
  ARE_SLOTS_EQUIVALENT = true → searching d →
  loop_or rest SELECT_FUEL xip_select_step d w = loop SELECT_FUEL xip_select_step d w.
Proof.
  intros Heq Hd. apply (loop_or_ends rest searching (λ d, total_left (images d))); [|done|].
  - intros d1 Hd1. eapply keeps_mono; [by apply select_step_less|]. intros [d2|]; [|done]. by intros (? & _ & ?).
  - unfold SELECT_FUEL. pose proof (total_left_le (images d)). pose proof (se_len _ Hd). unfold zlen in *. lia.
Qed.

(** Reading the headers starts the search. *)
Lemma slot_usage_ok d :
  zlen (images d) = BOOT_IMAGE_NUMBER → (∃ i, 0 <= i < BOOT_IMAGE_NUMBER ∧ is_masked d i = false) →
  gives (boot_get_slot_usage d) (λ r, fst r = 0 → searching (snd r)).
Proof.
  intros Hlen Hsome. unfold boot_get_slot_usage, IMAGES_ITER. eapply keeps_bind.
  { apply (keeps_for_images _ _ (λ pre d', zlen (images d') = BOOT_IMAGE_NUMBER ∧ img_mask d' = img_mask d ∧
             ∀ i u, i ∈ pre → is_masked d i = false → image_usage d' i = Some u → active_slot u = BOOT_SLOT_NONE)
             (λ r, fst r ≠ 0)).
    - intros pre i post d1 Hl (Hlen1 & Hm1 & Hu1). pose proof (iter_index pre i post i Hl (last_elem pre i)).
      unfold slot_usage_step. eapply keeps_bind; [apply masked_is|]. intros m ->.
      rewrite (is_masked_mask d d1) by done. case_if Hm.
      { apply keeps_ret. split_and!; [done..|]. intros j u Hj Hmj. apply Hu1; [|done].
        eapply elem_of_last; [done|]. by intros ->; congruence. }
      eapply keeps_bind; [apply array_get_is|]. intros x [Hi Hx]. eapply keeps_bind; [apply gives_any|].
      intros [rc s1] _. case_if Hrc; [apply keeps_ret; by zsimp|]. cbv zeta. apply keeps_ret. cbn [images set_image img_mask].
      split_and!; [unfold zlen in *; by rewrite length_insert|done|].
      intros j u Hj Hmj. unfold image_usage. cbn [images set_image]. destruct (decide (j = i)) as [->|Hne].
      + rewrite list_lookup_insert_eq by (by eapply lookup_lt_Some). by intros [= <-].
      + pose proof (iter_index pre i post j Hl Hj). rewrite list_lookup_insert_ne by lia. apply Hu1; [|done].
        by eapply elem_of_last.
    - split_and!; [done..|]. intros i u Hi. by apply elem_of_nil in Hi. }
  intros [d'|[rc d']] Hr; apply keeps_ret; cbn [fst snd] in *; [|done]. intros _. destruct Hr as (Hlen' & Hm' & Hu').
  split; [done| |].
  - destruct Hsome as (i & Hi & Hmi). exists i. by rewrite (is_masked_mask d d').
  - intros i u Hi Hmi Hiu. rewrite (is_masked_mask d d') in Hmi by done. left.
    apply (Hu' i); [|done..]. apply elem_of_seqZ. unfold image_usage in Hiu.
    destruct (images d' !! _) eqn:Hx; [|done]. apply lookup_lt_Some in Hx. unfold zlen in *. lia.
Qed.


End Search.

(** ** Reverting *)

#[local] Set Default Proof Using "Type*".

Section Revert.
  Context {W : Type} `{FlashMapOk W} `{BootConfigOk}.
  Implicit Types (fa : flash_area) (w : W).

(** An image that is not started again. *)
Definition condemned (s : boot_swap_state) : bool :=
  negb (magic s =? BOOT_MAGIC_GOOD) || ((copy_done s =? BOOT_FLAG_SET) && negb (image_ok s =? BOOT_FLAG_SET)).

(** The trailer after a slot was selected. *)
Definition after_select (s : boot_swap_state) : boot_swap_state := apply_op WriteCopyDone s.

Definition active_area (x : image_state) : flash_area := BOOT_IMG_AREA (im_loader x) (active_slot (im_usage x)).

Definition with_swap_state (x : image_state) (s : boot_swap_state) : image_state :=
  ImageState (im_loader x) (set_usage_swap_state (im_usage x) s).

Lemma select_condemned w x fa :
  active_area x = fa → fm_ok w → trailer_area fa → can_blank fa → condemned (area_state w fa) = true →
  wp (boot_select_or_erase x)
    (λ r w', r = (-1, with_swap_state x (area_state w fa)) ∧ only_area fa w w' ∧
       vals (fm_cells w' fa) = replicate (Z.to_nat (fa_size fa)) (flash_area_erased_val fa))
    (only_area fa w) w.
Proof.
  intros Hx Hok Hta Hcan Hc. unfold boot_select_or_erase. cbv zeta. change (BOOT_IMG_AREA _ _) with (active_area x). rewrite Hx. apply wp_bind.
  eapply wp_pure; [by apply read_swap_state_eq|]. cbn beta iota. unfold condemned in Hc. rewrite Hc.
  apply wp_bind. eapply wp_mono; [by apply scramble_whole_wp; [|apply Hta|]| |done].
  intros rc w' (-> & Hoa & Hv). apply wp_bind, wp_assert; [done|]. by apply wp_ret.
Qed.

(** A slot that may be started is marked, and nothing but its copy-done unit is
    changed. *)
Lemma select_fresh w x fa :
  active_area x = fa → fm_ok w → trailer_area fa → condemned (area_state w fa) = false → copy_done (area_state w fa) ≠ BOOT_FLAG_SET →
  trailer_writable fa w [2] →
  wp (boot_select_or_erase x)
    (λ r w', r = (0, with_swap_state x (area_state w fa)) ∧ updated WriteCopyDone fa w w')
    (λ w', updated WriteCopyDone fa w w' ∨ same_flash w w') w.
Proof.
  intros Hx Hok Hta Hc Hcd Hwr. unfold boot_select_or_erase. cbv zeta. change (BOOT_IMG_AREA _ _) with (active_area x). rewrite Hx. apply wp_bind.
  eapply wp_pure; [by apply read_swap_state_eq|]. cbn beta iota. unfold condemned in Hc. rewrite Hc.
  rewrite (proj2 (Z.eqb_neq _ _) Hcd). cbn [negb]. apply wp_bind. change (boot_write_copy_done fa) with (run_op WriteCopyDone fa).
  apply Forall_cons_1 in Hwr as [Hwr _]. eapply wp_mono; [by apply run_op_updated| |done]. intros rc w' [-> Hu]. by apply wp_ret.
Qed.

Lemma select_confirmed w x fa :
  active_area x = fa → fm_ok w → trailer_area fa → condemned (area_state w fa) = false → copy_done (area_state w fa) = BOOT_FLAG_SET →
  boot_select_or_erase x w = (Ret (0, with_swap_state x (area_state w fa)), w).
Proof.
  intros Hx Hok Hta Hc Hcd. unfold boot_select_or_erase. cbv zeta. change (BOOT_IMG_AREA _ _) with (active_area x). rewrite Hx.
  erewrite bind_ret by (by apply read_swap_state_eq). cbn beta iota. unfold condemned in Hc. by rewrite Hc, Hcd.
Qed.

Lemma updated_only op fa w w' : updated op fa w w' → only_area fa w w'.
Proof. by intros (? & _ & _ & ?). Qed.

Lemma only_area_trans fa w1 w2 w3 : only_area fa w1 w2 → only_area fa w2 w3 → only_area fa w1 w3.
Proof. intros [_ Hf] [Hok Hf']. split; [done|]. intros fa' Ha Hne. rewrite Hf' by done. by apply Hf. Qed.

Lemma same_flash_only fa w w' : same_flash w w' → only_area fa w w'.
Proof. intros [Hok Hs]. split; [done|]. intros. by apply Hs. Qed.

(** Nothing below the trailer fields differs. *)
Definition image_kept fa w w' : Prop :=
  ∀ o n, 0 <= o → o + n <= fld fa 3 → slice (fm_cells w' fa) o n = slice (fm_cells w fa) o n.

Lemma updated_kept op fa w w' : updated op fa w w' → image_kept fa w w'.
Proof.
  intros (_ & _ & Hs & _) o n Ho Hn. apply Hs; [done|]. left. pose proof (op_fld_range op).
  destruct max_align_cases as [Ha|[Ha|Ha]]; unfold fld in *; rewrite Ha in *; lia.
Qed.

(** An image confirms itself: only the image-ok flag is missing. *)
Lemma confirm_selected w fa :
  fm_ok w → trailer_area fa → trailer_writable fa w [1] →
  magic (area_state w fa) = BOOT_MAGIC_GOOD → copy_done (area_state w fa) = BOOT_FLAG_SET →
  image_ok (area_state w fa) = BOOT_FLAG_UNSET →
  wp (boot_set_next_direct_xip fa true true) (λ rc w', rc = 0 ∧ updated WriteImageOk fa w w') (only_area fa w) w.
Proof.
  intros Hok Hta Hwr Hm Hc Ho. unfold boot_set_next_direct_xip. cbv zeta. apply wp_bind.
  eapply wp_pure; [by apply read_swap_state_eq|]. cbn beta iota. rewrite Hm, Hc, Ho.
  change (boot_write_image_ok fa) with (run_op WriteImageOk fa). cbn -[run_op wp].
  apply Forall_cons_1 in Hwr as [Hwr _]. apply wp_bind, wp_ret. cbn -[run_op wp].
  eapply wp_mono; [by apply run_op_updated|done|]. intros w' [Hu|Hs]; [by eapply updated_only|by apply same_flash_only].
Qed.


End Revert.
