(* ===== verification/DependencyProps.v ===== *)
(** * Dependencies between images

    The check of the dependency entries of a slot, against what the entries say: it
    succeeds exactly when each of them is met. *)

From S2P Require Import Prelude Effects FlashMap BootConfig Trailer Image ImageProps Tlv TlvProps.
From S2P Require Import LoaderState Validate BootLoop MultiImage XipProps.

#[local] Set Default Proof Using "Type*".

(** ** Payloads met by a walk *)

Definition payload (type : Z) (i : item) : option (list Z) :=
  match i with
  | Entry t => if (type =? IMAGE_TLV_ANY) || (fst t =? type) then Some (snd t) else None
  | Skip => None
  end.

Section Walk.
  Context {W : Type} `{FlashMapOk W} (w : W) (it0 : image_tlv_iter).

#[local] Abbreviation bytes := (vals (fm_cells w (it_fap it0))).
#[local] Abbreviation items_at off l :=
  (laid (0 <? ih_protect_tlv_size (it_hdr it0)) (it_prot_end it0) (it_end it0) bytes off l).

(** A search finds the first payload of its type. *)
Lemma next_wanted_payload off l :
  0 <= off → items_at off l →
  match next_wanted it0 off l with
  | (TlvFound o n t, _, l') => ∃ p, omap (payload (it_type it0)) l = p :: omap (payload (it_type it0)) l' ∧
      n = zlen p ∧ slice bytes o n = p ∧ Forall is_u8 p ∧ zlen p <= UINT16_MAX ∧ off + 4 <= o ∧ o + n <= it_end it0
  | _ => omap (payload (it_type it0)) l = []
  end.
Proof.
  revert off. induction l as [|[t|] l IH]; intros off Ho Hl; [done|..]; cbn [next_wanted].
  - pose proof (zlen_nonneg (snd t)). cbn [laid] in Hl. destruct Hl as ((Ht & Hn & Hb) & Hpe & Hs & Hl).
    change (wanted (it_type it0) (fst t, off + 4, zlen (snd t))) with ((it_type it0 =? IMAGE_TLV_ANY) || (fst t =? it_type it0)).
    destruct (_ || _) eqn:Hw.
    + exists (snd t). cbn [omap list_omap payload]. rewrite Hw.
      pose proof (laid_bound _ _ _ _ _ _ Hl). pose proof (zlen_nonneg l). split_and!; try done; try lia.
      replace (slice bytes (off + 4) (zlen (snd t))) with (slice (slice bytes off (4 + zlen (snd t))) 4 (zlen (snd t)))
        by (rewrite slice_slice by lia; f_equal; lia).
      rewrite Hs. unfold enc_tlv. rewrite slice_app_r; rewrite zlen_enc_pair; [|lia]. apply slice_full.
    + specialize (IH (off + 4 + zlen (snd t)) ltac:(lia) Hl). cbn [omap list_omap payload]. rewrite Hw.
      destruct (next_wanted _ _ _) as [[[o n ty| |] ?] ?]; [|done..]. destruct IH as (p & ? & ? & ? & ? & ? & ? & ?).
      exists p. split_and!; try done; lia.
  - specialize (IH (off + 4) ltac:(lia) ltac:(apply Hl)). cbn [omap list_omap payload].
    destruct (next_wanted _ _ _) as [[[o n ty| |] ?] ?]; [|done..]. destruct IH as (p & ? & ? & ? & ? & ? & ? & ?).
    exists p. split_and!; try done; lia.
Qed.

End Walk.

(** ** The check *)

Section Check.
  Context {W : Type} `{FlashMapOk W} `{BootConfig} `{LoaderConfig}.
  Context (d : boot_data) (i : Z) (w : W).
  Hypothesis Heq : ARE_SLOTS_EQUIVALENT = true.
  Hypothesis Hok : fm_ok w.

(** The version of the image in its active slot, as a number. *)
Definition running_version (x : image_state) : Z :=
  version_key MCUBOOT_VERSION_CMP_USE_BUILD_NUMBER (ih_ver (boot_img_hdr (im_loader x) (active_slot (im_usage x)))).

(** What an entry with payload [p] asks for. *)
Definition dependency_met (p : list Z) : Prop :=
  let dep := dependency_of_bytes p in
  zlen p = IMAGE_DEPENDENCY_SIZE ∧ dep_image_id dep < BOOT_IMAGE_NUMBER ∧
  ∃ x, images d !! Z.to_nat (dep_image_id dep) = Some x ∧
    version_key MCUBOOT_VERSION_CMP_USE_BUILD_NUMBER (image_min_version dep) <= running_version x.

(** Every image has an active slot. *)
Record all_active : Prop := {
  aa_len : zlen (images d) = BOOT_IMAGE_NUMBER;
  aa_slot x : x ∈ images d →
    active_slot (im_usage x) = BOOT_SLOT_PRIMARY ∨ active_slot (im_usage x) = BOOT_SLOT_SECONDARY;
  aa_version x : x ∈ images d → version_ok (ih_ver (boot_img_hdr (im_loader x) (active_slot (im_usage x))));
}.
Hypothesis Hall : all_active.

Lemma le_dec_part (p : list Z) o n : Forall is_u8 p → 0 <= n → 0 <= le_dec (slice p o n) < 256 ^ n.
Proof using Type.
  intros Hp Hn. pose proof (le_dec_bound (slice p o n) ltac:(by apply Forall_slice)) as Hb.
  assert (Hl : zlen (slice p o n) <= n) by (unfold zlen, slice; rewrite length_take; lia).
  pose proof (Z.pow_le_mono_r 256 (zlen (slice p o n)) n ltac:(lia) Hl). lia.
Qed.

Lemma dependency_bytes_ok p :
  Forall is_u8 p → is_u8 (dep_image_id (dependency_of_bytes p)) ∧ version_ok (image_min_version (dependency_of_bytes p)).
Proof using Type.
  intros Hp. pose proof (λ o n, le_dec_part p o n Hp) as Hb. unfold version_ok, is_u8, is_u16, is_u32. cbn.
  pose proof (Hb 0 1 ltac:(lia)). pose proof (Hb 4 1 ltac:(lia)). pose proof (Hb 5 1 ltac:(lia)).
  pose proof (Hb 6 2 ltac:(lia)). pose proof (Hb 8 4 ltac:(lia)). lia.
Qed.

(** One dependency. *)
Lemma verify_dependency_eq p :
  Forall is_u8 p → zlen p = IMAGE_DEPENDENCY_SIZE → dep_image_id (dependency_of_bytes p) < BOOT_IMAGE_NUMBER →
  ∃ rc, boot_verify_slot_dependency d i (dependency_of_bytes p) w = (Ret (rc, d), w) ∧ (rc = 0 ↔ dependency_met p).
Proof using Heq Hall.
  intros Hp Hlen Hid. destruct (dependency_bytes_ok p Hp) as [Hu Hv]. set (dep := dependency_of_bytes p) in *.
  unfold is_u8 in Hu. pose proof (aa_len Hall) as Hn. unfold zlen in Hn.
  destruct (lookup_lt_is_Some_2 (images d) (Z.to_nat (dep_image_id dep))) as [x Hx]; [lia|].
  assert (Hin : x ∈ images d) by (by eapply list_elem_of_lookup_2).
  unfold boot_verify_slot_dependency. erewrite bind_ret.
  2:{ unfold array_get. rewrite (proj2 (Z.ltb_ge _ 0)) by lia. by rewrite Hx. }
  assert (Hs : dependency_slot x w = (Ret (active_slot (im_usage x)), w)).
  { unfold dependency_slot. rewrite Heq. by destruct (aa_slot Hall x Hin) as [-> | ->]. }
  erewrite bind_ret by exact Hs. rewrite Heq.
  rewrite (compare_version_lexicographic _ _ _ (aa_version Hall x Hin) Hv). fold (running_version x).
  eexists. split; [done|]. unfold dependency_met. fold dep.
  destruct (Z.compare_spec (running_version x) (version_key MCUBOOT_VERSION_CMP_USE_BUILD_NUMBER (image_min_version dep))) as [Hc|Hc|Hc];
    cbn [Z.leb Z.compare]; (split; [intros|]); try done; try (split_and!; [done..|exists x; split; [done|lia]]).
  intros (_ & _ & y & Hy & Hle). rewrite Hx in Hy. injection Hy as <-. lia.
Qed.

Section Loop.
  Context (it0 : image_tlv_iter).
  Hypothesis Hfa : fm_area (it_fap it0).
  Hypothesis Hte : it_end it0 <= it_tlv_end it0 ∧ it_end it0 <= fa_size (it_fap it0) ∧
    it_tlv_end it0 <= fa_size (it_fap it0).

#[local] Abbreviation items_at off l :=
  (laid (0 <? ih_protect_tlv_size (it_hdr it0)) (it_prot_end it0) (it_end it0) (vals (fm_cells w (it_fap it0))) off l).

Lemma dependencies_loop off l fuel :
  0 <= off → items_at off l → (it_prot it0 = true → Skip ∉ l) → (length l < fuel)%nat →
  ∃ rc, loop fuel (slot_dependencies_step i (it_fap it0)) (set_tlv_off it0 off, d) w = (Ret (rc, d), w) ∧
    (rc = 0 ↔ Forall dependency_met (omap (payload (it_type it0)) l)).
Proof using All.
  revert off l. induction fuel as [|fuel IH]; intros off l Ho Hl Hsk Hfuel; [lia|].
  pose proof (laid_bound _ _ _ _ _ _ Hl). unfold zlen in *.
  pose proof (next_wanted_payload w it0 off l Ho Hl) as Hp. pose proof (next_wanted_laid w it0 off l Ho Hl) as Hn.
  assert (Hnext : bootutil_tlv_iter_next (set_tlv_off it0 off) w = (Ret (fst (fst (next_wanted it0 off l)),
      set_tlv_off it0 (snd (fst (next_wanted it0 off l)))), w)).
  { apply (next_loop w it0 Hok Hfa Hte off l); [done..|]. cbn. lia. }
  destruct (next_wanted it0 off l) as [[r off'] l']. cbn [fst snd] in *.
  pose proof (eq_refl (slot_dependencies_step i (it_fap it0) (set_tlv_off it0 off, d) w)) as Hstep.
  unfold slot_dependencies_step at 2 in Hstep. erewrite bind_ret in Hstep by exact Hnext. cbn beta iota in Hstep.
  destruct r as [o n t| |]; [|exists 0; rewrite Hp; split; [by apply (loop_exit _ _ _ _ _ _ Hstep)|by split]|by destruct Hn].
  destruct Hp as (p & -> & -> & Hsl & Hb & Hmax & Hlo & Hhi). destruct Hn as (_ & Hl' & Hoff & Hlen & Hsub).
  destruct (decide (zlen p = IMAGE_DEPENDENCY_SIZE)) as [Hsz|Hsz].
  2:{ rewrite (proj2 (Z.eqb_neq _ _) Hsz) in Hstep. exists BOOT_EBADIMAGE. split; [by apply (loop_exit _ _ _ _ _ _ Hstep)|].
      split; [done|]. intros Hf. by apply Forall_cons_1 in Hf as [[? _] _]. }
  rewrite (proj2 (Z.eqb_eq _ _) Hsz) in Hstep. cbn [negb] in Hstep.
  assert (Hread : LOAD_IMAGE_DATA (it_fap it0) o IMAGE_DEPENDENCY_SIZE (zlen p) w = (Ret (0, p), w)).
  { unfold LOAD_IMAGE_DATA. rewrite Hsz, Z.ltb_irrefl, <- Hsz. rewrite fm_read; [by rewrite Hsl|done..|lia|apply zlen_nonneg|lia]. }
  erewrite bind_ret in Hstep by exact Hread. cbn beta iota zeta in Hstep. cbn [Z.eqb negb] in Hstep.
  destruct (BOOT_IMAGE_NUMBER <=? dep_image_id (dependency_of_bytes p)) eqn:Hid; zsimp.
  { exists BOOT_EBADARGS. split; [by apply (loop_exit _ _ _ _ _ _ Hstep)|].
    split; [done|]. intros Hf. apply Forall_cons_1 in Hf as [(_ & ? & _) _]. lia. }
  destruct (verify_dependency_eq p Hb Hsz Hid) as (rc & Hdep & Hrc).
  erewrite bind_ret in Hstep by exact Hdep. cbn beta iota in Hstep.
  destruct (decide (rc = 0)) as [->|Hz].
  2:{ rewrite (proj2 (Z.eqb_neq _ _) Hz) in Hstep. exists rc. split; [by apply (loop_exit _ _ _ _ _ _ Hstep)|].
      split; [done|]. intros Hf. apply Forall_cons_1 in Hf as [Hf _]. by apply Hrc in Hf. }
  destruct (IH off' l') as (rc2 & Hloop & Hrc2); [lia|done| |lia|].
  { intros Hpr Hin. by apply (Hsk Hpr), Hsub. }
  exists rc2. split; [by rewrite (loop_continue _ _ _ _ _ _ Hstep)|].
  rewrite Forall_cons_iff, Hrc2. split; [|by intros []]. intros Hf. split; [|done]. by apply Hrc.
Qed.

End Loop.
(** The payloads of the dependency entries of an image with protected section
    [prot]. *)
Definition dependencies (prot : option (list tlv)) : list (list Z) :=
  match prot with
  | None => []
  | Some ps => omap (λ t, payload IMAGE_TLV_DEPENDENCY (Entry t)) ps
  end.

Lemma payloads_entries type (ps : list tlv) : omap (payload type) (Entry <$> ps) = omap (λ t, payload type (Entry t)) ps.
Proof using Type. induction ps as [|t ps IH]; [done|]. cbn in *. by rewrite IH. Qed.

Lemma slot_dependencies_eq slot x prot us :
  0 <= i → images d !! Z.to_nat i = Some x →
  let fa := BOOT_IMG_AREA (im_loader x) slot in
  fm_area fa → tlv_image w fa (boot_img_hdr (im_loader x) slot) 0 prot us →
  ∃ rc, boot_verify_slot_dependencies d i slot w = (Ret (rc, d), w) ∧
    (rc = 0 ↔ Forall dependency_met (dependencies prot)).
Proof using All.
  intros Hi Hx fa Ha Hti. unfold boot_verify_slot_dependencies. erewrite bind_ret.
  2:{ unfold array_get. rewrite (proj2 (Z.ltb_ge _ 0)) by lia. by rewrite Hx. }
  cbv zeta. fold fa. assert (Hst : image_start (im_loader x) fa = 0).
  { unfold image_start. revert Heq. unfold ARE_SLOTS_EQUIVALENT, uses. by destruct MCUBOOT_MODE. }
  rewrite Hst. erewrite bind_ret by (by apply iter_begin_ok). cbn beta iota.
  pose proof (ti_start _ _ _ _ _ _ Hti) as (? & ? & ?). pose proof (ti_fit _ _ _ _ _ _ Hti) as Hfit.
  rewrite zlen_enc_area in Hfit. pose proof (prot_size_nonneg prot). pose proof (zlen_nonneg (enc_tlvs us)).
  set (hdr := boot_img_hdr (im_loader x) slot) in *. set (off := ih_hdr_size hdr + ih_img_size hdr + 0) in *.
  destruct prot as [ps|].
  - set (it := walk_iter hdr fa off IMAGE_TLV_DEPENDENCY true (Some ps) us 0).
    destruct (dependencies_loop it Ha) with (off := off + 4) (l := walk_items (Some ps) us true)
      (fuel := S (Z.to_nat (it_tlv_end it - it_tlv_off it))) as (rc & Hl & Hrc).
    + subst it. unfold it_end. cbn [walk_iter it_prot it_prot_end it_tlv_end it_fap]. lia.
    + lia.
    + apply (walk_laid w fa hdr 0 (Some ps) us true); [done|]. done.
    + intros _ Hin. cbn [walk_items] in Hin. rewrite app_nil_r in Hin. apply list_elem_of_fmap in Hin as (? & ? & _). done.
    + pose proof (walk_laid w fa hdr 0 (Some ps) us true Hti ltac:(done)) as Hlaid. cbv zeta iota in Hlaid. fold off in Hlaid.
      pose proof (laid_bound _ _ _ _ _ _ Hlaid). subst it. cbn [walk_iter it_tlv_end it_tlv_off]. unfold zlen in *. lia.
    + exists rc. split; [exact Hl|]. rewrite Hrc. cbn [walk_items dependencies]. rewrite app_nil_r, payloads_entries. done.
  - exists 0. split; [|split; [|done]; constructor]. apply loop_exit. unfold slot_dependencies_step.
    by erewrite bind_ret by (apply next_no_prot; lia).
Qed.

End Check.

Section AllImages.
  Context {W : Type} `{FlashMapOk W} `{BootConfig} `{LoaderConfig}.
  Context (d : boot_data) (w : W) (tlvs : list (option (list tlv) * list tlv)).
  Hypothesis Heq : ARE_SLOTS_EQUIVALENT = true.
  Hypothesis Hok : fm_ok w.
  Hypothesis Hall : all_active d.
  Hypothesis Hmask : zlen (img_mask d) = BOOT_IMAGE_NUMBER.

Definition active_hdr (x : image_state) : image_header := boot_img_hdr (im_loader x) (active_slot (im_usage x)).

(** The active slots hold images with the given TLVs. *)
Hypothesis Htlvs : Forall2 (λ x t, fm_area (active_area x) ∧ tlv_image w (active_area x) (active_hdr x) 0 (fst t) (snd t))
  (images d) tlvs.

(** The dependencies of the images of [l] are met. *)
Definition all_met (l : list Z) : Prop :=
  ∀ i t, i ∈ l → tlvs !! Z.to_nat i = Some t → is_masked d i = false → Forall (dependency_met d) (dependencies (fst t)).

Lemma masked_eq i : 0 <= i < BOOT_IMAGE_NUMBER → masked d i w = (Ret (is_masked d i), w).
Proof using Hmask.
  intros Hi. unfold masked, is_masked. case_if Hn; [|done]. unfold array_get. rewrite (proj2 (Z.ltb_ge _ 0)) by lia.
  unfold zlen in Hmask. destruct (lookup_lt_is_Some_2 (img_mask d) (Z.to_nat i)) as [m ->]; [lia|done].
Qed.

Lemma dependencies_step_eq i rc :
  0 <= i < BOOT_IMAGE_NUMBER → is_masked d i = false →
  ∃ rc' d', xip_dependencies_step i (rc, d) w = (Ret (if rc' =? 0 then inl (0, d) else inr (rc', d')), w) ∧
    (rc' = 0 ↔ all_met [i]).
Proof using All.
  intros Hi Hm. unfold xip_dependencies_step. rewrite (bind_ret _ _ _ _ _ (masked_eq i Hi)), Hm.
  pose proof (aa_len d Hall) as Hlen. unfold zlen in Hlen.
  destruct (lookup_lt_is_Some_2 (images d) (Z.to_nat i)) as [x Hx]; [lia|].
  assert (Hget : array_get (images d) i w = (Ret x, w)).
  { unfold array_get. rewrite (proj2 (Z.ltb_ge _ 0)) by lia. by rewrite Hx. }
  rewrite (bind_ret _ _ _ _ _ Hget). cbv zeta.
  destruct (Forall2_lookup_l _ _ _ _ _ Htlvs Hx) as (t & Ht & Ha & Hti).
  destruct (slot_dependencies_eq d i w Heq Hok Hall (active_slot (im_usage x)) x (fst t) (snd t)) as (rc' & Hrc' & Hiff); try done; [lia|].
  assert (Hmet : rc' = 0 ↔ all_met [i]).
  { rewrite Hiff. split.
    - intros Hf j u Hj Hu _. apply list_elem_of_singleton in Hj as ->. rewrite Ht in Hu. by injection Hu as <-.
    - intros Hmt. apply (Hmt i); [by apply list_elem_of_singleton|done..]. }
  rewrite (bind_ret _ _ _ _ _ Hrc'). cbn beta iota. destruct (rc' =? 0) eqn:Hz.
  - exists rc', d. rewrite Hz. split; [|done]. zsimp. by subst rc'.
  - eexists rc', _. rewrite Hz. by rewrite (bind_ret _ _ _ _ _ Hget).
Qed.

Lemma dependencies_iter l rc :
  (∀ i, i ∈ l → 0 <= i < BOOT_IMAGE_NUMBER) →
  (∃ rc' d', for_images xip_dependencies_step l (rc, d) w = (Ret (inr (rc', d')), w) ∧ rc' ≠ 0 ∧ ¬ all_met l) ∨
  (all_met l ∧ ∃ rc', for_images xip_dependencies_step l (rc, d) w = (Ret (inl (rc', d)), w) ∧
     ((∀ i, i ∈ l → is_masked d i = true) ∧ rc' = rc ∨ rc' = 0)).
Proof using All.
  revert rc. induction l as [|i l IH]; intros rc Hl; cbn [for_images].
  { right. split; [intros ? ? Hi; by apply elem_of_nil in Hi|]. exists rc. split; [done|]. left. split; [|done].
    intros ? Hi. by apply elem_of_nil in Hi. }
  assert (Hi : 0 <= i < BOOT_IMAGE_NUMBER) by (apply Hl; by left).
  assert (Hl' : ∀ j, j ∈ l → 0 <= j < BOOT_IMAGE_NUMBER) by (intros; apply Hl; by right).
  assert (Hcons : all_met [i] → all_met l → all_met (i :: l)).
  { intros Hm1 Hm2 j t [->|Hj]%elem_of_cons; [apply Hm1; by left|by apply Hm2]. }
  assert (Htl : all_met (i :: l) → all_met [i] ∧ all_met l).
  { intros Hm. split; intros j t Hj; apply Hm; [apply list_elem_of_singleton in Hj as ->; by left|by right]. }
  destruct (is_masked d i) eqn:Hm.
  - assert (Hstep : xip_dependencies_step i (rc, d) w = (Ret (inl (rc, d)), w)).
    { unfold xip_dependencies_step. by rewrite (bind_ret _ _ _ _ _ (masked_eq i Hi)), Hm. }
    rewrite (bind_ret _ _ _ _ _ Hstep).
    assert (Hm1 : all_met [i]) by (intros j t Hj _ Hf; apply list_elem_of_singleton in Hj as ->; congruence).
    destruct (IH rc Hl') as [(rc' & d' & Hr & Hne & Hn)|(Hmet & rc' & Hr & Hc)]; [left|right].
    + exists rc', d'. split_and!; [done..|]. by intros [_ ?]%Htl.
    + split; [by apply Hcons|]. exists rc'. split; [done|]. destruct Hc as [[Hc ->]|Hc]; [left|by right]. split; [|done].
      intros j [->|Hj]%elem_of_cons; [done|by apply Hc].
  - destruct (dependencies_step_eq i rc Hi Hm) as (rc1 & d1 & Hstep & Hiff). rewrite (bind_ret _ _ _ _ _ Hstep).
    destruct (rc1 =? 0) eqn:Hz; zsimp.
    + destruct (IH 0 Hl') as [(rc' & d' & Hr & Hne & Hn)|(Hmet & rc' & Hr & Hc)]; [left|right].
      * exists rc', d'. split_and!; [done..|]. by intros [_ ?]%Htl.
      * split; [by apply Hcons; [apply Hiff|]|]. exists rc'. split; [done|]. right. by destruct Hc as [[_ ->]|].
    + left. exists rc1, d1. split_and!; [done..|]. intros [Hm1 _]%Htl. by apply Hiff in Hm1.
Qed.

(** C8: the check of dependencies.  With an active slot for each image, the check of all
    images succeeds exactly when every dependency entry in the protected TLVs of an
    image that is not masked has the right size, names an image, and the version in the
    active slot of that image is at least the one asked for; then the choice of the slots
    stands. *)
Theorem dependencies_exact :
  (∃ i, 0 <= i < BOOT_IMAGE_NUMBER ∧ is_masked d i = false) →
  ∃ rc d', xip_verify_dependencies d w = (Ret (rc, d'), w) ∧
    (rc = 0 ↔ all_met (seqZ 0 BOOT_IMAGE_NUMBER)) ∧ (rc = 0 → d' = d).
Proof using All.
  intros (k & Hk & Hmk). unfold xip_verify_dependencies, IMAGES_ITER.
  destruct (dependencies_iter (seqZ 0 BOOT_IMAGE_NUMBER) (-1)) as [(rc & d' & Hr & Hne & Hn)|(Hmet & rc & Hr & Hc)].
  { intros i Hi. apply elem_of_seqZ in Hi. lia. }
  - exists rc, d'. rewrite (bind_ret _ _ _ _ _ Hr). split_and!; [done| |done]. by split.
  - exists rc, d. rewrite (bind_ret _ _ _ _ _ Hr). split_and!; [done| |done]. split; [done|]. intros _.
    destruct Hc as [[Hc _]|Hc]; [|done]. rewrite Hc in Hmk by (apply elem_of_seqZ; lia). done.
Qed.

End AllImages.
