(* ===== verification/XipSecure.v ===== *)
(** * Secure boot from either slot

    DirectXIP with several images, on arbitrary contents of the flash: every image that
    takes part in a successful boot was validated in the slot it is started from, and
    that slot has not changed since; what happens to the slots of one image leaves those
    of the others alone. *)

From S2P Require Import Prelude Effects Partial FlashMap AnyFlash BootConfig Trailer TrailerProps SwapState.
From S2P Require Import Area AreaProps Image Tlv TlvProps LoaderState Sectors Validate ValidateProps.
From S2P Require Import BootLoop SwapHeaders FlashKeeps SecureBoot MultiImage DirectXip XipProps DependencyProps.
#[local] Set Default Proof Using "Type*".

(** ** Changes confined to one area *)

Section Outside.
  Context {W : Type} `{BootWorld W} `{!BootConfig} `{!BootConfigOk} `{ShaOk} `{Signing} `{!SwapAlgo W} `{!SwapKeeps W}.
  Context `{LoaderConfig} `{XipConfig}.
  Hypothesis Hmode : uses DIRECT_XIP = true.
  Hypothesis Hmin : MCUBOOT_MINIMAL_SCRAMBLE = false.

(** Only area [fa] may differ from [w0]. *)
Definition outside (fa : flash_area) (w0 w : W) : Prop :=
  any_ok w ∧ ∀ fb, fm_area fb → fb ≠ fa → fm_cells w fb = fm_cells w0 fb.

#[export] Instance outside_refines fa w0 : Refines (outside fa w0).
Proof. by intros w []. Qed.

#[local] Hint Resolve outside_refines : keep.

Lemma outside_refl fa w : any_ok w → outside fa w w.
Proof. done. Qed.

Lemma keeps_outside {A} (c : M W A) fa w0 :
  keeps any_ok c (λ _, True) →
  (∀ w, any_ok w → returns c (λ _ w', ∀ fb, fm_area fb → fb ≠ fa → fm_cells w' fb = fm_cells w fb) w) →
  keeps (outside fa w0) c (λ _, True).
Proof using All.
  intros Hk Hf w [Hok Hw]. specialize (Hk w Hok). specialize (Hf w Hok). unfold returns in *.
  destruct (c w) as [[] w']; try done. destruct Hk as [_ Hok']. split; [done|]. split; [done|].
  intros fb Hb Hne. rewrite Hf by done. by apply Hw.
Qed.

Lemma scramble_region_outside fa w0 :
  fm_area fa → can_blank fa → keeps (outside fa w0) (boot_scramble_region fa 0 (fa_size fa) false) (λ _, True).
Proof using All.
  intros Ha Hb. apply keeps_outside; [apply scramble_region_keeps|]. intros w Hok.
  eapply returns_mono; [eapply returns_wp, scramble_whole_wp; [by apply any_fm_ok|done..]|]. by intros rc w' (_ & [_ Hf] & _).
Qed.

Lemma scramble_slot_outside fa slot w0 :
  fm_area fa → can_blank fa → keeps (outside fa w0) (boot_scramble_slot fa slot) (λ _, True).
Proof using All. intros. unfold boot_scramble_slot. rewrite Hmin. by apply scramble_region_outside. Qed.

Lemma xip_modes : swaps = false ∧ uses SWAP_USING_OFFSET = false ∧ uses OVERWRITE_ONLY = false.
Proof using All.
  revert Hmode. unfold swaps, uses. rewrite !bool_decide_eq_true. by intros ->.
Qed.

(** Validation of a slot. *)
Lemma validate_slot_outside state slot w0 :
  let fa := BOOT_IMG_AREA state slot in
  fm_area fa → can_blank fa → keeps (outside fa w0) (boot_validate_slot state slot None 0) (λ _, True).
Proof using All.
  intros fa Ha Hb. destruct xip_modes as (Hsw & Hoff & Hov).
  pose proof (λ s, scramble_slot_outside fa s w0 Ha Hb) as Hscr.
  unfold boot_validate_slot, discard_trailer, wrong_sector, version_too_low, address_ok. rewrite Hsw, Hoff, Hov.
  cbn [andb]. cbv zeta. fold fa. keep.
Qed.

(** The copy-done flag of a slot. *)
Lemma write_copy_done_outside fa w0 :
  trailer_area fa → keeps (outside fa w0) (boot_write_copy_done fa) (λ _, True).
Proof using All.
  intros Hta. apply keeps_outside; [apply write_copy_done_keeps|]. intros w Hok.
  unfold boot_write_copy_done, boot_write_trailer_flag, boot_write_trailer. cbv zeta.
  case_if Hc; [done|]. apply returns_bind. rewrite copy_done_off_eq by done.
  change ([BOOT_FLAG_SET] ++ _) with (padded fa [BOOT_FLAG_SET]). pose proof swap_size_fld_ge.
  pose proof (fld_bounds fa 2 Hta ltac:(lia)) as (? & _ & _). pose proof (fld_unit_fits fa 2 Hta ltac:(lia)) as Hfit.
  pose proof (zlen_padded fa [BOOT_FLAG_SET] Hta ltac:(by cbn)) as [? _]. change (unit_len 2) with BOOT_MAX_ALIGN in Hfit.
  eapply returns_mono; [apply any_write_frame; try done; [apply Hta|lia|by apply padded_bytes; [|repeat constructor]]|].
  intros rc w' Hf. case_if Hrc; by apply returns_ret.
Qed.

Lemma select_outside x w0 :
  let fa := active_area x in
  trailer_area fa → can_blank fa →
  keeps (outside fa w0) (boot_select_or_erase x)
    (λ r, im_loader (snd r) = im_loader x ∧ active_slot (im_usage (snd r)) = active_slot (im_usage x)).
Proof using All.
  intros fa Hta Hb. pose proof (scramble_region_outside fa w0 (ta_area _ Hta) Hb).
  pose proof (write_copy_done_outside fa w0 Hta).
  unfold boot_select_or_erase. cbv zeta. change (BOOT_IMG_AREA (im_loader x) (active_slot (im_usage x))) with fa. keep.
Qed.

(** What a slot needs to be treated. *)
Record slot_ok (fa : flash_area) : Prop := {
  sk_area : fm_area fa;
  sk_blank : can_blank fa;
  sk_trailer : MCUBOOT_DIRECT_XIP_REVERT = true → trailer_area fa;
}.

(** The loader state of an image is not changed by a trial of its slot, and nothing
    outside of that slot. *)
Lemma try_slot_outside x w0 :
  slot_ok (active_area x) →
  keeps (outside (active_area x) w0) (try_slot x)
    (λ r, im_loader (snd r) = im_loader x ∧ active_slot (im_usage (snd r)) = active_slot (im_usage x)).
Proof using All.
  intros [Ha Hb Ht]. unfold try_slot. case_if Hr; [by apply keeps_ret|].
  apply (keeps_bind _ _ _ (λ r, im_loader (snd r) = im_loader x ∧ active_slot (im_usage (snd r)) = active_slot (im_usage x))).
  - case_if Hrev; [|by apply keeps_ret]. by apply select_outside; [apply Ht|].
  - intros [rc y] Hy. cbn [snd] in Hy. case_if Hrc; [by apply keeps_ret|].
    eapply keeps_bind; [|intros r _; by apply keeps_ret].
    destruct Hy as [Hl Hs]. unfold active_area in *. rewrite <- Hl, <- Hs in *. by apply validate_slot_outside.
Qed.

End Outside.

(** ** The search *)

Lemma returns_and {W A} (c : M W A) (P Q : A → W → Prop) w :
  returns c P w → returns c Q w → returns c (λ a w', P a w' ∧ Q a w') w.
Proof. unfold returns. by destruct (c w) as [[] ?]. Qed.

Lemma returns_gives {W A} (c : M W A) (P : A → Prop) w :
  keeps (λ _, True) c P → returns c (λ a _, P a) w.
Proof. intros Hc. eapply returns_mono; [by apply Hc|]. by intros a w' [? _]. Qed.

Section Secured.
  Context {W : Type} `{BootWorld W} `{!BootConfig} `{!BootConfigOk} `{ShaOk} `{Signing} `{!SwapAlgo W} `{!SwapKeeps W}.
  Context `{LoaderConfig} `{XipConfig} (pri sec : Z → flash_area).
  Hypothesis Hmode : uses DIRECT_XIP = true.
  Hypothesis Hmin : MCUBOOT_MINIMAL_SCRAMBLE = false.
  Hypothesis Hbuf : IMAGE_HASH_SIZE <= SIG_BUF_SIZE.
  Hypothesis Hkeys : bootutil_key_cnt <= 256.
  Hypothesis Htmp : 0 < BOOT_TMPBUF_SZ < 4294967296.

(** The slots of the images are different areas. *)
Record slots_apart : Prop := {
  sa_pri i : 0 <= i < BOOT_IMAGE_NUMBER → slot_ok (pri i);
  sa_sec i : 0 <= i < BOOT_IMAGE_NUMBER → slot_ok (sec i);
  sa_cross i j : 0 <= i < BOOT_IMAGE_NUMBER → 0 <= j < BOOT_IMAGE_NUMBER → pri i ≠ sec j;
  sa_pri_ne i j : 0 <= i < BOOT_IMAGE_NUMBER → 0 <= j < BOOT_IMAGE_NUMBER → i ≠ j → pri i ≠ pri j;
  sa_sec_ne i j : 0 <= i < BOOT_IMAGE_NUMBER → 0 <= j < BOOT_IMAGE_NUMBER → i ≠ j → sec i ≠ sec j;
}.
Hypothesis Hapart : slots_apart.

(** The active slot of image [i] holds what was found trusted. *)
Definition vouched (w : W) (i : Z) (x : image_state) : Prop :=
  ∃ w1 limit, trusted w1 i (active_hdr x) (active_area x) 0 limit ∧
    fm_cells w (active_area x) = fm_cells w1 (active_area x).

Definition has_slot (x : image_state) : Prop :=
  active_slot (im_usage x) = BOOT_SLOT_PRIMARY ∨ active_slot (im_usage x) = BOOT_SLOT_SECONDARY.

(** An image that takes part. *)
Record image_secured (w : W) (i : Z) (x : image_state) : Prop := {
  is_slots : slots_ok i (pri i) (sec i) (im_loader x);
  is_active : active_slot (im_usage x) ≠ BOOT_SLOT_NONE → has_slot x ∧ vouched w i x;
}.

Record secured (d : boot_data) (w : W) : Prop := {
  sd_ok : any_ok w;
  sd_len : zlen (images d) = BOOT_IMAGE_NUMBER;
  sd_image i x : 0 <= i → images d !! Z.to_nat i = Some x → is_masked d i = false → image_secured w i x;
}.

Lemma active_area_cases i x :
  slots_ok i (pri i) (sec i) (im_loader x) → has_slot x →
  active_slot (im_usage x) = BOOT_SLOT_PRIMARY ∧ active_area x = pri i ∨
  active_slot (im_usage x) = BOOT_SLOT_SECONDARY ∧ active_area x = sec i.
Proof using Type.
  intros Hs Hx. unfold active_area, BOOT_IMG_AREA, BOOT_IMG. destruct Hx as [-> | ->]; [left|right]; split; try done; apply Hs.
Qed.

Lemma active_area_ok i x :
  0 <= i < BOOT_IMAGE_NUMBER → slots_ok i (pri i) (sec i) (im_loader x) → has_slot x → slot_ok (active_area x).
Proof using Hapart.
  intros Hi Hs Hx. destruct (active_area_cases i x Hs Hx) as [[_ ->]|[_ ->]]; by apply Hapart.
Qed.

Lemma active_area_ne i j x y :
  0 <= i < BOOT_IMAGE_NUMBER → 0 <= j < BOOT_IMAGE_NUMBER → i ≠ j →
  slots_ok i (pri i) (sec i) (im_loader x) → has_slot x → slots_ok j (pri j) (sec j) (im_loader y) → has_slot y →
  active_area x ≠ active_area y.
Proof using Hapart.
  intros Hi Hj Hne Hs Hx Hs' Hy. pose proof (sa_cross Hapart i j Hi Hj). pose proof (sa_cross Hapart j i Hj Hi).
  pose proof (sa_pri_ne Hapart i j Hi Hj Hne). pose proof (sa_sec_ne Hapart i j Hi Hj Hne).
  destruct (active_area_cases i x Hs Hx) as [[_ ->]|[_ ->]], (active_area_cases j y Hs' Hy) as [[_ ->]|[_ ->]]; congruence.
Qed.

(** Changes to the active slot of image [i] leave the other images secured. *)
Lemma secured_other w w' i j x y :
  0 <= i < BOOT_IMAGE_NUMBER → 0 <= j < BOOT_IMAGE_NUMBER → i ≠ j →
  slots_ok i (pri i) (sec i) (im_loader x) → has_slot x → outside (active_area x) w w' →
  image_secured w j y → image_secured w' j y.
Proof using Hapart.
  intros Hi Hj Hne Hs Hx [_ Ho] [Hsy Hay]. split; [done|]. intros Ha. destruct (Hay Ha) as [Hy (w1 & limit & Htr & Hc)].
  split; [done|]. exists w1, limit. split; [done|]. rewrite <- Hc. apply Ho.
  - by eapply sk_area, (active_area_ok j).
  - by apply (active_area_ne j i).
Qed.

(** A slot that passes is vouched for. *)
Lemma try_slot_vouched i x w :
  0 <= i < BOOT_IMAGE_NUMBER → any_ok w → slots_ok i (pri i) (sec i) (im_loader x) → has_slot x →
  returns (try_slot x) (λ r w', fst r = true → vouched w' i (snd r)) w.
Proof using All.
  intros Hi Hok Hs Hx. pose proof (active_area_ok i x Hi Hs Hx) as [Ha Hb Ht].
  unfold try_slot. case_if Hr; [by apply returns_ret|]. apply returns_bind.
  eapply (returns_mono _ (λ r w', im_loader (snd r) = im_loader x ∧
    active_slot (im_usage (snd r)) = active_slot (im_usage x) ∧ any_ok w')).
  { case_if Hrev; [|by apply returns_ret].
    eapply returns_mono; [apply (select_outside Hmode Hmin x w (Ht eq_refl) Hb); by apply outside_refl|].
    by intros r w' [[? ?] [? _]]. }
  intros [rc y] w1 (Hl & Hact & Hok1). cbn [snd] in *. case_if Hrc; [by apply returns_ret|]. apply returns_bind.
  assert (Harea : active_area y = active_area x) by (unfold active_area; by rewrite Hl, Hact).
  assert (Hne : pri i ≠ sec i) by (by apply Hapart).
  eapply returns_mono; [apply (slot_validated i (pri i) (sec i))|]; try done.
  - by apply sk_area, Hapart.
  - by rewrite Hl.
  - change (fm_area (active_area y)). by rewrite Harea.
  - unfold image_start. by destruct (xip_modes Hmode Hmin) as (_ & -> & _).
  - intros r w2 Hr2. apply returns_ret. cbn [fst snd]. unfold FIH_EQ. rewrite bool_decide_eq_true. intros Hfs.
    destruct (Hr2 Hfs) as [-> [limit Htr]]. by exists w1, limit.
Qed.

Lemma secured_set d w w' i x :
  secured d w → any_ok w' → 0 <= i < BOOT_IMAGE_NUMBER →
  (∀ j y, 0 <= j < BOOT_IMAGE_NUMBER → j ≠ i → image_secured w j y → image_secured w' j y) →
  (is_masked d i = false → image_secured w' i x) → secured (set_image d i x) w'.
Proof using Type.
  intros [_ Hlen Him] Hok Hi Hoth Hx. split; [done|cbn; unfold zlen in *; by rewrite length_insert|].
  intros j y Hj Hy Hm. change (is_masked d j = false) in Hm. cbn [images set_image] in Hy.
  pose proof (lookup_lt_Some _ _ _ Hy) as Hlt. rewrite length_insert in Hlt. unfold zlen in Hlen.
  destruct (decide (j = i)) as [->|Hne].
  - rewrite list_lookup_insert_eq in Hy by done. injection Hy as <-. by apply Hx.
  - rewrite list_lookup_insert_ne in Hy by lia. apply Hoth; [lia|done|]. by apply Him.
Qed.

Lemma array_get_returns {A} (l : list A) i w :
  returns (W := W) (array_get l i) (λ x w', w' = w ∧ 0 <= i ∧ l !! Z.to_nat i = Some x) w.
Proof using Type.
  unfold array_get, returns. destruct (i <? 0) eqn:Hi; [done|]. zsimp. destruct (l !! _) eqn:Hl; [|done]. done.
Qed.

Lemma masked_returns d i w : returns (W := W) (masked d i) (λ m w', w' = w ∧ m = is_masked d i) w.
Proof using Type.
  unfold masked, is_masked. case_if Hb; [|by apply returns_ret].
  eapply returns_mono; [apply array_get_returns|]. by intros m w' (-> & _ & ->).
Qed.

Lemma load_step_secured i d w :
  0 <= i < BOOT_IMAGE_NUMBER → secured d w →
  returns (load_image_step i d)
    (λ r w', secured (match r with inl d' => d' | inr (_, d') => d' end) w') w.
Proof using All.
  intros Hi Hd. pose proof (sd_ok _ _ Hd) as Hok. unfold load_image_step.
  apply returns_bind. eapply returns_mono; [apply array_get_returns|]. intros x w1 (-> & _ & Hx).
  case_if Ha; [by apply returns_ret|]. zsimp. cbv zeta. case_if Hn; [by apply returns_ret|]. zsimp.
  destruct (find_slot_cases x) as [[? _]|[Hs _]]; [done|]. set (slot := find_slot_with_highest_version x) in *.
  set (x1 := ImageState (im_loader x) (set_active_slot (im_usage x) slot)).
  apply returns_bind. eapply returns_mono; [apply masked_returns|]. intros m w1 [-> ->]. case_if Hm.
  { apply returns_ret. apply (secured_set d w); [done..|]. congruence. }
  destruct (sd_image _ _ Hd i x) as [Hsl _]; [lia|done..|].
  assert (Hx1 : has_slot x1) by done. assert (Hsl1 : slots_ok i (pri i) (sec i) (im_loader x1)) by done.
  pose proof (active_area_ok i x1 Hi Hsl1 Hx1) as Hao.
  apply returns_bind. eapply returns_mono.
  { apply returns_and; [apply (try_slot_vouched i x1 w Hi Hok Hsl1 Hx1)|].
    apply (try_slot_outside Hmode Hmin x1 w Hao). by apply outside_refl. }
  intros [ok y] w1 [Hv [[Hl Hact] Ho]]. cbn [fst snd] in *.
  assert (Hoth : ∀ j z, 0 <= j < BOOT_IMAGE_NUMBER → j ≠ i → image_secured w j z → image_secured w1 j z).
  { intros j z Hj Hne. by apply (secured_other w w1 i j x1). }
  case_if Hk; apply returns_ret; (apply (secured_set d w); [done|apply Ho|done..|]); intros _.
  - split; [by rewrite Hl|]. intros _. split; [|by apply Hv]. unfold has_slot. by rewrite Hact.
  - split; [by rewrite Hl|]. by cbn.
Qed.

Lemma returns_loop {S R} (I : S → W → Prop) (Q : R → W → Prop) fuel (body : S → M W (S + R)) s w :
  I s w → (∀ s w, I s w → returns (body s) (λ r w', match r with inl s => I s w' | inr r => Q r w' end) w) →
  returns (loop fuel body s) Q w.
Proof using Type.
  intros Hs Hb. revert s w Hs. induction fuel as [|fuel IH]; intros s w Hs; [done|]. cbn [loop]. apply returns_bind.
  eapply returns_mono; [by apply Hb|]. intros [s'|r] w' Hr; [by apply IH|by apply returns_ret].
Qed.

Lemma returns_for_images {S R} (I : list Z → S → W → Prop) (Q : R → W → Prop) (body : Z → S → M W (S + R)) l s w :
  I [] s w →
  (∀ pre i post s w, l = pre ++ i :: post → I pre s w →
     returns (body i s) (λ r w', match r with inl s => I (pre ++ [i]) s w' | inr r => Q r w' end) w) →
  returns (for_images body l s) (λ r w', match r with inl s => I l s w' | inr r => Q r w' end) w.
Proof using Type.
  intros Hs Hbody. enough (Hgen : ∀ post pre s w, l = pre ++ post → I pre s w →
    returns (for_images body post s) (λ r w', match r with inl s' => I l s' w' | inr r => Q r w' end) w) by (by apply (Hgen l [])).
  induction post as [|i post IH]; intros pre s' w' Hl Hs'; cbn [for_images].
  - rewrite app_nil_r in Hl. subst. by apply returns_ret.
  - apply returns_bind. eapply returns_mono; [by eapply Hbody|]. intros [s2|r] w2 Hr; [|by apply returns_ret].
    apply (IH (pre ++ [i])); [|done]. by rewrite <- app_assoc.
Qed.

Lemma load_all_secured d w :
  secured d w → returns (boot_load_and_validate_images d) (λ r w', secured (snd r) w') w.
Proof using All.
  intros Hd. unfold boot_load_and_validate_images, IMAGES_ITER. apply returns_bind.
  eapply returns_mono; [apply (returns_for_images (λ _, secured) secured); [done|]|].
  - intros pre i post d1 w1 Hl Hd1. pose proof (iter_index pre i post i Hl (last_elem pre i)) as Hi. unfold load_image. apply returns_bind.
    eapply returns_mono.
    { apply (returns_loop secured (λ r w', secured (snd r) w')); [done|]. intros d2 w2 Hd2.
      eapply returns_mono; [apply (load_step_secured i); [lia|done]|]. by intros [d3|[ok d3]] w3. }
    intros [[] d2] w2 Hd2; by apply returns_ret.
  - intros [d1|d1] w1 Hd1; by apply returns_ret.
Qed.

(** The check of the dependencies only reads. *)
Lemma slot_dependencies_read d i slot w :
  any_ok w → returns (boot_verify_slot_dependencies d i slot) (λ r w', w' = w ∧ snd r = d) w.
Proof using Hmode Hmin.
  intros Hok. assert (Heq : ARE_SLOTS_EQUIVALENT = true) by (unfold ARE_SLOTS_EQUIVALENT; by rewrite Hmode).
  assert (Refines (W := W) (λ w', w' = w)) by (by intros ? ->).
  eapply returns_mono; [apply returns_and; [apply (returns_gives _ (λ r, snd r = d)); by apply slot_dependencies_same|]|].
  - enough (Hk : keeps (λ w', w' = w) (boot_verify_slot_dependencies d i slot) (λ _, True)) by (by apply Hk).
    unfold boot_verify_slot_dependencies, slot_dependencies_step, boot_verify_slot_dependency, dependency_slot, LOAD_IMAGE_DATA.
    keep.
  - by intros r w' [? [_ ->]].
Qed.

Lemma dependencies_secured d w :
  secured d w → returns (xip_verify_dependencies d) (λ r w', secured (snd r) w') w.
Proof using All.
  intros Hd. unfold xip_verify_dependencies, IMAGES_ITER. apply returns_bind.
  eapply returns_mono; [apply (returns_for_images (λ _ s w', secured (snd s) w') (λ s w', secured (snd s) w')); [done|]|].
  - intros pre i post [rc d1] w1 Hl Hd1. cbn [snd] in Hd1. pose proof (iter_index pre i post i Hl (last_elem pre i)) as Hi. unfold xip_dependencies_step.
    apply returns_bind. eapply returns_mono; [apply masked_returns|]. intros m w2 [-> ->].
    case_if Hm; [by apply returns_ret|]. apply returns_bind. eapply returns_mono; [apply array_get_returns|].
    intros x w2 (-> & _ & Hx). cbv zeta. apply returns_bind.
    eapply returns_mono; [apply slot_dependencies_read, Hd1|]. intros [rc2 d2] w2 [-> Hd2]. cbn [snd] in Hd2. subst d2.
    case_if Hrc; [by apply returns_ret|]. apply returns_bind. eapply returns_mono; [apply array_get_returns|].
    intros y w2 (-> & _ & Hy). rewrite Hx in Hy. injection Hy as <-. apply returns_ret. cbn [snd].
    apply (secured_set d1 w1); [done|apply Hd1|lia|done|]. intros _.
    destruct (sd_image _ _ Hd1 i x) as [Hsl _]; [lia|done..|]. split; [done|]. by cbn.
  - intros [[rc d1]|[rc d1]] w1 Hd1; by apply returns_ret.
Qed.

(** ** Before the search *)

(** An image before its slots are opened. *)
Definition fresh_image (i : Z) (x : image_state) : Prop :=
  curr_img_idx (im_loader x) = i ∧ header_ok (img_hdr (img_primary (im_loader x))) ∧
  header_ok (img_hdr (img_secondary (im_loader x))).

(** All images that take part satisfy [P]. *)
Record each_image (P : Z → image_state → Prop) (m : list bool) (d : boot_data) (w : W) : Prop := {
  ei_ok : any_ok w;
  ei_len : zlen (images d) = BOOT_IMAGE_NUMBER;
  ei_mask : img_mask d = m;
  ei_image i x : 0 <= i → images d !! Z.to_nat i = Some x → is_masked d i = false → P i x;
}.

Lemma each_image_set (P Q : Z → image_state → Prop) m d w w' i x :
  each_image P m d w → any_ok w' → 0 <= i → (∀ j y, j ≠ i → P j y → Q j y) →
  (is_masked d i = false → Q i x) → each_image Q m (set_image d i x) w'.
Proof using Type.
  intros [_ Hlen Hm Him] Hok Hi Hoth Hx. split; [done|cbn; unfold zlen in *; by rewrite length_insert|done|].
  intros j y Hj Hy Hmj. change (is_masked d j = false) in Hmj. cbn [images set_image] in Hy.
  pose proof (lookup_lt_Some _ _ _ Hy) as Hlt. rewrite length_insert in Hlt.
  destruct (decide (j = i)) as [->|Hne].
  - rewrite list_lookup_insert_eq in Hy by done. injection Hy as <-. by apply Hx.
  - rewrite list_lookup_insert_ne in Hy by lia. apply Hoth; [done|]. by apply Him.
Qed.

Definition opened (i : Z) (x : image_state) : Prop := slots_ok i (pri i) (sec i) (im_loader x).

Lemma open_areas_each d w :
  (∀ i w, 0 <= i < BOOT_IMAGE_NUMBER → flash_area_open (FLASH_AREA_IMAGE_PRIMARY i) w = (Ret (0, pri i), w)) →
  (∀ i w, 0 <= i < BOOT_IMAGE_NUMBER → flash_area_open (FLASH_AREA_IMAGE_SECONDARY i) w = (Ret (0, sec i), w)) →
  each_image fresh_image (img_mask d) d w → returns (xip_open_areas d) (λ d' w', each_image opened (img_mask d) d' w') w.
Proof using All.
  intros Hop Hos Hd. unfold xip_open_areas, IMAGES_ITER. apply returns_bind. set (mk := img_mask d) in *.
  eapply returns_mono; [apply (returns_for_images (λ pre, each_image (λ i x, if bool_decide (i ∈ pre) then opened i x else fresh_image i x) mk) (λ _ _, True))|].
  - destruct Hd. split; try done.
  - intros pre i post d1 w1 Hl Hd1. pose proof (iter_index pre i post i Hl (last_elem pre i)) as Hi.
    assert (Hnot : i ∉ pre).
    { pose proof (NoDup_seqZ 0 BOOT_IMAGE_NUMBER) as Hnd. rewrite Hl in Hnd. apply list.NoDup_app in Hnd as (_ & Hnd & _).
      intros Hin. apply (Hnd i Hin). by left. }
    unfold open_areas_step. apply returns_bind. eapply returns_mono; [apply masked_returns|]. intros m w2 [-> ->].
    assert (Hpre : ∀ j y, j ≠ i → (if bool_decide (j ∈ pre) then opened j y else fresh_image j y) →
      if bool_decide (j ∈ pre ++ [i]) then opened j y else fresh_image j y).
    { intros j y Hne. destruct (decide (j ∈ pre)) as [Hin|Hin].
      - rewrite !bool_decide_true; [done| |done]. apply elem_of_app. by left.
      - rewrite !bool_decide_false; [done|by intros ?%elem_of_last|done]. }
    case_if Hm.
    { apply returns_ret. destruct Hd1 as [? ? ? Him]. split; try done. intros j y Hj Hy Hmj. apply Hpre; [congruence|by apply Him]. }
    apply returns_bind. eapply returns_mono; [apply array_get_returns|]. intros x w2 (-> & _ & Hx).
    pose proof (ei_image _ _ _ _ Hd1 i x ltac:(lia) Hx Hm) as Hf. cbn beta in Hf. rewrite bool_decide_false in Hf by done.
    destruct Hf as (Hidx & Hh1 & Hh2). apply returns_bind.
    eapply returns_mono; [apply (open_areas_good i (pri i) (sec i)); try done; [by intros; apply Hop|by intros; apply Hos|apply Hd1]|].
    intros st w2 [Hst Hok2]. apply returns_ret. eapply each_image_set; [done|done|lia|done|].
    intros _. cbn beta. by rewrite bool_decide_true by apply last_elem.
  - intros [d1|[]] w1 Hd1. apply returns_ret. destruct Hd1 as [? Hlen ? Him]. split; try done. intros j y Hj Hy Hmj.
    specialize (Him j y Hj Hy Hmj). cbn beta in Him. rewrite bool_decide_true in Him; [done|].
    apply elem_of_seqZ. apply lookup_lt_Some in Hy. unfold zlen in Hlen. lia.
Qed.

Lemma slot_usage_secured d w :
  each_image opened (img_mask d) d w →
  returns (boot_get_slot_usage d) (λ r w', fst r = 0 → secured (snd r) w' ∧ img_mask (snd r) = img_mask d) w.
Proof using All.
  intros Hd. unfold boot_get_slot_usage, IMAGES_ITER. apply returns_bind. set (mk := img_mask d) in *.
  eapply returns_mono.
  { apply (returns_for_images (λ pre, each_image (λ i x, opened i x ∧ (i ∈ pre → active_slot (im_usage x) = BOOT_SLOT_NONE)) mk)
      (λ r _, fst r ≠ 0)).
    - destruct Hd as [? ? ? Him]. split; try done. intros j y Hj Hy Hmj. split; [by apply Him|]. intros Hin. by apply elem_of_nil in Hin.
    - intros pre i post d1 w1 Hl Hd1. pose proof (iter_index pre i post i Hl (last_elem pre i)) as Hi.
      unfold slot_usage_step. apply returns_bind. eapply returns_mono; [apply masked_returns|]. intros m w2 [-> ->]. case_if Hm.
      { apply returns_ret. destruct Hd1 as [? ? ? Him]. split; try done. intros j y Hj Hy Hmj. destruct (Him j y Hj Hy Hmj) as [Ho Hp].
        split; [done|]. intros Hin. apply Hp. apply (elem_of_last pre i j Hin). congruence. }
      apply returns_bind. eapply returns_mono; [apply array_get_returns|]. intros x w2 (-> & _ & Hx).
      destruct (ei_image _ _ _ _ Hd1 i x ltac:(lia) Hx Hm) as [Ho _]. apply returns_bind.
      eapply returns_mono; [apply (read_headers_keeps i (pri i) (sec i) (im_loader x) false None Ho), Hd1|].
      intros [rc st] w2 [Hst Hok2]. cbn [snd] in Hst. case_if Hrc; [apply returns_ret; by zsimp|]. cbv zeta. apply returns_ret.
      eapply each_image_set; [exact Hd1|done|lia| |]; cbn beta.
      + intros j y Hne [Hoj Hpj]. split; [done|]. intros Hin. by apply Hpj, (elem_of_last pre i j Hin).
      + by intros _. }
  intros [d1|[rc d1]] w1 Hd1; apply returns_ret; cbn [fst snd] in *; [|done]. intros _.
  destruct Hd1 as [Hok Hlen Hmk Him]. split; [|done]. split; [done..|]. intros i x Hi Hx Hm.
  destruct (Him i x Hi Hx Hm) as [Ho Hn]. split; [done|]. intros Ha. exfalso. apply Ha, Hn, elem_of_seqZ.
  apply lookup_lt_Some in Hx. unfold zlen in Hlen. lia.
Qed.

(** ** After the search *)

Lemma secured_unchanged d w w' : secured d w → unchanged w w' → secured d w'.
Proof using Hapart.
  intros [_ Hlen Him] [Hok Hc]. split; [done..|]. intros i x Hi Hx Hm. destruct (Him i x Hi Hx Hm) as [Hs Ha]. split; [done|].
  intros Hn. destruct (Ha Hn) as [Hh (w1 & limit & Htr & Hcell)]. split; [done|]. exists w1, limit. split; [done|].
  rewrite Hc; [done|]. apply lookup_lt_Some in Hx. unfold zlen in Hlen. eapply sk_area, (active_area_ok i); [lia|done..].
Qed.

Lemma rollback_secured d w :
  secured d w → returns (IMAGES_ITER (rollback_step d) ()) (λ _ w', secured d w') w.
Proof using All.
  intros Hd. eapply returns_mono; [apply (returns_for_images (λ _ _ w', secured d w') (λ _ w', secured d w')); [done|]|by intros []].
  intros pre i post [] w1 _ Hd1. unfold rollback_step.
  apply returns_bind. eapply returns_mono; [apply masked_returns|]. intros m w2 [-> ->]. case_if Hm; [by apply returns_ret|].
  apply returns_bind. eapply returns_mono; [apply array_get_returns|]. intros x w2 (-> & _ & Hx). apply returns_bind.
  pose proof (unchanged_refines w1) as Href.
  eapply (returns_mono _ (λ _ w', secured d w')); [|intros rc w2 Hd2; apply returns_ret; by case_if Hrc].
  assert (Hk : keeps (unchanged w1) (xip_update_hw_rollback_protection x) (λ _, True)).
  { pose proof (λ s l m, update_counter_keeps (unchanged w1) s l m (unchanged_counter w1)).
    unfold xip_update_hw_rollback_protection. keep. }
  eapply returns_mono; [apply Hk; split; [apply Hd1|done]|]. intros rc w2 [_ Hun]. by apply (secured_unchanged d w1).
Qed.

(** The first image that takes part. *)
Definition first_image (d : boot_data) (i : Z) : Prop :=
  0 <= i < BOOT_IMAGE_NUMBER ∧ is_masked d i = false ∧ ∀ j, 0 <= j < i → is_masked d j = true.

(** The response of a boot that starts image [i]. *)
Definition response_for (x : image_state) : boot_rsp :=
  BootRsp (fa_device_id (active_area x)) (fa_off (active_area x)) (active_hdr x).

Lemma fill_rsp_first d (w : W) :
  (∃ i, 0 <= i < BOOT_IMAGE_NUMBER ∧ is_masked d i = false) →
  returns (xip_fill_rsp d) (λ o w', w' = w ∧ ∃ i x, first_image d i ∧ images d !! Z.to_nat i = Some x ∧
    o = Some (response_for x)) w.
Proof using Type.
  intros (k & Hk & Hmk). unfold xip_fill_rsp, IMAGES_ITER. apply returns_bind.
  eapply returns_mono.
  { apply (returns_for_images (λ pre _ w', w' = w ∧ ∀ j, j ∈ pre → is_masked d j = true) (λ i w', w' = w ∧ first_image d i)).
    - split; [done|]. intros j Hj. by apply elem_of_nil in Hj.
    - intros pre i post [] w1 Hl [-> Hp]. pose proof (iter_index pre i post i Hl (last_elem pre i)) as Hi.
      unfold first_image_step. apply returns_bind. eapply returns_mono; [apply masked_returns|]. intros m w1 [-> ->].
      apply returns_ret. destruct (is_masked d i) eqn:Hm.
      + split; [done|]. intros j Hj. destruct (decide (j = i)) as [->|Hne]; [done|]. by apply Hp, (elem_of_last pre i).
      + split; [done|]. split_and!; [lia..|done|]. intros j Hj. apply Hp.
        assert (Hin : j ∈ take (Z.to_nat i) (seqZ 0 BOOT_IMAGE_NUMBER)).
        { apply list_elem_of_lookup. exists (Z.to_nat j). rewrite lookup_take_lt by lia. rewrite lookup_seqZ_lt by lia. f_equal. lia. }
        assert (Hlen : length pre = Z.to_nat i).
        { assert (Hlk : seqZ 0 BOOT_IMAGE_NUMBER !! length pre = Some i) by (rewrite Hl; by apply list_lookup_middle).
          apply lookup_seqZ in Hlk. lia. }
        rewrite Hl, <- Hlen, take_app_length in Hin. done. }
  intros [u|i] w1 Hr.
  - destruct Hr as [_ Hall]. rewrite Hall in Hmk by (apply elem_of_seqZ; lia). done.
  - destruct Hr as [-> Hf]. apply returns_bind. eapply returns_mono; [apply array_get_returns|]. intros x w1 (-> & _ & Hx).
    apply returns_ret. split; [done|]. by exists i, x.
Qed.

(** What a successful search leaves. *)
Definition selected (m : list bool) (d : boot_data) (w : W) : Prop :=
  secured d w ∧ img_mask d = m ∧ ∀ i, 0 <= i < BOOT_IMAGE_NUMBER → loaded d i.

Lemma select_step_secured d w :
  secured d w → returns (xip_select_step d) (λ r w', secured (match r with inl d' => d' | inr (_, d') => d' end) w') w.
Proof using All.
  intros Hs. unfold xip_select_step. apply returns_bind. eapply returns_mono; [by apply load_all_secured|].
  intros [f d1] w1 Hs1. cbn [snd] in Hs1. case_if Hf; [by apply returns_ret|]. case_if Hn; [|by apply returns_ret].
  apply returns_bind. eapply returns_mono; [by apply dependencies_secured|]. intros [rc d2] w2 Hs2. cbn [snd] in Hs2.
  apply returns_ret. by case_if Hrc.
Qed.

Lemma select_loop_secured d w fuel :
  secured d w → searching d →
  returns (loop fuel xip_select_step d) (λ r w', fst r = true → selected (img_mask d) (snd r) w') w.
Proof using All.
  intros Hs Hse. assert (Heq : ARE_SLOTS_EQUIVALENT = true) by (unfold ARE_SLOTS_EQUIVALENT; by rewrite Hmode).
  apply (returns_loop (λ d1 w1, secured d1 w1 ∧ searching d1 ∧ img_mask d1 = img_mask d)); [done|].
  intros d1 w1 (Hs1 & Hse1 & Hm1).
  eapply returns_mono; [apply returns_and; [apply (returns_gives _ _ w1 (select_step_less d1 Heq Hse1))|by apply select_step_secured]|].
  intros [d2|[ok d2]] w2 [Hg Hs2].
  - destruct Hg as (? & ? & _). split_and!; [done..|congruence].
  - cbn [fst snd]. intros ->. destruct (Hg eq_refl) as (Hm2 & _ & Hlo). split_and!; [done|congruence|done].
Qed.

Lemma boot_selected d w :
  each_image opened (img_mask d) d w → (∃ i, 0 <= i < BOOT_IMAGE_NUMBER ∧ is_masked d i = false) →
  returns ('(rc, d) ← boot_get_slot_usage d;
           if negb (rc =? 0) then mret (FIH_FAILURE, None, d) else
           '(ok, d) ← loop SELECT_FUEL xip_select_step d;
           if negb ok then mret (FIH_FAILURE, None, d) else
           r ← IMAGES_ITER (rollback_step d) ();
           match r with
           | inr _ => mret (FIH_FAILURE, None, d)
           | inl _ => rsp ← xip_fill_rsp d; mret (FIH_SUCCESS, rsp, d)
           end)
    (λ r w', fst (fst r) = FIH_SUCCESS → selected (img_mask d) (snd r) w' ∧
       ∃ i x, first_image (snd r) i ∧ images (snd r) !! Z.to_nat i = Some x ∧ snd (fst r) = Some (response_for x)) w.
Proof using All.
  intros Hd Hsome. apply returns_bind. eapply returns_mono.
  { apply returns_and; [by apply slot_usage_secured|].
    apply (returns_gives _ (λ r, fst r = 0 → searching (snd r))). apply slot_usage_ok; [apply Hd|done]. }
  intros [rc d2] w2 [Hs2 Hse2]. cbn [fst snd] in *. case_if Hrc; [by apply returns_ret|]. zsimp. subst rc.
  destruct (Hs2 eq_refl) as [Hsd2 Hm2]. specialize (Hse2 eq_refl).
  apply returns_bind. eapply returns_mono; [by apply select_loop_secured|].
  intros [ok d3] w3 Hr3. cbn [fst snd] in Hr3. destruct ok; [|by apply returns_ret]. cbn [negb].
  destruct (Hr3 eq_refl) as (Hs3 & Hm3 & Hlo3). rewrite Hm2 in Hm3.
  apply returns_bind. eapply returns_mono; [by apply rollback_secured|]. intros [u|rc4] w4 Hs4; [|by apply returns_ret].
  apply returns_bind. eapply returns_mono.
  { apply fill_rsp_first. destruct Hsome as (k & Hk & Hmk). exists k. by rewrite (is_masked_mask d d3). }
  intros o w5 (-> & i & x & Hf & Hx & ->). apply returns_ret. cbn [fst snd]. intros _. split; [done|]. by exists i, x.
Qed.

(** C4: secure boot from either slot.  Built for DirectXIP, with any number of images,
    whatever the flash holds: if the boot succeeds, each image that takes part has an
    active slot whose contents are those of an image found trusted by validation (complete,
    with its digest in its TLVs and, if signing is enabled, a signature over it by one of
    the built-in keys), also if slots of other images were erased after that; and the
    response points to the active slot of the first of the images. *)
Theorem xip_secure_boot d w rsp d' w' :
  (∀ i w, 0 <= i < BOOT_IMAGE_NUMBER → flash_area_open (FLASH_AREA_IMAGE_PRIMARY i) w = (Ret (0, pri i), w)) →
  (∀ i w, 0 <= i < BOOT_IMAGE_NUMBER → flash_area_open (FLASH_AREA_IMAGE_SECONDARY i) w = (Ret (0, sec i), w)) →
  any_ok w → zlen (images d) = BOOT_IMAGE_NUMBER →
  (∀ i x, 0 <= i → images d !! Z.to_nat i = Some x → is_masked d i = false → fresh_image i x) →
  (∃ i, 0 <= i < BOOT_IMAGE_NUMBER ∧ is_masked d i = false) →
  xip_context_boot_go d w = (Ret (FIH_SUCCESS, rsp, d'), w') →
  (∀ i x, 0 <= i → images d' !! Z.to_nat i = Some x → is_masked d i = false →
     (active_area x = pri i ∨ active_area x = sec i) ∧ vouched w' i x) ∧
  ∃ i x, first_image d i ∧ images d' !! Z.to_nat i = Some x ∧ rsp = Some (response_for x).
Proof using All.
  intros Hop Hos Hok Hlen Hfresh Hsome Hgo.
  assert (Hr : returns (xip_context_boot_go d) (λ r w', fst (fst r) = FIH_SUCCESS → selected (img_mask d) (snd r) w' ∧
       ∃ i x, first_image (snd r) i ∧ images (snd r) !! Z.to_nat i = Some x ∧ snd (fst r) = Some (response_for x)) w).
  { unfold xip_context_boot_go. apply returns_bind. eapply returns_mono; [by apply open_areas_each|]. intros d1 w1 Hd1.
    pose proof (ei_mask _ _ _ _ Hd1) as Hm1. rewrite <- Hm1. apply boot_selected; [by rewrite Hm1|].
    destruct Hsome as (k & Hk & Hmk). exists k. by rewrite (is_masked_mask d d1). }
  destruct (returns_eq _ _ _ _ _ Hr Hgo eq_refl) as ((Hs & Hm & Hlo) & i & x & Hf & Hx & Hrsp). cbn [fst snd] in *. split.
  - intros j y Hj Hy Hmj. rewrite <- (is_masked_mask d d') in Hmj by done.
    destruct (sd_image _ _ Hs j y Hj Hy Hmj) as [Hsl Ha].
    destruct (Hlo j) as (u & Hu & Hn).
    { apply lookup_lt_Some in Hy. pose proof (sd_len _ _ Hs) as Hl. unfold zlen in Hl. lia. }
    unfold image_usage in Hu. rewrite Hy in Hu. injection Hu as <-. destruct (Ha Hn) as [Hh Hv]. split; [|done].
    destruct (active_area_cases j y Hsl Hh) as [[_ ->]|[_ ->]]; auto.
  - exists i, x. split_and!; [|done..]. destruct Hf as (? & Hfm & Hall). rewrite (is_masked_mask d d') in Hfm by done.
    split; [done|]. split; [done|]. intros k Hk. rewrite <- (is_masked_mask d d') by done. by apply Hall.
Qed.

End Secured.
