(* ===== verification/RamLoadProps.v ===== *)
(** * Properties of RAM loading

    The test for overlapping regions against what it stands for; a load that succeeds
    puts the image where its header says, within the executable RAM, away from the images
    loaded before, and changes no other byte. *)

From S2P Require Import Sectors Prelude Effects FlashMap BootConfig Area Image ImageProps LoaderState MultiImage RamLoad.

#[local] Set Default Proof Using "Type*".

(** ** Memory *)

Lemma sram_write_in m addr d a :
  addr <= a < addr + zlen d → sram_write m addr d a = d !!! Z.to_nat (a - addr).
Proof.
  intros Ha. unfold sram_write. rewrite (proj2 (Z.leb_le _ _)), (proj2 (Z.ltb_lt _ _)) by lia. done.
Qed.

Lemma sram_write_out m addr d a : ¬ (addr <= a < addr + zlen d) → sram_write m addr d a = m a.
Proof. intros Ha. unfold sram_write. case_if Hc; [|done]. zsimp. lia. Qed.

Lemma sram_read_write m addr d : sram_read (sram_write m addr d) addr (zlen d) = d.
Proof.
  apply list_eq. intros k. unfold sram_read. rewrite list_lookup_fmap. destruct (decide (k < length d)%nat) as [Hk|Hk].
  - rewrite lookup_seqZ_lt by (unfold zlen; lia). cbn. rewrite sram_write_in by (unfold zlen; lia).
    replace (Z.to_nat (addr + Z.of_nat k - addr)) with k by lia. symmetry. by apply list_lookup_lookup_total_lt.
  - rewrite !lookup_ge_None_2; [done|lia|]. rewrite length_seqZ. unfold zlen. lia.
Qed.

(** ** Regions *)

Definition meet (start_a end_a start_b end_b : Z) : Prop := start_b < end_a ∧ start_a < end_b.

(** C40: the overlap test.  For regions that are not empty it answers yes exactly when they
    have an address in common or when the second region starts where the first one ends;
    in the second case they are only neighbours, and with the regions exchanged the answer
    is no. *)
Theorem regions_overlap_exact start_a end_a start_b end_b :
  start_a < end_a → start_b < end_b →
  (do_regions_overlap start_a end_a start_b end_b = true ↔ meet start_a end_a start_b end_b ∨ start_b = end_a) ∧
  (start_b = end_a → do_regions_overlap start_b end_b start_a end_a = false).
Proof.
  intros Ha Hb. unfold do_regions_overlap, meet. split.
  - case_if H1; zsimp; [split; [done|lia]|]. case_if H2; zsimp; [split; [lia|done]|]. rewrite Z.ltb_lt. lia.
  - intros ->. rewrite (proj2 (Z.ltb_ge _ _)) by lia. rewrite (proj2 (Z.leb_gt _ _)) by lia. apply Z.ltb_ge. lia.
Qed.

Lemma regions_overlap_exact_witness :
  do_regions_overlap 100 200 200 300 = true ∧ do_regions_overlap 200 300 100 200 = false.
Proof.
  destruct (regions_overlap_exact 100 200 200 300) as [Hiff Hsym]; [lia|lia|]. split.
  - apply Hiff. right. lia.
  - apply Hsym. lia.
Defined.

Lemma no_overlap start_a end_a start_b end_b :
  start_a <= end_a → start_b <= end_b →
  do_regions_overlap start_a end_a start_b end_b = false → end_a < start_b ∨ end_b <= start_a.
Proof.
  intros Ha Hb. unfold do_regions_overlap. case_if H1; zsimp; [lia|]. case_if H2; zsimp; [done|]. rewrite Z.ltb_ge. lia.
Qed.

(** The region of an image, without wrap-around. *)
Definition region_end (u : slot_usage) : Z := img_dst u + img_sz u.
Definition region_ok (u : slot_usage) : Prop := 0 <= img_dst u ∧ 0 <= img_sz u ∧ region_end u <= UINT32_MAX.
Definition apart (u v : slot_usage) : Prop := region_end u <= img_dst v ∨ region_end v <= img_dst u.

(** The images that satisfy [P] and have an active slot lie apart from each other. *)
Record regions_ok (P : Z → Prop) (d : boot_data) : Prop := {
  ro_region j x : 0 <= j → P j → images d !! Z.to_nat j = Some x → active_slot (im_usage x) ≠ BOOT_SLOT_NONE →
    region_ok (im_usage x);
  ro_apart j k x y : 0 <= j → 0 <= k → P j → P k → j ≠ k → images d !! Z.to_nat j = Some x → images d !! Z.to_nat k = Some y →
    active_slot (im_usage x) ≠ BOOT_SLOT_NONE → active_slot (im_usage y) ≠ BOOT_SLOT_NONE →
    apart (im_usage x) (im_usage y);
}.

Lemma overlaps_any_false i sa ea k l :
  overlaps_any i sa ea k l = false →
  ∀ (n : nat) x, l !! n = Some x → k + Z.of_nat n ≠ i → active_slot (im_usage x) ≠ BOOT_SLOT_NONE →
    do_regions_overlap sa ea (img_dst (im_usage x)) (img_dst (im_usage x) ⊕ img_sz (im_usage x)) = false.
Proof.
  revert k. induction l as [|y l IH]; intros k Ho n x; [done|]. cbn [overlaps_any] in Ho. cbv zeta in Ho.
  destruct n as [|n]; cbn [lookup list_lookup].
  - intros [= ->] Hi Ha. rewrite (proj2 (Z.eqb_neq _ _) Ha), (proj2 (Z.eqb_neq k i)) in Ho by lia. cbn [orb] in Ho.
    by apply orb_false_iff in Ho as [Ho _].
  - intros Hx Hi Ha. apply (IH (k + 1)) with (n := n); [|done|lia|done].
    destruct (_ || _) in Ho; [done|]. by apply orb_false_iff in Ho as [_ Ho].
Qed.

(** ** Loading *)

Section Load.
  Context {W : Type} `{FlashMapOk W} `{BootConfig} `{RamConfig} `{SwapAlgo W}.
  Context (d : boot_data) (i : Z) (x : image_state) (w : W) (m : sram) (sz start size : Z).

#[local] Abbreviation slot := (active_slot (im_usage x)).
#[local] Abbreviation hdr := (boot_img_hdr (im_loader x) slot).
#[local] Abbreviation fa := (BOOT_IMG_AREA (im_loader x) slot).
#[local] Abbreviation dst := (ih_load_addr hdr).

Hypothesis Hok : fm_ok w.
Hypothesis Hi : 0 <= i.
Hypothesis Hx : images d !! Z.to_nat i = Some x.
Hypothesis Ha : fm_area fa.
Hypothesis Hflag : Z.land (ih_flags hdr) IMAGE_F_RAM_LOAD ≠ 0.
Hypothesis Haddr : is_u32 dst.
Hypothesis Hsize : boot_read_image_size (im_loader x) slot w = (Ret (0, sz, im_loader x), w).
Hypothesis Hsz : 0 <= sz <= fa_size fa.
Hypothesis Hram : exec_ram i = Some (start, size).
Hypothesis Hbounds : 0 <= start ∧ 0 <= size ∧ start + size <= UINT32_MAX.

Definition loaded_usage : slot_usage := set_img_load (im_usage x) dst sz.
Definition loaded_data : boot_data := set_usage d i x loaded_usage.

Lemma verify_address_eq :
  boot_verify_ram_load_address i loaded_usage =
    if (start <=? dst) && (dst + sz <=? start + size) then 0 else BOOT_EBADIMAGE.
Proof using Hok Ha Haddr Hsz Hram Hbounds.
  unfold boot_verify_ram_load_address. rewrite Hram. cbn [img_dst img_sz loaded_usage set_img_load].
  destruct (fm_bounds _ Ha) as (? & ? & ?). unfold is_u32, UINT32_MAX in *.
  rewrite u32_safe_add_eq by (unfold is_u32; lia). unfold UINT32_MAX. rewrite u32_small by (unfold is_u32; lia).
  destruct (start <=? dst) eqn:Hc1; cbn [andb]; zsimp.
  - rewrite (proj2 (Z.ltb_ge _ _)) by lia. destruct (dst + sz <=? 4294967295) eqn:Hc2; zsimp.
    + destruct (dst + sz <=? start + size) eqn:Hc3; zsimp; [by rewrite (proj2 (Z.ltb_ge _ _)) by lia|].
      by rewrite (proj2 (Z.ltb_lt _ _)) by lia.
    + by rewrite (proj2 (Z.leb_gt _ _)) by lia.
  - by rewrite (proj2 (Z.ltb_lt _ _)) by lia.
Qed.

Lemma loaded_lookup j :
  0 <= j → images loaded_data !! Z.to_nat j = if decide (j = i) then Some (ImageState (im_loader x) loaded_usage) else images d !! Z.to_nat j.
Proof using Hi Hx.
  intros Hj. cbn. destruct (decide (j = i)) as [->|Hne].
  - apply list_lookup_insert_eq. by eapply lookup_lt_Some.
  - apply list_lookup_insert_ne. lia.
Qed.

(** An image that passes the checks lies apart from the others. *)
Lemma loaded_apart :
  regions_ok (λ j, j ≠ i) d → start <= dst → dst + sz <= start + size →
  boot_check_ram_load_overlapping loaded_data i loaded_usage = 0 → regions_ok (λ _, True) loaded_data.
Proof using Hi Hx Hsz Hbounds.
  intros Hr Hlo Hhi Hc. unfold boot_check_ram_load_overlapping in Hc. destruct (overlaps_any _ _ _ _ _) eqn:Ho; [done|]. clear Hc.
  assert (Hreg : region_ok loaded_usage) by (unfold region_ok, region_end; cbn; lia).
  assert (Hother : ∀ k y, 0 <= k → k ≠ i → images d !! Z.to_nat k = Some y → active_slot (im_usage y) ≠ BOOT_SLOT_NONE →
    apart loaded_usage (im_usage y)).
  { intros k y Hk Hne Hy Hay. pose proof (ro_region _ _ Hr k y Hk Hne Hy Hay) as (? & ? & ?).
    pose proof (overlaps_any_false _ _ _ _ _ Ho (Z.to_nat k) y) as Hn. rewrite loaded_lookup, decide_False in Hn by done.
    specialize (Hn Hy ltac:(lia) Hay). destruct Hreg as (? & ? & ?). unfold region_end, UINT32_MAX in *.
    rewrite !u32_small in Hn by (unfold is_u32; lia). apply no_overlap in Hn; [|lia..]. unfold apart, region_end. lia. }
  split.
  - intros j y Hj _. rewrite loaded_lookup by done. destruct (decide (j = i)) as [->|Hne]; [by intros [= <-]|].
    by apply (ro_region _ _ Hr j y).
  - intros j k y z Hj Hk _ _ Hjk. rewrite !loaded_lookup by done.
    destruct (decide (j = i)) as [->|Hne], (decide (k = i)) as [->|Hne']; [done|..].
    + intros [= <-] Hz _ Haz. by apply (Hother k).
    + intros Hy [= <-] Hay _. destruct (Hother j y Hj Hne Hy Hay); [by right|by left].
    + by apply (ro_apart _ _ Hr).
Qed.

(** C9: loading to RAM.  On a slot whose image asks for it the load always ends; if it
    reports success, the image lies within the executable RAM of the platform, it is a copy
    of the start of the slot, no byte outside of it has changed, and with several images it
    is apart from the regions of the images loaded before, which stay apart from each other;
    otherwise the RAM is as before. *)
Theorem ram_load_safe :
  regions_ok (λ j, j ≠ i) d →
  ∃ rc d' m', boot_load_image_to_sram d i m w = (Ret (rc, d', m'), w) ∧
    if rc =? 0 then
      start <= dst ∧ dst + sz <= start + size ∧
      sram_read m' (IMAGE_RAM_BASE + dst) sz = slice (vals (fm_cells w fa)) 0 sz ∧
      (∀ a, ¬ (IMAGE_RAM_BASE + dst <= a < IMAGE_RAM_BASE + dst + sz) → m' a = m a) ∧
      (1 < BOOT_IMAGE_NUMBER → regions_ok (λ _, True) d')
    else m' = m.
Proof using All.
  intros Hr. unfold boot_load_image_to_sram. erewrite bind_ret.
  2:{ unfold array_get. rewrite (proj2 (Z.ltb_ge _ 0)) by lia. by rewrite Hx. }
  cbv zeta. rewrite (proj2 (Z.eqb_neq _ _) Hflag). erewrite bind_ret by exact Hsize. cbn beta iota. cbn [Z.eqb negb im_usage im_loader].
  fold loaded_usage. change (set_usage d i {| im_loader := im_loader x; im_usage := im_usage x |} loaded_usage) with loaded_data.
  rewrite verify_address_eq. destruct ((start <=? dst) && (dst + sz <=? start + size)) eqn:Hv; cbn [Z.eqb negb BOOT_EBADIMAGE].
  2:{ by exists BOOT_EBADIMAGE, loaded_data, m. }
  apply andb_true_iff in Hv as [Hv1 Hv2]. zsimp.
  set (orc := if 1 <? BOOT_IMAGE_NUMBER then _ else 0). destruct (orc =? 0) eqn:Horc; cbn [negb].
  2:{ exists orc, loaded_data, m. by rewrite Horc. }
  assert (Hcopy : boot_copy_image_to_sram {| im_loader := im_loader x; im_usage := im_usage x |} slot dst sz m w =
    (Ret (0, sram_write m (IMAGE_RAM_BASE + dst) (slice (vals (fm_cells w fa)) 0 sz)), w)).
  { unfold boot_copy_image_to_sram. cbn [im_loader]. by erewrite bind_ret by (apply fm_read; (done || lia)). }
  erewrite bind_ret by exact Hcopy. eexists 0, loaded_data, _. split; [done|]. cbn [Z.eqb].
  assert (Hlen : zlen (slice (vals (fm_cells w fa)) 0 sz) = sz).
  { apply zlen_slice; rewrite ?zlen_vals, ?(fm_len w fa Hok Ha); lia. }
  split_and!; [done|done| | |].
  - rewrite <- Hlen at 2. apply sram_read_write.
  - intros a Hna. apply sram_write_out. by rewrite Hlen.
  - intros Hn. subst orc. rewrite (proj2 (Z.ltb_lt _ _) Hn) in Horc. zsimp. by apply loaded_apart.
Qed.

End Load.
