(* ===== verification/LoaderProps.v ===== *)
(** * Copying and status writes

    [boot_copy_region] copies a range between areas, [erase_copy] does so after
    erasing, [boot_write_status] writes one status entry; each with what a reset can
    leave behind. *)

From S2P Require Import Prelude Effects FlashMap BootConfig Trailer TrailerProps Area AreaProps Image.
From S2P Require Import LoaderState SwapOffset.

#[local] Set Default Proof Using "Type*".

Section Loader.
  Context {W : Type} `{FlashMapOk W} `{BootConfigOk}.
  Implicit Types (fa src dst : flash_area) (w : W).

(** Nothing changed but the range [[off, off + len)] of [fa]. *)
Definition only_range fa (off len : Z) w w' : Prop :=
  fm_ok w' ∧
  (∀ o n, 0 <= o → o + n <= off ∨ off + len <= o →
     slice (fm_cells w' fa) o n = slice (fm_cells w fa) o n) ∧
  ∀ fa', fm_area fa' → fa' ≠ fa → fm_cells w' fa' = fm_cells w fa'.

Lemma only_range_refl fa off len w : fm_ok w → only_range fa off len w w.
Proof. done. Qed.

Lemma only_range_trans fa off len w1 w2 w3 :
  only_range fa off len w1 w2 → only_range fa off len w2 w3 → only_range fa off len w1 w3.
Proof.
  intros (_ & Hs1 & Ho1) (Hok & Hs2 & Ho2). split_and!; [done| |].
  - intros o n Ho Hd. rewrite Hs2, Hs1; done.
  - intros fa' Ha Hne. rewrite Ho2, Ho1; done.
Qed.

Lemma only_range_sub fa off len off' len' w w' :
  off <= off' → off' + len' <= off + len → only_range fa off' len' w w' → only_range fa off len w w'.
Proof. intros ?? (Hok & Hs & Ho). split_and!; [done| |done]. intros o n Hp Hd. apply Hs; lia. Qed.

Lemma wrote_only_range fa off d w w' :
  fm_ok w → fm_area fa → 0 <= off → off + zlen d <= fa_size fa → wrote fa off d w w' → only_range fa off (zlen d) w w'.
Proof.
  intros Hok Ha Ho Hd (Hok' & Hc & Hfr). split_and!; [done| |done]. intros o n Hp Hor. rewrite Hc.
  apply slice_splice_disj; rewrite ?zlen_written; try done. by rewrite (fm_len w fa).
Qed.

Lemma same_flash_only_range fa off len w w' : fm_area fa → same_flash w w' → only_range fa off len w w'.
Proof. intros Ha [Hok Hs]. split_and!; [done| |]; intros; by rewrite Hs. Qed.

Lemma same_flash_wrote_nil fa off w w' :
  fm_area fa → 0 <= off → same_flash w w' → wrote fa off [] w w'.
Proof.
  intros Ha Ho [Hok Hs]. split_and!; [done| |intros; by apply Hs]. rewrite Hs by done.
  symmetry. by apply (splice_nil (A := cell)).
Qed.

(** ** Copying *)

Lemma BUF_SZ_eq : BUF_SZ = 1024.
Proof. unfold BUF_SZ. by destruct max_align_cases as [-> | [-> | ->]]. Qed.

Lemma align_1024 fa : fm_area fa → 1024 mod flash_area_align fa = 0.
Proof.
  intros Ha. destruct (fm_align fa Ha) as (k & Hk & ->).
  assert (k = 0 ∨ k = 1 ∨ k = 2 ∨ k = 3 ∨ k = 4 ∨ k = 5) as Hc by lia.
  by destruct Hc as [-> | [-> | [-> | [-> | [-> | ->]]]]].
Qed.

(** The first [n] bytes have been copied. *)
Definition copied src dst (off_src off_dst n : Z) w w' : Prop :=
  wrote dst off_dst (slice (vals (fm_cells w src)) off_src n) w w'.

(** The source is not touched by writing the destination. *)
Definition apart (src dst : flash_area) (off_src off_dst sz : Z) : Prop :=
  src ≠ dst ∨ off_src + sz <= off_dst ∨ off_dst + sz <= off_src.

(** Reading outside of a range that was written. *)
Lemma apart_slice src dst off_src off_dst sz o n w w' :
  fm_area src → apart src dst off_src off_dst sz → off_src <= o → o + n <= off_src + sz → 0 <= o →
  only_range dst off_dst sz w w' → slice (vals (fm_cells w' src)) o n = slice (vals (fm_cells w src)) o n.
Proof.
  intros Ha Hap Ho Hn Ho0 (_ & Hs & Hfr). rewrite <- !vals_slice. f_equal.
  destruct (decide (src = dst)) as [->|Hne]; [|by rewrite Hfr].
  destruct Hap as [?|Hd]; [done|]. destruct (decide (0 <= n)) as [Hn0|Hn0].
  - apply Hs; [done|lia].
  - unfold slice. by replace (Z.to_nat n) with 0%nat by lia.
Qed.

Section Copy.
  Context (src dst : flash_area) (off_src off_dst sz : Z) (w0 : W).
  Hypothesis Hok : fm_ok w0.
  Hypothesis Hsrc : fm_area src.
  Hypothesis Hdst : fm_area dst.
  Hypothesis Hap : apart src dst off_src off_dst sz.
  Hypothesis Hos : 0 <= off_src ∧ off_src + sz <= fa_size src.
  Hypothesis Hod : 0 <= off_dst ∧ off_dst + sz <= fa_size dst.
  Hypothesis Hsz : 0 <= sz.
  Hypothesis Hal : off_dst mod flash_area_align dst = 0 ∧ sz mod flash_area_align dst = 0.
  Hypothesis Hwr : writable w0 dst off_dst sz.

#[local] Abbreviation data n := (slice (vals (fm_cells w0 src)) off_src n).

Lemma zlen_copy_data n : 0 <= n <= sz → zlen (data n) = n.
Proof using All. intros. apply zlen_slice; rewrite ?zlen_vals, ?(fm_len w0 src); lia || done. Qed.

Lemma copy_writable n c w :
  0 <= n → 0 <= c → n + c <= sz → copied src dst off_src off_dst n w0 w → writable w dst (off_dst + n) c.
Proof using All.
  intros Hn Hc Hnc (_ & Hw & _). destruct Hwr as [Hr|Hf]; [by left|right]. rewrite Hw.
  rewrite slice_splice_disj; rewrite ?zlen_written, ?zlen_copy_data, ?(fm_len w0 dst); try (done || lia).
  rewrite <- (slice_slice _ off_dst sz) by lia. by apply Forall_slice.
Qed.

Lemma copied_more n c w w' :
  0 <= n → 0 <= c → n + c <= sz → copied src dst off_src off_dst n w0 w →
  wrote dst (off_dst + n) (slice (vals (fm_cells w src)) (off_src + n) c) w w' →
  copied src dst off_src off_dst (n + c) w0 w'.
Proof using All.
  intros Hn Hc Hnc Hcp (Hok' & Hw' & Hfr'). pose proof Hcp as (_ & Hw & Hfr).
  rewrite (apart_slice src dst off_src off_dst sz _ _ w0 w) in Hw'; try done; try lia.
  2: { apply (only_range_sub dst off_dst sz off_dst n); [lia|lia|]. rewrite <- (zlen_copy_data n) by lia.
       apply wrote_only_range; rewrite ?zlen_copy_data; (done || lia). }
  split_and!; [done| |].
  - rewrite Hw', Hw, slice_app_split by lia. unfold written. rewrite fmap_app. apply splice_append; [|lia|].
    + rewrite zlen_fmap, zlen_copy_data; lia.
    + rewrite !zlen_fmap, zlen_copy_data, zlen_slice, (fm_len w0 dst); rewrite ?zlen_vals, ?(fm_len w0 src); lia || done.
  - intros fa' Ha Hn'. rewrite Hfr', Hfr; done.
Qed.

Lemma copy_step_wp n w :
  0 <= n <= sz → n mod flash_area_align dst = 0 → copied src dst off_src off_dst n w0 w →
  wp (copy_region_step src dst off_src off_dst sz n)
    (λ r w', match r with
             | inl n' => (n < n' <= sz ∧ (n' = n + 1024 ∨ n' = sz) ∧ n' mod flash_area_align dst = 0) ∧
                         copied src dst off_src off_dst n' w0 w'
             | inr rc => rc = 0 ∧ copied src dst off_src off_dst sz w0 w'
             end)
    (λ w', ∃ n', 0 <= n' <= sz ∧ copied src dst off_src off_dst n' w0 w') w.
Proof using All.
  intros Hn Hmod Hcp. pose proof (fm_bounds src Hsrc) as (? & ? & ?). pose proof (fm_bounds dst Hdst) as (? & ? & ?).
  destruct Hal as [Hmo Hms]. pose proof (ta_align_bounds dst Hdst). pose proof (align_1024 dst Hdst).
  unfold copy_region_step. case_if Hlt.
  { apply wp_ret. by replace sz with n by lia. }
  rewrite BUF_SZ_eq, (u32_small (sz - n)), !(u32_small (_ + n)) by (unfold is_u32; lia).
  set (c := if 1024 <? sz - n then 1024 else sz - n).
  assert (Hc : 0 < c ∧ n + c <= sz ∧ (c = 1024 ∨ n + c = sz) ∧ c mod flash_area_align dst = 0).
  { unfold c. case_if Hc; split_and!; try lia; try done. rewrite Zminus_mod, Hms, Hmod. done. }
  destruct Hc as (Hc0 & Hcs & Hcc & Hcm). pose proof Hcp as (Hokw & _ & Hfr).
  apply wp_bind. eapply wp_pure; [apply fm_read; (done || lia)|]. cbn [Z.eqb negb].
  assert (Hzl : zlen (slice (vals (fm_cells w src)) (off_src + n) c) = c).
  { apply zlen_slice; rewrite ?zlen_vals, ?(fm_len w src); lia || done. }
  apply wp_bind. eapply wp_mono; [apply fm_write; rewrite ?Hzl; try done; try lia| |].
  - rewrite Z.add_mod, Hmo, Hmod by lia. done.
  - by apply Forall_slice, fm_bytes.
  - apply copy_writable; (done || lia).
  - intros rc w' (-> & Hdone). cbn [Z.eqb negb]. rewrite u32_small by (unfold is_u32; lia). apply wp_ret. split.
    + split_and!; [lia|lia|lia|]. rewrite Z.add_mod, Hmod, Hcm by lia. done.
    + eapply copied_more; [lia..|done|exact Hdone].
  - intros w' [Hdone|[Hok' Hs]].
    + exists (n + c). split; [lia|]. eapply copied_more; [lia..|done|exact Hdone].
    + exists n. split; [lia|]. destruct Hcp as (_ & Hw & Hfr'). split_and!; [done|by rewrite Hs|].
      intros fa' Ha Hn'. rewrite Hs, Hfr'; done.
Qed.

Lemma copied_zero : copied src dst off_src off_dst 0 w0 w0.
Proof using All.
  split_and!; [done| |done]. symmetry. apply (splice_nil (A := cell)). lia.
Qed.

Lemma copy_region_wp :
  wp (boot_copy_region src dst off_src off_dst sz)
    (λ rc w', rc = 0 ∧ copied src dst off_src off_dst sz w0 w')
    (λ w', ∃ n, 0 <= n <= sz ∧ copied src dst off_src off_dst n w0 w') w0.
Proof using All.
  apply (wp_loop (λ n w, (0 <= n <= sz ∧ n mod flash_area_align dst = 0) ∧ copied src dst off_src off_dst n w0 w)
           (λ n, (sz - n + 1023) / 1024)).
  - intros n w ((Hn & Hm) & Hcp). eapply wp_mono; [by apply copy_step_wp| |done].
    intros [n'|rc] w'; [|done]. intros ((Hlt & Hor & Hm') & Hcp'). split; [split; [split; [lia|done]|done]|lia].
  - split; [split; [lia|apply Z.mod_0_l; pose proof (ta_align_bounds dst Hdst); lia]|apply copied_zero].
  - rewrite BUF_SZ_eq. lia.
  - lia.
Qed.
End Copy.

(** C22: [boot_copy_region] copies: into a writable range that does not overlap the source it puts exactly
    the bytes of the source range, in chunks of [BUF_SZ], changes nothing else and
    terminates with success; a reset leaves a prefix of the copy. *)
Theorem copy_region_copies src dst off_src off_dst sz w :
  fm_ok w → fm_area src → fm_area dst → apart src dst off_src off_dst sz → 0 <= sz →
  0 <= off_src ∧ off_src + sz <= fa_size src → 0 <= off_dst ∧ off_dst + sz <= fa_size dst →
  off_dst mod flash_area_align dst = 0 ∧ sz mod flash_area_align dst = 0 → writable w dst off_dst sz →
  let result n w' := vals (fm_cells w' dst) =
      splice (vals (fm_cells w dst)) off_dst (slice (vals (fm_cells w src)) off_src n) ∧
    ∀ fa, fm_area fa → fa ≠ dst → fm_cells w' fa = fm_cells w fa in
  wp (boot_copy_region src dst off_src off_dst sz) (λ rc w', rc = 0 ∧ result sz w')
    (λ w', ∃ n, 0 <= n <= sz ∧ result n w') w.
Proof.
  intros Hok Hs Hd Hap Hsz Hos Hod Hal Hwr result.
  assert (Hres : ∀ n w', copied src dst off_src off_dst n w w' → result n w').
  { intros n w' (_ & Hc & Hfr). split; [|done]. by rewrite Hc, vals_splice, vals_written. }
  eapply wp_mono; [by apply copy_region_wp| |].
  - intros rc w' [-> Hc]. split; [done|by apply Hres].
  - intros w' (n & Hn & Hc). exists n. split; [done|by apply Hres].
Qed.

(** ** Erase and copy *)

(** A range that can be rewritten: whole sectors of a device with erase, or any
    range of a device without. *)
Definition replaceable fa (off sz : Z) : Prop :=
  if device_requires_erase fa
  then Forall (λ n, 1 < n) (fm_sizes fa) ∧ sector_range (fm_sizes fa) off sz
  else fm_rewritable fa.

Lemma sector_range_in fa off sz :
  fm_area fa → Forall (λ n, 1 < n) (fm_sizes fa) → sector_range (fm_sizes fa) off sz →
  ∃ i j, in_sector (fm_sizes fa) i off ∧ in_sector (fm_sizes fa) j (off + sz - 1) ∧
    off = sector_off (fm_sizes fa) i ∧ off + sz = sector_off (fm_sizes fa) (S j) ∧
    0 <= off ∧ 0 < sz ∧ off + sz <= fa_size fa.
Proof.
  intros Ha Hbig (i & j & Hij & Hi & Hj). exists i, (j - 1)%nat.
  replace (S (j - 1)) with j by lia.
  pose proof (so_step fa Hbig i ltac:(lia)). pose proof (so_step fa Hbig (j - 1) ltac:(lia)) as Hs.
  replace (S (j - 1)) with j in Hs by lia. pose proof (so_le fa Ha (S i) j ltac:(lia)).
  pose proof (so_bounds fa Ha i ltac:(lia)). pose proof (so_bounds fa Ha j ltac:(lia)).
  split_and!; try lia.
  - apply in_sector_at; lia.
  - apply in_sector_at; [lia|]. replace (S (j - 1)) with j by lia. lia.
Qed.

Lemma erased_range_only fa off len a b w w' :
  fm_ok w → fm_area fa → off <= a → a <= b → b <= off + len → 0 <= a → b <= fa_size fa →
  erased_range fa w a b w' → only_range fa off len w w'.
Proof.
  intros Hok Ha ????? (Hok' & Hc & Hfr). split_and!; [done| |done]. intros o n Ho Hd. rewrite Hc.
  apply slice_splice_disj; rewrite ?zlen_erased, ?(fm_len w fa); (done || lia).
Qed.

Lemma erase_ready_wp fa off sz w :
  fm_ok w → fm_area fa → replaceable fa off sz → 0 <= off → 0 < sz → off + sz <= fa_size fa →
  wp (boot_erase_region fa off sz false)
    (λ rc w', rc = 0 ∧ only_range fa off sz w w' ∧ writable w' fa off sz) (only_range fa off sz w) w.
Proof.
  intros Hok Ha Hrep Ho Hs Hend. unfold replaceable in Hrep.
  destruct (device_requires_erase fa) eqn:Hre.
  - destruct Hrep as [Hbig Hsr].
    destruct (sector_range_in fa off sz Ha Hbig Hsr) as (i & j & Hi & Hj & Hoi & Hoj & _).
    eapply wp_mono; [by eapply (erase_region_wp w fa off sz false i j)| |].
    + rewrite <- Hoi, <- Hoj. intros rc w' [-> Her]. split; [done|]. split.
      * by eapply (erased_range_only fa off sz off (off + sz)); try lia.
      * right. destruct Her as (_ & Hc & _). rewrite Hc. unfold erase_span.
        rewrite slice_splice_eq; rewrite ?zlen_erased, ?(fm_len w fa); try (done || lia).
        apply all_fresh_erased.
    + intros w' (k & l & Hkl & Hl & _ & Her). pose proof (in_sector_length _ _ _ Hj).
      pose proof (so_le fa Ha i k ltac:(lia)). pose proof (so_le fa Ha k l ltac:(lia)).
      pose proof (so_le fa Ha l (S j) ltac:(lia)). pose proof (so_bounds fa Ha k ltac:(lia)).
      pose proof (so_bounds fa Ha l ltac:(lia)). eapply erased_range_only; [..|exact Her]; (done || lia).
  - destruct (fm_bounds fa Ha) as (? & ? & ?). unfold boot_erase_region.
    rewrite Hre, (proj2 (Z.leb_gt _ _)), u32_small, (proj2 (Z.ltb_ge _ _)) by (unfold is_u32; lia).
    apply wp_ret. split_and!; [done|by apply only_range_refl|by left].
Qed.

(** Erasing the destination and copying: the destination range holds the source
    bytes and nothing else changed; after a reset at most the destination range is
    disturbed. *)
Lemma erase_copy_wp src dst off_src off_dst sz w :
  fm_ok w → fm_area src → fm_area dst → apart src dst off_src off_dst sz →
  0 <= off_src → off_src + sz <= fa_size src → 0 <= off_dst → off_dst + sz <= fa_size dst → 0 < sz →
  off_dst mod flash_area_align dst = 0 → sz mod flash_area_align dst = 0 → replaceable dst off_dst sz →
  wp (erase_copy src dst off_src off_dst sz)
    (λ _ w', only_range dst off_dst sz w w' ∧
       slice (vals (fm_cells w' dst)) off_dst sz = slice (vals (fm_cells w src)) off_src sz)
    (only_range dst off_dst sz w) w.
Proof.
  intros Hok Hs Hd Hap Hos Hes Hod Hed Hsz Hmo Hms Hrep. unfold erase_copy.
  wp_step erase_ready_wp; [done|done|done|lia..|].
  intros rc w1 (-> & Hr1 & Hw1). apply wp_bind, wp_assert; [done|].
  pose proof Hr1 as (Hok1 & _ & Hfr1).
  assert (Hcopy : ∀ n w2, 0 <= n <= sz → copied src dst off_src off_dst n w1 w2 → only_range dst off_dst sz w w2).
  { intros n w2 Hn Hc. eapply only_range_trans; [exact Hr1|].
    assert (Hz : zlen (slice (vals (fm_cells w1 src)) off_src n) = n).
    { apply zlen_slice; rewrite ?zlen_vals, ?(fm_len w1 src); (done || lia). }
    apply (only_range_sub dst off_dst sz off_dst n); [lia|lia|]. rewrite <- Hz.
    apply wrote_only_range; rewrite ?Hz; (done || lia). }
  wp_step copy_region_wp; try done; try lia.
  - intros rc w2 [-> Hc]. apply wp_assert; [done|]. split; [apply (Hcopy sz); [lia|done]|].
    destruct Hc as (_ & Hc & _). rewrite Hc, vals_splice, vals_written.
    rewrite (apart_slice src dst off_src off_dst sz _ _ w w1) by (done || lia). apply slice_splice_eq; [done|..];
      rewrite zlen_slice; rewrite ?zlen_vals, ?(fm_len w src), ?(fm_len w1 dst); (done || lia).
  - intros w2 (n & Hn & Hc). by apply (Hcopy n).
Qed.

(** ** Status entries *)

(** Entry [e] of the status array; two entries per sector. *)
Definition entry_off fa (e : Z) : Z :=
  fa_size fa - boot_trailer_sz (flash_area_align fa) + e * flash_area_align fa.
Definition entry_word fa (st : Z) : list Z :=
  st :: replicate (Z.to_nat (flash_area_align fa - 1)) (flash_area_erased_val fa).

Lemma zlen_entry_word fa st : fm_area fa → zlen (entry_word fa st) = flash_area_align fa.
Proof. intros Ha. pose proof (ta_align_bounds fa Ha). unfold entry_word. rewrite zlen_cons, zlen_replicate. lia. Qed.

(** *** Swap using offset and swap using move

    Both keep their status in the primary slot, with two or three entries per sector. *)

Section Entries.
  Hypothesis Hstatus : uses SWAP_USING_OFFSET = true ∨ uses SWAP_USING_MOVE = true.

Definition status_entries : Z := BOOT_STATUS_STATE_COUNT * MCUBOOT_MAX_IMG_SECTORS.

Lemma status_not_scratch : uses SWAP_USING_SCRATCH = false.
Proof using Hstatus. revert Hstatus. unfold uses. by destruct MCUBOOT_MODE; intros []. Qed.

Lemma state_count_range : 2 <= BOOT_STATUS_STATE_COUNT <= 3.
Proof using Hstatus.
  revert Hstatus. unfold BOOT_STATUS_STATE_COUNT, uses. by destruct MCUBOOT_MODE; intros [].
Qed.

Lemma first_entry : 0 <= 0 < status_entries.
Proof using Type* Hstatus. unfold status_entries. pose proof state_count_range. pose proof bc_sectors. nia. Qed.

Lemma swap_status_sz a : 0 <= a <= 32 → boot_status_sz a = status_entries * a.
Proof using Type* Hstatus.
  intros Ha. destruct (status_sz_eq a Ha) as [-> _]. unfold boot_status_entry_sz.
  assert (uses SINGLE_APPLICATION_SLOT || uses FIRMWARE_LOADER || uses SINGLE_APPLICATION_SLOT_RAM_LOAD = false) as ->.
  { revert Hstatus. unfold uses. by destruct MCUBOOT_MODE; intros []. }
  pose proof state_count_range. rewrite u32_small by (unfold is_u32; nia). unfold status_entries. lia.
Qed.

Lemma swap_status_off_eq fa w :
  trailer_area fa → boot_status_off fa w = (Ret (entry_off fa 0), w).
Proof using Type* Hstatus.
  intros Hta. pose proof (ta_size_u32 fa Hta). pose proof (ta_fit _ Hta).
  pose proof (ta_align_bounds fa (ta_area _ Hta)).
  unfold boot_status_off. rewrite status_not_scratch, (proj2 (Z.leb_le _ _)) by done. cbn.
  unfold mbind, M_bind, mret, M_ret, entry_off. rewrite u32_small; [do 2 f_equal; lia|].
  pose proof (u32_range (boot_status_sz (flash_area_align fa) + boot_trailer_info_sz)) as Hr.
  unfold boot_trailer_sz in *. unfold is_u32 in *. lia.
Qed.

(** The entries lie below the swap size field. *)
Lemma swap_entry_bounds fa e :
  trailer_area fa → 0 <= e < status_entries →
  0 <= entry_off fa e ∧ entry_off fa e + flash_area_align fa <= fld fa swap_size_fld ∧
  entry_off fa e mod flash_area_align fa = 0.
Proof using Type* Hstatus.
  intros Hta He. pose proof (ta_fit _ Hta) as Hfit. pose proof (ta_align_bounds fa (ta_area _ Hta)).
  pose proof (fld_bounds fa swap_size_fld Hta) as Hf. pose proof swap_size_fld_ge. specialize (Hf ltac:(lia)).
  assert (Heq : entry_off fa e = fld fa swap_size_fld - (status_entries - e) * flash_area_align fa).
  { unfold entry_off. rewrite trailer_sz_eq, trailer_info_sz_eq, swap_status_sz by lia.
    unfold fld, swap_size_fld. lia. }
  split_and!.
  - unfold entry_off. nia.
  - rewrite Heq. nia.
  - rewrite Heq. destruct Hf as (_ & _ & Hf). apply (unit_aligned fa _ Hta) in Hf.
    rewrite Zminus_mod, Hf, Z.mod_mul by lia. done.
Qed.

Lemma status_data fa st :
  trailer_area fa → is_u8 st →
  slice (<[0%nat := u8 st]> (replicate (Z.to_nat BOOT_MAX_ALIGN) (flash_area_erased_val fa))) 0
    (flash_area_align fa) = entry_word fa st.
Proof using Type*.
  intros Hta Hst. pose proof (ta_align _ Hta). pose proof (ta_align_bounds fa (ta_area _ Hta)).
  rewrite u8_small by done.
  replace (Z.to_nat BOOT_MAX_ALIGN) with (S (Z.to_nat (BOOT_MAX_ALIGN - 1))) by lia.
  unfold slice, entry_word. rewrite drop_0. cbn [replicate insert list_insert].
  replace (Z.to_nat (flash_area_align fa)) with (S (Z.to_nat (flash_area_align fa - 1))) by lia.
  rewrite firstn_cons. f_equal. rewrite take_replicate. f_equal. lia.
Qed.

(** Writing the entry [e] that a status selects. *)
Lemma write_entry_wp state bs e w :
  let fa := BOOT_IMG_AREA state BOOT_SLOT_PRIMARY in
  fm_ok w → trailer_area fa → boot_status_internal_off bs (write_sz state) = e * flash_area_align fa →
  0 <= e < status_entries → is_u8 (bs_state bs) → writable w fa (entry_off fa e) (flash_area_align fa) →
  wp (boot_write_status state bs)
    (λ rc w', rc = 0 ∧ wrote fa (entry_off fa e) (entry_word fa (bs_state bs)) w w')
    (λ w', wrote fa (entry_off fa e) (entry_word fa (bs_state bs)) w w' ∨ same_flash w w') w.
Proof using Type* Hstatus.
  intros fa Hok Hta Hint He Hs Hwr. pose proof (ta_align_bounds fa (ta_area _ Hta)).
  destruct (swap_entry_bounds fa e Hta He) as (? & ? & Hm). pose proof (ta_size_u32 fa Hta). pose proof swap_size_fld_ge.
  destruct (fld_bounds fa swap_size_fld Hta ltac:(lia)) as (_ & ? & _).
  unfold boot_write_status. rewrite status_not_scratch. cbn [andb]. fold fa.
  apply wp_bind. eapply wp_pure; [by apply swap_status_off_eq|]. rewrite Hint.
  assert (Hoff : entry_off fa 0 ⊕ e * flash_area_align fa = entry_off fa e).
  { rewrite u32_small; unfold entry_off in *; [lia|]. unfold is_u32. lia. }
  rewrite Hoff, status_data by done.
  wp_step fm_write; rewrite ?zlen_entry_word; try done; try lia; try apply Hta.
  - apply Z.mod_same. lia.
  - constructor; [done|]. apply Forall_replicate_is_u8, fm_erased_val, Hta.
  - intros rc w' (-> & Hdone). by apply wp_ret.
Qed.

End Entries.

(** *** Swap using offset *)

Hypothesis Hmode : uses SWAP_USING_OFFSET = true.

Lemma not_scratch : uses SWAP_USING_SCRATCH = false.
Proof using Hmode. apply status_not_scratch. by left. Qed.

Lemma not_move : uses SWAP_USING_MOVE = false.
Proof using Hmode. revert Hmode. unfold uses. by destruct MCUBOOT_MODE. Qed.

Lemma state_count_2 : BOOT_STATUS_STATE_COUNT = 2.
Proof using Hmode.
  revert Hmode. unfold BOOT_STATUS_STATE_COUNT, uses. by destruct MCUBOOT_MODE.
Qed.

Lemma status_off_eq fa w :
  trailer_area fa → boot_status_off fa w = (Ret (entry_off fa 0), w).
Proof using Type* Hmode. apply swap_status_off_eq. by left. Qed.

Lemma entry_bounds fa e :
  trailer_area fa → 0 <= e < 2 * MCUBOOT_MAX_IMG_SECTORS →
  0 <= entry_off fa e ∧ entry_off fa e + flash_area_align fa <= fld fa swap_size_fld ∧
  entry_off fa e mod flash_area_align fa = 0.
Proof using Type* Hmode.
  intros Hta He. apply swap_entry_bounds; [by left|done|]. unfold status_entries. by rewrite state_count_2.
Qed.

Lemma write_status_wp state bs w :
  let fa := BOOT_IMG_AREA state BOOT_SLOT_PRIMARY in
  let e := 2 * (bs_idx bs - 1) + (bs_state bs - 1) in
  fm_ok w → trailer_area fa → write_sz state = flash_area_align fa →
  1 <= bs_idx bs <= MCUBOOT_MAX_IMG_SECTORS → 1 <= bs_state bs <= 2 →
  writable w fa (entry_off fa e) (flash_area_align fa) →
  wp (boot_write_status state bs)
    (λ rc w', rc = 0 ∧ wrote fa (entry_off fa e) (entry_word fa (bs_state bs)) w w')
    (λ w', wrote fa (entry_off fa e) (entry_word fa (bs_state bs)) w w' ∨ same_flash w w') w.
Proof using Type* Hmode.
  intros fa e Hok Hta Hws Hi Hs Hwr. pose proof (ta_align_bounds fa (ta_area _ Hta)). pose proof bc_sectors.
  apply write_entry_wp; try done; [by left| |unfold status_entries; rewrite state_count_2; unfold e; lia|unfold is_u8; lia].
  unfold boot_status_internal_off, BOOT_STATUS_IDX_0, BOOT_STATUS_STATE_0. rewrite not_move, state_count_2, Hws. fold fa.
  rewrite (u32_small (bs_idx bs - 1)) by (unfold is_u32; lia).
  rewrite (u32_small ((bs_idx bs - 1) * _)) by (unfold is_u32; nia).
  rewrite u32_small by (unfold is_u32; nia). unfold e. lia.
Qed.
End Loader.
