(* ===== verification/SwapOffsetProps.v ===== *)
(** * Swap using offset: correctness and recovery

    The progress of a swap, upgrade or revert, as an invariant that every flash
    operation and every reset preserves; the status bytes determine how far the swap
    got; hence a swap interrupted any number of times ends with the two images
    exchanged. *)

From S2P Require Import Prelude Effects FlashMap BootConfig Trailer TrailerProps Area AreaProps Image.
From S2P Require Import LoaderState SwapMisc SwapOffset LoaderProps.

#[local] Set Default Proof Using "Type*".

#[local] Abbreviation PRI state := (BOOT_IMG_AREA state BOOT_SLOT_PRIMARY).
#[local] Abbreviation SEC state := (BOOT_IMG_AREA state BOOT_SLOT_SECONDARY).

Section Swap.
  Context {W : Type} `{FlashMapOk W} `{BootConfigOk}.
  Implicit Types (fa : flash_area) (w : W).

(** ** Setting *)

(** Two slots prepared for exchanging the sectors [0 .. last] of size [sz]: the
    sectors lie below the status entries of the primary slot, the secondary slot has
    one more sector. *)
Record swap_setup (state : boot_loader_state) (sz last : Z) : Prop := {
  su_mode : uses SWAP_USING_OFFSET = true;
  su_pri : trailer_area (PRI state);
  su_sec : fm_area (SEC state);
  su_ne : PRI state ≠ SEC state;
  su_write_sz : write_sz state = flash_area_align (PRI state);
  su_sz : 0 < sz;
  su_align : sz mod flash_area_align (PRI state) = 0 ∧ sz mod flash_area_align (SEC state) = 0;
  su_last : 0 <= last < MCUBOOT_MAX_IMG_SECTORS;
  su_pri_off i w : 0 <= i <= last + 1 →
    boot_img_sector_off state BOOT_SLOT_PRIMARY i w = (Ret (i * sz), w);
  su_sec_off i w : 0 <= i <= last + 1 →
    boot_img_sector_off state BOOT_SLOT_SECONDARY i w = (Ret (i * sz), w);
  su_pri_fit : (last + 1) * sz <= entry_off (PRI state) 0;
  su_sec_fit : (last + 2) * sz <= fa_size (SEC state);
  su_pri_rep i : 0 <= i <= last → replaceable (PRI state) (i * sz) sz;
  su_sec_rep i : 0 <= i <= last + 1 → replaceable (SEC state) (i * sz) sz;
}.

(** The contents of sector [i]. *)
Definition sect (sz : Z) w fa (i : Z) : list Z := slice (vals (fm_cells w fa)) (i * sz) sz.

(** Which sectors step [i] works on: the primary sector, the secondary sector it is
    copied to, and the secondary sector the new contents come from.  A revert goes
    from the last sector down. *)
Definition step_pri (rev : bool) (last i : Z) : Z := if rev then last - i else i.
Definition step_dst (rev : bool) (last i : Z) : Z := if rev then last - i + 1 else i.
Definition step_src (rev : bool) (last i : Z) : Z := if rev then last - i else i + 1.

(** The first [m] status entries are written, the others are erased. *)
Definition status_at fa (m : Z) w : Prop :=
  ∀ e, 0 <= e < 2 * MCUBOOT_MAX_IMG_SECTORS →
    if e <? m then
      ∃ st, (st = 1 ∨ st = 2) ∧ slice (vals (fm_cells w fa)) (entry_off fa e) 1 = [st]
    else
      slice (vals (fm_cells w fa)) (entry_off fa e) 1 = [flash_area_erased_val fa] ∧
      writable w fa (entry_off fa e) (flash_area_align fa).

Section Progress.
  Context (state : boot_loader_state) (sz last : Z) (rev : bool) (skip_pri skip_sec : Z → bool).
  Context (P0 S0 : Z → list Z) (w0 : W).

#[local] Abbreviation pri := (PRI state).
#[local] Abbreviation sec := (SEC state).
#[local] Abbreviation sp := (step_pri rev last).
#[local] Abbreviation sd := (step_dst rev last).
#[local] Abbreviation ss := (step_src rev last).

(** [P0] and [S0] are the sectors before the swap.  What step [i] leaves in the two
    sectors it writes: *)
Definition new_pri (i : Z) : list Z :=
  if skip_sec (sp i) then P0 (sp i) else S0 (ss i).
Definition new_sec (i : Z) : list Z :=
  if skip_pri (sp i) then S0 (sd i) else P0 (sp i).

(** The images when steps below [k] are complete and, with [s = 1], the first half
    of step [k].  The sector being written is not specified. *)
Record images (k s : Z) w : Prop := {
  im_pri_done i : 0 <= i <= last → i < k → sect sz w pri (sp i) = new_pri i;
  im_pri_todo i : 0 <= i <= last → k < i ∨ i = k ∧ (s = 0 ∨ skip_sec (sp i) = true) →
    sect sz w pri (sp i) = P0 (sp i);
  im_sec_done i : 0 <= i <= last → i < k ∨ i = k ∧ (s = 1 ∨ skip_pri (sp i) = true) →
    sect sz w sec (sd i) = new_sec i;
  im_sec_todo x : 0 <= x <= last + 1 → (∀ i, 0 <= i <= last → i <= k → x ≠ sd i) →
    sect sz w sec x = S0 x;
}.

(** What the swap does not write, compared with [w0]. *)
Record untouched w : Prop := {
  un_trailer : slice (fm_cells w pri) (fld pri swap_size_fld) (fa_size pri - fld pri swap_size_fld) =
    slice (fm_cells w0 pri) (fld pri swap_size_fld) (fa_size pri - fld pri swap_size_fld);
  un_sec o n : (last + 2) * sz <= o → slice (fm_cells w sec) o n = slice (fm_cells w0 sec) o n;
  un_other fa : fm_area fa → fa ≠ pri → fa ≠ sec → fm_cells w fa = fm_cells w0 fa;
}.

Definition progress (k s : Z) w : Prop :=
  fm_ok w ∧ images k s w ∧ status_at pri (2 * k + s) w ∧ untouched w.

Context (Hsu : swap_setup state sz last).

(** ** Frame lemmas *)

Lemma only_range_sect fa off len w w' i :
  0 <= i → (i + 1) * sz <= off ∨ off + len <= i * sz → only_range fa off len w w' →
  sect sz w' fa i = sect sz w fa i.
Proof using All.
  intros Hi Hd (_ & Hs & _). pose proof (su_sz _ _ _ Hsu). unfold sect. rewrite <- !vals_slice.
  rewrite Hs; [done|nia|]. lia.
Qed.

Lemma only_range_sect_other fa fa' off len w w' i :
  fm_area fa' → fa' ≠ fa → only_range fa off len w w' → sect sz w' fa' i = sect sz w fa' i.
Proof using All. intros Ha Hne (_ & _ & Ho). unfold sect. by rewrite Ho. Qed.

(** Changing sector [i] keeps the other sectors of that area. *)
Lemma only_sect_neq fa w w' i j :
  0 <= i → 0 <= j → i ≠ j → only_range fa (i * sz) sz w w' → sect sz w' fa j = sect sz w fa j.
Proof using All.
  intros Hi Hj Hne Hr. pose proof (su_sz _ _ _ Hsu). eapply only_range_sect; [done| |exact Hr]. nia.
Qed.

Lemma fld_entry e :
  0 <= e < 2 * MCUBOOT_MAX_IMG_SECTORS →
  (last + 1) * sz <= entry_off pri e ∧ entry_off pri e + flash_area_align pri <= fld pri swap_size_fld.
Proof using All.
  intros He. pose proof (su_pri_fit _ _ _ Hsu). pose proof (ta_align_bounds pri (ta_area _ (su_pri _ _ _ Hsu))).
  destruct (entry_bounds (su_mode _ _ _ Hsu) pri e (su_pri _ _ _ Hsu) He) as (_ & ? & _).
  split; [|done]. unfold entry_off in *. nia.
Qed.

Lemma status_frame fa m w w' :
  (∀ o n, (last + 1) * sz <= o → slice (fm_cells w' pri) o n = slice (fm_cells w pri) o n) →
  fa = pri → status_at fa m w → status_at fa m w'.
Proof using All.
  intros Hs -> Hst e He. specialize (Hst e He). pose proof (fld_entry e He) as [? _].
  rewrite <- !vals_slice in *. unfold writable in *. rewrite !Hs by lia. done.
Qed.

(** Rewriting a sector of the primary keeps its status and trailer. *)
Lemma pri_sector_frame m w w' i :
  0 <= i <= last → only_range pri (i * sz) sz w w' → status_at pri m w → untouched w →
  status_at pri m w' ∧ untouched w'.
Proof using All.
  intros Hi (Hok & Hs & Ho) Hst Hun. pose proof (su_sz _ _ _ Hsu). pose proof (su_last _ _ _ Hsu).
  assert (Hhigh : ∀ o n, (last + 1) * sz <= o → slice (fm_cells w' pri) o n = slice (fm_cells w pri) o n).
  { intros o n Hlt. apply Hs; nia. }
  pose proof (fld_entry 0 ltac:(lia)). pose proof (ta_align_bounds pri (ta_area _ (su_pri _ _ _ Hsu))).
  split; [by eapply status_frame|]. destruct Hun as [Ht Hse Hot]. split.
  - rewrite Hhigh by lia. done.
  - intros o n Hlt. rewrite Ho; [by apply Hse|apply Hsu|]. symmetry. apply Hsu.
  - intros fa Ha Hn1 Hn2. rewrite Ho by done. by apply Hot.
Qed.

Lemma sec_sector_frame m w w' i :
  0 <= i <= last + 1 → only_range sec (i * sz) sz w w' → status_at pri m w → untouched w →
  status_at pri m w' ∧ untouched w'.
Proof using All.
  intros Hi (Hok & Hs & Ho) Hst Hun. pose proof (su_sz _ _ _ Hsu).
  assert (Hp : fm_cells w' pri = fm_cells w pri) by (apply Ho; [apply Hsu|apply Hsu]).
  split.
  - eapply status_frame; [|done|exact Hst]. intros. by rewrite Hp.
  - destruct Hun as [Ht Hse Hot]. split.
    + by rewrite Hp.
    + intros o n Hlt. rewrite Hs by nia. by apply Hse.
    + intros fa Ha Hn1 Hn2. rewrite Ho by done. by apply Hot.
Qed.

(** ** One step *)

Lemma pri_neq_sec : pri ≠ sec ∧ sec ≠ pri ∧ fm_area pri ∧ fm_area sec.
Proof using All. destruct Hsu as [? [? _ _ _ _] ? ?]. auto. Qed.

(** A reset while the secondary sector is rewritten. *)
Lemma images_disturb_sec k w w' :
  0 <= k <= last → skip_pri (sp k) = false → only_range sec (sd k * sz) sz w w' →
  images k 0 w → images k 0 w'.
Proof using All.
  intros Hk Hskip Hr [Hp1 Hp2 Hs1 Hs2]. destruct pri_neq_sec as (Hn1 & Hn2 & Hap & Has).
  assert (Hother : ∀ x, 0 <= x → x ≠ sd k → sect sz w' sec x = sect sz w sec x).
  { intros x Hx Hne. eapply only_sect_neq; [| | |exact Hr]; [|done|done]. unfold step_dst. destruct rev; lia. }
  split.
  - intros i Hi Hlt. rewrite (only_range_sect_other sec pri _ _ w w') by done. by apply Hp1.
  - intros i Hi Hlt. rewrite (only_range_sect_other sec pri _ _ w w') by done. by apply Hp2.
  - intros i Hi Hor. destruct (decide (i = k)) as [->|Hne].
    { destruct Hor as [?|(_ & [?|?])]; [lia|lia|congruence]. }
    rewrite Hother; [by apply Hs1|..]; unfold step_dst; destruct rev; lia.
  - intros x Hx Hne. rewrite Hother; [by apply Hs2|lia|]. apply Hne; lia.
Qed.

(** A reset while the primary sector is rewritten. *)
Lemma images_disturb_pri k w w' :
  0 <= k <= last → skip_sec (sp k) = false → only_range pri (sp k * sz) sz w w' →
  images k 1 w → images k 1 w'.
Proof using All.
  intros Hk Hskip Hr [Hp1 Hp2 Hs1 Hs2]. destruct pri_neq_sec as (Hn1 & Hn2 & Hap & Has).
  assert (Hother : ∀ i, 0 <= i <= last → i ≠ k → sect sz w' pri (sp i) = sect sz w pri (sp i)).
  { intros i Hi Hne. eapply only_sect_neq; [| | |exact Hr]; unfold step_pri; destruct rev; lia. }
  split.
  - intros i Hi Hlt. rewrite Hother by lia. by apply Hp1.
  - intros i Hi Hor. destruct (decide (i = k)) as [->|Hne].
    { destruct Hor as [?|(_ & [?|?])]; [lia|lia|congruence]. }
    rewrite Hother by lia. by apply Hp2.
  - intros i Hi Hor. rewrite (only_range_sect_other pri sec _ _ w w') by done. by apply Hs1.
  - intros x Hx Hne. rewrite (only_range_sect_other pri sec _ _ w w') by done. by apply Hs2.
Qed.

Lemma images_half k w : images k 0 w → sect sz w sec (sd k) = new_sec k → images k 1 w.
Proof using All.
  intros [Hp1 Hp2 Hs1 Hs2] Hnew. split; try done.
  - intros i Hi Hor. apply Hp2; [done|]. destruct Hor as [?|(-> & [?|?])]; [by left|lia|]. right. auto.
  - intros i Hi Hor. destruct (decide (i = k)) as [->|Hne]; [done|]. apply Hs1; [done|left; lia].
Qed.

Lemma images_next k w : images k 1 w → sect sz w pri (sp k) = new_pri k → images (k + 1) 0 w.
Proof using All.
  intros [Hp1 Hp2 Hs1 Hs2] Hnew. split.
  - intros i Hi Hlt. destruct (decide (i = k)) as [->|Hne]; [done|]. apply Hp1; lia.
  - intros i Hi Hor. apply Hp2; [done|left; lia].
  - intros i Hi Hor. destruct (decide (i <= k)) as [Hle|Hgt]; [apply Hs1; [done|lia]|].
    destruct Hor as [?|(-> & [?|Hsk])]; [lia|lia|]. unfold new_sec. rewrite Hsk.
    apply Hs2; [unfold step_dst; destruct rev; lia|]. intros j Hj Hjk. unfold step_dst. destruct rev; lia.
  - intros x Hx Hne. apply Hs2; [done|]. intros i Hi Hle. apply Hne; lia.
Qed.

(** ** Status writes *)

Lemma slice_entry_one (l : list Z) fa st off :
  fm_area fa → 0 <= off → off + flash_area_align fa <= zlen l →
  slice (splice l off (entry_word fa st)) off 1 = [st].
Proof using All.
  intros Ha Ho Hl. pose proof (ta_align_bounds fa Ha).
  rewrite slice_splice_inside; rewrite ?zlen_entry_word; try (done || lia). by rewrite Z.sub_diag.
Qed.

Lemma status_next m st w w' :
  fm_ok w → 0 <= m < 2 * MCUBOOT_MAX_IMG_SECTORS → st = 1 ∨ st = 2 →
  wrote pri (entry_off pri m) (entry_word pri st) w w' → status_at pri m w → status_at pri (m + 1) w'.
Proof using All.
  intros Hok Hm Hst (Hok' & Hc & _) Hs e He. pose proof (su_pri _ _ _ Hsu) as Hta.
  pose proof (ta_align_bounds pri (ta_area _ Hta)). specialize (Hs e He).
  pose proof (su_mode _ _ _ Hsu) as Hmode.
  destruct (entry_bounds Hmode pri m Hta Hm) as (? & ? & _). destruct (entry_bounds Hmode pri e Hta He) as (? & ? & _).
  pose proof swap_size_fld_ge. pose proof (fld_bounds pri swap_size_fld Hta ltac:(lia)) as (_ & ? & _).
  pose proof (fm_len w pri Hok (ta_area _ Hta)) as Hlen.
  rewrite Hc, vals_splice, vals_written. destruct (decide (e = m)) as [->|Hne].
  - rewrite (proj2 (Z.ltb_lt _ _)) by lia. exists st. split; [done|].
    apply slice_entry_one; [apply Hta|lia|rewrite zlen_vals; lia].
  - assert (Hdis : entry_off pri e + flash_area_align pri <= entry_off pri m ∨
                   entry_off pri m + flash_area_align pri <= entry_off pri e) by (unfold entry_off; nia).
    replace (e <? m + 1) with (e <? m) by lia.
    rewrite slice_splice_disj; rewrite ?zlen_entry_word, ?zlen_vals; try apply Hta; try lia.
    unfold writable in *. rewrite Hc.
    rewrite slice_splice_disj; rewrite ?zlen_written, ?zlen_entry_word; try apply Hta; try lia. done.
Qed.

(** A write below the trailer fields and above the swapped sectors. *)
Lemma status_write_frame m st k s w w' :
  fm_ok w → 0 <= m < 2 * MCUBOOT_MAX_IMG_SECTORS →
  wrote pri (entry_off pri m) (entry_word pri st) w w' →
  images k s w → untouched w → images k s w' ∧ untouched w'.
Proof using All.
  intros Hok Hm Hw Him Hun. pose proof (su_pri _ _ _ Hsu) as Hta. pose proof (ta_area _ Hta) as Ha.
  pose proof (ta_align_bounds pri Ha). pose proof (fld_entry m Hm). pose proof (su_sz _ _ _ Hsu).
  destruct pri_neq_sec as (Hn1 & Hn2 & _ & Has). pose proof swap_size_fld_ge.
  pose proof (fld_bounds pri swap_size_fld Hta ltac:(lia)) as (_ & ? & _). pose proof (su_last _ _ _ Hsu).
  assert (Hr : only_range pri (entry_off pri m) (flash_area_align pri) w w').
  { rewrite <- (zlen_entry_word pri st Ha). apply wrote_only_range; rewrite ?zlen_entry_word; (done || nia). }
  assert (Hp : ∀ i, 0 <= i <= last → sect sz w' pri (sp i) = sect sz w pri (sp i)).
  { intros i Hi. eapply only_range_sect; [| |exact Hr]; unfold step_pri; destruct rev; nia. }
  assert (Hs : ∀ x, sect sz w' sec x = sect sz w sec x) by (intros; by eapply only_range_sect_other).
  destruct Him as [Hp1 Hp2 Hs1 Hs2], Hun as [Ht Hse Hot], Hr as (_ & Hsl & Ho). split; split.
  - intros i Hi Hlt. rewrite Hp by done. by apply Hp1.
  - intros i Hi Hlt. rewrite Hp by done. by apply Hp2.
  - intros i Hi Hlt. rewrite Hs. by apply Hs1.
  - intros x Hx Hne. rewrite Hs. by apply Hs2.
  - rewrite Hsl by lia. done.
  - intros o n Hlt. rewrite Ho by done. by apply Hse.
  - intros fa Hfa Hn Hn'. rewrite Ho by done. by apply Hot.
Qed.

Lemma same_flash_progress k s w w' : same_flash w w' → progress k s w → progress k s w'.
Proof using All.
  intros [Hok' Hs] (Hok & [Hp1 Hp2 Hs1 Hs2] & Hst & [Ht Hse Hot]). destruct pri_neq_sec as (_ & _ & Hap & Has).
  split_and!; [done| | |]; [split|intros e He; specialize (Hst e He)|split]; unfold sect, writable in *;
    rewrite ?Hs by done; try done; intros; rewrite Hs by done; auto.
Qed.

(** The status entry that makes the work done so far count. *)
Lemma commit_wp k s k' s' (bs bs' : boot_status) w :
  bs_idx bs = k + 1 → bs_state bs = s + 1 → 0 <= k <= last → 0 <= s <= 1 →
  progress k s w → images k' s' w → 2 * k' + s' = 2 * k + s + 1 →
  wp (rc ← boot_write_status state bs; status_assert (rc =? 0);; mret bs')
    (λ b w', b = bs' ∧ progress k' s' w') (λ w', progress k' s' w' ∨ progress k s w') w.
Proof using All.
  intros Hbi Hbs Hk Hs Hpr Him' Hnext. pose proof Hpr as (Hok & Him & Hst & Hun).
  pose proof (su_last _ _ _ Hsu). set (m := 2 * k + s) in *.
  assert (Hm : 0 <= m < 2 * MCUBOOT_MAX_IMG_SECTORS) by (unfold m; lia).
  assert (He : 2 * (bs_idx bs - 1) + (bs_state bs - 1) = m) by (unfold m; lia).
  assert (Hdone : ∀ w', wrote pri (entry_off pri m) (entry_word pri (bs_state bs)) w w' → progress k' s' w').
  { intros w' Hw. destruct (status_write_frame m (bs_state bs) k' s' w w' Hok Hm Hw Him' Hun) as [Hi Hu].
    split_and!; [apply Hw|done| |done]. rewrite Hnext. eapply status_next; [done|done| |exact Hw|done]. lia. }
  apply wp_bind. eapply wp_mono; [apply (write_status_wp (su_mode _ _ _ Hsu) state bs w)| |];
    try apply Hsu; try done; try lia; rewrite ?He.
  - specialize (Hst m Hm). rewrite (proj2 (Z.ltb_ge _ _)) in Hst by lia. apply Hst.
  - intros rc w' [-> Hw]. unfold status_assert. cbn [Z.eqb].
    destruct MCUBOOT_VALIDATE_PRIMARY_SLOT; apply wp_bind, wp_ret, wp_ret; auto.
  - intros w' [Hw|Hsame]; [left; by apply Hdone|right; by eapply same_flash_progress].
Qed.

Lemma sector_bounds i : 0 <= i <= last → 0 <= i * sz ∧ i * sz + sz <= fa_size pri.
Proof using All.
  intros Hi. pose proof (su_sz _ _ _ Hsu). pose proof (su_last _ _ _ Hsu). pose proof (fld_entry 0 ltac:(lia)).
  pose proof (su_pri _ _ _ Hsu) as Hta. pose proof swap_size_fld_ge.
  pose proof (fld_bounds pri swap_size_fld Hta ltac:(lia)) as (_ & ? & _).
  pose proof (ta_align_bounds pri (ta_area _ Hta)). nia.
Qed.

Lemma sector_bounds_sec i : 0 <= i <= last + 1 → 0 <= i * sz ∧ i * sz + sz <= fa_size sec.
Proof using All. intros Hi. pose proof (su_sz _ _ _ Hsu). pose proof (su_sec_fit _ _ _ Hsu). nia. Qed.

Lemma mul_aligned i a : 0 < a → sz mod a = 0 → (i * sz) mod a = 0.
Proof using All. intros Ha Hm. rewrite Z.mul_mod, Hm, Z.mul_0_r, Z.mod_0_l by lia. done. Qed.

Lemma copy_out_wp k w :
  0 <= k <= last → progress k 0 w →
  wp (if skip_pri (sp k) then mret () else erase_copy pri sec (sp k * sz) (sd k * sz) sz)
    (λ _ w', progress k 0 w' ∧ sect sz w' sec (sd k) = new_sec k) (progress k 0) w.
Proof using All.
  intros Hk Hpr. pose proof Hpr as (Hok & Him & Hst & Hun). destruct pri_neq_sec as (Hn1 & Hn2 & Hap & Has).
  unfold new_sec. destruct (skip_pri (sp k)) eqn:Hskip.
  { apply wp_ret. split; [done|]. rewrite (im_sec_done _ _ _ Him k); [unfold new_sec; by rewrite Hskip|done|auto]. }
  assert (Hsp : 0 <= sp k <= last) by (unfold step_pri; destruct rev; lia).
  assert (Hsd : 0 <= sd k <= last + 1) by (unfold step_dst; destruct rev; lia).
  assert (Hr : ∀ w', only_range sec (sd k * sz) sz w w' → progress k 0 w').
  { intros w' Hr. destruct (sec_sector_frame _ w w' (sd k) Hsd Hr Hst Hun).
    split_and!; [apply Hr|by eapply images_disturb_sec|done|done]. }
  pose proof (sector_bounds _ Hsp). pose proof (sector_bounds_sec _ Hsd).
  eapply wp_mono; [apply (erase_copy_wp pri sec (sp k * sz) (sd k * sz) sz w)| |exact Hr];
    try done; try lia; try apply Hsu; try (by left); try done.
  - apply mul_aligned; [pose proof (ta_align_bounds sec Has); lia|apply Hsu].
  - intros [] w' [Hr' Hcp]. split; [by apply Hr|]. unfold sect at 1. rewrite Hcp. apply Him; [done|auto].
Qed.

Lemma copy_in_wp k w :
  0 <= k <= last → progress k 1 w →
  wp (if skip_sec (sp k) then mret () else erase_copy sec pri (ss k * sz) (sp k * sz) sz)
    (λ _ w', progress k 1 w' ∧ sect sz w' pri (sp k) = new_pri k) (progress k 1) w.
Proof using All.
  intros Hk Hpr. pose proof Hpr as (Hok & Him & Hst & Hun). destruct pri_neq_sec as (Hn1 & Hn2 & Hap & Has).
  unfold new_pri. destruct (skip_sec (sp k)) eqn:Hskip.
  { apply wp_ret. split; [done|]. apply Him; [done|auto]. }
  assert (Hsp : 0 <= sp k <= last) by (unfold step_pri; destruct rev; lia).
  assert (Hss : 0 <= ss k <= last + 1) by (unfold step_src; destruct rev; lia).
  assert (Hr : ∀ w', only_range pri (sp k * sz) sz w w' → progress k 1 w').
  { intros w' Hr. destruct (pri_sector_frame _ w w' (sp k) Hsp Hr Hst Hun).
    split_and!; [apply Hr|by eapply images_disturb_pri|done|done]. }
  pose proof (sector_bounds _ Hsp). pose proof (sector_bounds_sec _ Hss).
  eapply wp_mono; [apply (erase_copy_wp sec pri (ss k * sz) (sp k * sz) sz w)| |exact Hr];
    try done; try lia; try apply Hsu; try (by left); try done.
  - apply mul_aligned; [pose proof (ta_align_bounds pri Hap); lia|apply Hsu].
  - intros [] w' [Hr' Hcp]. split; [by apply Hr|]. unfold sect at 1. rewrite Hcp. apply Him; [done|].
    intros i Hi Hle. unfold step_src, step_dst. destruct rev; lia.
Qed.

(** Where a swap can stand. *)
Definition position (k s : Z) : Prop := 0 <= k ∧ (s = 0 ∧ k <= last + 1 ∨ s = 1 ∧ k <= last).
Definition in_progress w : Prop := ∃ k s, position k s ∧ progress k s w.

Definition exchange (bs : boot_status) (pri_off sec_off sec_up_off : Z) (skip1 skip2 : bool) : M W boot_status :=
  bs ← (if bs_state bs =? BOOT_STATUS_STATE_0 then
          (if skip1 then mret () else erase_copy pri sec pri_off sec_off sz);;
          rc ← boot_write_status state bs;
          status_assert (rc =? 0);;
          mret (set_bs_state bs BOOT_STATUS_STATE_1)
        else mret bs);
  if bs_state bs =? BOOT_STATUS_STATE_1 then
    (if skip2 then mret () else erase_copy sec pri sec_up_off pri_off sz);;
    rc ← boot_write_status state bs;
    status_assert (rc =? 0);;
    mret (set_bs_next bs (bs_idx bs ⊕ 1) BOOT_STATUS_STATE_0)
  else mret bs.

Lemma exchange_wp k s bs w :
  0 <= k <= last → 0 <= s <= 1 → bs_idx bs = k + 1 → bs_state bs = s + 1 → progress k s w →
  wp (exchange bs (sp k * sz) (sd k * sz) (ss k * sz) (skip_pri (sp k)) (skip_sec (sp k)))
    (λ b w', b = set_bs_next bs (k + 2) 1 ∧ progress (k + 1) 0 w') in_progress w.
Proof using All.
  intros Hk Hs Hbi Hbs Hpr. unfold exchange. pose proof (su_last _ _ _ Hsu). pose proof bc_sectors. apply wp_bind.
  apply (wp_mono _ (λ b w', b = set_bs_state bs 2 ∧ progress k 1 w') _ in_progress).
  - unfold BOOT_STATUS_STATE_0. rewrite Hbs. case_if Hst.
    + assert (s = 0) as -> by lia. wp_step copy_out_wp; [done|done| |].
      * intros [] w1 [Hpr1 Hnew]. eapply wp_mono; [apply (commit_wp k 0 k 1); try done; try lia| |].
        -- apply images_half; [apply Hpr1|done].
        -- intros b w' [-> Hp]. done.
        -- intros w' [Hp|Hp]; [exists k, 1|exists k, 0]; split; try done; unfold position; lia.
      * intros w' Hp. exists k, 0. split; [unfold position; lia|done].
    + assert (s = 1) as -> by lia. apply wp_ret. split; [|done].
      destruct bs; cbn in *. subst. done.
  - intros b w1 [-> Hpr1]. cbn [bs_state set_bs_state]. rewrite (proj2 (Z.eqb_eq _ _)) by done.
    wp_step copy_in_wp; [done|done| |].
    + intros [] w2 [Hpr2 Hnew]. eapply wp_mono; [apply (commit_wp k 1 (k + 1) 0); try done; try lia| |].
      * apply images_next; [apply Hpr2|done].
      * intros b w' [-> Hp]. split; [|done]. cbn [bs_idx set_bs_state]. rewrite u32_small by (unfold is_u32; lia).
        unfold set_bs_next, set_bs_state. cbn. f_equal. lia.
      * intros w' [Hp|Hp]; [exists (k + 1), 0|exists k, 1]; split; try done; unfold position; lia.
    + intros w' Hp. exists k, 1. split; [unfold position; lia|done].
  - done.
Qed.
End Progress.

(** ** The loop over the sectors *)

Section Loop.
  Context (state : boot_loader_state) (sz last : Z) (rev : bool) (used_pri used_sec : Z).
  Context (P0 S0 : Z → list Z) (w0 : W).
  Context (Hsu : swap_setup state sz last).

#[local] Abbreviation prog :=
  (progress state sz last rev (λ i, used_pri <? i) (λ i, used_sec <? i) P0 S0 w0).
#[local] Abbreviation inprog :=
  (in_progress state sz last rev (λ i, used_pri <? i) (λ i, used_sec <? i) P0 S0 w0).

Lemma swap_step_wp k s bs w :
  0 <= k <= last → 0 <= s <= 1 → bs_idx bs = k + 1 → bs_state bs = s + 1 → prog k s w →
  wp (if rev then
        boot_swap_sectors_revert (last ⊖ k) sz state bs (PRI state) (SEC state)
          (used_pri <? last ⊖ k) (used_sec <? last ⊖ k)
      else
        boot_swap_sectors k sz state bs (PRI state) (SEC state) (used_pri <? k) (used_sec <? k))
    (λ b w', b = set_bs_next bs (k + 2) 1 ∧ prog (k + 1) 0 w') inprog w.
Proof using All.
  intros Hk Hs Hbi Hbs Hpr. pose proof (su_last _ _ _ Hsu). pose proof bc_sectors.
  pose proof (exchange_wp state sz last rev (λ i, used_pri <? i) (λ i, used_sec <? i) P0 S0 w0 Hsu k s bs w Hk Hs Hbi Hbs Hpr) as Hx.
  unfold step_pri, step_dst, step_src in Hx. destruct rev.
  - rewrite u32_small by (unfold is_u32; lia). unfold boot_swap_sectors_revert.
    apply wp_bind. eapply wp_pure; [apply (su_pri_off _ _ _ Hsu); lia|].
    apply wp_bind. eapply wp_pure; [apply (su_sec_off _ _ _ Hsu); lia|].
    apply wp_bind. eapply wp_pure; [apply (su_pri_off _ _ _ Hsu); lia|]. exact Hx.
  - unfold boot_swap_sectors.
    apply wp_bind. eapply wp_pure; [apply (su_pri_off _ _ _ Hsu); lia|].
    apply wp_bind. eapply wp_pure; [apply (su_sec_off _ _ _ Hsu); lia|].
    apply wp_bind. eapply wp_pure; [apply (su_pri_off _ _ _ Hsu); lia|]. exact Hx.
Qed.

Lemma swap_loop_wp k s bs w :
  position last k s → bs_idx bs = k + 1 → bs_state bs = s + 1 → prog k s w →
  wp (loop (S (S (Z.to_nat last)))
        (swap_loop_step state (PRI state) (SEC state) rev sz last used_pri used_sec) (0, bs))
    (λ b w', b = set_bs_next bs (last + 2) 1 ∧ prog (last + 1) 0 w') inprog w.
Proof using All.
  intros Hpos Hbi Hbs Hpr. pose proof (su_last _ _ _ Hsu). pose proof bc_sectors.
  apply (wp_loop
    (λ '(idx, b) w, ∃ k s, position last k s ∧ 0 <= idx <= k ∧ b = set_bs_next bs (k + 1) (s + 1) ∧ prog k s w)
    (λ '(idx, _), last + 1 - idx)).
  - intros [idx b] w' (k' & s' & Hp & Hidx & -> & Hpr'). unfold swap_loop_step. unfold position in Hp.
    destruct (idx <=? last) eqn:Hend; zsimp; cbn [negb].
    2: { apply wp_ret. assert (k' = last + 1) as -> by lia. assert (s' = 0) as -> by lia.
         split; [|done]. f_equal; lia. }
    cbn [bs_idx set_bs_next]. unfold BOOT_STATUS_IDX_0. rewrite (u32_small (k' + 1 - 1)) by (unfold is_u32; lia).
    rewrite (u32_small (idx + 1)) by (unfold is_u32; lia). apply wp_bind. case_if Hle.
    + assert (k' = idx) as -> by lia.
      eapply wp_mono; [apply (swap_step_wp idx s'); try done; lia| |done].
      intros b w2 [-> Hpr2]. apply wp_ret. split; [|lia].
      exists (idx + 1), 0. split_and!; [unfold position; lia|lia|lia| |done].
      unfold set_bs_next. cbn. f_equal; lia.
    + apply wp_ret, wp_ret. split; [|lia]. exists k', s'. split_and!; try done; lia.
  - exists k, s. split_and!; try done; [unfold position in Hpos; lia|]. rewrite <- Hbi, <- Hbs. by destruct bs.
  - lia.
  - lia.
Qed.
End Loop.

Lemma progress_start state sz last rev skip_pri skip_sec w :
  fm_ok w → status_at (PRI state) 0 w →
  progress state sz last rev skip_pri skip_sec (sect sz w (PRI state)) (sect sz w (SEC state)) w 0 0 w.
Proof.
  intros Hok Hst. split_and!; [done| |done|by split]. split.
  - intros i Hi Hlt. lia.
  - intros i Hi _. done.
  - intros i Hi [?|(-> & [?|Hsk])]; [lia|lia|]. unfold new_sec. by rewrite Hsk.
  - intros x Hx _. done.
Qed.

(** C12: the sector loop of [swap_run] exchanges the images, in either direction.  An
    upgrade takes the new image from one sector up in the secondary slot and leaves the
    old one at its start; a revert does the opposite.  All status entries are written,
    the trailer fields, the rest of the secondary slot and all other areas stay as they
    were, and a reset leaves the slots at some step [k], half [s], of the exchange. *)
Theorem swap_loop_exchanges state sz last rev used_pri used_sec bs w :
  swap_setup state sz last → fm_ok w → status_at (PRI state) 0 w → bs_idx bs = 1 → bs_state bs = 1 →
  wp (loop (S (S (Z.to_nat last)))
        (swap_loop_step state (PRI state) (SEC state) rev sz last used_pri used_sec) (0, bs))
    (λ b w', bs_idx b = last + 2 ∧ status_at (PRI state) (2 * (last + 1)) w' ∧ untouched state sz last w w' ∧
       ∀ i, 0 <= i <= last →
         (i <= used_sec → sect sz w' (PRI state) i = sect sz w (SEC state) (if rev then i else i + 1)) ∧
         (i <= used_pri → sect sz w' (SEC state) (if rev then i + 1 else i) = sect sz w (PRI state) i))
    (λ w', ∃ k s, position last k s ∧
       progress state sz last rev (λ i, used_pri <? i) (λ i, used_sec <? i)
         (sect sz w (PRI state)) (sect sz w (SEC state)) w k s w') w.
Proof.
  intros Hsu Hok Hst Hbi Hbs. pose proof (su_last _ _ _ Hsu).
  eapply wp_mono; [apply (swap_loop_wp state sz last rev used_pri used_sec (sect sz w (PRI state)) (sect sz w (SEC state)) w Hsu 0 0)| |].
  - unfold position. lia.
  - lia.
  - lia.
  - by apply progress_start.
  - intros b w' [-> (_ & [Hp _ Hs _] & Hst' & Hun)]. split_and!; [done|by rewrite Z.add_0_r in Hst'|done|].
    intros i Hi. specialize (Hp (if rev then last - i else i)). specialize (Hs (if rev then last - i else i)).
    unfold new_pri, new_sec, step_pri, step_dst, step_src in Hp, Hs. destruct rev;
      rewrite ?(ltac:(lia) : last - (last - i) = i) in *;
      specialize (Hp ltac:(lia) ltac:(lia)); specialize (Hs ltac:(lia) ltac:(lia));
      split; intros Hu; rewrite (proj2 (Z.ltb_ge _ _)) in * by lia; done.
  - done.
Qed.
End Swap.
