(* ===== verification/SwapHeaderProps.v ===== *)
(** * Where the headers are during a swap with offset

    While a swap is under way, the header of each image is read from where the swap
    has put it; for the header of the old image this holds up to the last sector of
    an upgrade, where the header of the new image is read in its place. *)

From S2P Require Import Prelude Effects FlashMap BootConfig Trailer TrailerProps SwapState Area AreaProps Image.
From S2P Require Import Tlv LoaderState SwapMisc SwapOffset SwapHeaders LoaderProps SwapOffsetProps.

#[local] Set Default Proof Using "Type*".

#[local] Abbreviation PRI state := (BOOT_IMG_AREA state BOOT_SLOT_PRIMARY).
#[local] Abbreviation SEC state := (BOOT_IMG_AREA state BOOT_SLOT_SECONDARY).

Section Headers.
  Context {W : Type} `{FlashMapOk W} `{BootConfigOk}.
  Context (state : boot_loader_state) (sz last : Z) (rev : bool) (skip_pri skip_sec : Z → bool).
  Context (P0 S0 : Z → list Z) (w0 : W).
  Context (Hsu : swap_setup state sz last).

#[local] Abbreviation prog := (progress state sz last rev skip_pri skip_sec P0 S0 w0).

(** The first sector of the image that started in a slot. *)
Definition first_sector (slot : Z) : list Z :=
  if slot =? BOOT_SLOT_PRIMARY then P0 0 else S0 (if rev then 0 else 1).

(** What is at the place the header is looked for. *)
Definition placed (slot k s : Z) (bs : boot_status) (w : W) : list Z :=
  let '(sl, off) := header_place rev slot bs last sz in
  slice (vals (fm_cells w (BOOT_IMG_AREA state sl))) off sz.

Lemma placed_first slot k s bs w :
  slot = BOOT_SLOT_PRIMARY ∨ slot = BOOT_SLOT_SECONDARY → 0 <= k <= last → 0 <= s <= 1 → 1 <= 2 * k + s →
  skip_pri 0 = false → skip_sec 0 = false → bs_idx bs = k + 1 → bs_state bs = s + 1 → prog k s w →
  (rev = false → slot = BOOT_SLOT_PRIMARY → k < last) →
  placed slot k s bs w = first_sector slot.
Proof using All.
  intros Hslot Hk Hs Hpos Hsp Hss Hi Hst (_ & [Hp1 Hp2 Hs1 Hs2] & _) Hlast.
  pose proof (su_last _ _ _ Hsu). pose proof bc_sectors.
  unfold placed, header_place, first_sector. rewrite Hi, Hst. unfold BOOT_STATUS_IDX_0, BOOT_STATUS_STATE_1, BOOT_STATUS_STATE_2.
  rewrite (u32_small (k + 1 - 1)) by (unfold is_u32; lia). replace (k + 1 - 1) with k by lia.
  unfold sect, new_pri, new_sec, step_pri, step_dst, step_src in *.
  destruct rev.
  - destruct Hslot as [-> | ->]; cbn [Z.eqb BOOT_SLOT_PRIMARY BOOT_SLOT_SECONDARY].
    + rewrite (proj2 (Z.ltb_ge last k)) by lia. cbn [orb].
      specialize (Hp2 last ltac:(lia)). specialize (Hs1 last ltac:(lia)).
      rewrite Z.sub_diag in *. rewrite Hsp in Hs1.
      destruct ((k =? last) && (s + 1 =? 2)) eqn:Hc; zsimp.
      * replace ((0 + 1) * sz) with sz in Hs1 by lia. apply Hs1. right. lia.
      * apply Hp2. destruct (decide (k = last)); [right|left; lia]. split; [done|]. left. lia.
    + rewrite (proj2 (Z.ltb_ge last k)) by lia. replace (s + 1 =? 3) with false by lia. rewrite andb_false_r. cbn [orb].
      apply (Hs2 0); [lia|]. intros i Hi' Hle. lia.
  - destruct Hslot as [-> | ->]; cbn [Z.eqb BOOT_SLOT_PRIMARY BOOT_SLOT_SECONDARY].
    + specialize (Hlast eq_refl eq_refl). rewrite (proj2 (Z.leb_le (k + 1) last)) by lia. rewrite andb_true_r.
      replace ((1 <? k + 1) || ((k + 1 =? 1) && (s + 1 =? 2))) with true by (symmetry; lia).
      specialize (Hs1 0 ltac:(lia)). rewrite Hsp in Hs1. apply Hs1. destruct (decide (k = 0)); [right|left]; lia.
    + destruct (1 <? k + 1) eqn:Hc; zsimp.
      * specialize (Hp1 0 ltac:(lia) ltac:(lia)). rewrite Hss in Hp1. exact Hp1.
      * rewrite <- (Z.mul_1_l sz) at 1. apply (Hs2 1); [lia|]. intros i Hi' Hle. lia.
Qed.

(** In the last step of an upgrade. *)
Lemma placed_last s bs w :
  rev = false → 1 <= last → skip_sec 0 = false → bs_idx bs = last + 1 → prog last s w →
  placed BOOT_SLOT_PRIMARY last s bs w = S0 1.
Proof using All.
  intros Hr Hl Hss Hi (_ & [Hp1 _ _ _] & _). pose proof (su_last _ _ _ Hsu). pose proof bc_sectors.
  unfold placed, header_place. rewrite Hi. cbn [Z.eqb BOOT_SLOT_PRIMARY].
  rewrite (proj2 (Z.leb_gt (last + 1) last)) by lia. rewrite andb_false_r.
  specialize (Hp1 0 ltac:(lia) ltac:(lia)). unfold sect, new_pri, step_pri, step_src in Hp1.
  rewrite Hr in Hp1 |- *. rewrite Hss in Hp1. exact Hp1.
Qed.

(** ** Reading *)

(** A boot that resumes a swap: the trailer of the primary slot is complete, and
    the status and the swap size were read from it. *)
Record resuming (size : Z) (bs : boot_status) (w : W) : Prop := {
  re_hdr : IMAGE_HEADER_SIZE <= sz;
  re_not : boot_status_is_reset bs = false;
  re_magic : boot_magic_decode (slice (vals (fm_cells w (PRI state))) (boot_magic_off (PRI state)) BOOT_MAGIC_SZ) =
    BOOT_MAGIC_GOOD;
  re_size : boot_read_swap_size (PRI state) w = (Ret (0, size), w);
  re_idx : find_last_idx state size w = (Ret last, w);
  re_sec : boot_img_sector_size state BOOT_SLOT_PRIMARY 0 w = (Ret sz, w);
  re_rev : is_revert state bs w = (Ret rev, w);
}.

Section Read.
  Context (w : W) (bs : boot_status) (size : Z).
  Hypothesis Hok : fm_ok w.
  Hypothesis Hre : resuming size bs w.

Lemma header_source_eq slot :
  header_source state slot (Some bs) w =
    (Ret (Some (header_place rev slot bs last sz, false)), w).
Proof using All.
  destruct Hre as [_ Hnot Hmagic Hsize Hidx Hsec Hrev].
  pose proof (su_pri _ _ _ Hsu) as Hta. pose proof (ta_size_u32 _ Hta). pose proof (magic_off_eq (PRI state) Hta) as Hmo.
  pose proof swap_size_fld_ge. pose proof (fld_bounds (PRI state) swap_size_fld Hta ltac:(lia)) as (? & ? & _).
  unfold header_source. rewrite Hnot. cbn [negb]. unfold boot_find_status. rewrite (not_scratch (su_mode _ _ _ Hsu)).
  cbn [app find_status_in]. unfold BOOT_MAGIC_SZ in *.
  erewrite bind_ret; [|erewrite bind_ret by (apply fm_read; [done|apply Hta|..]; rewrite ?Hmo; lia); cbn beta iota;
    cbn [Z.eqb negb]; rewrite Hmagic; reflexivity].
  cbn beta iota. erewrite bind_ret by exact Hsize. cbn beta iota. cbn [Z.eqb negb].
  erewrite bind_ret by exact Hidx. erewrite bind_ret by exact Hsec. erewrite bind_ret by exact Hrev.
  by destruct (header_place rev slot bs last sz).
Qed.
(** The header read for the image that started in [slot]. *)
Lemma read_header_eq slot hdr :
  slot = BOOT_SLOT_PRIMARY ∨ slot = BOOT_SLOT_SECONDARY →
  let '(sl, off) := header_place rev slot bs last sz in
  let h := header_of_bytes (slice (slice (vals (fm_cells w (BOOT_IMG_AREA state sl))) off sz) 0 IMAGE_HEADER_SIZE) in
  ∃ state', boot_read_image_header state slot hdr (Some bs) w =
    (Ret (if ih_magic h =? IMAGE_MAGIC then 0 else -1, h, state'), w) ∧
    (state' = state ∨ sl = BOOT_SLOT_SECONDARY ∧ state' = set_secondary_offset state off).
Proof using All.
  intros Hslot. pose proof (header_source_eq slot) as Hsrc.
  destruct (header_place rev slot bs last sz) as [sl off] eqn:Hpl. cbv zeta.
  assert (Hcase : (off = 0 ∨ sl = BOOT_SLOT_SECONDARY ∧ off = sz) ∧ (sl = BOOT_SLOT_PRIMARY ∨ sl = BOOT_SLOT_SECONDARY)).
  { revert Hpl. unfold header_place, BOOT_SLOT_PRIMARY, BOOT_SLOT_SECONDARY in *.
    destruct Hslot as [-> | ->]; cbn [Z.eqb]; repeat (case_match); intros [= <- <-]; split; auto. }
  destruct Hcase as [Hoff Hsl]. unfold boot_read_image_header. rewrite (bind_ret _ _ _ _ _ Hsrc). cbn beta iota zeta.
  pose proof (su_sz _ _ _ Hsu). pose proof (su_last _ _ _ Hsu). pose proof (re_hdr _ _ _ Hre).
  unfold IMAGE_HEADER_SIZE in *.
  assert (Hread : flash_area_read (BOOT_IMG_AREA state sl) off 32 w =
    (Ret (0, slice (slice (vals (fm_cells w (BOOT_IMG_AREA state sl))) off sz) 0 32), w)).
  { rewrite slice_slice by lia. rewrite Z.add_0_r. destruct Hsl as [-> | ->].
    - assert (off = 0) as -> by (destruct Hoff as [? | [? ?]]; [done|discriminate]).
      pose proof (sector_bounds state sz last rev skip_pri skip_sec P0 S0 w0 Hsu 0 ltac:(lia)). apply fm_read; [done|apply Hsu|lia..].
    - pose proof (su_sec_fit _ _ _ Hsu). apply fm_read; [done|apply Hsu|lia|lia|]. destruct Hoff as [-> | [_ ->]]; nia. }
  rewrite (bind_ret _ _ _ _ _ Hread). cbn beta iota zeta. cbn [Z.eqb negb andb].
  erewrite bind_ret by reflexivity. cbn beta iota zeta.
  rewrite (bool_decide_true (is_Some (Some bs))) by done. rewrite andb_true_r. cbn [andb].
  destruct (ih_magic _ =? IMAGE_MAGIC); cbn [negb andb]; eexists; (split; [reflexivity|]).
  - destruct (sl =? BOOT_SLOT_SECONDARY) eqn:He; zsimp; [by right|by left].
  - by left.
Qed.

End Read.

End Headers.

Section Theorems.
  Context {W : Type} `{FlashMapOk W} `{BootConfigOk}.

(** C24: while a swap is under way, [boot_read_image_header] finds the header of each
    image where the swap has put it: during a revert in every step, during an upgrade in
    every step for the new image and in every step but the last for the old one.  The
    result code tells whether the magic is right. *)
Theorem header_found state sz last rev skip_pri skip_sec P0 S0 w0 size k s bs slot hdr (w : W) :
  swap_setup state sz last → slot = BOOT_SLOT_PRIMARY ∨ slot = BOOT_SLOT_SECONDARY →
  0 <= k <= last → 0 <= s <= 1 → 1 <= 2 * k + s → bs_idx bs = k + 1 → bs_state bs = s + 1 →
  skip_pri 0 = false → skip_sec 0 = false →
  progress state sz last rev skip_pri skip_sec P0 S0 w0 k s w → resuming state sz last rev size bs w →
  (rev = false → slot = BOOT_SLOT_PRIMARY → k < last) →
  let h := header_of_bytes (slice (if slot =? BOOT_SLOT_PRIMARY then P0 0 else S0 (if rev then 0 else 1))
                              0 IMAGE_HEADER_SIZE) in
  ∃ state', boot_read_image_header state slot hdr (Some bs) w =
    (Ret (if ih_magic h =? IMAGE_MAGIC then 0 else -1, h, state'), w).
Proof.
  intros Hsu Hslot Hk Hs Hpos Hi Hst Hsp Hss Hpr Hre Hlast.
  pose proof (read_header_eq state sz last rev skip_pri skip_sec P0 S0 w0 Hsu w bs size ltac:(apply Hpr) Hre slot hdr Hslot) as Hrd.
  pose proof (placed_first state sz last rev skip_pri skip_sec P0 S0 w0 Hsu slot k s bs w Hslot Hk Hs Hpos Hsp Hss Hi Hst Hpr Hlast) as Hp.
  unfold placed in Hp. destruct (header_place rev slot bs last sz) as [sl off]. rewrite Hp in Hrd.
  destruct Hrd as (state' & Heq & _). by exists state'.
Qed.

(** C25: in the last step of an upgrade of at least two sectors, the header read for the
    old image is that of the new image. *)
Theorem old_header_lost state sz last skip_pri skip_sec P0 S0 w0 size s bs hdr (w : W) :
  swap_setup state sz last → 1 <= last → bs_idx bs = last + 1 → skip_sec 0 = false →
  progress state sz last false skip_pri skip_sec P0 S0 w0 last s w → resuming state sz last false size bs w →
  let h := header_of_bytes (slice (S0 1) 0 IMAGE_HEADER_SIZE) in
  ∃ state', boot_read_image_header state BOOT_SLOT_PRIMARY hdr (Some bs) w =
    (Ret (if ih_magic h =? IMAGE_MAGIC then 0 else -1, h, state'), w).
Proof.
  intros Hsu Hl Hi Hss Hpr Hre.
  pose proof (read_header_eq state sz last false skip_pri skip_sec P0 S0 w0 Hsu w bs size ltac:(apply Hpr) Hre
    BOOT_SLOT_PRIMARY hdr (or_introl eq_refl)) as Hrd.
  pose proof (placed_last state sz last false skip_pri skip_sec P0 S0 w0 Hsu s bs w eq_refl Hl Hss Hi Hpr) as Hp.
  unfold placed in Hp. destruct (header_place false BOOT_SLOT_PRIMARY bs last sz) as [sl off]. rewrite Hp in Hrd.
  destruct Hrd as (state' & Heq & _). by exists state'.
Qed.

End Theorems.
