(* ===== verification/Journal.v ===== *)
(** * Sector copies with a journal

    What swap_move.c does, abstractly: a sequence of copies of one sector to another,
    each followed by a status entry.  A script says which sectors and which entry
    belong to a step, and what each sector holds before it; if its steps fit together,
    every flash operation and every reset leaves the flash at a position of the
    script. *)

From S2P Require Import Prelude Effects FlashMap BootConfig Trailer TrailerProps Area AreaProps Image.
From S2P Require Import LoaderState SwapMisc SwapOffset LoaderProps SwapOffsetProps.

#[local] Set Default Proof Using "Type*".

#[local] Abbreviation PRI state := (BOOT_IMG_AREA state BOOT_SLOT_PRIMARY).

Section Journal.
  Context {W : Type} `{FlashMapOk W} `{BootConfigOk}.
  Implicit Types (fa : flash_area) (w : W).

(** A sector: area and number. *)
Definition place : Type := flash_area * Z.

(** Step [p] copies [js_src p] to [js_dst p] and writes entry [js_entry p];
    [js_expect p] is what is known of the sectors when the steps below [p] are
    complete. *)
Record script := Script {
  js_steps : Z;
  js_entry : Z → Z;
  js_src : Z → place;
  js_dst : Z → place;
  js_expect : Z → place → option (list Z);
}.

(** A sector below the status of the primary slot, if it is there. *)
Definition placed (state : boot_loader_state) (sz : Z) (x : place) : Prop :=
  fm_area x.1 ∧ 0 <= x.2 ∧ (x.2 + 1) * sz <= fa_size x.1 ∧
  (x.1 = PRI state → (x.2 + 1) * sz <= entry_off (PRI state) 0).

(** The steps fit together: a step overwrites a sector of which nothing has to be
    known, and after it everything expected was there before, or has been copied. *)
Record script_ok (state : boot_loader_state) (sz : Z) (J : script) : Prop := {
  jo_status : uses SWAP_USING_OFFSET = true ∨ uses SWAP_USING_MOVE = true;
  jo_pri : trailer_area (PRI state);
  jo_sz : 0 < sz;
  jo_entry p : 0 <= p < js_steps J → 0 <= js_entry J p < status_entries;
  jo_inj p q : 0 <= p < js_steps J → 0 <= q < js_steps J → js_entry J p = js_entry J q → p = q;
  jo_src p : 0 <= p < js_steps J → placed state sz (js_src J p);
  jo_dst p : 0 <= p < js_steps J → placed state sz (js_dst J p);
  jo_align p : 0 <= p < js_steps J → sz mod flash_area_align (js_dst J p).1 = 0;
  jo_rep p : 0 <= p < js_steps J → replaceable (js_dst J p).1 ((js_dst J p).2 * sz) sz;
  jo_stale p : 0 <= p < js_steps J → js_expect J p (js_dst J p) = None;
  jo_moves p : 0 <= p < js_steps J →
    is_Some (js_expect J p (js_src J p)) ∧ js_expect J (p + 1) (js_dst J p) = js_expect J p (js_src J p);
  jo_keeps p x c : 0 <= p < js_steps J → x ≠ js_dst J p → js_expect J (p + 1) x = Some c → js_expect J p x = Some c;
}.

(** ** Status entries *)

Definition entry_written fa (e : Z) w : Prop :=
  ∃ st, (st = 1 ∨ st = 2) ∧ slice (vals (fm_cells w fa)) (entry_off fa e) 1 = [st].

Definition entry_blank fa (e : Z) w : Prop :=
  slice (vals (fm_cells w fa)) (entry_off fa e) 1 = [flash_area_erased_val fa] ∧
  writable w fa (entry_off fa e) (flash_area_align fa).

Section Positions.
  Context (state : boot_loader_state) (sz : Z) (J : script) (w0 : W).

#[local] Abbreviation pri := (PRI state).

(** The sectors hold what is expected of them. *)
Definition holds (p : Z) w : Prop :=
  ∀ x c, placed state sz x → js_expect J p x = Some c → sect sz w x.1 x.2 = c.

(** The entries of the completed steps are written, all others are erased. *)
Record logged (p : Z) w : Prop := {
  lg_written q : 0 <= q < p → entry_written pri (js_entry J q) w;
  lg_blank e : 0 <= e < status_entries → (∀ q, 0 <= q < p → js_entry J q ≠ e) → entry_blank pri e w;
}.

(** A range that is neither a destination nor a status entry. *)
Definition untouchable fa (o n : Z) : Prop :=
  fm_area fa ∧ 0 <= o ∧
  (∀ p, 0 <= p < js_steps J → (js_dst J p).1 = fa → o + n <= (js_dst J p).2 * sz ∨ ((js_dst J p).2 + 1) * sz <= o) ∧
  (fa = pri → o + n <= entry_off pri 0 ∨ fld pri swap_size_fld <= o).

Definition same_outside w : Prop :=
  ∀ fa o n, untouchable fa o n → slice (fm_cells w fa) o n = slice (fm_cells w0 fa) o n.

Record journal (p : Z) w : Prop := {
  jn_ok : fm_ok w;
  jn_holds : holds p w;
  jn_logged : logged p w;
  jn_outside : same_outside w;
}.

Context (Hok_J : script_ok state sz J).

(** ** Frames *)

Lemma jo_align_pri : 0 < flash_area_align pri <= 32.
Proof using All. pose proof (ta_align_bounds pri (ta_area _ (jo_pri _ _ _ Hok_J))). lia. Qed.

Lemma entry_above e :
  0 <= e < status_entries →
  entry_off pri 0 <= entry_off pri e ∧ entry_off pri e + flash_area_align pri <= fld pri swap_size_fld ∧
  0 <= entry_off pri 0 ∧ fld pri swap_size_fld <= fa_size pri.
Proof using All.
  intros He. pose proof jo_align_pri. pose proof (jo_pri _ _ _ Hok_J) as Hta. pose proof (jo_status _ _ _ Hok_J) as Hm.
  destruct (swap_entry_bounds Hm pri e Hta He) as (? & ? & _).
  destruct (swap_entry_bounds Hm pri 0 Hta (first_entry Hm)) as (? & _). pose proof swap_size_fld_ge.
  destruct (fld_bounds pri swap_size_fld Hta ltac:(lia)) as (_ & ? & _). unfold entry_off in *. split_and!; nia.
Qed.

(** A change of one sector is not seen in another. *)
Lemma sect_other x y w w' :
  0 <= x.2 → 0 <= y.2 → fm_area y.1 → y ≠ x → only_range x.1 (x.2 * sz) sz w w' →
  sect sz w' y.1 y.2 = sect sz w y.1 y.2.
Proof using All.
  intros Hx Hy Ha Hne (_ & Hs & Ho). pose proof (jo_sz _ _ _ Hok_J). destruct x as [fa i], y as [fb j]. cbn in *.
  unfold sect. destruct (decide (fb = fa)) as [->|Hfa]; [|by rewrite Ho].
  assert (i ≠ j) by congruence. rewrite <- !vals_slice, Hs; [done|nia|nia].
Qed.

Lemma entry_frame e w w' :
  slice (fm_cells w' pri) (entry_off pri e) (flash_area_align pri) =
    slice (fm_cells w pri) (entry_off pri e) (flash_area_align pri) → 0 <= e < status_entries →
  (entry_written pri e w → entry_written pri e w') ∧ (entry_blank pri e w → entry_blank pri e w').
Proof using All.
  intros Hs He. pose proof jo_align_pri. pose proof (entry_above e He).
  assert (Hone : slice (fm_cells w' pri) (entry_off pri e) 1 = slice (fm_cells w pri) (entry_off pri e) 1).
  { replace (entry_off pri e) with (entry_off pri e + 0) by lia.
    rewrite <- !(slice_slice _ (entry_off pri e) (flash_area_align pri)) by lia. by rewrite Hs. }
  unfold entry_written, entry_blank, writable. rewrite <- !vals_slice, Hone, Hs. done.
Qed.

Lemma logged_frame p w w' :
  (∀ e, 0 <= e < status_entries →
     slice (fm_cells w' pri) (entry_off pri e) (flash_area_align pri) =
       slice (fm_cells w pri) (entry_off pri e) (flash_area_align pri)) →
  p <= js_steps J → logged p w → logged p w'.
Proof using All.
  intros Hs Hp [Hw Hb]. split.
  - intros q Hq. pose proof (jo_entry _ _ _ Hok_J q ltac:(lia)) as He.
    apply (entry_frame _ w); [by apply Hs|done|by apply Hw].
  - intros e He Hn. apply (entry_frame _ w); [by apply Hs|done|by apply Hb].
Qed.

(** Rewriting the destination of the next step keeps the position. *)
Lemma journal_disturb p w w' :
  0 <= p < js_steps J → only_range (js_dst J p).1 ((js_dst J p).2 * sz) sz w w' → journal p w → journal p w'.
Proof using All.
  intros Hp Hr [Hok Hh Hl Hu]. pose proof (jo_dst _ _ _ Hok_J p Hp) as (Hda & Hd0 & Hd1 & Hd2).
  pose proof (jo_sz _ _ _ Hok_J). split.
  - apply Hr.
  - intros x c Hx Hc. rewrite (sect_other (js_dst J p) x w w'); [by apply Hh|done|apply Hx|apply Hx| |done].
    intros ->. by rewrite (jo_stale _ _ _ Hok_J p Hp) in Hc.
  - apply (logged_frame p w); [|lia|done]. intros e He. destruct Hr as (_ & Hs & Ho).
    pose proof (entry_above e He). destruct (decide (pri = (js_dst J p).1)) as [Heq|Hne].
    + rewrite <- Heq in *. apply Hs; [lia|]. specialize (Hd2 eq_refl). lia.
    + by rewrite Ho by (done || apply (jo_pri _ _ _ Hok_J)).
  - intros fa o n Huf. rewrite <- (Hu fa o n Huf). destruct Huf as (Ha & Ho0 & Hd & _), Hr as (_ & Hs & Ho).
    destruct (decide (fa = (js_dst J p).1)) as [->|Hne]; [|by rewrite Ho]. apply Hs; [done|].
    destruct (Hd p Hp eq_refl); lia.
Qed.

(** ** The copy *)

Lemma copy_wp p w :
  0 <= p < js_steps J → journal p w →
  wp (erase_copy (js_src J p).1 (js_dst J p).1 ((js_src J p).2 * sz) ((js_dst J p).2 * sz) sz)
    (λ _ w', journal p w' ∧ holds (p + 1) w') (journal p) w.
Proof using All.
  intros Hp Hj. pose proof (jo_src _ _ _ Hok_J p Hp) as Hsrc. pose proof (jo_dst _ _ _ Hok_J p Hp) as Hdst.
  pose proof Hsrc as (Hsa & Hs0 & Hs1 & _). pose proof Hdst as (Hda & Hd0 & Hd1 & _). pose proof (jo_sz _ _ _ Hok_J).
  destruct (jo_moves _ _ _ Hok_J p Hp) as [[c Hc] Hmv]. pose proof (jo_align _ _ _ Hok_J p Hp) as Hal.
  assert (Hne : js_src J p ≠ js_dst J p) by (intros Heq; rewrite Heq, (jo_stale _ _ _ Hok_J p Hp) in Hc; done).
  eapply wp_mono; [apply erase_copy_wp; try done; try nia| |].
  - apply Hj.
  - destruct (js_src J p) as [fa i], (js_dst J p) as [fb j]. cbn in *. unfold apart.
    destruct (decide (fa = fb)) as [->|]; [|by left]. right. assert (i ≠ j) by congruence. nia.
  - rewrite Z.mul_mod, Hal, Z.mul_0_r, Z.mod_0_l; [done|..]; pose proof (ta_align_bounds (js_dst J p).1 Hda); lia.
  - by apply (jo_rep _ _ _ Hok_J).
  - intros [] w' [Hr Hcp]. split; [by apply (journal_disturb p w w')|].
    intros x d Hx Hd. destruct (decide (x = js_dst J p)) as [->|Hx'].
    + unfold sect. rewrite Hcp. apply (jn_holds _ _ Hj (js_src J p)); [done|]. by rewrite <- Hmv.
    + rewrite (sect_other (js_dst J p) x w w'); [|done|apply Hx|apply Hx|done|done].
      apply (jn_holds _ _ Hj); [done|]. by eapply jo_keeps.
  - intros w' Hr. by apply (journal_disturb p w w').
Qed.

(** ** The entry *)

Lemma logged_next p st w w' :
  fm_ok w → 0 <= p < js_steps J → st = 1 ∨ st = 2 →
  wrote pri (entry_off pri (js_entry J p)) (entry_word pri st) w w' → logged p w → logged (p + 1) w'.
Proof using All.
  intros Hok Hp Hst (_ & Hc & _) [Hw Hb]. pose proof (jo_pri _ _ _ Hok_J) as Hta. pose proof (ta_area _ Hta) as Ha.
  pose proof jo_align_pri. pose proof (jo_entry _ _ _ Hok_J p Hp) as Hep. pose proof (fm_len w pri Hok Ha) as Hlen.
  pose proof (entry_above _ Hep).
  assert (Hself : entry_written pri (js_entry J p) w').
  { exists st. split; [done|]. rewrite Hc, vals_splice, vals_written.
    rewrite slice_splice_inside; rewrite ?zlen_entry_word, ?zlen_vals; try (done || lia). by rewrite Z.sub_diag. }
  assert (Hother : ∀ e, 0 <= e < status_entries → e ≠ js_entry J p →
    slice (fm_cells w' pri) (entry_off pri e) (flash_area_align pri) =
      slice (fm_cells w pri) (entry_off pri e) (flash_area_align pri)).
  { intros e He Hne. pose proof (entry_above e He). rewrite Hc.
    apply slice_splice_disj; rewrite ?zlen_written, ?zlen_entry_word; try done; try lia. unfold entry_off. nia. }
  split.
  - intros q Hq. destruct (decide (q = p)) as [->|Hne]; [done|].
    pose proof (jo_entry _ _ _ Hok_J q ltac:(lia)) as Heq. apply (entry_frame _ w); [|done|apply Hw; lia].
    apply Hother; [done|]. intros He. apply Hne, (jo_inj _ _ _ Hok_J); lia || done.
  - intros e He Hn. apply (entry_frame _ w); [|done|apply Hb; [done|intros q Hq; apply Hn; lia]].
    apply Hother; [done|]. intros ->. by apply (Hn p ltac:(lia)).
Qed.

Lemma holds_entry p e st w w' :
  fm_ok w → 0 <= e < status_entries →
  wrote pri (entry_off pri e) (entry_word pri st) w w' → holds p w → holds p w'.
Proof using All.
  intros Hok He Hw Hh x c Hx Hc. rewrite <- (Hh x c Hx Hc). pose proof (jo_pri _ _ _ Hok_J) as Hta.
  pose proof (entry_above e He). pose proof jo_align_pri. destruct Hx as (Ha & Hx0 & _ & Hx1), Hw as (_ & Hcl & Ho).
  pose proof (jo_sz _ _ _ Hok_J). unfold sect. destruct (decide (x.1 = pri)) as [Heq|Hne]; [|by rewrite Ho].
  rewrite Heq, Hcl, <- !vals_slice. specialize (Hx1 Heq). rewrite slice_splice_disj; [done|lia| |nia|left; lia].
  rewrite (fm_len w pri Hok (ta_area _ Hta)), zlen_written, zlen_entry_word by apply Hta. lia.
Qed.

Lemma outside_entry e st w w' :
  fm_ok w → 0 <= e < status_entries →
  wrote pri (entry_off pri e) (entry_word pri st) w w' → same_outside w → same_outside w'.
Proof using All.
  intros Hok He (_ & Hcl & Ho) Hu fa o n Huf. rewrite <- (Hu fa o n Huf). destruct Huf as (Ha & Ho0 & _ & Hp).
  pose proof (entry_above e He). pose proof jo_align_pri. destruct (decide (fa = pri)) as [->|Hne]; [|by rewrite Ho].
  rewrite Hcl. pose proof (zlen_entry_word pri st Ha). specialize (Hp eq_refl).
  apply slice_splice_disj; rewrite ?zlen_written, ?(fm_len w pri Hok Ha); lia.
Qed.

Lemma journal_same p w w' : p <= js_steps J → same_flash w w' → journal p w → journal p w'.
Proof using All.
  intros Hp [Hok' Hs] [Hok Hh Hl Hu]. pose proof (ta_area _ (jo_pri _ _ _ Hok_J)). split; [done| | |].
  - intros x c Hx Hc. unfold sect. rewrite Hs by apply Hx. by apply Hh.
  - apply (logged_frame p w); [|lia|done]. intros e He. by rewrite Hs.
  - intros fa o n Huf. rewrite Hs by apply Huf. by apply Hu.
Qed.

Lemma commit_entry_wp p bs w :
  0 <= p < js_steps J → boot_status_internal_off bs (write_sz state) = js_entry J p * flash_area_align pri →
  bs_state bs = 1 ∨ bs_state bs = 2 → journal p w → holds (p + 1) w →
  wp (boot_write_status state bs) (λ rc w', rc = 0 ∧ journal (p + 1) w') (λ w', journal (p + 1) w' ∨ journal p w') w.
Proof using All.
  intros Hp Hint Hst [Hok Hh Hl Hu] Hh'. pose proof (jo_pri _ _ _ Hok_J) as Hta. pose proof (jo_entry _ _ _ Hok_J p Hp) as He.
  assert (Hdone : ∀ w', wrote pri (entry_off pri (js_entry J p)) (entry_word pri (bs_state bs)) w w' → journal (p + 1) w').
  { intros w' Hw. split; [apply Hw|by eapply holds_entry|by eapply logged_next|by eapply outside_entry]. }
  assert (Hwr : writable w pri (entry_off pri (js_entry J p)) (flash_area_align pri)).
  { apply (lg_blank _ _ Hl); [done|]. intros q Hq Heq. assert (q = p) by (apply (jo_inj _ _ _ Hok_J); lia || done). lia. }
  eapply wp_mono; [apply (write_entry_wp (jo_status _ _ _ Hok_J) state bs (js_entry J p) w); try done| |].
  - unfold is_u8. lia.
  - intros rc w' [-> Hw]. split; [done|by apply Hdone].
  - intros w' [Hw|Hs]; [left; by apply Hdone|right]. apply (journal_same p w w'); [lia|done|by split].
Qed.

(** ** One step: the copy and its entry *)

Definition at_step (p : Z) w : Prop := ∃ q, p <= q <= p + 1 ∧ journal q w.

Lemma step_wp p (bs bs' : boot_status) w :
  0 <= p < js_steps J → boot_status_internal_off bs (write_sz state) = js_entry J p * flash_area_align pri →
  bs_state bs = 1 ∨ bs_state bs = 2 → journal p w →
  wp (erase_copy (js_src J p).1 (js_dst J p).1 ((js_src J p).2 * sz) ((js_dst J p).2 * sz) sz;;
      rc ← boot_write_status state bs; status_assert (rc =? 0);; mret bs')
    (λ b w', b = bs' ∧ journal (p + 1) w') (at_step p) w.
Proof using All.
  intros Hp Hint Hst Hj. apply wp_bind. eapply wp_mono; [by apply copy_wp| |].
  2: { intros w' Hj'. exists p. split; [lia|done]. }
  intros [] w1 [Hj1 Hh1]. apply wp_bind. eapply wp_mono; [by apply commit_entry_wp| |].
  - intros rc w2 [-> Hj2]. unfold status_assert. cbn [Z.eqb].
    destruct MCUBOOT_VALIDATE_PRIMARY_SLOT; apply wp_bind, wp_ret, wp_ret; auto.
  - intros w2 [Hj2|Hj2]; [exists (p + 1)|exists p]; (split; [lia|done]).
Qed.

End Positions.

(** ** Reading the entries *)

(** [m] is one above the last entry that is written. *)
Definition last_entry fa (m : Z) w : Prop :=
  (0 < m → entry_written fa (m - 1) w) ∧ ∀ e, m <= e < status_entries → entry_blank fa e w.

Lemma status_scan_wp fa m w :
  uses SWAP_USING_OFFSET = true ∨ uses SWAP_USING_MOVE = true →
  fm_ok w → trailer_area fa → last_entry fa m w → 0 <= m <= status_entries →
  wp (loop (S (Z.to_nat status_entries))
        (status_bytes_step fa (entry_off fa 0) (flash_area_align fa)) (status_entries, -1, 0, 1))
    (λ r w', w' = w ∧ ∃ n, r = inr (if 0 <? m then m else -1, n) ∧ n <= 1) (λ _, False) w.
Proof.
  intros Hmode Hok Hta [Hlast Hblank] Hm. pose proof (ta_align_bounds fa (ta_area _ Hta)). pose proof (ta_size_u32 fa Hta).
  pose proof swap_size_fld_ge. pose proof (fld_bounds fa swap_size_fld Hta ltac:(lia)) as (_ & ? & _).
  apply (wp_loop (λ '(i, found, n, rc) w', w' = w ∧ 0 <= i <= status_entries ∧
                    found = (if i <? m then m else -1) ∧ (rc = 1 ∧ n = 0 ∨ rc = 0 ∧ n <= 1))
           (λ '(i, _, _, _), i)).
  - intros [[[i found] n] rc] w' (-> & Hi & -> & Hn). unfold status_bytes_step. case_if Hpos.
    { apply wp_ret. replace i with 0 by lia. split; [done|]. exists n. split; [done|lia]. }
    destruct (swap_entry_bounds Hmode fa (i - 1) Hta ltac:(lia)) as (? & ? & _).
    assert (Hoff : entry_off fa 0 ⊕ (i - 1) * flash_area_align fa = entry_off fa (i - 1)).
    { rewrite u32_small; [unfold entry_off; lia|]. unfold entry_off in *. unfold is_u32. lia. }
    rewrite Hoff. apply wp_bind. eapply wp_pure; [apply fm_read; (done || apply Hta || lia)|]. cbn [Z.ltb Z.compare].
    assert (Hns : ∀ x, x = n ∨ rc = 1 ∧ x = n + 1 → 0 = 1 ∧ x = 0 ∨ 0 = 0 ∧ x <= 1) by lia.
    destruct (decide (i = m)) as [->|Hne].
    + destruct (Hlast ltac:(lia)) as (st & Hst1 & ->).
      rewrite erased_1, (proj2 (Z.eqb_neq _ _)) by (pose proof (ta_ev _ Hta); lia).
      apply wp_ret. split; [|lia]. split_and!; [done|lia|lia| |lia].
      by rewrite Z.ltb_irrefl, (proj2 (Z.ltb_lt (m - 1) m)) by lia.
    + assert (Hlt : (i - 1 <? m) = (i <? m)) by lia. case (bootutil_buffer_is_erased _ _) eqn:Her.
      * apply wp_ret. split; [|lia]. rewrite Hlt. split_and!; [done|lia|lia|done|]. apply Hns. destruct Hn as [[-> ->]|[-> Hn]]; cbn; lia.
      * destruct (i <? m) eqn:Him; zsimp.
        -- rewrite (proj2 (Z.eqb_neq m (-1))) by lia. apply wp_ret. split; [|lia].
           rewrite (proj2 (Z.ltb_lt (i - 1) m)) by lia. split_and!; try done; lia.
        -- destruct (Hblank (i - 1) ltac:(lia)) as [Hb _]. by rewrite Hb, erased_1, Z.eqb_refl in Her.
  - split_and!; [done|lia|lia| |lia]. rewrite (proj2 (Z.ltb_ge _ _)) by lia. done.
  - lia.
  - lia.
Qed.
End Journal.
