(* ===== verification/SwapTrailer.v ===== *)
(** * Preparing the trailers of a swap

    [swap_scramble_trailer_sectors] blanks a trailer, the magic first;
    [swap_status_init] then records the swap in it, the magic last.  A reset in
    between leaves a slot without good magic. *)

From S2P Require Import Prelude Effects FlashMap BootConfig Trailer TrailerProps SwapState SwapStateProps.
From S2P Require Import Area AreaProps Image LoaderState SwapMisc SwapOffset LoaderProps SwapOffsetProps.

#[local] Set Default Proof Using "All".

Section SwapTrailer.
  Context {W : Type} `{FlashMapOk W} `{BootConfigOk}.
  Implicit Types (fa : flash_area) (w : W).
  Hypothesis Hmode : uses SWAP_USING_OFFSET = true ∨ uses SWAP_USING_MOVE = true.
  Hypothesis Hlog : MCUBOOT_LOGICAL_SECTOR_SIZE = 0.

(** An area of a device with erase, with a trailer at or above [lim], which is a
    sector boundary.  Sectors hold the magic. *)
Record scramble_area fa (lim : Z) : Prop := {
  sa_trailer : trailer_area fa;
  sa_erase : device_requires_erase fa = true;
  sa_sizes : Forall (λ n, 16 <= n) (fm_sizes fa);
  sa_lim : 0 <= lim <= entry_off fa 0;
  sa_boundary : ∃ i, (i <= length (fm_sizes fa))%nat ∧ lim = sector_off (fm_sizes fa) i;
}.

#[local] Abbreviation so fa k := (sector_off (fm_sizes fa) k).

Lemma sizes_big fa lim : scramble_area fa lim → Forall (λ n, 1 < n) (fm_sizes fa).
Proof. intros Hsa. eapply list.Forall_impl; [exact (sa_sizes _ _ Hsa)|]. cbn. lia. Qed.

Lemma entry_off_0_bounds fa : trailer_area fa → 0 <= entry_off fa 0 <= fa_size fa - 16.
Proof.
  intros Hta. pose proof bc_sectors. pose proof swap_size_fld_ge. pose proof (ta_align_bounds fa (ta_area _ Hta)).
  destruct (swap_entry_bounds Hmode fa 0 Hta (first_entry Hmode)) as (? & ? & _).
  assert (Hssf : 0 <= swap_size_fld <= swap_size_fld) by lia.
  destruct (fld_bounds fa swap_size_fld Hta Hssf) as (_ & ? & _). lia.
Qed.

(** The sector that holds the start of the trailer. *)
Lemma trailer_sector fa lim w :
  fm_ok w → scramble_area fa lim →
  ∃ i, in_sector (fm_sizes fa) i (entry_off fa 0) ∧ lim <= so fa i <= entry_off fa 0.
Proof.
  intros Hok Hsa. pose proof (sa_trailer _ _ Hsa) as Hta. pose proof (entry_off_0_bounds fa Hta).
  assert (Hin : 0 <= entry_off fa 0 < fa_size fa) by lia.
  destruct (sector_of w fa _ Hok (ta_area _ Hta) Hin) as [i Hi]. exists i.
  split; [done|]. pose proof (in_sector_S _ _ _ Hi). split; [|lia].
  destruct (sa_boundary _ _ Hsa) as (j & Hj & ->). pose proof (sa_lim _ _ Hsa).
  apply so_le; [apply Hta|]. destruct (decide (j <= i)%nat); [done|].
  pose proof (so_le fa (ta_area _ Hta) (S i) j ltac:(lia)). lia.
Qed.

Lemma scramble_offset_eq fa lim w i :
  fm_ok w → scramble_area fa lim → in_sector (fm_sizes fa) i (entry_off fa 0) →
  boot_trailer_scramble_offset fa (flash_area_align fa) w = (Ret (inr (so fa i)), w).
Proof.
  intros Hok Hsa Hi. pose proof (sa_trailer _ _ Hsa) as Hta. pose proof (entry_off_0_bounds fa Hta).
  pose proof (ta_size_u32 fa Hta). pose proof (ta_fit _ Hta). unfold boot_trailer_scramble_offset.
  rewrite Z.ltb_irrefl, (sa_erase _ _ Hsa), Hlog. cbn [Z.eqb negb].
  replace (fa_size fa ⊖ boot_trailer_sz (flash_area_align fa)) with (entry_off fa 0).
  2: { unfold entry_off in *. rewrite u32_small by (unfold is_u32; lia). lia. }
  erewrite bind_ret by (apply (get_sector_in fa (ta_area _ Hta)); done). done.
Qed.

(** The trailer from the status entries to the end is erased. *)
Definition blank_trailer fa w : Prop :=
  slice (fm_cells w fa) (entry_off fa 0) (fa_size fa - entry_off fa 0) =
    erased (flash_area_erased_val fa) (fa_size fa - entry_off fa 0).

Lemma erased_tail_magic fa a w w' :
  fm_ok w → trailer_area fa → 0 <= a <= fa_size fa - 16 → erased_range fa w a (fa_size fa) w' →
  magic (area_state w' fa) = BOOT_MAGIC_UNSET.
Proof.
  intros Hok Hta Ha (Hok' & Hc & _). pose proof (fm_len w fa Hok (ta_area _ Hta)) as Hlen.
  unfold area_state, trailer_state. cbn [magic]. rewrite <- vals_slice, Hc. unfold erase_span.
  rewrite slice_splice_inside; rewrite ?zlen_erased; try lia. rewrite slice_erased, vals_erased by lia.
  unfold decode_magic. replace (bootutil_buffer_is_erased _ _) with true; [done|]. symmetry.
  unfold bootutil_buffer_is_erased. rewrite zlen_replicate. cbn [Z.eqb].
  change (Z.to_nat 16) with 16%nat. cbn. by rewrite !Z.eqb_refl.
Qed.

Lemma scramble_trailer_wp state fa lim w :
  fm_ok w → scramble_area fa lim → write_sz state = flash_area_align fa →
  wp (swap_scramble_trailer_sectors state fa)
    (λ rc w', rc = 0 ∧ only_range fa lim (fa_size fa - lim) w w' ∧ blank_trailer fa w' ∧
              magic (area_state w' fa) = BOOT_MAGIC_UNSET)
    (λ w', only_range fa lim (fa_size fa - lim) w w' ∧
           (fm_cells w' fa = fm_cells w fa ∨ magic (area_state w' fa) = BOOT_MAGIC_UNSET)) w.
Proof.
  intros Hok Hsa Hws. pose proof (sa_trailer _ _ Hsa) as Hta. pose proof (ta_area _ Hta) as Ha.
  pose proof (entry_off_0_bounds fa Hta). pose proof (ta_size_u32 fa Hta). pose proof (sizes_big _ _ Hsa) as Hbig.
  destruct (trailer_sector fa lim w Hok Hsa) as (i & Hi & Hlim). pose proof (sa_lim _ _ Hsa).
  pose proof (in_sector_length _ _ _ Hi) as Hil. destruct (fm_sizes_ok fa Ha) as [_ Htot].
  set (n := length (fm_sizes fa)) in *. assert (Hn : S (n - 1) = n) by lia.
  assert (Hlast : in_sector (fm_sizes fa) (n - 1) (so fa i + (fa_size fa - so fa i) - 1)).
  { apply in_sector_at; [lia|]. rewrite Hn, Htot. pose proof (so_step fa Hbig (n - 1) ltac:(lia)) as Hs.
    rewrite Hn, Htot in Hs. lia. }
  unfold swap_scramble_trailer_sectors. rewrite Hws.
  apply wp_bind. eapply wp_pure; [by eapply scramble_offset_eq|]. cbn beta iota.
  apply wp_bind. rewrite u32_small by (unfold is_u32; lia). unfold boot_scramble_region.
  rewrite (proj2 (Z.eqb_neq _ 0)), (sa_erase _ _ Hsa) by lia.
  eapply wp_mono; [apply (erase_region_wp w fa (so fa i) (fa_size fa - so fa i) true i (n - 1)); try done; try lia| |].
  - apply Hsa.
  - destruct Hi as (sz & Hsz & ?). exists sz. split; [done|]. pose proof (Forall_lookup_1 _ _ _ _ Hbig Hsz). cbn in *. lia.
  - rewrite Hn, Htot. intros rc w' [-> Her]. cbn [Z.ltb Z.compare]. apply wp_ret. split_and!; [done| | |].
    + eapply (erased_range_only fa lim _ (so fa i) (fa_size fa)); try done; lia.
    + destruct Her as (_ & Hc & _). unfold blank_trailer. rewrite Hc. unfold erase_span.
      pose proof (fm_len w fa Hok Ha). rewrite slice_splice_inside; rewrite ?zlen_erased; try lia. apply slice_erased; lia.
    + eapply (erased_tail_magic fa (so fa i) w w'); try done. lia.
  - intros w' (k & l & Hkl & _ & -> & Her). rewrite Hn, Htot in Her.
    pose proof (so_le fa Ha i k ltac:(lia)). pose proof (so_bounds fa Ha k ltac:(lia)). split.
    { eapply (erased_range_only fa lim _ (so fa k) (fa_size fa)); try done; lia. }
    destruct (decide (k = n)) as [->|Hk].
    + left. destruct Her as (_ & Hc & _). rewrite Hc, Htot. unfold erase_span. rewrite Z.sub_diag.
      apply (splice_nil (A := cell)). lia.
    + right. eapply (erased_tail_magic fa (so fa k) w w'); try done.
      destruct (lookup_lt_is_Some_2 (fm_sizes fa) (n - 1) ltac:(lia)) as [sz Hsz].
      pose proof (Forall_lookup_1 _ _ _ _ (sa_sizes _ _ Hsa) Hsz). pose proof (sector_off_S _ _ _ Hsz) as Hso.
      rewrite Hn, Htot in Hso. pose proof (so_le fa Ha k (n - 1) ltac:(lia)). cbn in *. lia.
Qed.

(** ** Initialising the status *)

#[local] Abbreviation top fa := (fld fa swap_size_fld).

Lemma top_bounds fa : trailer_area fa → entry_off fa 0 <= top fa ∧ 0 <= top fa <= fa_size fa - 16.
Proof.
  intros Hta. pose proof bc_sectors. pose proof swap_size_fld_ge. pose proof (ta_align_bounds fa (ta_area _ Hta)).
  destruct (swap_entry_bounds Hmode fa 0 Hta (first_entry Hmode)) as (? & ? & _).
  destruct (fld_bounds fa swap_size_fld Hta) as (? & ? & _); lia.
Qed.

(** Unit [n] of the trailer. *)
Definition unit_cells fa w (n : Z) : list cell := slice (fm_cells w fa) (fld fa n) (unit_len n).

Lemma unit_bounds fa n :
  trailer_area fa → 0 <= n <= swap_size_fld → top fa <= fld fa n ∧ fld fa n + unit_len n <= fa_size fa ∧ 8 <= unit_len n.
Proof.
  intros Hta Hn. pose proof (fld_unit_fits fa n Hta Hn) as Hf. pose proof swap_size_fld_ge.
  unfold fld, unit_len in *. destruct (n =? 0), max_align_cases as [Ha | [Ha | Ha]]; rewrite Ha in *; lia.
Qed.

Lemma blank_unit fa w n :
  trailer_area fa → blank_trailer fa w → 0 <= n <= swap_size_fld →
  unit_cells fa w n = erased (flash_area_erased_val fa) (unit_len n).
Proof.
  intros Hta Hb Hn. pose proof (unit_bounds fa n Hta Hn) as (? & ? & ?). pose proof (top_bounds fa Hta).
  pose proof (entry_off_0_bounds fa Hta). unfold unit_cells.
  replace (slice (fm_cells w fa) (fld fa n) (unit_len n)) with
    (slice (slice (fm_cells w fa) (entry_off fa 0) (fa_size fa - entry_off fa 0)) (fld fa n - entry_off fa 0) (unit_len n)).
  - rewrite Hb. apply slice_erased; lia.
  - rewrite slice_slice by lia. f_equal. lia.
Qed.

Section Init.
  Context (fa : flash_area) (t num p q : Z) (w0 : W).
  Hypothesis Hta : trailer_area fa.

#[local] Abbreviation bytes w o n := (slice (vals (fm_cells w fa)) o n).

(** What the written units hold. *)
Definition unit_content (n : Z) w : Prop :=
  if n =? 0 then bytes w (fa_size fa - 16) 16 = BOOT_IMG_MAGIC
  else if n =? 3 then bytes w (fld fa 3) 1 = [t + num * 16]
  else if (n =? 4) && uses SWAP_USING_OFFSET then bytes w (fld fa 4) 4 = le_enc 4 (p + q * 2 ^ 16)
  else True.

(** The units [ws] have been written, the others are still erased. *)
Record init_state (ws : list Z) w : Prop := {
  is_ok : fm_ok w;
  is_range : only_range fa (top fa) (fa_size fa - top fa) w0 w;
  is_blank n : 0 <= n <= swap_size_fld → n ∉ ws → unit_cells fa w n = erased (flash_area_erased_val fa) (unit_len n);
  is_content n : n ∈ ws → unit_content n w;
}.

Lemma other_unit n d w w' m :
  fm_ok w → 0 <= n <= swap_size_fld → 0 <= m <= swap_size_fld → m ≠ n → zlen d <= unit_len n → wrote fa (fld fa n) d w w' →
  unit_cells fa w' m = unit_cells fa w m.
Proof.
  intros Hok Hn Hm Hne Hd (_ & Hc & _). unfold unit_cells. rewrite Hc. pose proof swap_size_fld_ge.
  pose proof (unit_bounds fa m Hta Hm). apply slice_other_fld; rewrite ?zlen_written, ?(fm_len w fa); try done; try lia.
  apply Hta.
Qed.

Lemma content_cells m w w' : 0 <= m <= swap_size_fld → unit_cells fa w' m = unit_cells fa w m → unit_content m w → unit_content m w'.
Proof.
  intros Hm Hu. pose proof (unit_bounds fa m Hta Hm) as (? & ? & ?). pose proof (top_bounds fa Hta).
  assert (Hsub : ∀ o n, 0 <= o → 0 <= n → o + n <= unit_len m → bytes w' (fld fa m + o) n = bytes w (fld fa m + o) n).
  { intros o n Ho Hn Hl. rewrite <- !vals_slice, <- !(slice_slice _ (fld fa m) (unit_len m)) by lia.
    unfold unit_cells in Hu. by rewrite Hu. }
  unfold unit_content. destruct (m =? 0) eqn:H0m; zsimp; [|destruct (m =? 3) eqn:H3m; zsimp; [|destruct ((m =? 4) && uses SWAP_USING_OFFSET) eqn:H4m; [apply andb_prop in H4m as [H4m _]; zsimp|done]]].
  - subst m. assert (Hf : fa_size fa - 16 = fld fa 0 + (unit_len 0 - 16)) by (unfold fld, unit_len; cbn; lia).
    unfold unit_len in *. cbn [Z.eqb] in *. rewrite !Hf, Hsub by lia. done.
  - subst m. specialize (Hsub 0 1). rewrite Z.add_0_r in Hsub. rewrite Hsub by lia. done.
  - subst m. specialize (Hsub 0 4). rewrite Z.add_0_r in Hsub. rewrite Hsub by lia. done.
Qed.

Lemma init_step n d ws w w' :
  init_state ws w → 0 <= n <= swap_size_fld → n ∉ ws → Forall (λ m, 0 <= m <= swap_size_fld) ws → zlen d <= unit_len n →
  wrote fa (fld fa n) d w w' → unit_content n w' → init_state (n :: ws) w'.
Proof.
  intros [Hok Hr Hb Hc] Hn Hnin Hws Hd Hw Hcn. pose proof (unit_bounds fa n Hta Hn). pose proof (top_bounds fa Hta).
  split.
  - apply Hw.
  - eapply only_range_trans; [exact Hr|]. apply (only_range_sub fa _ _ (fld fa n) (zlen d)); [lia|lia|].
    apply wrote_only_range; try done; try lia. apply Hta.
  - intros m Hm Hmin. rewrite (other_unit n d w w' m); try done.
    + apply Hb; [done|]. intros Hin. apply Hmin, elem_of_cons. by right.
    + intros ->. apply Hmin, elem_of_cons. by left.
  - intros m Hm. apply elem_of_cons in Hm as [->|Hm]; [done|]. rewrite list.Forall_forall in Hws.
    apply (content_cells m w); [by apply Hws| |by apply Hc]. apply (other_unit n d); try done; [by apply Hws|].
    intros ->. done.
Qed.

Lemma init_writable n ws w : init_state ws w → 0 <= n <= swap_size_fld → n ∉ ws → writable w fa (fld fa n) (unit_len n).
Proof.
  intros Hi Hn Hnin. right. pose proof (is_blank _ _ Hi n Hn Hnin) as Hu. unfold unit_cells in Hu.
  rewrite Hu. apply all_fresh_erased.
Qed.

Lemma init_same ws w w' : init_state ws w → same_flash w w' → only_range fa (top fa) (fa_size fa - top fa) w0 w'.
Proof.
  intros Hi Hs. eapply only_range_trans; [apply Hi|]. apply same_flash_only_range; [apply Hta|done].
Qed.

Lemma op_content op w w' :
  fm_ok w → op_ok op → (op = WriteMagic ∨ op = WriteImageOk ∨ op = WriteSwapInfo t num) →
  wrote fa (fld fa (op_fld op)) (op_data op fa) w w' → unit_content (op_fld op) w'.
Proof.
  intros Hok Hop Hor (_ & Hc & _). pose proof (fm_len w fa Hok (ta_area _ Hta)) as Hlen. pose proof swap_size_fld_ge.
  unfold unit_content. rewrite Hc, vals_splice, vals_written. destruct Hor as [->|[->| ->]]; cbn [op_fld Z.eqb]; [|done|].
  - pose proof (unit_bounds fa 0 Hta ltac:(lia)) as (? & ? & _). pose proof (top_bounds fa Hta).
    unfold unit_len in *. cbn [Z.eqb] in *. pose proof zlen_magic as Hzm. unfold BOOT_MAGIC_SZ in Hzm. cbn [op_data].
    assert (Hz : zlen (replicate (Z.to_nat (Z.max 16 BOOT_MAX_ALIGN - 16)) (flash_area_erased_val fa)) =
                 Z.max 16 BOOT_MAX_ALIGN - 16) by (rewrite zlen_replicate; lia).
    assert (Hf : fa_size fa - 16 - fld fa 0 = Z.max 16 BOOT_MAX_ALIGN - 16) by (unfold fld; lia).
    rewrite slice_splice_inside; rewrite ?zlen_app, ?Hz, ?Hzm, ?zlen_vals; try lia.
    rewrite slice_app_r, Hf, Hz, Z.sub_diag by lia. rewrite <- Hzm. apply slice_full.
  - cbn [op_data]. apply slice_own_unit; [done|by rewrite zlen_vals|lia].
Qed.

Lemma init_op_wp op ws w :
  init_state ws w → op_ok op → (op = WriteMagic ∨ op = WriteImageOk ∨ op = WriteSwapInfo t num) →
  op_fld op ∉ ws → Forall (λ m, 0 <= m <= swap_size_fld) ws →
  wp (run_op op fa) (λ rc w', rc = 0 ∧ init_state (op_fld op :: ws) w')
    (only_range fa (top fa) (fa_size fa - top fa) w0) w.
Proof.
  intros Hi Hop Hor Hnin Hws. pose proof (op_fld_range op). pose proof swap_size_fld_ge. pose proof (zlen_op_data op fa Hta).
  assert (Hdone : ∀ w', wrote fa (fld fa (op_fld op)) (op_data op fa) w w' → init_state (op_fld op :: ws) w').
  { intros w' Hw. eapply init_step; try done; try lia. eapply op_content; [apply Hi|done|done|exact Hw]. }
  eapply wp_mono; [apply run_op_wp; try done; [apply Hi|]| |].
  - rewrite op_len_unit. apply (init_writable _ ws); [done|lia|done].
  - intros rc w' [-> Hw]. split; [done|by apply Hdone].
  - intros w' [Hw|Hs]; [apply (is_range _ _ (Hdone w' Hw))|by eapply init_same].
Qed.

Lemma init_word_wp n z ws w :
  init_state ws w → 4 <= n <= swap_size_fld → (n = 4 → uses SWAP_USING_OFFSET = true → z = p + q * 2 ^ 16) → n ∉ ws → Forall (λ m, 0 <= m <= swap_size_fld) ws →
  wp (boot_write_trailer fa (fld fa n) (le_enc 4 z)) (λ rc w', rc = 0 ∧ init_state (n :: ws) w')
    (only_range fa (top fa) (fa_size fa - top fa) w0) w.
Proof.
  intros Hi Hn Hz Hnin Hws. pose proof (is_ok _ _ Hi) as Hok. pose proof (fm_len w fa Hok (ta_area _ Hta)) as Hlen.
  pose proof (unit_bounds fa n Hta ltac:(lia)) as (? & ? & _). pose proof (top_bounds fa Hta). pose proof swap_size_fld_ge.
  destruct (fld_bounds fa n Hta ltac:(lia)) as (_ & _ & Hm).
  pose proof (zlen_le_enc 4 z) as Hl. change (Z.of_nat 4) with 4 in Hl.
  pose proof (zlen_padded fa (le_enc 4 z) Hta ltac:(lia)) as [Hp _]. rewrite Hl in Hp.
  assert (Hu : unit_len n = BOOT_MAX_ALIGN) by (unfold unit_len; rewrite (proj2 (Z.eqb_neq n 0)); lia).
  assert (Hdone : ∀ w', wrote fa (fld fa n) (padded fa (le_enc 4 z)) w w' → init_state (n :: ws) w').
  { intros w' Hw. eapply init_step; try done; try lia. unfold unit_content.
    rewrite (proj2 (Z.eqb_neq n 0)), (proj2 (Z.eqb_neq n 3)) by lia.
    destruct ((n =? 4) && _) eqn:Hn4; [|done]. apply andb_prop in Hn4 as [Hn4 Huse]. zsimp. subst n. rewrite <- Hz by done.
    destruct Hw as (_ & Hc & _). rewrite Hc, vals_splice, vals_written, slice_splice_inside by (rewrite ?zlen_vals; lia).
    rewrite Z.sub_diag. unfold padded. rewrite slice_app_l by lia. rewrite <- Hl. apply slice_full. }
  eapply wp_mono; [apply write_trailer_wp; try done; try lia; [apply le_enc_bytes|]| |].
  - apply (writable_sub w fa (fld fa n) _ (unit_len n)); [lia|]. apply (init_writable _ ws); [done|lia|done].
  - intros rc w' [-> Hw]. split; [done|by apply Hdone].
  - intros w' [Hw|Hs]; [apply (is_range _ _ (Hdone w' Hw))|by eapply init_same].
Qed.
End Init.

(** The record of a swap of type [t] for image [num], with the TLV sizes [tlv_p] and
    [tlv_s], in the trailer of [fa]. *)
Record swap_record fa (t num tlv_p tlv_s : Z) w : Prop := {
  sr_magic : magic (area_state w fa) = BOOT_MAGIC_GOOD;
  sr_copy_done : copy_done (area_state w fa) = BOOT_FLAG_UNSET;
  sr_info : slice (vals (fm_cells w fa)) (fld fa 3) 1 = [t + num * 16];
  sr_tlv : uses SWAP_USING_OFFSET = true → slice (vals (fm_cells w fa)) (fld fa 4) 4 = le_enc 4 (tlv_p + tlv_s * 2 ^ 16);
}.

Lemma init_record fa t num p q w0 ws w :
  trailer_area fa → init_state fa t num p q w0 ws w → 0 ∈ ws → 3 ∈ ws → (uses SWAP_USING_OFFSET = true → 4 ∈ ws) → 2 ∉ ws →
  swap_record fa t num p q w.
Proof.
  intros Hta Hi He0 He3 He4 Hn2. pose proof swap_size_fld_ge. pose proof (is_content _ _ _ _ _ _ _ _ Hi) as Hc. split.
  - unfold area_state, trailer_state. cbn [magic]. rewrite (Hc 0 He0). apply decode_magic_good.
  - unfold area_state, trailer_state. cbn [copy_done].
    pose proof (is_blank _ _ _ _ _ _ _ _ Hi 2 ltac:(lia) Hn2) as Hb. unfold unit_cells in Hb.
    pose proof (unit_bounds fa 2 Hta ltac:(lia)) as (? & ? & ?). pose proof (top_bounds fa Hta).
    rewrite <- vals_slice. replace (slice (fm_cells w fa) (fld fa 2) 1) with
      (slice (slice (fm_cells w fa) (fld fa 2) (unit_len 2)) 0 1) by (rewrite slice_slice by lia; f_equal; lia).
    rewrite Hb, slice_erased, vals_erased by lia. change (replicate (Z.to_nat 1) ?x) with [x].
    unfold decode_flag. by rewrite erased_1, Z.eqb_refl.
  - exact (Hc 3 He3).
  - intros Hu. specialize (Hc 4 (He4 Hu)). unfold unit_content in Hc. by rewrite Hu in Hc.
Qed.

(** The upper part of the trailer determines the record. *)
Lemma record_tail fa t num p q w w' :
  trailer_area fa →
  slice (fm_cells w' fa) (top fa) (fa_size fa - top fa) = slice (fm_cells w fa) (top fa) (fa_size fa - top fa) →
  swap_record fa t num p q w → swap_record fa t num p q w'.
Proof.
  intros Hta Heq [Hm Hc Hi Ht]. pose proof (top_bounds fa Hta) as [_ ?]. pose proof swap_size_fld_ge.
  assert (Hs : ∀ o n, top fa <= o → 0 <= n → o + n <= fa_size fa →
    slice (vals (fm_cells w' fa)) o n = slice (vals (fm_cells w fa)) o n).
  { intros o n Ho Hn Hl. rewrite <- !vals_slice. replace o with (top fa + (o - top fa)) by lia.
    rewrite <- !(slice_slice _ _ (fa_size fa - top fa)) by lia. by rewrite Heq. }
  assert (Hu : ∀ n, 0 <= n <= 4 → top fa <= fld fa n ∧ fld fa n + 8 <= fa_size fa).
  { intros n Hn. pose proof (unit_bounds fa n Hta ltac:(lia)). lia. }
  pose proof (Hu 1 ltac:(lia)). pose proof (Hu 2 ltac:(lia)). pose proof (Hu 3 ltac:(lia)). pose proof (Hu 4 ltac:(lia)).
  unfold area_state, trailer_state in *. cbn [magic copy_done] in *.
  split; unfold area_state, trailer_state; cbn [magic copy_done]; rewrite Hs by lia; done.
Qed.

Lemma magic_tail fa lim w w' :
  trailer_area fa → lim <= entry_off fa 0 →
  (∀ o n, lim <= o → 0 <= o → slice (fm_cells w' fa) o n = slice (fm_cells w fa) o n) →
  magic (area_state w' fa) = magic (area_state w fa).
Proof.
  intros Hta Hlim Hs. pose proof (entry_off_0_bounds fa Hta).
  unfold area_state, trailer_state. cbn [magic]. rewrite <- !vals_slice, Hs by lia. done.
Qed.

(** The sizes of the TLV areas, recorded with swap using offset only. *)
Lemma tlv_init_wp fa t num p q ws w0 w :
  trailer_area fa → (uses SWAP_USING_OFFSET = true → is_u16 p ∧ is_u16 q) → init_state fa t num p q w0 ws w →
  (∀ n, n ∈ ws → n = 1 ∨ n = 3 ∨ n = swap_size_fld) → Forall (λ m, 0 <= m <= swap_size_fld) ws → 3 ∈ ws →
  wp (if uses SWAP_USING_OFFSET then
        rc ← boot_write_unprotected_tlv_sizes fa p q;
        assert (rc =? 0)
      else mret ())
    (λ _ w', ∃ ws', init_state fa t num p q w0 ws' w' ∧ (∀ n, n ∈ ws' → 1 <= n <= swap_size_fld ∧ n ≠ 2) ∧ 3 ∈ ws' ∧
       (uses SWAP_USING_OFFSET = true → 4 ∈ ws'))
    (only_range fa (top fa) (fa_size fa - top fa) w0) w.
Proof.
  intros Hta Hpq Hi Hel Hws Hin3. pose proof swap_size_fld_ge. unfold is_u16 in *.
  destruct (Bool.bool_dec (uses SWAP_USING_OFFSET) true) as [Hu|Hu%not_true_is_false]; rewrite Hu.
  - destruct (Hpq Hu) as [Hp Hq]. assert (H5 : swap_size_fld = 5) by (unfold swap_size_fld; by rewrite Hu).
    unfold boot_write_unprotected_tlv_sizes. rewrite (tlv_sizes_off_eq fa Hta).
    assert (Hv : Z.lor (u32 (Z.shiftl q 16)) p = p + q * 2 ^ 16).
    { rewrite u32_small by (unfold is_u32; rewrite Z.shiftl_mul_pow2; lia).
      rewrite Z.shiftl_mul_pow2, Z.lor_comm by lia. apply lor_shift; lia. }
    apply wp_bind. eapply wp_mono; [apply (init_word_wp fa _ _ _ _ w0 Hta 4 _ ws w Hi); [lia|done|intros ?%Hel; lia|done]| |done].
    intros rc w4 [-> Hi4]. apply wp_assert; [done|]. exists (4 :: ws). split_and!; [done| | |].
    + intros n [->|Hn%Hel]%elem_of_cons; lia.
    + apply elem_of_cons. by right.
    + intros _. apply elem_of_cons. by left.
  - apply wp_ret. exists ws. split_and!; [done| |done|done]. intros n Hn%Hel. lia.
Qed.

Lemma status_init_wp state fa bs w :
  let sec := BOOT_IMG_AREA state BOOT_SLOT_SECONDARY in
  let tlv slot := img_unprotected_tlv_size (BOOT_IMG state slot) in
  fm_ok w → trailer_area fa → trailer_area sec → blank_trailer fa w →
  1 <= bs_swap_type bs <= BOOT_SWAP_TYPE_REVERT → bs_swap_type bs ≠ BOOT_SWAP_TYPE_NONE →
  0 <= curr_img_idx state < 15 →
  (uses SWAP_USING_OFFSET = true → is_u16 (tlv BOOT_SLOT_PRIMARY) ∧ is_u16 (tlv BOOT_SLOT_SECONDARY)) →
  wp (swap_status_init state fa bs)
    (λ rc w', rc = 0 ∧ only_range fa (top fa) (fa_size fa - top fa) w w' ∧
       swap_record fa (bs_swap_type bs) (curr_img_idx state) (tlv BOOT_SLOT_PRIMARY) (tlv BOOT_SLOT_SECONDARY) w')
    (only_range fa (top fa) (fa_size fa - top fa) w) w.
Proof.
  intros sec tlv Hok Hta Hts Hblank Ht Htn Hnum Hpq. pose proof swap_size_fld_ge.
  set (inv := init_state fa (bs_swap_type bs) (curr_img_idx state) (tlv BOOT_SLOT_PRIMARY) (tlv BOOT_SLOT_SECONDARY) w).
  assert (Hi0 : inv [] w).
  { split; [done|by apply only_range_refl|intros; by apply blank_unit|by intros ? ?%elem_of_nil]. }
  unfold swap_status_init. fold sec. apply wp_bind. eapply wp_pure; [by apply read_swap_state_eq|]. cbn beta iota.
  rewrite (proj2 (Z.eqb_neq (bs_swap_type bs) BOOT_SWAP_TYPE_NONE)) by done. cbn [negb].
  apply wp_bind, wp_bind. eapply wp_mono; [apply (init_op_wp fa _ _ _ _ w Hta (WriteSwapInfo (bs_swap_type bs) (curr_img_idx state)) [] w Hi0);
    [done|auto|by intros ?%elem_of_nil|constructor]| |done].
  intros rc w1 [-> Hi1]. apply wp_assert; [done|]. cbn [op_fld] in Hi1. apply wp_bind.
  apply (wp_mono _ (λ _ w', ∃ ws, inv ws w' ∧ (ws = [3] ∨ ws = [1; 3])) _ (only_range fa (top fa) (fa_size fa - top fa) w)); [|clear w1 Hi1|done].
  - case_if Hok_s; [|apply wp_ret; eauto]. apply wp_bind.
    eapply wp_mono; [apply (init_op_wp fa _ _ _ _ w Hta WriteImageOk [3] w1 Hi1); [done|auto| |]| |done].
    + cbn. intros Hin%list_elem_of_singleton. lia.
    + repeat constructor; lia.
    + intros rc w2 [-> Hi2]. apply wp_assert; [done|]. eauto.
  - intros [] w2 (ws & Hi2 & Hws).
    assert (Hel : ∀ n, n ∈ ws → n = 1 ∨ n = 3).
    { intros n Hn. destruct Hws as [-> | ->]; rewrite ?elem_of_cons, elem_of_nil in Hn; lia. }
    assert (Hfa : Forall (λ m, 0 <= m <= swap_size_fld) ws).
    { apply list.Forall_forall. intros n Hn%Hel. lia. }
    assert (Hin3 : 3 ∈ ws) by (destruct Hws as [-> | ->]; rewrite !elem_of_cons; auto).
    apply wp_bind. unfold boot_write_swap_size. rewrite (swap_size_off_eq fa Hta).
    eapply wp_mono; [apply (init_word_wp fa _ _ _ _ w Hta swap_size_fld _ ws w2 Hi2); [lia| |intros ?%Hel; lia|done]| |done].
    { intros H4 Hu. unfold swap_size_fld in H4. by rewrite Hu in H4. }
    intros rc w3 [-> Hi3]. apply wp_bind, wp_assert; [done|]. apply wp_bind.
    apply (wp_mono _ (λ _ w', ∃ ws', inv ws' w' ∧ (∀ n, n ∈ ws' → 1 <= n <= swap_size_fld ∧ n ≠ 2) ∧ 3 ∈ ws' ∧
                        (uses SWAP_USING_OFFSET = true → 4 ∈ ws')) _ (only_range fa (top fa) (fa_size fa - top fa) w));
      [|clear w3 Hi3|done].
    + apply tlv_init_wp with (ws := swap_size_fld :: ws); [done..| | |].
      * intros n [->|Hn%Hel]%elem_of_cons; lia.
      * constructor; [lia|done].
      * apply elem_of_cons. by right.
    + intros [] w4 (ws' & Hi4 & Hel' & Hin3' & Hin4'). apply wp_bind.
      eapply wp_mono; [apply (init_op_wp fa _ _ _ _ w Hta WriteMagic ws' w4 Hi4); [done|auto| |]| |done].
      { intros Hn%Hel'. cbn in Hn. lia. }
      { apply list.Forall_forall. intros n Hn%Hel'. lia. }
      intros rc w5 [-> Hi5]. apply wp_bind, wp_assert; [done|]. apply wp_ret. split_and!; [done|apply Hi5|].
      eapply init_record; [done|exact Hi5|..]; cbn [op_fld]; rewrite ?elem_of_cons; auto.
      intros [?|Hn%Hel']; lia.
Qed.
End SwapTrailer.
