(* ===== verification/SwapRecover.v ===== *)
(** * Swap using offset: starting, resuming, completing

    Reading the status bytes gives the position of the interrupted swap; the trailer
    survives it; [swap_run] started afresh or from any interruption leaves the images
    exchanged, or is interrupted again at a point from which the same holds. *)

From S2P Require Import Prelude Effects FlashMap BootConfig Trailer TrailerProps SwapState SwapStateProps.
From S2P Require Import Area AreaProps Image LoaderState SwapMisc SwapOffset LoaderProps SwapOffsetProps Journal SwapTrailer.

#[local] Set Default Proof Using "Type*".

#[local] Abbreviation PRI state := (BOOT_IMG_AREA state BOOT_SLOT_PRIMARY).
#[local] Abbreviation SEC state := (BOOT_IMG_AREA state BOOT_SLOT_SECONDARY).

Section Recover.
  Context {W : Type} `{FlashMapOk W} `{BootConfigOk}.
  Implicit Types (fa : flash_area) (w : W).

(** ** Reading the status bytes *)

(** The status found after [m] entries. *)
Definition status_after (m : Z) (bs : boot_status) : boot_status :=
  if m =? 0 then bs else set_bs_op (set_bs_next bs (m / 2 + 1) (m mod 2 + 1)) BOOT_STATUS_OP_SWAP.

Lemma status_entries_max state fa :
  uses SWAP_USING_OFFSET = true → fa_id fa = FLASH_AREA_IMAGE_PRIMARY (curr_img_idx state) →
  boot_status_entries (curr_img_idx state) fa = 2 * MCUBOOT_MAX_IMG_SECTORS.
Proof.
  intros Hmode Hid. unfold boot_status_entries. rewrite (not_scratch Hmode), Hid, Z.eqb_refl. cbn [andb orb].
  by rewrite (state_count_2 Hmode).
Qed.

Lemma status_at_last fa m w :
  uses SWAP_USING_OFFSET = true → status_at fa m w → 0 <= m <= 2 * MCUBOOT_MAX_IMG_SECTORS → last_entry fa m w.
Proof.
  intros Hmode Hst Hm. assert (Hse : status_entries = 2 * MCUBOOT_MAX_IMG_SECTORS).
  { unfold status_entries. by rewrite (state_count_2 Hmode). }
  split.
  - intros Hpos. specialize (Hst (m - 1) ltac:(lia)). by rewrite (proj2 (Z.ltb_lt _ _)) in Hst by lia.
  - intros e He. specialize (Hst e ltac:(lia)). by rewrite (proj2 (Z.ltb_ge _ _)) in Hst by lia.
Qed.

Lemma read_status_bytes_eq state fa m bs w :
  uses SWAP_USING_OFFSET = true → fm_ok w → trailer_area fa → status_at fa m w →
  0 <= m <= 2 * MCUBOOT_MAX_IMG_SECTORS → write_sz state = flash_area_align fa →
  fa_id fa = FLASH_AREA_IMAGE_PRIMARY (curr_img_idx state) →
  swap_read_status_bytes fa state bs w = (Ret (0, status_after m bs), w).
Proof.
  intros Hmode Hok Hta Hst Hm Hws Hid. pose proof (ta_align_bounds fa (ta_area _ Hta)). pose proof bc_sectors.
  unfold swap_read_status_bytes. rewrite status_entries_max, (proj2 (Z.ltb_ge _ 0)) by (done || lia).
  rewrite Hws, u8_small by (unfold is_u8; lia). erewrite bind_ret by (by apply status_off_eq).
  assert (Hse : status_entries = 2 * MCUBOOT_MAX_IMG_SECTORS) by (unfold status_entries; by rewrite (state_count_2 Hmode)).
  rewrite <- Hse in *. rewrite Hse in Hm.
  destruct (wp_returns _ _ _ (status_scan_wp fa m w (or_introl Hmode) Hok Hta (status_at_last fa m w Hmode Hst Hm) ltac:(lia))) as (r & w' & Hr & -> & n & -> & Hn).
  erewrite bind_ret by exact Hr. cbn beta iota. rewrite (proj2 (Z.ltb_ge 1 n)) by lia. cbn [andb].
  unfold status_after. unfold mbind, M_bind, mret, M_ret. destruct (0 <? m) eqn:Hz; zsimp.
  - rewrite (proj2 (Z.eqb_neq m (-1))), (proj2 (Z.eqb_neq m 0)) by lia. done.
  - rewrite (proj2 (Z.eqb_eq m 0)) by lia. done.
Qed.

(** C21: the status bytes record how far a swap got: when the first [2k + s] entries
    have been written and the rest is erased, reading them back gives step [k] (counted
    from [BOOT_STATUS_IDX_0]) and half [s]; with no entry written the status stays
    as it was. *)
Theorem status_bytes_position state fa k s bs w :
  uses SWAP_USING_OFFSET = true → fm_ok w → trailer_area fa → write_sz state = flash_area_align fa →
  fa_id fa = FLASH_AREA_IMAGE_PRIMARY (curr_img_idx state) →
  0 <= k → 0 <= s <= 1 → 2 * k + s <= 2 * MCUBOOT_MAX_IMG_SECTORS → status_at fa (2 * k + s) w →
  ∃ bs', swap_read_status_bytes fa state bs w = (Ret (0, bs'), w) ∧
    if (k =? 0) && (s =? 0) then bs' = bs
    else bs_idx bs' = BOOT_STATUS_IDX_0 + k ∧ bs_state bs' = BOOT_STATUS_STATE_0 + s ∧
         bs_op bs' = BOOT_STATUS_OP_SWAP ∧ bs_swap_type bs' = bs_swap_type bs.
Proof.
  intros Hmode Hok Hta Hws Hid Hk Hs Hmax Hst.
  exists (status_after (2 * k + s) bs). split; [by apply read_status_bytes_eq; try lia|].
  unfold status_after. destruct (2 * k + s =? 0) eqn:Hz; zsimp.
  - rewrite (proj2 (Z.eqb_eq k 0)), (proj2 (Z.eqb_eq s 0)) by lia. done.
  - replace ((k =? 0) && (s =? 0)) with false by lia. cbn. unfold BOOT_STATUS_IDX_0, BOOT_STATUS_STATE_0.
    split_and!; [lia|lia|done|done].
Qed.

(** ** Sizes *)

Lemma find_last_idx_eq state sz last size w :
  0 < sz → 0 <= last → last * sz < size <= (last + 1) * sz → (last + 1) * sz < 4294967296 →
  boot_img_sector_size state BOOT_SLOT_PRIMARY 0 w = (Ret sz, w) →
  find_last_idx state size w = (Ret last, w).
Proof.
  intros Hsz Hlast Hsize Hmax Hs. unfold find_last_idx. rewrite (bind_ret _ _ _ _ _ Hs).
  match goal with |- ?c w = _ =>
    assert (Hwp : wp c (λ r w', r = last ∧ w' = w) (λ _, False) w) end.
  { apply (wp_loop (λ '(s, i) w', w' = w ∧ 0 <= i <= last ∧ s = i * sz) (λ '(_, i), last - i)).
    - intros [s i] w' (-> & Hi & ->). rewrite !u32_small by (unfold is_u32; nia). case_if Hle; apply wp_ret.
      + split; [|done]. nia.
      + assert (i < last) by nia. split; [|lia]. split_and!; [done|lia|lia|lia].
    - split_and!; lia || done.
    - nia.
    - lia. }
  by destruct (wp_returns _ _ _ Hwp) as (? & ? & -> & -> & ->).
Qed.

Lemma first_trailer_idx_gt sz tsz num last w :
  0 < sz → 0 < tsz → 0 <= last → (last + 1) * sz + tsz <= num * sz → num < 4294967296 → tsz + sz < 4294967296 →
  ∃ f, first_trailer_idx sz tsz num w = (Ret f, w) ∧ last < f.
Proof.
  intros Hsz Ht Hlast Hroom Hnum Hmax. unfold first_trailer_idx.
  match goal with |- ∃ f, ?c w = _ ∧ _ =>
    assert (Hwp : wp c (λ r w', last < r ∧ w' = w) (λ _, False) w) end.
  { apply (wp_loop (λ '(s, i) w', w' = w ∧ ∃ c, 0 <= c ∧ s = c * sz ∧ s < tsz ∧ i = num - 1 - c) (λ '(s, _), tsz - s)).
    - intros [s i] w' (-> & c & Hc & -> & Hlt & ->). rewrite (u32_small (c * sz + sz)) by (unfold is_u32; nia).
      assert (last + 1 + c < num) by nia. case_if Hle; apply wp_ret.
      + split; [lia|done].
      + rewrite u32_small by (unfold is_u32; lia). split; [|lia]. split; [done|]. exists (c + 1). split_and!; lia.
    - split; [done|]. exists 0. rewrite u32_small by (unfold is_u32; nia). split_and!; lia.
    - lia.
    - lia. }
  destruct (wp_returns _ _ _ Hwp) as (f & ? & -> & ? & ->). by exists f.
Qed.

(** ** Attempts *)

(** The worlds reached by running [c] and being reset, any number of times. *)
Inductive after_resets {A} (c : M W A) : W → W → Prop :=
| resets_none w : after_resets c w w
| resets_more w w1 w2 : c w = (Reset, w1) → after_resets c w1 w2 → after_resets c w w2.

Lemma wp_resets {A} (c : M W A) (Q : A → W → Prop) (I : W → Prop) w w' :
  (∀ w, I w → wp c Q I w) → I w → after_resets c w w' → wp c Q I w'.
Proof.
  intros Hc Hi Hr. induction Hr as [w|w w1 w2 Hrun Hr IH]; [by apply Hc|]. apply IH.
  specialize (Hc w Hi). unfold wp in Hc. by rewrite Hrun in Hc.
Qed.

(** One boot: read the status; resume the swap it records, or start the requested
    one, with the functions of a swap algorithm. *)
Definition swap_attempt (source : boot_loader_state → M W Z)
    (status_bytes : flash_area → boot_loader_state → boot_status → M W (Z * boot_status))
    (run : boot_loader_state → boot_status → Z → M W boot_status)
    (state : boot_loader_state) (t size : Z) : M W boot_status :=
  '(rc, bs) ← swap_read_status source status_bytes state boot_status_reset;
  assert (rc =? 0);;
  let bs := if bs_source bs =? BOOT_STATUS_SOURCE_NONE then set_bs_swap_size (set_bs_swap_type bs t) size else bs in
  run state bs size.

Definition upgrade_attempt : boot_loader_state → Z → Z → M W boot_status :=
  swap_attempt swap_status_source swap_read_status_bytes swap_run.

(** ** An upgrade *)

(** An upgrade of type [t] that exchanges [size] bytes, on a device with erase: the
    sectors [0 .. last] lie below the trailers of both slots. *)
Record upgrade_setup (state : boot_loader_state) (sz last size t : Z) : Prop := {
  up_swap : swap_setup state sz last;
  up_pair : slot_pair (curr_img_idx state) (PRI state) (SEC state);
  up_id : fa_id (PRI state) = FLASH_AREA_IMAGE_PRIMARY (curr_img_idx state);
  up_num : 0 <= curr_img_idx state < 15;
  up_logical : MCUBOOT_LOGICAL_SECTOR_SIZE = 0;
  up_align : flash_area_align (SEC state) = flash_area_align (PRI state);
  up_sector w : boot_img_sector_size state BOOT_SLOT_PRIMARY 0 w = (Ret sz, w);
  up_size : last * sz < size <= (last + 1) * sz;
  up_room : (last + 1) * sz + boot_trailer_sz (write_sz state) <= boot_img_num_sectors state BOOT_SLOT_PRIMARY * sz;
  up_sectors : boot_img_num_sectors state BOOT_SLOT_PRIMARY < 65536;
  up_pri : scramble_area (PRI state) ((last + 1) * sz);
  up_sec : scramble_area (SEC state) ((last + 2) * sz);
  up_type : t = BOOT_SWAP_TYPE_TEST ∨ t = BOOT_SWAP_TYPE_PERM;
  up_tlv_pri : is_u16 (img_unprotected_tlv_size (BOOT_IMG state BOOT_SLOT_PRIMARY));
  up_tlv_sec : is_u16 (img_unprotected_tlv_size (BOOT_IMG state BOOT_SLOT_SECONDARY));
}.

(** The number of sectors [swap_run] takes an image to occupy. *)
Definition image_sectors (state : boot_loader_state) (slot sz : Z) : Z :=
  let hdr := boot_img_hdr state slot in
  (ih_hdr_size hdr ⊕ img_unprotected_tlv_size (BOOT_IMG state slot) ⊕ ih_protect_tlv_size hdr
     ⊕ ih_img_size hdr ⊕ sz ⊖ 1) / sz.

Section Upgrade.
  Context (state : boot_loader_state) (sz last size t : Z) (P0 S0 : Z → list Z).
  Context (Hup : upgrade_setup state sz last size t).

#[local] Abbreviation pri := (PRI state).
#[local] Abbreviation sec := (SEC state).
#[local] Abbreviation tlv_p := (img_unprotected_tlv_size (BOOT_IMG state BOOT_SLOT_PRIMARY)).
#[local] Abbreviation tlv_s := (img_unprotected_tlv_size (BOOT_IMG state BOOT_SLOT_SECONDARY)).
#[local] Abbreviation used_p := (image_sectors state BOOT_SLOT_PRIMARY sz).
#[local] Abbreviation used_s := (image_sectors state BOOT_SLOT_SECONDARY sz).
#[local] Abbreviation prog := (progress state sz last false (λ i, used_p <? i) (λ i, used_s <? i) P0 S0).
#[local] Abbreviation imgs := (images state sz last false (λ i, used_p <? i) (λ i, used_s <? i) P0 S0).

(** The upgrade has started and stands at step [k], half [s]. *)
Definition running (k s : Z) w : Prop :=
  prog w k s w ∧ swap_record pri t (curr_img_idx state) tlv_p tlv_s w ∧
  magic (area_state w sec) = BOOT_MAGIC_UNSET.

(** The upgrade is requested and has not touched the images. *)
Definition requested w : Prop :=
  fm_ok w ∧ imgs 0 0 w ∧ magic (area_state w sec) = BOOT_MAGIC_GOOD.

Definition interrupted w : Prop := requested w ∨ ∃ k s, position last k s ∧ running k s w.

Lemma up_trailers : trailer_area pri ∧ trailer_area sec ∧ pri ≠ sec ∧ sec ≠ pri.
Proof using All. destruct (up_pair _ _ _ _ _ Hup) as [_ _ ? ? ?]. auto. Qed.

Lemma up_mode : uses SWAP_USING_OFFSET = true.
Proof using All. apply (up_swap _ _ _ _ _ Hup). Qed.

Lemma untouched_refl w : untouched state sz last w w.
Proof using All. by split. Qed.

(** Progress relative to a running world is running. *)
Lemma progress_running k s k1 s1 w1 w : running k1 s1 w1 → prog w1 k s w → running k s w.
Proof using All.
  intros (_ & Hrec & Hmag) (Hok & Him & Hst & Hun).
  split_and!; [split_and!; [done..|apply untouched_refl]| |].
  - eapply record_tail; [left; apply up_mode|apply Hup|apply up_trailers|apply Hun|done].
  - rewrite <- Hmag. apply (magic_tail (or_introl up_mode) (up_logical _ _ _ _ _ Hup) sec ((last + 2) * sz));
      [apply up_trailers|apply (up_sec _ _ _ _ _ Hup)|]. intros o m Ho _. by apply Hun.
Qed.

Lemma read_tlv_eq w :
  fm_ok w → swap_record pri t (curr_img_idx state) tlv_p tlv_s w →
  boot_read_unprotected_tlv_sizes pri w = (Ret (inr (tlv_p, tlv_s)), w).
Proof using All.
  intros Hok [_ _ _ Ht]. destruct up_trailers as (Hta & _). pose proof up_mode as Hmode. specialize (Ht Hmode).
  pose proof swap_size_fld_ge.
  pose proof (unit_bounds (or_introl Hmode) (up_logical _ _ _ _ _ Hup) pri 4 Hta ltac:(lia)).
  pose proof (top_bounds (or_introl Hmode) (up_logical _ _ _ _ _ Hup) pri Hta) as [_ ?].
  pose proof (up_tlv_pri _ _ _ _ _ Hup) as Hp. pose proof (up_tlv_sec _ _ _ _ _ Hup) as Hq.
  unfold boot_read_unprotected_tlv_sizes. rewrite tlv_sizes_off_eq by done.
  erewrite bind_ret by (apply fm_read; [done|apply Hta|lia..]). cbn beta iota zeta.
  rewrite Ht, le_dec_enc_u32 by (unfold is_u32, is_u16 in *; lia). cbn [Z.eqb].
  destruct (tlv_word_decode _ _ Hp Hq) as [-> ->]. done.
Qed.

Lemma running_not_revert k s w :
  running k s w → ∃ r, boot_swap_type_multi (curr_img_idx state) w = (Ret r, w) ∧ r ≠ BOOT_SWAP_TYPE_REVERT.
Proof using All.
  intros ((Hok & _) & [_ Hc _ _] & Hm). eexists. split; [apply swap_type_multi_eq; [done|apply Hup]|].
  unfold next_swap. rewrite Hc, Hm. cbn. by rewrite andb_false_r.
Qed.

(** Moving the sectors, from any position. *)
Lemma exchange_run_wp k s bs w :
  position last k s → running k s w → bs_idx bs = k + 1 → bs_state bs = s + 1 → bs_swap_type bs = t →
  wp (swap_exchange state bs last sz) (λ b w', bs_swap_type b = t ∧ running (last + 1) 0 w') interrupted w.
Proof using All.
  intros Hpos Hrun Hbi Hbs Hbt. pose proof Hrun as (Hpr & Hrec & Hmag). pose proof Hpr as (Hok & _).
  pose proof (up_swap _ _ _ _ _ Hup) as Hsu. pose proof (su_sz _ _ _ Hsu).
  unfold swap_exchange. apply wp_bind. eapply wp_pure; [by apply read_tlv_eq|]. cbn beta iota zeta.
  apply wp_bind. unfold used_sectors. apply wp_udiv; [lia|]. apply wp_bind, wp_udiv; [lia|].
  fold (image_sectors state BOOT_SLOT_PRIMARY sz) (image_sectors state BOOT_SLOT_SECONDARY sz).
  cbn [bs_swap_type set_bs_op]. rewrite Hbt.
  assert (Htr : (t =? BOOT_SWAP_TYPE_REVERT) = false) by (destruct (up_type _ _ _ _ _ Hup) as [-> | ->]; done).
  rewrite Htr. destruct (running_not_revert k s w Hrun) as (r & Hr & Hne).
  apply wp_bind, wp_bind. eapply wp_pure; [exact Hr|]. apply wp_ret.
  rewrite (proj2 (Z.eqb_neq _ _)) by done. apply wp_bind.
  eapply wp_mono; [apply (swap_loop_wp state sz last false used_p used_s P0 S0 w Hsu k s (set_bs_op bs BOOT_STATUS_OP_SWAP)); done| |].
  - intros b w' [-> Hpr']. apply wp_ret. split; [done|]. by eapply progress_running.
  - intros w' (k' & s' & Hpos' & Hpr'). right. exists k', s'. split; [done|]. by eapply progress_running.
Qed.

(** ** Initialising the trailers *)

Lemma images_sec_tail k s len w w' :
  only_range sec ((last + 2) * sz) len w w' → imgs k s w → imgs k s w'.
Proof using All.
  intros Hr [Hp1 Hp2 Hs1 Hs2]. pose proof (up_swap _ _ _ _ _ Hup) as Hsu. pose proof (su_sz _ _ _ Hsu).
  destruct up_trailers as (Hta & Hts & Hn1 & Hn2).
  assert (Hp : ∀ i, sect sz w' pri i = sect sz w pri i) by (intros; unfold sect; rewrite (proj2 (proj2 Hr)) by (done || apply Hta); done).
  assert (Hs : ∀ i, 0 <= i <= last + 1 → sect sz w' sec i = sect sz w sec i).
  { intros i Hi. unfold sect. rewrite <- !vals_slice, (proj1 (proj2 Hr)) by nia. done. }
  split.
  - intros i Hi Hlt. rewrite Hp. by apply Hp1.
  - intros i Hi Hlt. rewrite Hp. by apply Hp2.
  - intros i Hi Hlt. rewrite Hs by (cbn; lia). by apply Hs1.
  - intros x Hx Hne. rewrite Hs by lia. by apply Hs2.
Qed.

Lemma images_pri_tail k s off len w w' :
  (last + 1) * sz <= off → only_range pri off len w w' → imgs k s w → imgs k s w'.
Proof using All.
  intros Ho Hr [Hp1 Hp2 Hs1 Hs2]. pose proof (up_swap _ _ _ _ _ Hup) as Hsu. pose proof (su_sz _ _ _ Hsu).
  destruct up_trailers as (Hta & Hts & Hn1 & Hn2).
  assert (Hs : ∀ i, sect sz w' sec i = sect sz w sec i) by (intros; unfold sect; rewrite (proj2 (proj2 Hr)) by (done || apply Hts); done).
  assert (Hp : ∀ i, 0 <= i <= last → sect sz w' pri i = sect sz w pri i).
  { intros i Hi. unfold sect. rewrite <- !vals_slice, (proj1 (proj2 Hr)) by nia. done. }
  split.
  - intros i Hi Hlt. rewrite Hp by (cbn; lia). by apply Hp1.
  - intros i Hi Hlt. rewrite Hp by (cbn; lia). by apply Hp2.
  - intros i Hi Hlt. rewrite Hs. by apply Hs1.
  - intros x Hx Hne. rewrite Hs. by apply Hs2.
Qed.

(** Blanking the trailer of the secondary slot, once the swap is recorded in the
    primary slot. *)
Lemma sec_tail_running k s len w w' :
  only_range sec ((last + 2) * sz) len w w' → prog w k s w →
  swap_record pri t (curr_img_idx state) tlv_p tlv_s w → magic (area_state w' sec) = BOOT_MAGIC_UNSET →
  running k s w'.
Proof using All.
  intros Hr (Hok & Him & Hst & _) Hrec Hm. destruct up_trailers as (Hta & Hts & Hn1 & Hn2).
  assert (Hp : fm_cells w' pri = fm_cells w pri) by (apply Hr; [apply Hta|done]).
  split_and!; [split_and!| |done].
  - apply Hr.
  - by eapply images_sec_tail.
  - intros e He. specialize (Hst e He). unfold writable in *. by rewrite Hp.
  - apply untouched_refl.
  - eapply record_tail; [left; apply up_mode|apply Hup|done| |exact Hrec]. by rewrite Hp.
Qed.

Lemma blank_status w w' :
  fm_ok w → blank_trailer pri w →
  only_range pri (fld pri swap_size_fld) (fa_size pri - fld pri swap_size_fld) w w' → status_at pri 0 w'.
Proof using All.
  intros Hok Hb (Hok' & Hs & _) e He. destruct up_trailers as (Hta & _). pose proof up_mode as Hmode.
  rewrite (proj2 (Z.ltb_ge e 0)) by lia. destruct (entry_bounds Hmode pri e Hta He) as (? & ? & _).
  pose proof (ta_align_bounds pri (ta_area _ Hta)).
  pose proof (entry_off_0_bounds (or_introl Hmode) (up_logical _ _ _ _ _ Hup) pri Hta).
  pose proof (top_bounds (or_introl Hmode) (up_logical _ _ _ _ _ Hup) pri Hta).
  assert (Hcells : ∀ n, 0 <= n <= flash_area_align pri →
    slice (fm_cells w' pri) (entry_off pri e) n = erased (flash_area_erased_val pri) n).
  { intros n Hn. rewrite Hs by lia. assert (entry_off pri 0 <= entry_off pri e) by (unfold entry_off; nia).
    replace (entry_off pri e) with (entry_off pri 0 + (entry_off pri e - entry_off pri 0)) by lia.
    rewrite <- (slice_slice _ (entry_off pri 0) (fa_size pri - entry_off pri 0)) by lia.
    unfold blank_trailer in Hb. rewrite Hb. apply slice_erased; lia. }
  split; [rewrite <- vals_slice, Hcells, vals_erased by lia; done|]. right. rewrite Hcells by lia. apply all_fresh_erased.
Qed.

(** Blanking the trailer of the secondary slot. *)
Lemma scramble_sec_wp s w :
  0 <= s <= 1 → prog w 0 s w → swap_record pri t (curr_img_idx state) tlv_p tlv_s w →
  wp (rc ← swap_scramble_trailer_sectors state sec; assert (rc =? 0)) (λ _ w', running 0 s w')
    (λ w', running 0 s w' ∨ only_range sec ((last + 2) * sz) (fa_size sec - (last + 2) * sz) w w' ∧ fm_cells w' sec = fm_cells w sec) w.
Proof using All.
  intros Hs Hpr Hrec. pose proof (up_swap _ _ _ _ _ Hup) as Hsu. pose proof Hpr as (Hok & _).
  apply wp_bind. eapply wp_mono; [apply (scramble_trailer_wp (or_introl up_mode) (up_logical _ _ _ _ _ Hup) state sec ((last + 2) * sz) w Hok)| |].
  - apply Hup.
  - rewrite (up_align _ _ _ _ _ Hup). apply Hsu.
  - intros rc w' (-> & Hr & _ & Hm). apply wp_assert; [done|]. by eapply sec_tail_running.
  - intros w' [Hr [Hc|Hm]]; [by right|left]. by eapply sec_tail_running.
Qed.

Lemma resume_init_wp k s bs w :
  position last k s → running k s w → bs_idx bs = k + 1 → bs_source bs = BOOT_STATUS_SOURCE_PRIMARY_SLOT →
  wp (swap_init_areas state bs) (λ _ w', running k s w') interrupted w.
Proof using All.
  intros Hpos Hrun Hbi Hsrc. unfold swap_init_areas. rewrite Hsrc, Z.eqb_refl. cbn [negb].
  unfold BOOT_STATUS_IDX_0. rewrite Hbi. case_if Hk; [|by apply wp_ret].
  assert (k = 0) as -> by lia. apply wp_bind, wp_ret. pose proof Hrun as (Hpr & Hrec & Hmag).
  eapply wp_mono; [apply (scramble_sec_wp s); try done; unfold position in Hpos; lia|done|].
  intros w' [Hr|[Hr Hc]]; right; exists 0, s; (split; [done|]); [done|].
  eapply sec_tail_running; [exact Hr|done|done|]. unfold area_state. by rewrite Hc.
Qed.

Lemma requested_pri off len w w' :
  (last + 1) * sz <= off → only_range pri off len w w' → requested w → requested w'.
Proof using All.
  intros Ho Hr (Hok & Him & Hm). destruct up_trailers as (Hta & Hts & Hn1 & Hn2).
  split_and!; [apply Hr|by eapply images_pri_tail|]. unfold area_state. rewrite (proj2 (proj2 Hr)); [done|apply Hts|done].
Qed.

Lemma fresh_init_wp bs w :
  requested w → bs_idx bs = 1 → bs_source bs = BOOT_STATUS_SOURCE_NONE → bs_swap_type bs = t →
  wp (swap_init_areas state bs) (λ _ w', running 0 0 w') interrupted w.
Proof using All.
  intros Hreq Hbi Hsrc Hbt. pose proof Hreq as (Hok & _). destruct up_trailers as (Hta & Hts & Hn1 & Hn2).
  pose proof (up_swap _ _ _ _ _ Hup) as Hsu. pose proof up_mode as Hmode.
  pose proof (top_bounds (or_introl Hmode) (up_logical _ _ _ _ _ Hup) pri Hta) as [? _]. pose proof (su_pri_fit _ _ _ Hsu).
  unfold swap_init_areas. rewrite Hsrc, Hbi. cbn [Z.eqb BOOT_STATUS_IDX_0 BOOT_STATUS_SOURCE_NONE BOOT_STATUS_SOURCE_PRIMARY_SLOT negb].
  apply wp_bind, wp_bind.
  eapply wp_mono; [apply (scramble_trailer_wp (or_introl up_mode) (up_logical _ _ _ _ _ Hup) state pri ((last + 1) * sz) w Hok); [apply Hup|apply Hsu]| |].
  2: { intros w' [Hr _]. left. eapply requested_pri; [|exact Hr|done]. lia. }
  intros rc w1 (-> & Hr1 & Hb1 & _). apply wp_bind, wp_assert; [done|]. pose proof Hr1 as (Hok1 & _).
  assert (Hreq1 : requested w1) by (eapply requested_pri; [|exact Hr1|done]; lia).
  assert (Ht : 1 <= bs_swap_type bs <= BOOT_SWAP_TYPE_REVERT ∧ bs_swap_type bs ≠ BOOT_SWAP_TYPE_NONE).
  { rewrite Hbt. destruct (up_type _ _ _ _ _ Hup) as [-> | ->]; done. }
  apply wp_bind. eapply wp_mono; [apply (status_init_wp (or_introl Hmode) (up_logical _ _ _ _ _ Hup) state pri bs w1); try done; try apply Hup; try apply Ht; intros _; split; apply Hup| |].
  2: { intros w' Hr. left. eapply requested_pri; [|exact Hr|done]. lia. }
  intros rc w2 (-> & Hr2 & Hrec). rewrite Hbt in Hrec. apply wp_assert; [done|].
  assert (Hreq2 : requested w2) by (eapply requested_pri; [|exact Hr2|done]; lia).
  assert (Hpr : prog w2 0 0 w2).
  { split_and!; [apply Hr2|apply Hreq2|by eapply blank_status|apply untouched_refl]. }
  eapply wp_mono; [apply (scramble_sec_wp 0); [lia|done|done]|done|].
  intros w' [Hr|[Hr Hc]].
  - right. exists 0, 0. split; [unfold position; pose proof (su_last _ _ _ Hsu); lia|done].
  - left. split_and!; [apply Hr|eapply images_sec_tail; [exact Hr|apply Hreq2]|].
    unfold area_state. rewrite Hc. apply Hreq2.
Qed.

(** ** Running *)

Lemma fits_true bs w : swap_fits state bs last sz w = (Ret true, w).
Proof using All.
  unfold swap_fits. destruct (boot_status_is_reset bs); [|done]. pose proof (up_swap _ _ _ _ _ Hup) as Hsu.
  destruct up_trailers as (Hta & _). pose proof (ta_fit _ Hta). pose proof (ta_size_u32 pri Hta).
  pose proof (su_sz _ _ _ Hsu). pose proof (su_last _ _ _ Hsu). pose proof (su_pri_fit _ _ _ Hsu).
  pose proof (entry_off_0_bounds (or_introl up_mode) (up_logical _ _ _ _ _ Hup) pri Hta).
  pose proof (ta_align_bounds pri (ta_area _ Hta)) as Hal.
  assert (sz <= (last + 1) * sz) by nia.
  assert (Htsz : 0 < boot_trailer_sz (write_sz state) <= fa_size pri).
  { rewrite (su_write_sz _ _ _ Hsu). unfold entry_off in *. lia. }
  destruct (first_trailer_idx_gt sz (boot_trailer_sz (write_sz state)) (boot_img_num_sectors state BOOT_SLOT_PRIMARY) last w)
    as (f & Hf & Hlt); try lia; try apply Hup.
  - pose proof (up_sectors _ _ _ _ _ Hup). lia.
  - erewrite bind_ret by exact Hf. unfold mret, M_ret. do 2 f_equal. lia.
Qed.

Lemma swap_run_wp k s bs w :
  position last k s → bs_idx bs = k + 1 → bs_state bs = s + 1 → bs_swap_type bs = t →
  wp (swap_init_areas state bs) (λ _ w', running k s w') interrupted w →
  wp (swap_run state bs size) (λ b w', bs_swap_type b = t ∧ running (last + 1) 0 w') interrupted w.
Proof using All.
  intros Hpos Hbi Hbs Hbt Hinit. pose proof (up_swap _ _ _ _ _ Hup) as Hsu. unfold swap_run.
  destruct up_trailers as (Hta & _). pose proof (ta_size_u32 pri Hta).
  pose proof (entry_off_0_bounds (or_introl up_mode) (up_logical _ _ _ _ _ Hup) pri Hta). pose proof (su_pri_fit _ _ _ Hsu).
  apply wp_bind. eapply wp_pure; [apply (find_last_idx_eq state sz last size w); try apply Hsu; try apply Hup; lia|].
  apply wp_bind. eapply wp_pure; [apply Hup|]. apply wp_bind. eapply wp_pure; [apply fits_true|]. cbn [negb].
  unfold fixup_revert. rewrite Hbt.
  assert ((t =? BOOT_SWAP_TYPE_REVERT) = false) as -> by (destruct (up_type _ _ _ _ _ Hup) as [-> | ->]; done).
  cbn [negb orb]. apply wp_bind, wp_ret, wp_bind. eapply wp_mono; [exact Hinit| |done].
  intros [] w1 Hrun. by apply (exchange_run_wp k s).
Qed.

Lemma read_status_running k s w :
  position last k s → running k s w →
  ∃ bs, swap_read_status swap_status_source swap_read_status_bytes state boot_status_reset w = (Ret (0, bs), w) ∧
    bs_idx bs = k + 1 ∧ bs_state bs = s + 1 ∧ bs_swap_type bs = t ∧ bs_source bs = BOOT_STATUS_SOURCE_PRIMARY_SLOT.
Proof using All.
  intros Hpos (Hpr & [Hm Hc Hi _] & Hsm). pose proof Hpr as (Hok & _ & Hst & _). unfold position in Hpos.
  pose proof (up_swap _ _ _ _ _ Hup) as Hsu. destruct up_trailers as (Hta & Hts & _). pose proof (su_last _ _ _ Hsu).
  pose proof (fld_byte pri 3 Hta ltac:(lia)). pose proof (up_num _ _ _ _ _ Hup) as Hnum.
  assert (Htt : 2 <= t <= 3) by (destruct (up_type _ _ _ _ _ Hup) as [-> | ->]; done).
  assert (Hsrc : swap_status_source state w = (Ret BOOT_STATUS_SOURCE_PRIMARY_SLOT, w)).
  { unfold swap_status_source. erewrite bind_ret by (by apply read_swap_state_eq). cbn beta iota.
    erewrite bind_ret by (by apply read_swap_state_eq). cbn beta iota. by rewrite Hm, Hc, Hsm. }
  eexists. split.
  { unfold swap_read_status. rewrite (bind_ret _ _ _ _ _ Hsrc). cbv zeta. cbn [Z.eqb BOOT_STATUS_SOURCE_PRIMARY_SLOT BOOT_STATUS_SOURCE_NONE].
    rewrite (not_scratch up_mode). cbn [andb Z.eqb Pos.eqb]. rewrite (bind_ret (mret pri) _ pri w w) by done.
    erewrite bind_ret by (apply (read_status_bytes_eq state pri (2 * k + s)); try done; try lia; [apply up_mode|apply Hsu|apply Hup]).
    cbn beta iota. cbn [Z.eqb negb]. rewrite swap_info_off_eq by done.
    erewrite bind_ret by (apply fm_read; [done|apply Hta|lia..]). cbn beta iota. cbn [Z.eqb negb].
    rewrite Hi, erased_1, (proj2 (Z.eqb_neq _ _)) by (pose proof (ta_ev _ Hta); lia).
    rewrite (bind_ret (mret _) _ _ w w) by done. reflexivity. }
  cbn [bs_idx bs_state bs_swap_type bs_source set_bs_swap_type]. unfold status_after. split_and!.
  - destruct (2 * k + s =? 0) eqn:Hz; zsimp; cbn; unfold BOOT_STATUS_IDX_0; lia.
  - destruct (2 * k + s =? 0) eqn:Hz; zsimp; cbn; unfold BOOT_STATUS_STATE_0; lia.
  - unfold BOOT_GET_SWAP_TYPE. rewrite (Z.land_ones _ 4) by lia. cbn [le_dec]. lia.
  - by destruct (2 * k + s =? 0).
Qed.

Lemma read_status_requested w :
  requested w →
  swap_read_status swap_status_source swap_read_status_bytes state boot_status_reset w =
    (Ret (0, set_bs_source boot_status_reset BOOT_STATUS_SOURCE_NONE), w).
Proof using All.
  intros (Hok & _ & Hm). destruct up_trailers as (Hta & Hts & _). unfold swap_read_status.
  assert (Hsrc : swap_status_source state w = (Ret BOOT_STATUS_SOURCE_NONE, w)).
  { unfold swap_status_source. erewrite bind_ret by (by apply read_swap_state_eq). cbn beta iota.
    erewrite bind_ret by (by apply read_swap_state_eq). cbn beta iota. rewrite Hm. cbn. by rewrite andb_false_r. }
  by rewrite (bind_ret _ _ _ _ _ Hsrc).
Qed.

Lemma attempt_wp w :
  interrupted w →
  wp (upgrade_attempt state t size) (λ b w', bs_swap_type b = t ∧ running (last + 1) 0 w') interrupted w.
Proof using All.
  intros [Hreq|(k & s & Hpos & Hrun)]; unfold upgrade_attempt, swap_attempt; apply wp_bind.
  - eapply wp_pure; [by apply read_status_requested|]. cbn beta iota. apply wp_bind, wp_assert; [done|].
    pose proof (su_last _ _ _ (up_swap _ _ _ _ _ Hup)).
    apply (swap_run_wp 0 0); try done; [unfold position; lia|]. by apply fresh_init_wp.
  - destruct (read_status_running k s w Hpos Hrun) as (bs & Hrd & Hbi & Hbs & Hbt & Hsrc).
    eapply wp_pure; [exact Hrd|]. cbn beta iota. apply wp_bind, wp_assert; [done|]. rewrite Hsrc. cbv zeta. cbn [Z.eqb BOOT_STATUS_SOURCE_PRIMARY_SLOT BOOT_STATUS_SOURCE_NONE].
    apply (swap_run_wp k s); try done. by eapply resume_init_wp.
Qed.
End Upgrade.

Lemma requested_start state sz last w :
  fm_ok w → magic (area_state w (SEC state)) = BOOT_MAGIC_GOOD →
  requested state sz last (sect sz w (PRI state)) (sect sz w (SEC state)) w.
Proof.
  intros Hok Hm. split_and!; [done| |done]. split.
  - intros i Hi Hlt. lia.
  - intros i Hi _. done.
  - intros i Hi [?|(-> & [?|Hsk])]; [lia|lia|]. unfold new_sec. by rewrite Hsk.
  - intros x Hx _. done.
Qed.

End Recover.
