(* ===== verification/SwapMoveProps.v ===== *)
(** * Swap using move: correctness and recovery

    The two loops of swap_move.c as a script of Journal.v: moving the primary image up
    by one sector, then exchanging the sectors.  Reading the status gives the position
    back, and a requested upgrade survives any number of resets. *)

From S2P Require Import Prelude Effects FlashMap BootConfig Trailer TrailerProps SwapState SwapStateProps.
From S2P Require Import Area AreaProps Image LoaderState SwapMisc SwapOffset SwapMove LoaderProps SwapOffsetProps.
From S2P Require Import Journal SwapTrailer SwapRecover.

#[local] Set Default Proof Using "Type*".

#[local] Abbreviation PRI state := (BOOT_IMG_AREA state BOOT_SLOT_PRIMARY).
#[local] Abbreviation SEC state := (BOOT_IMG_AREA state BOOT_SLOT_SECONDARY).

Section Move.
  Context {W : Type} `{FlashMapOk W} `{BootConfigOk}.
  Implicit Types (fa : flash_area) (w : W).

(** Two slots prepared for exchanging [n] sectors of size [sz]; the primary slot has
    one more below its status entries. *)
Record move_setup (state : boot_loader_state) (sz n : Z) : Prop := {
  mv_mode : uses SWAP_USING_MOVE = true;
  mv_pri : trailer_area (PRI state);
  mv_sec : fm_area (SEC state);
  mv_ne : PRI state ≠ SEC state;
  mv_write_sz : write_sz state = flash_area_align (PRI state);
  mv_sz : 0 < sz;
  mv_align : sz mod flash_area_align (PRI state) = 0 ∧ sz mod flash_area_align (SEC state) = 0;
  mv_n : 1 <= n <= MCUBOOT_MAX_IMG_SECTORS;
  mv_pri_off i w : 0 <= i <= n → boot_img_sector_off state BOOT_SLOT_PRIMARY i w = (Ret (i * sz), w);
  mv_sec_off i w : 0 <= i < n → boot_img_sector_off state BOOT_SLOT_SECONDARY i w = (Ret (i * sz), w);
  mv_pri_fit : (n + 1) * sz <= entry_off (PRI state) 0;
  mv_sec_fit : n * sz <= fa_size (SEC state);
  mv_pri_rep i : 0 <= i <= n → replaceable (PRI state) (i * sz) sz;
  mv_sec_rep i : 0 <= i < n → replaceable (SEC state) (i * sz) sz;
}.

Section Script.
  Context (state : boot_loader_state) (sz n : Z) (P0 S0 : Z → list Z).

#[local] Abbreviation pri := (PRI state).
#[local] Abbreviation sec := (SEC state).

(** Position [p]: the first [n] steps move sectors up, the last one first; then steps
    [n + 2k] and [n + 2k + 1] exchange sector [k]. *)
Definition move_entry (p : Z) : Z := if p <? n then p else MCUBOOT_MAX_IMG_SECTORS + (p - n).

Definition move_src (p : Z) : place :=
  if p <? n then (pri, n - p - 1)
  else if (p - n) mod 2 =? 0 then (sec, (p - n) / 2) else (pri, (p - n) / 2 + 1).

Definition move_dst (p : Z) : place :=
  if p <? n then (pri, n - p)
  else if (p - n) mod 2 =? 0 then (pri, (p - n) / 2) else (sec, (p - n) / 2).

(** [P0] and [S0] are the sectors before the swap.  The sectors of the primary slot
    when [p] have been moved up, and when [k] have been exchanged, with [s = 1] and
    half of the next. *)
Definition pri_moved (p i : Z) : option (list Z) :=
  if (0 <=? i) && (i <? n - p) then Some (P0 i)
  else if (n - p <? i) && (i <=? n) then Some (P0 (i - 1)) else None.

Definition pri_swapped (k s i : Z) : option (list Z) :=
  if (0 <=? i) && ((i <? k) || (i =? k) && (s =? 1)) then Some (S0 i)
  else if (k <? i) && (i <=? n) then Some (P0 (i - 1)) else None.

Definition sec_swapped (k s i : Z) : option (list Z) :=
  if (0 <=? i) && (i <? k) then Some (P0 i)
  else if (i <? n) && ((k <? i) || (i =? k) && (s =? 0)) then Some (S0 i) else None.

Definition pri_expect (p i : Z) : option (list Z) :=
  if p <? n then pri_moved p i else pri_swapped ((p - n) / 2) ((p - n) mod 2) i.

Definition sec_expect (p i : Z) : option (list Z) :=
  if p <? n then sec_swapped 0 0 i else sec_swapped ((p - n) / 2) ((p - n) mod 2) i.

Definition move_expect (p : Z) (x : place) : option (list Z) :=
  if decide (x.1 = pri) then pri_expect p x.2
  else if decide (x.1 = sec) then sec_expect p x.2 else None.

Definition move_script : script := Script (3 * n) move_entry move_src move_dst move_expect.

Context (Hsu : move_setup state sz n).

(** ** The steps fit together *)

Lemma expect_pri p i : move_expect p (pri, i) = pri_expect p i.
Proof using P0 S0. unfold move_expect. by rewrite decide_True. Qed.

Lemma expect_sec p i : move_expect p (sec, i) = sec_expect p i.
Proof using All. unfold move_expect. cbn [fst snd]. rewrite decide_False by (symmetry; apply Hsu). by rewrite decide_True. Qed.

(** The three kinds of steps. *)
Inductive step_kind : Z → Prop :=
| step_up p : 0 <= p < n → step_kind p
| step_down k : 0 <= k < n → step_kind (n + 2 * k)
| step_out k : 0 <= k < n → step_kind (n + 2 * k + 1).

Lemma step_kinds p : 0 <= p < 3 * n → step_kind p.
Proof using P0 S0.
  intros Hp. destruct (decide (p < n)) as [Hlt|Hge]; [apply step_up; lia|].
  pose proof (Z.div_mod (p - n) 2 ltac:(lia)) as Hd. pose proof (Z.mod_pos_bound (p - n) 2 ltac:(lia)) as Hm.
  destruct (decide ((p - n) mod 2 = 0)) as [He|He].
  - replace p with (n + 2 * ((p - n) / 2)) by lia. apply step_down. lia.
  - replace p with (n + 2 * ((p - n) / 2) + 1) by lia. apply step_out. lia.
Qed.

Lemma half_down k : (n + 2 * k - n) / 2 = k ∧ (n + 2 * k - n) mod 2 = 0.
Proof using P0 S0. lia. Qed.

Lemma half_out k : (n + 2 * k + 1 - n) / 2 = k ∧ (n + 2 * k + 1 - n) mod 2 = 1.
Proof using P0 S0. lia. Qed.

Lemma pri_expect_up p i : p <= n → pri_expect p i = pri_moved p i.
Proof using P0 S0.
  intros Hp. unfold pri_expect. destruct (p <? n) eqn:Hlt; [done|]. zsimp. assert (p = n) as -> by lia.
  rewrite Z.sub_diag. change (0 / 2) with 0. change (0 mod 2) with 0. unfold pri_swapped, pri_moved. rewrite Z.sub_diag.
  replace (i <? 0) with (negb (0 <=? i)) by lia. by destruct (0 <=? i), (i =? 0).
Qed.

Lemma sec_expect_up p i : p <= n → sec_expect p i = sec_swapped 0 0 i.
Proof using P0 S0.
  intros Hp. unfold sec_expect. destruct (p <? n) eqn:Hlt; [done|]. zsimp. assert (p = n) as -> by lia.
  by rewrite Z.sub_diag.
Qed.

Lemma pri_expect_down k i : 0 <= k → pri_expect (n + 2 * k) i = pri_swapped k 0 i.
Proof using P0 S0. intros Hk. unfold pri_expect. destruct (half_down k) as [-> ->]. by rewrite (proj2 (Z.ltb_ge _ _)) by lia. Qed.

Lemma sec_expect_down k i : 0 <= k → sec_expect (n + 2 * k) i = sec_swapped k 0 i.
Proof using P0 S0. intros Hk. unfold sec_expect. destruct (half_down k) as [-> ->]. by rewrite (proj2 (Z.ltb_ge _ _)) by lia. Qed.

Lemma pri_expect_out k i : 0 <= k → pri_expect (n + 2 * k + 1) i = pri_swapped k 1 i.
Proof using P0 S0. intros Hk. unfold pri_expect. destruct (half_out k) as [-> ->]. by rewrite (proj2 (Z.ltb_ge _ _)) by lia. Qed.

Lemma sec_expect_out k i : 0 <= k → sec_expect (n + 2 * k + 1) i = sec_swapped k 1 i.
Proof using P0 S0. intros Hk. unfold sec_expect. destruct (half_out k) as [-> ->]. by rewrite (proj2 (Z.ltb_ge _ _)) by lia. Qed.

Lemma move_places p :
  0 <= p < 3 * n →
  p < n ∧ move_src p = (pri, n - p - 1) ∧ move_dst p = (pri, n - p) ∨
   ∃ k, 0 <= k < n ∧
     (p = n + 2 * k ∧ move_src p = (sec, k) ∧ move_dst p = (pri, k) ∨
      p = n + 2 * k + 1 ∧ move_src p = (pri, k + 1) ∧ move_dst p = (sec, k)).
Proof using P0 S0.
  intros Hp. unfold move_src, move_dst. destruct (step_kinds p Hp) as [p Hlt|k Hk|k Hk].
  - left. rewrite (proj2 (Z.ltb_lt _ _)) by lia. split; [lia|done].
  - right. exists k. split; [done|]. left. rewrite (proj2 (Z.ltb_ge _ _)) by lia. by destruct (half_down k) as [-> ->].
  - right. exists k. split; [done|]. right. rewrite (proj2 (Z.ltb_ge _ _)) by lia. by destruct (half_out k) as [-> ->].
Qed.

(** Case analysis on the comparisons of a statement, without the impossible cases. *)
Ltac compare_cases :=
  repeat (match goal with
  | |- context [?a <? ?b] => destruct (Z.ltb_spec a b)
  | |- context [?a <=? ?b] => destruct (Z.leb_spec a b)
  | |- context [?a =? ?b] => destruct (Z.eqb_spec a b)
  end; try (exfalso; lia)); cbn [andb orb negb].

(** The destination is free, and receives what the source holds. *)
Lemma move_free p : 0 <= p < 3 * n → move_expect p (move_dst p) = None.
Proof using All.
  intros Hp. destruct (move_places p Hp) as [(Hlt & _ & ->)|(k & Hk & [(-> & _ & ->)|(-> & _ & ->)])].
  - rewrite expect_pri, pri_expect_up by lia. unfold pri_moved. compare_cases; lia || done.
  - rewrite expect_pri, pri_expect_down by lia. unfold pri_swapped. compare_cases; lia || done.
  - rewrite expect_sec, sec_expect_out by lia. unfold sec_swapped. compare_cases; lia || done.
Qed.

Lemma move_moves p :
  0 <= p < 3 * n → ∃ c, move_expect p (move_src p) = Some c ∧ move_expect (p + 1) (move_dst p) = Some c.
Proof using All.
  intros Hp. destruct (move_places p Hp) as [(Hlt & -> & ->)|(k & Hk & [(-> & -> & ->)|(-> & -> & ->)])].
  - exists (P0 (n - p - 1)). rewrite !expect_pri, !pri_expect_up by lia. unfold pri_moved. split.
    + compare_cases; lia || done.
    + replace (n - p - 1) with (n - (p + 1)) by lia. compare_cases; try lia; do 2 f_equal; lia.
  - exists (S0 k). rewrite expect_pri, expect_sec, sec_expect_down, pri_expect_out by lia.
    unfold pri_swapped, sec_swapped. split; compare_cases; lia || done.
  - exists (P0 k). replace (n + 2 * k + 1 + 1) with (n + 2 * (k + 1)) by lia.
    rewrite expect_pri, expect_sec, sec_expect_down, pri_expect_out by lia.
    unfold pri_swapped, sec_swapped. split; compare_cases; try lia; do 2 f_equal; lia.
Qed.

Lemma move_keeps p x c :
  0 <= p < 3 * n → x ≠ move_dst p → move_expect (p + 1) x = Some c → move_expect p x = Some c.
Proof using All.
  intros Hp Hne. destruct x as [fa i]. unfold move_expect. cbn [fst snd].
  destruct (move_places p Hp) as [(Hlt & _ & Hd)|(k & Hk & [(-> & _ & Hd)|(-> & _ & Hd)])]; rewrite Hd in Hne.
  - rewrite !pri_expect_up, !sec_expect_up by lia. destruct (decide (fa = pri)) as [->|]; [|done].
    assert (i ≠ n - p) by congruence. unfold pri_moved. compare_cases; lia || done.
  - rewrite pri_expect_down, sec_expect_down, pri_expect_out, sec_expect_out by lia.
    destruct (decide (fa = pri)) as [->|].
    + assert (i ≠ k) by congruence. unfold pri_swapped. compare_cases; lia || done.
    + destruct (decide (fa = sec)); [|done]. unfold sec_swapped. compare_cases; lia || done.
  - replace (n + 2 * k + 1 + 1) with (n + 2 * (k + 1)) by lia.
    rewrite pri_expect_down, sec_expect_down, pri_expect_out, sec_expect_out by lia.
    destruct (decide (fa = pri)) as [->|].
    + unfold pri_swapped. compare_cases; lia || done.
    + destruct (decide (fa = sec)) as [->|]; [|done]. assert (i ≠ k) by congruence.
      unfold sec_swapped. compare_cases; lia || done.
Qed.

(** Only sectors of the swap are expected to hold something. *)
Lemma expect_bound p x c :
  0 <= p <= 3 * n → move_expect p x = Some c → x.1 = pri ∧ 0 <= x.2 <= n ∨ x.1 = sec ∧ 0 <= x.2 < n.
Proof using All.
  intros Hp. unfold move_expect, pri_expect, sec_expect, pri_moved, pri_swapped, sec_swapped.
  destruct (decide (x.1 = pri)); [|destruct (decide (x.1 = sec)); [|done]].
  - intros Hc. left. split; [done|]. revert Hc. compare_cases; intros Hc; discriminate Hc || lia.
  - intros Hc. right. split; [done|]. revert Hc. compare_cases; intros Hc; discriminate Hc || lia.
Qed.

Lemma move_entries : status_entries = 3 * MCUBOOT_MAX_IMG_SECTORS.
Proof using Type* Hsu.
  pose proof (mv_mode _ _ _ Hsu) as Hm. revert Hm. unfold status_entries, BOOT_STATUS_STATE_COUNT, uses.
  by destruct MCUBOOT_MODE.
Qed.

Lemma not_offset : uses SWAP_USING_OFFSET = false.
Proof using Type* Hsu. pose proof (mv_mode _ _ _ Hsu) as Hm. revert Hm. unfold uses. by destruct MCUBOOT_MODE. Qed.

Lemma op_swap_2 : BOOT_STATUS_OP_SWAP = 2.
Proof using Type* Hsu. unfold BOOT_STATUS_OP_SWAP. by rewrite not_offset. Qed.

Lemma pri_placed i : 0 <= i <= n → placed state sz (pri, i).
Proof using All.
  intros Hi. pose proof (mv_sz _ _ _ Hsu). pose proof (mv_pri_fit _ _ _ Hsu). pose proof (mv_pri _ _ _ Hsu) as Hta.
  pose proof (ta_align_bounds pri (ta_area _ Hta)).
  assert (Hssf : 0 <= swap_size_fld <= swap_size_fld) by (pose proof swap_size_fld_ge; lia).
  destruct (swap_entry_bounds (or_intror (mv_mode _ _ _ Hsu)) pri 0 Hta (first_entry (or_intror (mv_mode _ _ _ Hsu)))) as (_ & ? & _).
  destruct (fld_bounds pri swap_size_fld Hta Hssf) as (_ & ? & _).
  assert ((i + 1) * sz <= (n + 1) * sz) by (apply Z.mul_le_mono_nonneg_r; lia). split_and!; cbn [fst snd]; [apply Hta|lia|lia|intros _; lia].
Qed.

Lemma sec_placed i : 0 <= i < n → placed state sz (sec, i).
Proof using All.
  intros Hi. pose proof (mv_sz _ _ _ Hsu). pose proof (mv_sec_fit _ _ _ Hsu).
  assert ((i + 1) * sz <= n * sz) by (apply Z.mul_le_mono_nonneg_r; lia). split_and!; cbn [fst snd]; [apply Hsu|lia|lia|]. intros Heq. by destruct (mv_ne _ _ _ Hsu).
Qed.

Lemma move_script_ok : script_ok state sz move_script.
Proof using All.
  pose proof (mv_n _ _ _ Hsu). pose proof move_entries as Hent.
  split; cbn [js_steps js_entry js_src js_dst js_expect move_script].
  - right. apply Hsu.
  - apply Hsu.
  - apply Hsu.
  - intros p Hp. unfold move_entry. destruct (p <? n) eqn:Hlt; zsimp; lia.
  - intros p q Hp Hq. unfold move_entry. destruct (p <? n) eqn:H1p, (q <? n) eqn:H1q; zsimp; lia.
  - intros p Hp. destruct (move_places p Hp) as [(Hlt & -> & _)|(k & Hk & [(-> & -> & _)|(-> & -> & _)])];
      [apply pri_placed|apply sec_placed|apply pri_placed]; lia.
  - intros p Hp. destruct (move_places p Hp) as [(Hlt & _ & ->)|(k & Hk & [(-> & _ & ->)|(-> & _ & ->)])];
      [apply pri_placed|apply pri_placed|apply sec_placed]; lia.
  - intros p Hp. destruct (move_places p Hp) as [(Hlt & _ & ->)|(k & Hk & [(-> & _ & ->)|(-> & _ & ->)])]; apply Hsu.
  - intros p Hp. destruct (move_places p Hp) as [(Hlt & _ & ->)|(k & Hk & [(-> & _ & ->)|(-> & _ & ->)])];
      [apply (mv_pri_rep _ _ _ Hsu)|apply (mv_pri_rep _ _ _ Hsu)|apply (mv_sec_rep _ _ _ Hsu)]; cbn; lia.
  - apply move_free.
  - intros p Hp. destruct (move_moves p Hp) as (c & -> & ->). by split.
  - apply move_keeps.
Qed.

(** ** The boot status at a position *)

Definition status_pos (p : Z) (bs : boot_status) : Prop :=
  bs_op bs = BOOT_STATUS_OP_MOVE ∧ p <= n ∧ bs_idx bs = p + 1 ∧ bs_state bs = 1 ∨
  bs_op bs = BOOT_STATUS_OP_SWAP ∧ n <= p ∧ bs_idx bs = (p - n) / 2 + 1 ∧ bs_state bs = (p - n) mod 2 + 1.

Lemma move_internal_off p bs :
  0 <= p < 3 * n → status_pos p bs → (p = n → bs_op bs = BOOT_STATUS_OP_SWAP) →
  boot_status_internal_off bs (write_sz state) = move_entry p * flash_area_align pri.
Proof using All.
  intros Hp Hpos Hpn. pose proof (mv_n _ _ _ Hsu). pose proof bc_sectors. pose proof (ta_align_bounds pri (ta_area _ (mv_pri _ _ _ Hsu))).
  unfold boot_status_internal_off, move_status_internal_off, move_entry. rewrite (mv_mode _ _ _ Hsu), (mv_write_sz _ _ _ Hsu).
  unfold BOOT_STATUS_MOVE_STATE_COUNT, BOOT_STATUS_SWAP_STATE_COUNT, BOOT_STATUS_IDX_0, BOOT_STATUS_STATE_0, BOOT_MAX_IMG_SECTORS.
  destruct Hpos as [(Hop & Hle & Hi & Hs)|(Hop & Hge & Hi & Hs)]; rewrite Hop, Hi, Hs.
  - assert (p < n) by (destruct (decide (p = n)); [rewrite Hpn, op_swap_2 in Hop by done; done|lia]).
    rewrite (proj2 (Z.ltb_lt _ _)) by lia. cbn [Z.eqb Pos.eqb BOOT_STATUS_OP_MOVE].
    replace (p + 1 - 1) with p by lia. assert (0 <= p * flash_area_align pri <= 65536 * 32) by nia.
    rewrite (u32_small p), (u32_small (p * _)), (u32_small (0 + _)), u32_small by (unfold is_u32; lia). lia.
  - rewrite (proj2 (Z.ltb_ge _ _)) by lia. rewrite op_swap_2. cbn [Z.eqb Pos.eqb BOOT_STATUS_OP_MOVE].
    set (k := (p - n) / 2). set (s := (p - n) mod 2). assert (p = n + 2 * k + s) by (unfold k, s; lia).
    assert (0 <= s <= 1) by (unfold s; lia). assert (0 <= k < n) by lia.
    replace (k + 1 - 1) with k by lia. assert (0 <= k * flash_area_align pri <= 65536 * 32) by nia.
    assert (0 <= MCUBOOT_MAX_IMG_SECTORS * flash_area_align pri <= 65536 * 32) by nia.
    assert (0 <= s * flash_area_align pri <= 32) by nia.
    rewrite (u32_small k), (u32_small (k * _)), (u32_small (_ * _ + k * _)), u32_small by (unfold is_u32; lia). nia.
Qed.

(** ** Reading the position back *)

Lemma logged_last p w :
  0 <= p <= 3 * n → logged state move_script p w → last_entry pri (if p =? 0 then 0 else move_entry (p - 1) + 1) w.
Proof using All.
  intros Hp [Hw Hb]. pose proof (mv_n _ _ _ Hsu). cbn [js_entry move_script] in *. case_if Hz.
  - split; [lia|]. intros e He. apply Hb; [lia|]. intros q Hq. lia.
  - split.
    + intros _. replace (move_entry (p - 1) + 1 - 1) with (move_entry (p - 1)) by lia. apply Hw. lia.
    + intros e He. assert (Hm : ∀ q, 0 <= q <= p - 1 → 0 <= move_entry q <= move_entry (p - 1)).
      { intros q Hq. unfold move_entry. compare_cases; lia. }
      pose proof (Hm (p - 1) ltac:(lia)). apply Hb; [lia|]. intros q Hq. specialize (Hm q ltac:(lia)). lia.
Qed.

Lemma move_status_bytes p bs w :
  fm_ok w → fa_id pri = FLASH_AREA_IMAGE_PRIMARY (curr_img_idx state) → 0 <= p <= 3 * n → logged state move_script p w →
  ∃ bs', swap_read_status_bytes pri state bs w = (Ret (0, bs'), w) ∧ (if p =? 0 then bs' = bs else status_pos p bs') ∧
    bs_swap_type bs' = bs_swap_type bs ∧ bs_source bs' = bs_source bs.
Proof using All.
  intros Hok Hid Hp Hl. pose proof (logged_last p w Hp Hl) as Hlast. pose proof (mv_pri _ _ _ Hsu) as Hta.
  pose proof (ta_align_bounds pri (ta_area _ Hta)). pose proof bc_sectors. pose proof (mv_n _ _ _ Hsu). pose proof move_entries as Hent.
  set (m := if p =? 0 then 0 else move_entry (p - 1) + 1) in *.
  assert (Hmr : 0 <= m <= status_entries) by (unfold m, move_entry; compare_cases; lia).
  assert (Hse : boot_status_entries (curr_img_idx state) pri = status_entries).
  { unfold boot_status_entries. rewrite (status_not_scratch (or_intror (mv_mode _ _ _ Hsu))), Hid, Z.eqb_refl. done. }
  unfold swap_read_status_bytes. rewrite Hse, (proj2 (Z.ltb_ge _ 0)), (mv_write_sz _ _ _ Hsu), u8_small by (unfold is_u8; lia).
  erewrite bind_ret by (by apply (swap_status_off_eq (or_intror (mv_mode _ _ _ Hsu)))).
  destruct (wp_returns _ _ _ (status_scan_wp pri m w (or_intror (mv_mode _ _ _ Hsu)) Hok Hta Hlast Hmr)) as (r & w' & Hr & -> & j & -> & Hj).
  erewrite bind_ret by exact Hr. cbn beta iota. rewrite (proj2 (Z.ltb_ge 1 j)) by lia. cbn [andb].
  rewrite (bind_ret (mret ()) _ () w w) by done. cbv zeta.
  unfold BOOT_STATUS_MOVE_STATE_COUNT, BOOT_STATUS_SWAP_STATE_COUNT, BOOT_STATUS_IDX_0, BOOT_STATUS_STATE_0, BOOT_MAX_IMG_SECTORS.
  destruct (p =? 0) eqn:Hz; zsimp.
  - exists bs. unfold m. done.
  - assert (Hm0 : 0 < m) by (unfold m, move_entry; compare_cases; lia).
    rewrite (proj2 (Z.ltb_lt 0 m)), (proj2 (Z.eqb_neq m (-1))) by lia. case_if Hmv.
    + eexists. split; [reflexivity|]. split; [|done]. left. cbn [bs_op bs_idx bs_state set_bs_op set_bs_next].
      assert (p <= n ∧ m = p) as [? ->] by (revert Hmv; unfold m, move_entry; compare_cases; lia).
      split_and!; [done|lia|rewrite Z.div_1_r; lia|rewrite Z.mod_1_r; lia].
    + eexists. split; [reflexivity|]. split; [|done]. right. cbn [bs_op bs_idx bs_state set_bs_op set_bs_next].
      assert (n <= p ∧ m - MCUBOOT_MAX_IMG_SECTORS = p - n) as [? Heq] by (revert Hmv; unfold m, move_entry; compare_cases; lia).
      rewrite Z.mul_1_r, Heq. split_and!; done || lia.
Qed.

End Script.

(** the status bytes of swap using move record how far a swap got.  When the
    entries of the first [p] of its [3 * n] steps are written ([n] moves, then two copies
    for every sector) and the others are erased, reading them gives the next step back:
    the operation, the sector it works on and the half of an exchange; with no entry
    written the status stays as it was. *)
Theorem move_status_position state sz n P0 S0 p bs w :
  move_setup state sz n → fm_ok w → fa_id (PRI state) = FLASH_AREA_IMAGE_PRIMARY (curr_img_idx state) →
  0 <= p <= 3 * n → logged state (move_script state n P0 S0) p w →
  ∃ bs', swap_read_status_bytes (PRI state) state bs w = (Ret (0, bs'), w) ∧
    (if p =? 0 then bs' = bs else status_pos n p bs') ∧ bs_swap_type bs' = bs_swap_type bs.
Proof.
  intros Hsu Hok Hid Hp Hl.
  destruct (move_status_bytes state sz n P0 S0 Hsu p bs w Hok Hid Hp Hl) as (bs' & Hr & Hpos & Ht & _). eauto.
Qed.
End Move.
