(* ===== verification/SwapMoveRecover.v ===== *)
(** * Swap using move: starting, resuming, completing

    [swap_run] of swap_move.c, started afresh or from any interruption, leaves the
    images exchanged or is interrupted again at a point from which the same holds. *)

From S2P Require Import Prelude Effects FlashMap BootConfig Trailer TrailerProps SwapState SwapStateProps.
From S2P Require Import Area AreaProps Image LoaderState SwapMisc SwapOffset SwapMove LoaderProps SwapOffsetProps.
From S2P Require Import Journal SwapTrailer SwapRecover SwapMoveProps.

#[local] Set Default Proof Using "Type*".

#[local] Abbreviation PRI state := (BOOT_IMG_AREA state BOOT_SLOT_PRIMARY).
#[local] Abbreviation SEC state := (BOOT_IMG_AREA state BOOT_SLOT_SECONDARY).

Section MoveRecover.
  Context {W : Type} `{FlashMapOk W} `{BootConfigOk}.
  Implicit Types (fa : flash_area) (w : W).

(** An upgrade of type [t] that exchanges [size] bytes in [n] sectors, on a device
    with erase. *)
Record move_upgrade (state : boot_loader_state) (sz n size t : Z) : Prop := {
  mu_move : move_setup state sz n;
  mu_pair : slot_pair (curr_img_idx state) (PRI state) (SEC state);
  mu_id : fa_id (PRI state) = FLASH_AREA_IMAGE_PRIMARY (curr_img_idx state);
  mu_num : 0 <= curr_img_idx state < 15;
  mu_logical : MCUBOOT_LOGICAL_SECTOR_SIZE = 0;
  mu_align : flash_area_align (SEC state) = flash_area_align (PRI state);
  mu_sector w : boot_img_sector_size state BOOT_SLOT_PRIMARY 0 w = (Ret sz, w);
  mu_size : (n - 1) * sz < size <= n * sz;
  mu_room : (n + 1) * sz + boot_trailer_sz (write_sz state) <= boot_img_num_sectors state BOOT_SLOT_PRIMARY * sz;
  mu_sectors : boot_img_num_sectors state BOOT_SLOT_PRIMARY < 65536;
  mu_pri : scramble_area (PRI state) ((n + 1) * sz);
  mu_sec : scramble_area (SEC state) (n * sz);
  mu_type : t = BOOT_SWAP_TYPE_TEST ∨ t = BOOT_SWAP_TYPE_PERM;
}.

Section Upgrade.
  Context (state : boot_loader_state) (sz n size t : Z) (P0 S0 : Z → list Z).
  Context (Hup : move_upgrade state sz n size t).

#[local] Abbreviation pri := (PRI state).
#[local] Abbreviation sec := (SEC state).
#[local] Abbreviation tlv_p := (img_unprotected_tlv_size (BOOT_IMG state BOOT_SLOT_PRIMARY)).
#[local] Abbreviation tlv_s := (img_unprotected_tlv_size (BOOT_IMG state BOOT_SLOT_SECONDARY)).
#[local] Abbreviation J := (move_script state n P0 S0).
#[local] Abbreviation recorded := (swap_record pri t (curr_img_idx state) tlv_p tlv_s).

(** The upgrade has started and stands at position [p]. *)
Record moving (p : Z) w : Prop := {
  mg_journal : journal state sz J w p w;
  mg_record : recorded w;
  mg_magic : magic (area_state w sec) = BOOT_MAGIC_UNSET;
}.

(** The upgrade is requested and has not touched the images. *)
Record waiting w : Prop := {
  wt_ok : fm_ok w;
  wt_holds : holds state sz J 0 w;
  wt_magic : magic (area_state w sec) = BOOT_MAGIC_GOOD;
}.

Definition resumable w : Prop := waiting w ∨ ∃ p, 0 <= p <= 3 * n ∧ moving p w.

Lemma mu_mode : uses SWAP_USING_OFFSET = true ∨ uses SWAP_USING_MOVE = true.
Proof using All. right. apply (mu_move _ _ _ _ _ Hup). Qed.

Lemma mu_script : script_ok state sz J.
Proof using All. apply move_script_ok, Hup. Qed.

Lemma mu_trailers : trailer_area pri ∧ trailer_area sec ∧ pri ≠ sec ∧ sec ≠ pri.
Proof using All. destruct (mu_pair _ _ _ _ _ Hup) as [_ _ ? ? ?]. auto. Qed.

Lemma mu_bounds :
  1 <= n ∧ 0 < sz ∧ (n + 1) * sz <= entry_off pri 0 ∧ n * sz <= entry_off sec 0 ∧
  entry_off pri 0 <= fld pri swap_size_fld <= fa_size pri ∧ 0 <= entry_off sec 0 <= fa_size sec.
Proof using All.
  pose proof (mu_move _ _ _ _ _ Hup) as Hsu. destruct mu_trailers as (Hta & Hts & _).
  pose proof (top_bounds mu_mode (mu_logical _ _ _ _ _ Hup) pri Hta).
  pose proof (entry_off_0_bounds mu_mode (mu_logical _ _ _ _ _ Hup) sec Hts).
  pose proof (mv_n _ _ _ Hsu). pose proof (mv_sz _ _ _ Hsu). pose proof (mv_pri_fit _ _ _ Hsu).
  pose proof (sa_lim _ _ (mu_sec _ _ _ _ _ Hup)). lia.
Qed.

(** ** What the steps leave alone *)

Lemma dst_below p :
  0 <= p < 3 * n → ((js_dst J p).2 + 1) * sz <= (if decide ((js_dst J p).1 = pri) then (n + 1) * sz else n * sz).
Proof using All.
  intros Hp. pose proof mu_bounds as (? & ? & _). destruct mu_trailers as (_ & _ & Hn1 & Hn2). cbn [js_dst move_script].
  destruct (move_places state n P0 S0 p Hp) as [(Hlt & _ & ->)|(k & Hk & [(-> & _ & ->)|(-> & _ & ->)])]; cbn [fst snd].
  - rewrite decide_True by done. apply Z.mul_le_mono_nonneg_r; lia.
  - rewrite decide_True by done. apply Z.mul_le_mono_nonneg_r; lia.
  - rewrite decide_False by done. apply Z.mul_le_mono_nonneg_r; lia.
Qed.

Lemma pri_tail_untouchable : untouchable state sz J pri (fld pri swap_size_fld) (fa_size pri - fld pri swap_size_fld).
Proof using All.
  pose proof mu_bounds. pose proof (mu_trailers) as (Hta & _). split_and!; [apply Hta|nia| |intros _; right; lia].
  intros p Hp Hd. pose proof (dst_below p Hp) as Hb. rewrite decide_True in Hb by done. right. lia.
Qed.

Lemma sec_tail_untouchable o m : n * sz <= o → untouchable state sz J sec o m.
Proof using All.
  intros Ho. pose proof mu_bounds. destruct mu_trailers as (_ & Hts & _ & Hn2). split_and!; [apply Hts|nia| |done].
  intros p Hp Hd. pose proof (dst_below p Hp) as Hb. rewrite decide_False in Hb by (by rewrite Hd). right. lia.
Qed.

Lemma journal_self w0 p w : journal state sz J w0 p w → journal state sz J w p w.
Proof using All. intros [Hok Hh Hl Hu]. by split. Qed.

Lemma journal_moving p q w1 w : moving p w1 → journal state sz J w1 q w → moving q w.
Proof using All.
  intros [_ Hrec Hmag] Hj. pose proof (jn_outside _ _ _ _ _ _ Hj) as Hu. destruct mu_trailers as (Hta & Hts & _).
  split; [by eapply journal_self| |].
  - eapply record_tail; [apply mu_mode|apply Hup|done| |exact Hrec]. apply Hu, pri_tail_untouchable.
  - rewrite <- Hmag. apply (magic_tail mu_mode (mu_logical _ _ _ _ _ Hup) sec (n * sz)); [done|apply mu_bounds|].
    intros o m Ho _. by apply Hu, sec_tail_untouchable.
Qed.

(** ** One step *)

Lemma moving_step p (bs bs' : boot_status) w :
  0 <= p < 3 * n → status_pos n p bs → (p = n → bs_op bs = BOOT_STATUS_OP_SWAP) → moving p w →
  wp (erase_copy (js_src J p).1 (js_dst J p).1 ((js_src J p).2 * sz) ((js_dst J p).2 * sz) sz;;
      rc ← boot_write_status state bs; status_assert (rc =? 0);; mret bs')
    (λ b w', b = bs' ∧ moving (p + 1) w') resumable w.
Proof using All.
  intros Hp Hpos Hpn Hmv. eapply wp_mono; [apply (step_wp state sz J w mu_script p bs bs' w Hp)| |].
  - apply (move_internal_off state sz n P0 S0); [apply Hup|done|done|done].
  - destruct Hpos as [(_ & _ & _ & ->)|(_ & _ & _ & ->)]; lia.
  - apply Hmv.
  - intros b w' [-> Hj]. split; [done|]. by eapply journal_moving.
  - intros w' (q & Hq & Hj). right. exists q. split; [lia|]. by eapply journal_moving.
Qed.

(** ** Preparing the trailers *)

(** A change above the sectors of the swap. *)
Lemma tail_holds fa off len p w w' :
  fa = pri ∧ (n + 1) * sz <= off ∨ fa = sec ∧ n * sz <= off →
  0 <= p <= 3 * n → only_range fa off len w w' → holds state sz J p w → holds state sz J p w'.
Proof using All.
  intros Hfa Hp (_ & Hs & Ho) Hh x c Hx Hc. rewrite <- (Hh x c Hx Hc). destruct x as [fb i].
  destruct Hx as (Ha & Hi & _). cbn [fst snd] in *. unfold sect.
  destruct (decide (fb = fa)) as [->|Hne]; [|by rewrite Ho].
  pose proof mu_bounds as (? & ? & _). assert (Hle : (i + 1) * sz <= off).
  { apply (expect_bound state sz n P0 S0 (mu_move _ _ _ _ _ Hup)) in Hc; [|lia]. cbn [fst snd] in Hc.
    destruct Hfa as [[-> ?]|[-> ?]]; destruct Hc as [[? ?]|[? ?]]; try (by destruct mu_trailers as (_ & _ & ? & ?)); nia. }
  rewrite <- !vals_slice, Hs; [done|nia|]. left. lia.
Qed.

Lemma waiting_pri off len w w' : (n + 1) * sz <= off → only_range pri off len w w' → waiting w → waiting w'.
Proof using All.
  intros Ho Hr [Hok Hh Hm]. pose proof mu_bounds. destruct mu_trailers as (Hta & Hts & Hn1 & Hn2).
  split; [apply Hr|eapply tail_holds; [by left|lia|exact Hr|done]|].
  unfold area_state. by rewrite (proj2 (proj2 Hr)) by (done || apply Hts).
Qed.

Lemma sec_tail_moving p len w w' :
  only_range sec (n * sz) len w w' → 0 <= p <= 3 * n → journal state sz J w p w → recorded w →
  magic (area_state w' sec) = BOOT_MAGIC_UNSET → moving p w'.
Proof using All.
  intros Hr Hp [Hok Hh Hl _] Hrec Hm. destruct mu_trailers as (Hta & Hts & Hn1 & Hn2).
  assert (Hpc : fm_cells w' pri = fm_cells w pri) by (apply Hr; [apply Hta|done]). split; [split| |done].
  - apply Hr.
  - eapply tail_holds; [right; split; [done|apply Z.le_refl]|lia|exact Hr|done].
  - apply (logged_frame state sz J w mu_script p w); [|cbn; lia|done]. intros e He. by rewrite Hpc.
  - by intros fa o m _.
  - eapply record_tail; [apply mu_mode|apply Hup|done| |exact Hrec]. by rewrite Hpc.
Qed.

Lemma move_scramble_sec_wp w :
  journal state sz J w 0 w → recorded w →
  wp (rc ← swap_scramble_trailer_sectors state sec; assert (rc =? 0)) (λ _ w', moving 0 w')
    (λ w', moving 0 w' ∨ only_range sec (n * sz) (fa_size sec - n * sz) w w' ∧ fm_cells w' sec = fm_cells w sec) w.
Proof using All.
  intros Hj Hrec. pose proof (mu_move _ _ _ _ _ Hup) as Hsu. pose proof mu_bounds.
  apply wp_bind. eapply wp_mono; [apply (scramble_trailer_wp mu_mode (mu_logical _ _ _ _ _ Hup) state sec (n * sz) w)| |].
  - apply Hj.
  - apply Hup.
  - rewrite (mu_align _ _ _ _ _ Hup). apply Hsu.
  - intros rc w' (-> & Hr & _ & Hm). apply wp_assert; [done|]. eapply sec_tail_moving; try done; lia.
  - intros w' [Hr [Hc|Hm]]; [by right|left]. eapply sec_tail_moving; try done; lia.
Qed.

(** What [boot_move_sector_up] does in front of the first move. *)
Definition prepare (bs : boot_status) : M W unit :=
  (if negb (bs_source bs =? BOOT_STATUS_SOURCE_PRIMARY_SLOT) then
     rc ← swap_scramble_trailer_sectors state pri;
     assert (rc =? 0);;
     rc ← swap_status_init state pri bs;
     assert (rc =? 0)
   else mret ());;
  rc ← swap_scramble_trailer_sectors state sec;
  assert (rc =? 0).

Lemma prepare_again_wp bs w :
  moving 0 w → bs_source bs = BOOT_STATUS_SOURCE_PRIMARY_SLOT → wp (prepare bs) (λ _, moving 0) resumable w.
Proof using All.
  intros [Hj Hrec Hmag] Hsrc. pose proof mu_bounds. unfold prepare. rewrite Hsrc, Z.eqb_refl. cbn [negb]. apply wp_bind, wp_ret.
  eapply wp_mono; [by apply move_scramble_sec_wp|done|].
  intros w' [Hr|[Hr Hc]]; right; exists 0; (split; [lia|]); [done|].
  eapply sec_tail_moving; [exact Hr|lia|done|done|]. unfold area_state. by rewrite Hc.
Qed.

Lemma blank_logged w w' :
  fm_ok w → blank_trailer pri w →
  only_range pri (fld pri swap_size_fld) (fa_size pri - fld pri swap_size_fld) w w' → logged state J 0 w'.
Proof using All.
  intros Hok Hb (Hok' & Hs & _). destruct mu_trailers as (Hta & _). pose proof mu_bounds.
  pose proof (ta_align_bounds pri (ta_area _ Hta)). split; [intros q Hq; lia|]. intros e He _.
  pose proof (entry_above state sz J w mu_script e He).
  assert (Hcells : ∀ m, 0 <= m <= flash_area_align pri →
    slice (fm_cells w' pri) (entry_off pri e) m = erased (flash_area_erased_val pri) m).
  { intros m Hm. rewrite Hs by lia.
    replace (entry_off pri e) with (entry_off pri 0 + (entry_off pri e - entry_off pri 0)) by lia.
    rewrite <- (slice_slice _ (entry_off pri 0) (fa_size pri - entry_off pri 0)) by lia.
    unfold blank_trailer in Hb. rewrite Hb. apply slice_erased; lia. }
  split; [rewrite <- vals_slice, Hcells, vals_erased by lia; done|]. right. rewrite Hcells by lia. apply all_fresh_erased.
Qed.

Lemma prepare_wp bs w :
  waiting w → bs_source bs = BOOT_STATUS_SOURCE_NONE → bs_swap_type bs = t →
  wp (prepare bs) (λ _, moving 0) resumable w.
Proof using All.
  intros Hwt Hsrc Hbt. pose proof mu_bounds as Hb. destruct mu_trailers as (Hta & Hts & _).
  pose proof (mu_move _ _ _ _ _ Hup) as Hsu. unfold prepare. rewrite Hsrc. cbn [Z.eqb BOOT_STATUS_SOURCE_NONE BOOT_STATUS_SOURCE_PRIMARY_SLOT negb].
  apply wp_bind, wp_bind.
  eapply wp_mono; [apply (scramble_trailer_wp mu_mode (mu_logical _ _ _ _ _ Hup) state pri ((n + 1) * sz) w); [apply Hwt|apply Hup|apply Hsu]| |].
  2: { intros w' [Hr _]. left. eapply waiting_pri; [|exact Hr|done]. lia. }
  intros rc w1 (-> & Hr1 & Hb1 & _). apply wp_bind, wp_assert; [done|].
  assert (Hwt1 : waiting w1) by (eapply waiting_pri; [|exact Hr1|done]; lia).
  assert (Ht : 1 <= bs_swap_type bs <= BOOT_SWAP_TYPE_REVERT ∧ bs_swap_type bs ≠ BOOT_SWAP_TYPE_NONE).
  { rewrite Hbt. destruct (mu_type _ _ _ _ _ Hup) as [-> | ->]; done. }
  apply wp_bind. eapply wp_mono; [apply (status_init_wp mu_mode (mu_logical _ _ _ _ _ Hup) state pri bs w1); try done; try apply Hwt1; try apply Ht; try apply Hup| |].
  { intros Hoff. by rewrite (not_offset state sz n Hsu) in Hoff. }
  2: { intros w' Hr. left. eapply waiting_pri; [|exact Hr|done]. lia. }
  intros rc w2 (-> & Hr2 & Hrec). rewrite Hbt in Hrec. apply wp_assert; [done|].
  assert (Hwt2 : waiting w2) by (eapply waiting_pri; [|exact Hr2|done]; lia).
  assert (Hj : journal state sz J w2 0 w2).
  { split; [apply Hwt2|apply Hwt2| |by intros fa o m _]. eapply blank_logged; [apply Hwt1|done|exact Hr2]. }
  eapply wp_mono; [by apply move_scramble_sec_wp|done|]. intros w' [Hr|[Hr Hc]].
  - right. exists 0. split; [lia|done].
  - left. split; [apply Hr|eapply tail_holds; [right; split; [done|apply Z.le_refl]|lia|exact Hr|apply Hwt2]|].
    unfold area_state. rewrite Hc. apply Hwt2.
Qed.

(** ** Moving up *)

Lemma sector_up_wp p bs w :
  0 <= p < n → bs_op bs = BOOT_STATUS_OP_MOVE → bs_idx bs = p + 1 → bs_state bs = 1 →
  (if p =? 0 then wp (prepare bs) (λ _, moving 0) resumable w else moving p w) →
  wp (boot_move_sector_up (n - p) sz state bs pri sec)
    (λ b w', b = set_bs_next bs (p + 2) 1 ∧ moving (p + 1) w') resumable w.
Proof using All.
  intros Hp Hop Hidx Hst Hpre. pose proof (mu_move _ _ _ _ _ Hup) as Hsu. pose proof (mv_n _ _ _ Hsu). pose proof bc_sectors.
  unfold boot_move_sector_up. apply wp_bind. eapply wp_pure; [apply (mv_pri_off _ _ _ Hsu); lia|].
  apply wp_bind. eapply wp_pure; [apply (mv_pri_off _ _ _ Hsu); lia|]. apply wp_bind.
  apply (wp_mono _ (λ _, moving p) _ resumable); [| |done].
  - unfold BOOT_STATUS_IDX_0. rewrite Hidx. replace (p + 1 =? 1) with (p =? 0) by lia. case_if Hp0; [|by apply wp_ret].
    assert (p = 0) as -> by lia. exact Hpre.
  - intros [] w1 Hmv. rewrite Hidx, Hst, u32_small by (unfold is_u32; lia).
    destruct (move_places state n P0 S0 p ltac:(lia)) as [(_ & Hs & Hd)|(k & Hk & [(? & _)|(? & _)])]; [|lia|lia].
    pose proof (moving_step p bs (set_bs_next bs (p + 1 + 1) 1) w1 ltac:(lia)) as Hstep.
    cbn [js_src js_dst move_script] in Hstep. rewrite Hs, Hd in Hstep. cbn [fst snd] in Hstep.
    replace (p + 2) with (p + 1 + 1) by lia. apply Hstep; [|lia|done]. left. split_and!; [done|lia|done|done].
Qed.

Lemma remaining q : 0 <= q <= n → n ⊖ (q + 1) ⊕ 1 = n - q.
Proof using All.
  intros Hq. pose proof (mv_n _ _ _ (mu_move _ _ _ _ _ Hup)). pose proof bc_sectors.
  unfold u32. rewrite Zplus_mod_idemp_l. rewrite Z.mod_small; lia.
Qed.

Lemma move_loop_wp p bs w :
  0 <= p <= n → bs_op bs = BOOT_STATUS_OP_MOVE → bs_idx bs = p + 1 → bs_state bs = 1 →
  (if p =? 0 then wp (prepare bs) (λ _, moving 0) resumable w else moving p w) →
  wp (loop (S (S (Z.to_nat n))) (move_loop_step state pri sec sz n) (n, bs))
    (λ b w', b = set_bs_next bs (n + 1) 1 ∧ moving n w') resumable w.
Proof using All.
  intros Hp Hop Hidx Hst Hpre. pose proof (mv_n _ _ _ (mu_move _ _ _ _ _ Hup)). pose proof bc_sectors.
  apply (wp_loop (λ '(idx, b) w', ∃ q, p <= q <= n ∧ b = set_bs_next bs (q + 1) 1 ∧ n - q <= idx <= n ∧
                    (if q =? 0 then w' = w ∧ idx = n else moving q w')) (λ '(idx, _), idx)).
  - intros [idx b] w' (q & Hq & -> & Hi & Hq0). unfold move_loop_step. case_if Hz.
    { apply wp_ret. assert (q = n) as -> by lia. split; [done|]. by rewrite (proj2 (Z.eqb_neq n 0)) in Hq0 by lia. }
    change (bs_idx (set_bs_next bs (q + 1) 1)) with (q + 1). rewrite remaining by lia. apply wp_bind.
    rewrite (u32_small (idx - 1)) by (unfold is_u32; lia). case_if Hle.
    + assert (idx = n - q) as -> by lia. eapply wp_mono; [apply (sector_up_wp q (set_bs_next bs (q + 1) 1) w'); try done; try lia| |done].
      * destruct (q =? 0) eqn:Hz0; [|done]. zsimp. destruct Hq0 as [-> _].
        rewrite (proj2 (Z.eqb_eq p 0)) in Hpre by lia. exact Hpre.
      * intros b w1 [-> Hmv]. apply wp_ret. split; [|lia]. exists (q + 1). split_and!; [lia|lia| |lia|lia|].
        -- unfold set_bs_next. cbn. f_equal. lia.
        -- by rewrite (proj2 (Z.eqb_neq (q + 1) 0)) by lia.
    + apply wp_ret. assert (q ≠ 0) by (intros ->; lia). apply wp_ret. split; [|lia]. exists q. split_and!; try done; try lia.
      by rewrite (proj2 (Z.eqb_neq q 0)) in * by done.
  - exists p. split_and!; try lia.
    + destruct bs; cbn in *. by subst.
    + by destruct (p =? 0).
  - lia.
  - lia.
Qed.

(** ** Exchanging *)

Lemma exchange_sectors_wp k s bs w :
  0 <= k < n → 0 <= s <= 1 → bs_op bs = BOOT_STATUS_OP_SWAP → bs_idx bs = k + 1 → bs_state bs = s + 1 →
  moving (n + 2 * k + s) w →
  wp (boot_swap_sectors (k + 1) sz state bs pri sec)
    (λ b w', b = set_bs_next bs (k + 2) 1 ∧ moving (n + 2 * (k + 1)) w') resumable w.
Proof using All.
  intros Hk Hs Hop Hidx Hst Hmv. pose proof (mu_move _ _ _ _ _ Hup) as Hsu. pose proof (mv_n _ _ _ Hsu). pose proof bc_sectors.
  unfold boot_swap_sectors. apply wp_bind. eapply wp_pure; [apply (mv_pri_off _ _ _ Hsu); lia|].
  replace (k + 1 - 1) with k by lia.
  apply wp_bind. eapply wp_pure; [apply (mv_pri_off _ _ _ Hsu); lia|].
  apply wp_bind. eapply wp_pure; [apply (mv_sec_off _ _ _ Hsu); lia|]. apply wp_bind.
  apply (wp_mono _ (λ b w', b = set_bs_state bs 2 ∧ moving (n + 2 * k + 1) w') _ resumable); [| |done].
  - unfold BOOT_STATUS_STATE_0. rewrite Hst. case_if Hs0.
    + assert (s = 0) as -> by lia. rewrite Z.add_0_r in Hmv.
      pose proof (moving_step (n + 2 * k) bs (set_bs_state bs 2) w ltac:(lia)) as Hstep.
      destruct (move_places state n P0 S0 (n + 2 * k) ltac:(lia)) as [(? & _)|(k' & Hk' & [(? & Hsr & Hd)|(? & _)])]; [lia| |lia].
      assert (k' = k) as -> by lia. cbn [js_src js_dst move_script] in Hstep. rewrite Hsr, Hd in Hstep. cbn [fst snd] in Hstep.
      apply Hstep; [|done|done]. right. destruct (half_down n P0 S0 k) as [-> ->]. split_and!; done || lia.
    + assert (s = 1) as -> by lia. apply wp_ret. split; [|done]. destruct bs; cbn in *. by subst.
  - intros b w1 [-> Hmv1]. cbn [bs_state bs_idx set_bs_state]. rewrite (proj2 (Z.eqb_eq _ _)) by done.
    rewrite Hidx, u32_small by (unfold is_u32; lia). replace (k + 2) with (k + 1 + 1) by lia.
    replace (n + 2 * (k + 1)) with (n + 2 * k + 1 + 1) by lia.
    pose proof (moving_step (n + 2 * k + 1) (set_bs_state bs 2) (set_bs_next bs (k + 1 + 1) 1) w1 ltac:(lia)) as Hstep.
    destruct (move_places state n P0 S0 (n + 2 * k + 1) ltac:(lia)) as [(? & _)|(k' & Hk' & [(? & _)|(? & Hsr & Hd)])]; [lia|lia|].
    assert (k' = k) as -> by lia. cbn [js_src js_dst move_script] in Hstep. rewrite Hsr, Hd in Hstep. cbn [fst snd] in Hstep.
    apply Hstep; [|lia|done]. right. destruct (half_out n P0 S0 k) as [-> ->]. split_and!; cbn; done || lia.
Qed.

Lemma move_exchange_wp p bs w :
  n <= p <= 3 * n → bs_op bs = BOOT_STATUS_OP_SWAP → bs_idx bs = (p - n) / 2 + 1 → bs_state bs = (p - n) mod 2 + 1 →
  moving p w →
  wp (loop (S (S (Z.to_nat n))) (swap_loop_step state pri sec sz n) (1, bs))
    (λ b w', bs_swap_type b = bs_swap_type bs ∧ moving (3 * n) w') resumable w.
Proof using All.
  intros Hp Hop Hidx Hst Hmv. pose proof (mv_n _ _ _ (mu_move _ _ _ _ _ Hup)). pose proof bc_sectors.
  apply (wp_loop (λ '(idx, b) w', ∃ k s, 0 <= k ∧ 0 <= s <= 1 ∧ n + 2 * k + s <= 3 * n ∧ b = set_bs_next bs (k + 1) (s + 1) ∧
                    1 <= idx <= k + 1 ∧ moving (n + 2 * k + s) w') (λ '(idx, _), n + 1 - idx)).
  - intros [idx b] w' (k & s & Hk & Hs & Hks & -> & Hi & Hm). unfold swap_loop_step. case_if Hz.
    { apply wp_ret. split; [done|]. assert (n + 2 * k + s = 3 * n) as <- by lia. done. }
    change (bs_idx (set_bs_next bs (k + 1) (s + 1))) with (k + 1).
    rewrite (u32_small (idx + 1)) by (unfold is_u32; lia). apply wp_bind. case_if Hle.
    + assert (idx = k + 1) as -> by lia.
      eapply wp_mono; [apply (exchange_sectors_wp k s (set_bs_next bs (k + 1) (s + 1)) w'); try done; try lia| |done].
      intros b w1 [-> Hm1]. apply wp_ret. split; [|lia]. exists (k + 1), 0. rewrite Z.add_0_r.
      split_and!; try done; try lia. unfold set_bs_next. cbn. f_equal. lia.
    + apply wp_ret, wp_ret. split; [|lia]. exists k, s. split_and!; done || lia.
  - exists ((p - n) / 2), ((p - n) mod 2). split_and!; try lia.
    + destruct bs; cbn in *. by subst.
    + by replace (n + 2 * ((p - n) / 2) + (p - n) mod 2) with p by lia.
  - lia.
  - lia.
Qed.

(** ** Running *)

Lemma move_fits_true bs w : swap_fits state bs n sz w = (Ret true, w).
Proof using All.
  unfold swap_fits. destruct (boot_status_is_reset bs); [|done]. pose proof (mu_move _ _ _ _ _ Hup) as Hsu.
  pose proof mu_bounds. destruct mu_trailers as (Hta & _). pose proof (ta_fit _ Hta). pose proof (ta_size_u32 pri Hta).
  pose proof (ta_align_bounds pri (ta_area _ Hta)) as Hal. assert (sz <= (n + 1) * sz) by nia.
  assert (Htsz : 0 < boot_trailer_sz (write_sz state) <= fa_size pri).
  { rewrite (mv_write_sz _ _ _ Hsu). pose proof (entry_off_0_bounds mu_mode (mu_logical _ _ _ _ _ Hup) pri Hta).
    unfold entry_off in *. lia. }
  pose proof (mu_sectors _ _ _ _ _ Hup).
  destruct (first_trailer_idx_gt sz (boot_trailer_sz (write_sz state)) (boot_img_num_sectors state BOOT_SLOT_PRIMARY) n w)
    as (f & Hf & Hlt); try lia; try apply Hup.
  erewrite bind_ret by exact Hf. unfold mret, M_ret. do 2 f_equal. lia.
Qed.

Lemma move_last_idx_eq w : find_last_idx state size w = (Ret n, w).
Proof using All.
  pose proof mu_bounds. pose proof (mu_size _ _ _ _ _ Hup). destruct mu_trailers as (Hta & _). pose proof (ta_size_u32 pri Hta).
  unfold find_last_idx. rewrite (bind_ret _ _ _ _ _ (mu_sector _ _ _ _ _ Hup w)).
  match goal with |- ?c w = _ =>
    assert (Hwp : wp c (λ r w', r = n ∧ w' = w) (λ _, False) w) end.
  { apply (wp_loop (λ '(s, i) w', w' = w ∧ 0 <= i < n ∧ s = i * sz) (λ '(_, i), n - 1 - i)).
    - intros [s i] w' (-> & Hi & ->). rewrite !u32_small by (unfold is_u32; nia). case_if Hle; apply wp_ret.
      + split; [|done]. nia.
      + assert (i + 1 < n) by nia. split; [|lia]. split_and!; [done|lia|lia|lia].
    - split_and!; lia || done.
    - nia.
    - lia. }
  by destruct (wp_returns _ _ _ Hwp) as (? & ? & -> & -> & ->).
Qed.

Lemma move_run_wp p bs w :
  0 <= p <= 3 * n → status_pos n p bs → bs_swap_type bs = t →
  (if p =? 0 then wp (prepare bs) (λ _, moving 0) resumable w else moving p w) →
  wp (swap_run state bs size) (λ b w', bs_swap_type b = t ∧ moving (3 * n) w') resumable w.
Proof using All.
  intros Hp Hpos Hbt Hpre. pose proof (mu_move _ _ _ _ _ Hup) as Hsu. pose proof (mv_n _ _ _ Hsu).
  pose proof (op_swap_2 state sz n Hsu) as Hop2. unfold swap_run.
  apply wp_bind. eapply wp_pure; [apply move_last_idx_eq|]. apply wp_bind. eapply wp_pure; [apply Hup|].
  apply wp_bind. eapply wp_pure; [apply move_fits_true|]. cbn [negb]. apply wp_bind. unfold fixup_revert. rewrite Hbt.
  assert ((t =? BOOT_SWAP_TYPE_REVERT) = false) as -> by (destruct (mu_type _ _ _ _ _ Hup) as [-> | ->]; done).
  cbn [negb orb]. apply wp_ret, wp_bind. destruct Hpos as [(Hop & Hle & Hidx & Hst)|(Hop & Hge & Hidx & Hst)]; rewrite Hop.
  - rewrite Z.eqb_refl. apply wp_bind. eapply wp_mono; [by apply (move_loop_wp p bs w); try lia| |done].
    intros b w1 [-> Hm]. apply wp_ret. rewrite <- Hbt.
    eapply wp_mono; [apply (move_exchange_wp n); try done; try lia| |done]; rewrite ?Z.sub_diag; try done.
  - rewrite Hop2. cbn [Z.eqb Pos.eqb BOOT_STATUS_OP_MOVE]. apply wp_ret. rewrite <- Hbt, <- Hop2, <- Hop.
    rewrite (proj2 (Z.eqb_neq p 0)) in Hpre by lia.
    eapply wp_mono; [apply (move_exchange_wp p); try done; try lia| |done]; done.
Qed.

Lemma read_status_moving p w :
  0 <= p <= 3 * n → moving p w →
  ∃ bs, swap_read_status swap_status_source swap_read_status_bytes state boot_status_reset w = (Ret (0, bs), w) ∧
    status_pos n p bs ∧ bs_swap_type bs = t ∧ bs_source bs = BOOT_STATUS_SOURCE_PRIMARY_SLOT.
Proof using All.
  intros Hp [Hj [Hm Hc Hi _] Hsm]. pose proof (jn_ok _ _ _ _ _ _ Hj) as Hok. pose proof (mu_move _ _ _ _ _ Hup) as Hsu.
  destruct mu_trailers as (Hta & Hts & _). pose proof (fld_byte pri 3 Hta ltac:(lia)). pose proof (mu_num _ _ _ _ _ Hup) as Hnum.
  assert (Htt : 2 <= t <= 3) by (destruct (mu_type _ _ _ _ _ Hup) as [-> | ->]; done).
  assert (Hsrc : swap_status_source state w = (Ret BOOT_STATUS_SOURCE_PRIMARY_SLOT, w)).
  { unfold swap_status_source. erewrite bind_ret by (by apply read_swap_state_eq). cbn beta iota.
    erewrite bind_ret by (by apply read_swap_state_eq). cbn beta iota. by rewrite Hm, Hc, Hsm. }
  destruct (move_status_bytes state sz n P0 S0 Hsu p (set_bs_source boot_status_reset BOOT_STATUS_SOURCE_PRIMARY_SLOT) w
    Hok (mu_id _ _ _ _ _ Hup) Hp (jn_logged _ _ _ _ _ _ Hj)) as (bs' & Hrd & Hpos & _ & Hs').
  eexists. split.
  { unfold swap_read_status. rewrite (bind_ret _ _ _ _ _ Hsrc). cbv zeta. cbn [Z.eqb BOOT_STATUS_SOURCE_PRIMARY_SLOT BOOT_STATUS_SOURCE_NONE].
    rewrite (status_not_scratch mu_mode). cbn [andb Z.eqb Pos.eqb]. rewrite (bind_ret (mret pri) _ pri w w) by done.
    erewrite bind_ret by exact Hrd. cbn beta iota. cbn [Z.eqb negb]. rewrite swap_info_off_eq by done.
    erewrite bind_ret by (apply fm_read; [done|apply Hta|lia..]). cbn beta iota. cbn [Z.eqb negb].
    rewrite Hi, erased_1, (proj2 (Z.eqb_neq _ _)) by (pose proof (ta_ev _ Hta); lia).
    rewrite (bind_ret (mret _) _ _ w w) by done. reflexivity. }
  split_and!.
  - destruct (p =? 0) eqn:Hz; zsimp; [|done]. subst p bs'. left. unfold boot_status_reset. rewrite (not_offset state sz n Hsu).
    cbn. split_and!; done || lia.
  - cbn [bs_swap_type set_bs_swap_type]. unfold BOOT_GET_SWAP_TYPE. rewrite (Z.land_ones _ 4) by lia. cbn [le_dec]. lia.
  - exact Hs'.
Qed.

Lemma read_status_waiting w :
  waiting w →
  swap_read_status swap_status_source swap_read_status_bytes state boot_status_reset w =
    (Ret (0, set_bs_source boot_status_reset BOOT_STATUS_SOURCE_NONE), w).
Proof using All.
  intros [Hok _ Hm]. destruct mu_trailers as (Hta & Hts & _). unfold swap_read_status.
  assert (Hsrc : swap_status_source state w = (Ret BOOT_STATUS_SOURCE_NONE, w)).
  { unfold swap_status_source. erewrite bind_ret by (by apply read_swap_state_eq). cbn beta iota.
    erewrite bind_ret by (by apply read_swap_state_eq). cbn beta iota. rewrite Hm. cbn. by rewrite andb_false_r. }
  by rewrite (bind_ret _ _ _ _ _ Hsrc).
Qed.

Lemma move_attempt_wp w :
  resumable w →
  wp (swap_attempt swap_status_source swap_read_status_bytes swap_run state t size)
    (λ b w', bs_swap_type b = t ∧ moving (3 * n) w') resumable w.
Proof using All.
  pose proof mu_bounds as (? & _). pose proof (mu_move _ _ _ _ _ Hup) as Hsu.
  intros [Hwt|(p & Hp & Hmv)]; unfold swap_attempt; apply wp_bind.
  - eapply wp_pure; [by apply read_status_waiting|]. cbn beta iota. apply wp_bind, wp_assert; [done|].
    apply (move_run_wp 0); [lia| |done|by apply prepare_wp]. left. unfold boot_status_reset.
    rewrite (not_offset state sz n Hsu). cbn. split_and!; done || lia.
  - destruct (read_status_moving p w Hp Hmv) as (bs & Hrd & Hpos & Hbt & Hsrc).
    eapply wp_pure; [exact Hrd|]. cbn beta iota. apply wp_bind, wp_assert; [done|]. rewrite Hsrc. cbv zeta.
    cbn [Z.eqb BOOT_STATUS_SOURCE_PRIMARY_SLOT BOOT_STATUS_SOURCE_NONE].
    apply (move_run_wp p); [lia|done|done|]. case_if Hz; [|done]. assert (p = 0) as -> by lia. by apply prepare_again_wp.
Qed.
End Upgrade.

End MoveRecover.
