(* ===== verification/BootDemo.v ===== *)
(** * A small board for the boot code

    A simulated device with two slots, with and without erase, on which the
    theorems about trailers, swap types, regions, headers and TLVs are applied to
    concrete contents. *)

From stdpp Require Import gmap.
From S2P Require Import Prelude Effects FlashMap SimFlash BootConfig.
From S2P Require Import Trailer TrailerProps SwapState SwapStateProps Area AreaProps.
From S2P Require Import Image ImageProps Tlv TlvProps.

Module BootDemo.

(** Four sectors of 128 bytes for the primary slot, five for the secondary. *)
Definition primary : flash_area := FlashArea 1 0 0 512.
Definition secondary : flash_area := FlashArea 2 0 512 640.
Definition sectors_of (id off : Z) (n : nat) : list flash_area :=
  (λ k, FlashArea id 0 (off + 128 * Z.of_nat k) 128) <$> seq 0 n.
Definition slots : list area :=
  [Area primary (sectors_of 1 0 4) 1; Area secondary (sectors_of 2 512 5) 2].
Definition dev_layout : list Z := replicate 9 128.
Definition layout : gmap Z (list Z) := {[ 0 := dev_layout ]}.
Definition params : gmap Z flash_param := {[ 0 := FlashParam 4 255 ]}.

(** A device holding [data], with the given cells still erased. *)
Definition world (verify : bool) (data : list Z) (safe : list bool) : sim_world :=
  SimWorld {[ 0 := SimFlash data safe dev_layout 4 verify 255 ]} 0 0.

Definition blank : list Z := replicate 1152 255.
Definition fresh : list bool := replicate 1152 true.

Lemma board_layout_dev d l : layout !! d = Some l → d = 0 ∧ l = dev_layout.
Proof. unfold layout. intros H. by apply lookup_singleton_Some in H as [<- <-]. Qed.

Lemma board_wf : sim_wf slots params layout.
Proof.
  split.
  - intros d l [-> ->]%board_layout_dev. repeat constructor.
  - unfold slots. repeat constructor; cbn; try lia.
    + exists [], (replicate 5 128). done.
    + intros [|[|[|[|i]]]] s; cbn; naive_solver.
    + exists (FlashParam 4 255), 2. split_and!; try done. repeat constructor.
    + exists (replicate 4 128), []. done.
    + intros [|[|[|[|[|i]]]]] s; cbn; naive_solver.
    + exists (FlashParam 4 255), 2. split_and!; try done. repeat constructor.
  - unfold slots. intros a a' Ha Ha' Hne. unfold disjoint_areas.
    rewrite !elem_of_cons in Ha, Ha'.
    destruct Ha as [->|[->|?%not_elem_of_nil]], Ha' as [->|[->|?%not_elem_of_nil]]; cbn in *; lia || done.
Qed.

#[export] Instance flash : FlashMap sim_world := sim_flash_map slots params.
Definition erase_ok : FlashMapOk sim_world := sim_flash_map_ok slots params layout (λ _, true) board_wf.
Definition rewrite_ok : FlashMapOk sim_world := sim_flash_map_ok slots params layout (λ _, false) board_wf.

Definition bytes_okb (data : list Z) : bool := forallb (λ b, (0 <=? b) && (b <? 256)) data.

Lemma board_world_ok v data safe :
  zlen data = 1152 → zlen safe = 1152 → bytes_okb data = true →
  sim_ok params (λ _, v) layout (world v data safe).
Proof.
  intros Hd Hs Hb id l p [-> ->]%board_layout_dev [= <-].
  exists (SimFlash data safe dev_layout 4 v 255). split; [done|]. split; try done.
  apply list.Forall_forall. intros x Hx. unfold bytes_okb in Hb. rewrite forallb_forall in Hb.
  specialize (Hb x (proj1 (list_elem_of_In _ _) Hx)). zsimp. unfold is_u8. lia.
Qed.

Lemma area_primary : sim_area slots primary.
Proof. eexists. split; [by left|done]. Qed.
Lemma area_secondary : sim_area slots secondary.
Proof. eexists. split; [by right; left|done]. Qed.

(** One image, eight status entries, 8-byte trailer units. *)
Definition config (mode : boot_mode) (needs_erase : bool) : BootConfig := {|
  MCUBOOT_MODE := mode;
  BOOT_MAX_ALIGN := 8;
  MCUBOOT_MAX_IMG_SECTORS := 8;
  BOOT_IMAGE_NUMBER := 1;
  MCUBOOT_LOGICAL_SECTOR_SIZE := 0;
  MCUBOOT_MINIMAL_SCRAMBLE := false;
  MCUBOOT_VALIDATE_PRIMARY_SLOT := false;
  device_requires_erase _ := needs_erase;
  FLASH_AREA_IMAGE_PRIMARY _ := 1;
  FLASH_AREA_IMAGE_SECONDARY _ := 2;
  FLASH_AREA_IMAGE_SCRATCH := 3;
|}.

Lemma config_ok mode b : @BootConfigOk (config mode b).
Proof. split; cbn; [exists 3|..]; lia. Qed.

End BootDemo.

(** ** A device with erase, swap using offset *)

Module DemoErase.
Import BootDemo.
#[local] Existing Instance erase_ok.
#[local] Instance cfg : BootConfig := config SWAP_USING_OFFSET true.
#[local] Instance cfg_ok : BootConfigOk := config_ok _ _.

Definition w0 : sim_world := world true blank fresh.

Lemma w0_ok : fm_ok w0.
Proof. apply (board_world_ok true); by vm_compute. Qed.

Lemma ta_primary : trailer_area primary.
Proof. split; [apply area_primary|by vm_compute..|by right]. Qed.
Lemma ta_secondary : trailer_area secondary.
Proof. split; [apply area_secondary|by vm_compute..|by right]. Qed.

Lemma pair : slot_pair 0 primary secondary.
Proof. split; [done|done|apply ta_primary|apply ta_secondary|done]. Qed.

Lemma trailer_layout_witness :
  ∃ so, boot_status_off primary w0 = (Ret so, w0) ∧ so + 64 = 456 ∧ boot_swap_size_off primary = 456.
Proof.
  destruct (trailer_layout primary w0 ta_primary eq_refl) as (so & Hso & _ & H1 & _).
  exists so. split_and!; [done|by vm_compute in H1|by vm_compute].
Defined.

Lemma trailer_write_read_witness :
  wp (rc ← run_op (WriteSwapInfo 2 0) secondary; r ← boot_read_swap_state secondary; mret (rc, r))
    (λ rr w', rr = (0, inr (SwapState 3 2 3 3 0))) (λ _, True) w0.
Proof.
  eapply wp_mono; [eapply (trailer_write_read (WriteSwapInfo 2 0) secondary w0)| |done].
  - apply w0_ok.
  - apply ta_secondary.
  - cbn. unfold BOOT_SWAP_TYPE_REVERT. lia.
  - right. vm_compute. repeat constructor.
  - vm_compute. reflexivity.
  - intros a w' ->. reflexivity.
Defined.

Lemma swap_type_decision_witness : boot_swap_type_multi 0 w0 = (Ret BOOT_SWAP_TYPE_NONE, w0).
Proof.
  destruct (swap_type_decision w0 0 primary w0_ok ta_primary eq_refl) as (Hs & _ & _).
  rewrite (Hs secondary ta_secondary eq_refl). vm_compute. reflexivity.
Defined.

Lemma set_pending_swap_type_witness :
  wp (boot_set_pending_multi 0 1)
    (λ rc w', rc = 0 ∧ boot_swap_type_multi 0 w' = (Ret BOOT_SWAP_TYPE_PERM, w')) (λ _, True) w0.
Proof.
  eapply wp_mono; [apply (set_pending_swap_type w0 0 primary secondary 1)| |done].
  - apply w0_ok.
  - apply pair.
  - repeat (constructor; [right; vm_compute; repeat constructor|]). constructor.
  - by vm_compute.
  - by vm_compute.
  - by vm_compute.
  - by intros rc w' (-> & ? & _).
Defined.

(** A primary slot under test: good magic, copy done, not confirmed. *)
Definition testing : list Z := splice (splice blank 496 BOOT_IMG_MAGIC) 480 [1].
Definition w1 : sim_world := world true testing fresh.

Lemma w1_ok : fm_ok w1.
Proof. apply (board_world_ok true); by vm_compute. Qed.

Lemma set_confirmed_cancels_revert_witness :
  boot_swap_type_multi 0 w1 = (Ret BOOT_SWAP_TYPE_REVERT, w1) ∧
  wp (boot_set_confirmed_multi 0)
    (λ rc w', rc = 0 ∧ boot_swap_type_multi 0 w' = (Ret BOOT_SWAP_TYPE_NONE, w')) (λ _, True) w1.
Proof.
  split; [vm_compute; reflexivity|].
  eapply wp_mono; [apply (set_confirmed_cancels_revert w1 0 primary secondary)| |done].
  - apply w1_ok.
  - apply pair.
  - repeat (constructor; [right; vm_compute; repeat constructor|]). constructor.
  - by vm_compute.
  - by vm_compute.
  - by vm_compute.
  - by intros rc w' (-> & ? & _).
Defined.

(** A secondary slot with a damaged magic. *)
Definition w2 : sim_world := world true (splice blank 1140 [0; 1; 2]) fresh.

Lemma set_next_no_write_witness : boot_set_next secondary false true w2 = (Ret BOOT_EBADIMAGE, w2).
Proof.
  assert (Hok : fm_ok w2) by (apply (board_world_ok true); by vm_compute).
  apply (set_next_no_write w2 secondary false true Hok ta_secondary). by vm_compute.
Defined.

Lemma sectors_big fa : fa = primary ∨ fa = secondary → Forall (λ n, 1 < n) (fm_sizes fa).
Proof. intros [-> | ->]; vm_compute; repeat constructor. Qed.

(** Erasing bytes 200..299 of the secondary slot takes its sectors 1 and 2. *)
Lemma erase_region_exact_witness :
  wp (boot_erase_region secondary 200 100 true)
    (λ rc w', rc = 0 ∧ slice (fm_cells w' secondary) 128 128 = erased 255 128) (λ _, True) w2.
Proof.
  assert (Hok : fm_ok w2) by (apply (board_world_ok true); by vm_compute).
  eapply wp_mono; [apply (erase_region_exact w2 secondary 200 100 true); [exact Hok|apply area_secondary|
    by apply sectors_big; right|reflexivity|by vm_compute..]| |done].
  intros rc w' (-> & _ & Hk). split; [done|]. apply (Hk 1%nat). vm_compute. lia.
Defined.

Lemma scramble_slot_full_witness :
  wp (boot_scramble_slot primary 0)
    (λ rc w', rc = 0 ∧ vals (fm_cells w' primary) = replicate 512 255) (λ _, True) w1.
Proof.
  eapply wp_mono; [apply (scramble_slot_full w1 primary 0)| |done].
  - apply w1_ok.
  - apply area_primary.
  - reflexivity.
  - apply sectors_big. by left.
  - intros rc w' (-> & _ & Hv). by split.
Defined.

(** ** Headers and TLVs *)

Definition hdr : image_header :=
  ImageHeader IMAGE_MAGIC 0 32 0 64 0 (ImageVersion 1 0 0 0) 0.
Definition w3 : sim_world := world true (splice blank 0 (header_bytes hdr)) fresh.

Lemma w3_ok : fm_ok w3.
Proof. apply (board_world_ok true); by vm_compute. Qed.

(** An image of 64 bytes with one protected and two unprotected TLVs. *)
Definition thdr : image_header :=
  ImageHeader IMAGE_MAGIC 0 32 10 64 0 (ImageVersion 1 0 0 0) 0.
Definition prot_tlvs : list tlv := [(0x50, [7; 0])].
Definition unprot_tlvs : list tlv := [(0x10, [1; 2; 3; 4]); (0x22, [9])].
Definition w4 : sim_world :=
  world true (splice (splice blank 0 (header_bytes thdr)) 96 (enc_area (Some prot_tlvs) unprot_tlvs)) fresh.

Lemma w4_ok : fm_ok w4.
Proof. apply (board_world_ok true); by vm_compute. Qed.

Lemma w4_image : tlv_image w4 primary thdr 0 (Some prot_tlvs) unprot_tlvs.
Proof.
  split; try (by vm_compute).
  - repeat constructor; by cbv.
  - repeat constructor; by cbv.
Qed.

Lemma tlv_walk_complete_witness :
  (it ← bootutil_tlv_iter_begin 0 thdr primary IMAGE_TLV_ANY false;
   match it with Some it => tlv_collect 9 it | None => mret None end) w4 =
    (Ret (Some [(0x50, 104, 2); (0x10, 114, 4); (0x22, 122, 1)]), w4).
Proof.
  rewrite (tlv_walk_complete w4 primary thdr 0 (Some prot_tlvs) unprot_tlvs IMAGE_TLV_ANY false 9);
    [vm_compute; reflexivity|apply w4_ok|apply area_primary|apply w4_image|cbn; lia].
Defined.

Lemma sim_reads_answer data safe fa :
  fa_device_id fa = 0 → bytes_okb data = true → reads_answer (world true data safe) fa.
Proof.
  intros Hd Hb off len.
  change (flash_area_read fa off len) with (sim_flash_read (fa_device_id fa) (fa_off fa ⊕ off) len).
  rewrite Hd. unfold sim_flash_read, sf_read. cbn [world flash_map]. rewrite lookup_singleton_eq. cbn [sf_data].
  destruct (zlen data <? fa_off fa ⊕ off + len); do 2 eexists; (split; [reflexivity|]); [done|].
  intros _. apply Forall_slice, list.Forall_forall. intros x Hx. unfold bytes_okb in Hb. rewrite forallb_forall in Hb.
  specialize (Hb x (proj1 (list_elem_of_In _ _) Hx)). zsimp. unfold is_u8. lia.
Qed.

Lemma tlv_next_in_bounds_witness :
  let it := TlvIter thdr primary 0x10 true 106 100 131 0 in
  ∃ r it', bootutil_tlv_iter_next it w4 = (Ret (r, it'), w4) ∧ search_post it r it'.
Proof.
  apply (tlv_next_in_bounds (TlvIter thdr primary 0x10 true 106 100 131 0) w4).
  - apply sim_reads_answer; by vm_compute.
  - split; cbn; lia.
Defined.

End DemoErase.

(** ** A device without erase *)

Module DemoRewrite.
Import BootDemo.
#[local] Existing Instance rewrite_ok.
#[local] Instance cfg : BootConfig := config SWAP_USING_OFFSET false.
#[local] Instance cfg_ok : BootConfigOk := config_ok _ _.

(** The primary slot full of [0x5a]. *)
Definition w5 : sim_world := world false (splice blank 0 (replicate 512 0x5a)) (replicate 1152 false).

Lemma w5_ok : fm_ok w5.
Proof. apply (board_world_ok false); by vm_compute. Qed.

(** The trailer of the primary slot (120 bytes) is
    scrambled downwards: its lowest four bytes keep [0x5a]. *)
Lemma scramble_region_downwards_skips_witness :
  wp (boot_scramble_region primary 392 120 true)
    (λ rc w', rc = 0 ∧ vals (slice (fm_cells w' primary) 392 4) = [0x5a; 0x5a; 0x5a; 0x5a]) (λ _, True) w5.
Proof.
  eapply wp_mono; [apply (scramble_region_downwards_skips w5 primary 392 120); [apply w5_ok|apply area_primary|done|done|by vm_compute..]| |done].
  intros rc w' (-> & _ & Hs). split; [done|]. change (flash_area_align primary) with 4 in Hs. rewrite Hs. by vm_compute.
Defined.
End DemoRewrite.
