(* ===== verification/SwapDemo.v ===== *)
(** * A swap on the small board

    The theorems on copying, status bytes and swapping applied to two three-sector
    images on the simulated device of BootDemo.v, with the power cut in the middle
    of the upgrade. *)

From stdpp Require Import gmap.
From S2P Require Import Prelude Effects FlashMap SimFlash BootConfig.
From S2P Require Import Trailer TrailerProps SwapState SwapStateProps Area AreaProps Image.
From S2P Require Import LoaderState SwapMisc SwapOffset LoaderProps SwapOffsetProps SwapTrailer SwapRecover BootDemo.

Module SwapDemo.
Import BootDemo.
#[local] Existing Instance erase_ok.
#[local] Instance cfg : BootConfig := config SWAP_USING_OFFSET true.
#[local] Instance cfg_ok : BootConfigOk := config_ok _ _.

(** ** The board: an old image of [0x11 0x22 0x33] sectors, a new one of
    [0xa1 0xa2 0xa3] sectors one sector up, and the magic that requests a swap. *)

Definition fill (b : Z) : list Z := replicate 128 b.
Definition old_image : list Z := fill 0x11 ++ fill 0x22 ++ fill 0x33.
Definition new_image : list Z := fill 0xa1 ++ fill 0xa2 ++ fill 0xa3.
Definition contents : list Z := splice (splice (splice blank 0 old_image) 640 new_image) 1136 BOOT_IMG_MAGIC.
Definition unwritten : list bool :=
  splice (splice (splice fresh 0 (replicate 384 false)) 640 (replicate 384 false)) 1136 (replicate 16 false).

(** The power fails at the [n]-th flash operation. *)
Definition start (n : Z) : sim_world :=
  SimWorld {[ 0 := SimFlash contents unwritten dev_layout 4 true 255 ]} n 0.

Lemma start_ok n : fm_ok (start n).
Proof.
  change (sim_ok params (λ _, true) layout (start n)). intros id l p Hl Hp.
  assert (Hw : sim_ok params (λ _, true) layout (world true contents unwritten)) by (apply board_world_ok; by vm_compute).
  exact (Hw id l p Hl Hp).
Qed.

Definition image_hdr : image_header := ImageHeader IMAGE_MAGIC 0 32 0 300 0 (ImageVersion 1 0 0 0) 0.
Definition sectors (base : Z) (n : nat) : list flash_sector :=
  (λ k, FlashSector (base + 128 * Z.of_nat k) 128) <$> seq 0 n.
Definition loader : boot_loader_state :=
  LoaderState 0 (SlotImg image_hdr primary (sectors 0 4) 4 40) (SlotImg image_hdr secondary (sectors 512 5) 5 40)
    primary [] 0 BOOT_SWAP_TYPE_NONE 4 128.

Lemma trailer_primary : trailer_area primary.
Proof. split; [apply area_primary|by vm_compute..|by right]. Qed.
Lemma trailer_secondary : trailer_area secondary.
Proof. split; [apply area_secondary|by vm_compute..|by right]. Qed.

Lemma one_sector fa i :
  fa = primary ∧ 0 <= i <= 3 ∨ fa = secondary ∧ 0 <= i <= 4 → replaceable fa (i * 128) 128.
Proof.
  intros Hi. unfold replaceable. change (device_requires_erase fa) with true. cbn beta iota.
  destruct Hi as [[-> Hi]|[-> Hi]]; (split; [vm_compute; repeat constructor|]).
  - assert (i = 0 ∨ i = 1 ∨ i = 2 ∨ i = 3) as Hc by lia. exists (Z.to_nat i), (S (Z.to_nat i)).
    destruct Hc as [-> | [-> | [-> | ->]]]; vm_compute; split_and!; (lia || done).
  - assert (i = 0 ∨ i = 1 ∨ i = 2 ∨ i = 3 ∨ i = 4) as Hc by lia. exists (Z.to_nat i), (S (Z.to_nat i)).
    destruct Hc as [-> | [-> | [-> | [-> | ->]]]]; vm_compute; split_and!; (lia || done).
Qed.

Lemma sector_offsets slot i (w : sim_world) :
  slot = BOOT_SLOT_PRIMARY ∨ slot = BOOT_SLOT_SECONDARY → 0 <= i <= 3 →
  boot_img_sector_off loader slot i w = (Ret (i * 128), w).
Proof.
  intros Hs Hi. assert (i = 0 ∨ i = 1 ∨ i = 2 ∨ i = 3) as Hc by lia.
  destruct Hs as [-> | ->], Hc as [-> | [-> | [-> | ->]]]; reflexivity.
Qed.

Lemma setup : swap_setup loader 128 2.
Proof.
  split.
  - reflexivity.
  - apply trailer_primary.
  - apply area_secondary.
  - done.
  - reflexivity.
  - lia.
  - by vm_compute.
  - by vm_compute.
  - intros i w Hi. apply sector_offsets; [by left|lia].
  - intros i w Hi. apply sector_offsets; [by right|lia].
  - by vm_compute.
  - by vm_compute.
  - intros i Hi. apply one_sector. left. split; [done|lia].
  - intros i Hi. apply one_sector. right. split; [done|lia].
Qed.

Lemma scramble_areas : scramble_area primary 384 ∧ scramble_area secondary 512.
Proof.
  split; split.
  - apply trailer_primary.
  - reflexivity.
  - vm_compute. repeat constructor; done.
  - by vm_compute.
  - exists 3%nat. vm_compute. split; [lia|done].
  - apply trailer_secondary.
  - reflexivity.
  - vm_compute. repeat constructor; done.
  - by vm_compute.
  - exists 4%nat. vm_compute. split; [lia|done].
Qed.

Lemma upgrade : upgrade_setup loader 128 2 372 BOOT_SWAP_TYPE_TEST.
Proof.
  split.
  - apply setup.
  - split; [done|done|apply trailer_primary|apply trailer_secondary|done].
  - reflexivity.
  - by cbn.
  - reflexivity.
  - reflexivity.
  - reflexivity.
  - by cbn.
  - by vm_compute.
  - by vm_compute.
  - apply scramble_areas.
  - apply scramble_areas.
  - by left.
  - by cbv.
  - by cbv.
Qed.

(** ** Witnesses *)

Lemma copy_region_copies_witness :
  wp (boot_copy_region primary secondary 128 0 128)
    (λ rc w', rc = 0 ∧ slice (vals (fm_cells w' secondary)) 0 128 = fill 0x22) (λ _, True) (start 0).
Proof.
  eapply wp_mono; [apply (copy_region_copies primary secondary 128 0 128 (start 0))| |done].
  - apply start_ok.
  - apply area_primary.
  - apply area_secondary.
  - by left.
  - lia.
  - by cbn.
  - by cbn.
  - by vm_compute.
  - right. vm_compute. repeat constructor.
  - intros rc w' (-> & Hv & _). split; [done|]. rewrite Hv. by vm_compute.
Defined.

(** The first [m] status entries of the primary slot written. *)
Definition entry_bytes (m : nat) : list Z :=
  concat ((λ k, [if Nat.even k then 1 else 2; 255; 255; 255]) <$> seq 0 m).
Definition at_entry (m : nat) : sim_world :=
  world true (splice contents 392 (entry_bytes m)) (splice unwritten 392 (replicate (4 * m) false)).

Lemma entry_cases (P : Z → Prop) : Forall P (Z.of_nat <$> seq 0 16) → ∀ e, 0 <= e < 16 → P e.
Proof.
  intros HP e He. rewrite list.Forall_forall in HP. apply HP, list_elem_of_fmap. exists (Z.to_nat e).
  split; [lia|]. apply elem_of_seq. lia.
Qed.

Lemma status_0 : status_at primary 0 (start 0).
Proof.
  refine (entry_cases _ _). cbn [seq fmap list_fmap].
  repeat (constructor; [split; [vm_compute; reflexivity|right; vm_compute; repeat constructor]|]). constructor.
Qed.

Lemma status_3 : status_at primary 3 (at_entry 3).
Proof.
  refine (entry_cases _ _). cbn [seq fmap list_fmap].
  constructor; [exists 1; split; [by left|vm_compute; reflexivity]|].
  constructor; [exists 2; split; [by right|vm_compute; reflexivity]|].
  constructor; [exists 1; split; [by left|vm_compute; reflexivity]|].
  repeat (constructor; [split; [vm_compute; reflexivity|right; vm_compute; repeat constructor]|]). constructor.
Qed.

(** Three entries: the second sector is half done. *)
Lemma status_bytes_position_witness :
  ∃ bs, swap_read_status_bytes primary loader boot_status_reset (at_entry 3) = (Ret (0, bs), at_entry 3) ∧
    bs_idx bs = 2 ∧ bs_state bs = 2.
Proof.
  destruct (status_bytes_position loader primary 1 1 boot_status_reset (at_entry 3)) as (bs & Hrd & Hi & Hs & _).
  - reflexivity.
  - apply (board_world_ok true); by vm_compute.
  - apply trailer_primary.
  - reflexivity.
  - reflexivity.
  - lia.
  - lia.
  - by vm_compute.
  - apply status_3.
  - exists bs. split; [exact Hrd|]. split; [exact Hi|exact Hs].
Defined.

Lemma swap_loop_exchanges_witness :
  wp (loop 4 (swap_loop_step loader primary secondary false 128 2 3 3) (0, boot_status_reset))
    (λ _ w', sect 128 w' primary 0 = fill 0xa1 ∧ sect 128 w' primary 2 = fill 0xa3 ∧
             sect 128 w' secondary 0 = fill 0x11 ∧ sect 128 w' secondary 2 = fill 0x33) (λ _, True) (start 0).
Proof.
  eapply wp_mono; [apply (swap_loop_exchanges loader 128 2 false 3 3 boot_status_reset (start 0))| |done].
  - apply setup.
  - apply start_ok.
  - apply status_0.
  - reflexivity.
  - reflexivity.
  - intros b w' (_ & _ & _ & Hi). destruct (Hi 0 ltac:(lia)) as [Hp0 Hs0]. destruct (Hi 2 ltac:(lia)) as [Hp2 Hs2].
    change (BOOT_IMG_AREA loader BOOT_SLOT_PRIMARY) with primary in *. change (BOOT_IMG_AREA loader BOOT_SLOT_SECONDARY) with secondary in *.
    rewrite Hp0, Hp2, Hs0, Hs2 by lia. by vm_compute.
Defined.

(** The power fails at the 13th flash operation, in the middle of the exchange; the
    next boot completes the upgrade. *)
Definition attempt : M sim_world boot_status := upgrade_attempt loader BOOT_SWAP_TYPE_TEST 372.
Definition after_cut : sim_world := snd (attempt (start 13)).

Lemma was_reset {W A} (c : M W A) w : fst (c w) = Reset → c w = (Reset, snd (c w)).
Proof. destruct (c w). cbn. by intros ->. Qed.

Lemma cut : attempt (start 13) = (Reset, after_cut).
Proof. unfold after_cut. apply (was_reset attempt (start 13)). vm_compute. reflexivity. Qed.

End SwapDemo.
