(* ===== verification/MoveDemo.v ===== *)
(** * A swap using move on the small board

    The theorems on swap using move applied to two three-sector images on the simulated
    device of BootDemo.v, whose larger area serves as the primary slot, with the power
    cut in the middle of the upgrade. *)

From stdpp Require Import gmap.
From S2P Require Import Prelude Effects FlashMap SimFlash BootConfig.
From S2P Require Import Trailer TrailerProps SwapState SwapStateProps Area AreaProps Image.
From S2P Require Import LoaderState SwapMisc SwapOffset SwapMove LoaderProps SwapOffsetProps Journal SwapTrailer SwapRecover.
From S2P Require Import SwapMoveProps SwapMoveRecover BootDemo SwapDemo.

Module MoveDemo.
Import BootDemo SwapDemo.
#[local] Existing Instance erase_ok.

#[local] Abbreviation large := BootDemo.secondary.
#[local] Abbreviation small := BootDemo.primary.

#[local] Instance cfg : BootConfig := {|
  MCUBOOT_MODE := SWAP_USING_MOVE;
  BOOT_MAX_ALIGN := 8;
  MCUBOOT_MAX_IMG_SECTORS := 5;
  BOOT_IMAGE_NUMBER := 1;
  MCUBOOT_LOGICAL_SECTOR_SIZE := 0;
  MCUBOOT_MINIMAL_SCRAMBLE := false;
  MCUBOOT_VALIDATE_PRIMARY_SLOT := false;
  device_requires_erase _ := true;
  FLASH_AREA_IMAGE_PRIMARY _ := 2;
  FLASH_AREA_IMAGE_SECONDARY _ := 1;
  FLASH_AREA_IMAGE_SCRATCH := 3;
|}.
#[local] Instance cfg_ok : BootConfigOk.
Proof. split; cbn; [exists 3|..]; lia. Qed.

Definition contents : list Z := splice (splice (splice blank 512 old_image) 0 new_image) 496 BOOT_IMG_MAGIC.
Definition unwritten : list bool :=
  splice (splice (splice fresh 512 (replicate 384 false)) 0 (replicate 384 false)) 496 (replicate 16 false).

(** The power fails at the [n]-th flash operation. *)
Definition start (n : Z) : sim_world :=
  SimWorld {[ 0 := SimFlash contents unwritten dev_layout 4 true 255 ]} n 0.

Lemma move_start_ok n : fm_ok (start n).
Proof.
  change (sim_ok params (λ _, true) layout (start n)). intros id l p Hl Hp.
  assert (Hw : sim_ok params (λ _, true) layout (world true contents unwritten)) by (apply board_world_ok; by vm_compute).
  exact (Hw id l p Hl Hp).
Qed.

Definition loader : boot_loader_state :=
  LoaderState 0 (SlotImg image_hdr large (sectors 512 5) 5 40) (SlotImg image_hdr small (sectors 0 4) 4 40)
    large [] 0 BOOT_SWAP_TYPE_NONE 4 0.

Lemma trailer_large : trailer_area large.
Proof. split; [apply area_secondary|by vm_compute..|by right]. Qed.
Lemma trailer_small : trailer_area small.
Proof. split; [apply area_primary|by vm_compute..|by right]. Qed.

Lemma offsets slot i (w : sim_world) :
  slot = BOOT_SLOT_PRIMARY ∨ slot = BOOT_SLOT_SECONDARY → 0 <= i <= 3 →
  boot_img_sector_off loader slot i w = (Ret (i * 128), w).
Proof.
  intros Hs Hi. assert (i = 0 ∨ i = 1 ∨ i = 2 ∨ i = 3) as Hc by lia.
  destruct Hs as [-> | ->], Hc as [-> | [-> | [-> | ->]]]; reflexivity.
Qed.

Lemma move_ready : move_setup loader 128 3.
Proof.
  split.
  - reflexivity.
  - apply trailer_large.
  - apply area_primary.
  - done.
  - reflexivity.
  - lia.
  - by vm_compute.
  - by vm_compute.
  - intros i w Hi. apply offsets; [by left|lia].
  - intros i w Hi. apply offsets; [by right|lia].
  - by vm_compute.
  - by vm_compute.
  - intros i Hi. apply (one_sector large i). right. split; [done|lia].
  - intros i Hi. apply (one_sector small i). left. split; [done|lia].
Qed.

Lemma move_areas : scramble_area large 512 ∧ scramble_area small 384.
Proof.
  split; split.
  - apply trailer_large.
  - reflexivity.
  - vm_compute. repeat constructor; done.
  - by vm_compute.
  - exists 4%nat. vm_compute. split; [lia|done].
  - apply trailer_small.
  - reflexivity.
  - vm_compute. repeat constructor; done.
  - by vm_compute.
  - exists 3%nat. vm_compute. split; [lia|done].
Qed.

Lemma move_up : move_upgrade loader 128 3 372 BOOT_SWAP_TYPE_TEST.
Proof.
  split.
  - apply move_ready.
  - split; [done|done|apply trailer_large|apply trailer_small|done].
  - reflexivity.
  - by cbn.
  - reflexivity.
  - reflexivity.
  - reflexivity.
  - by cbn.
  - by vm_compute.
  - by vm_compute.
  - apply move_areas.
  - apply move_areas.
  - by left.
Qed.

(** ** Witnesses *)

(** The power fails at the 16th flash operation, when two sectors have been moved up;
    the next boot completes the upgrade. *)
Definition attempt : M sim_world boot_status :=
  swap_attempt swap_status_source swap_read_status_bytes swap_run loader BOOT_SWAP_TYPE_TEST 372.
Definition after_cut : sim_world := snd (attempt (start 16)).

Lemma first_cut : attempt (start 16) = (Reset, after_cut).
Proof. unfold after_cut. apply (was_reset attempt (start 16)). vm_compute. reflexivity. Qed.


(** Six entries written: three moves, and one and a half exchanges. *)
Definition at_six : sim_world :=
  let o := 512 + entry_off large 0 in
  world true (splice (splice contents o [1; 255; 255; 255; 1; 255; 255; 255; 1; 255; 255; 255])
                (o + 20) [1; 255; 255; 255; 2; 255; 255; 255; 1; 255; 255; 255])
    (splice (splice unwritten o (replicate 12 false)) (o + 20) (replicate 12 false)).

Definition old_at (i : Z) : list Z := sect 128 (start 0) large i.
Definition new_at (i : Z) : list Z := sect 128 (start 0) small i.

Lemma logged_six : logged loader (move_script loader 3 old_at new_at) 6 at_six.
Proof.
  split.
  - intros q Hq. assert (q = 0 ∨ q = 1 ∨ q = 2 ∨ q = 3 ∨ q = 4 ∨ q = 5) as Hc by lia.
    destruct Hc as [-> | [-> | [-> | [-> | [-> | ->]]]]];
      first [exists 1; split; [by left|vm_compute; reflexivity] | exists 2; split; [by right|vm_compute; reflexivity]].
  - intros e He Hne. change status_entries with 15 in He.
    assert (Hin : e ∈ [3; 4; 8; 9; 10; 11; 12; 13; 14]).
    { pose proof (Hne 0 ltac:(lia)). pose proof (Hne 1 ltac:(lia)). pose proof (Hne 2 ltac:(lia)). pose proof (Hne 3 ltac:(lia)).
      pose proof (Hne 4 ltac:(lia)). pose proof (Hne 5 ltac:(lia)). cbn in *. rewrite !elem_of_cons. lia. }
    clear He Hne. revert e Hin. apply list.Forall_forall.
    repeat (constructor; [split; [vm_compute; reflexivity|right; vm_compute; repeat constructor]|]). constructor.
Qed.

Lemma move_status_position_witness :
  ∃ bs, swap_read_status_bytes large loader boot_status_reset at_six = (Ret (0, bs), at_six) ∧
    status_pos 3 6 bs.
Proof.
  destruct (move_status_position loader 128 3 old_at new_at 6 boot_status_reset at_six) as (bs & Hrd & Hpos & _).
  - apply move_ready.
  - apply (board_world_ok true); by vm_compute.
  - reflexivity.
  - lia.
  - apply logged_six.
  - exists bs. split; [exact Hrd|exact Hpos].
Defined.

End MoveDemo.
