(* ===== verification/LoopDemo.v ===== *)
(** * Whole boots on the small board

    Complete boots, with images that carry a digest, on the simulated device of
    BootDemo.v: the two situations in which an interrupted upgrade does not end well,
    because of where the header of the old image is looked for.  The theorems on headers applied in
    the middle of an upgrade. *)

From stdpp Require Import gmap.
From S2P Require Import Prelude Effects FlashMap SimFlash BootConfig.
From S2P Require Import Trailer TrailerProps SwapState SwapStateProps Area AreaProps Image Tlv TlvProps.
From S2P Require Import LoaderState Sectors Validate ValidateProps SwapMisc BootLoop SwapHeaders BootDemo SwapDemo.
From S2P Require Import LoaderProps SwapOffset SwapOffsetProps SwapHeaderProps.

Module LoopDemo.
Import BootDemo.
#[local] Existing Instance erase_ok.
#[local] Instance cfg : BootConfig := config SWAP_USING_OFFSET true.
#[local] Instance algo : SwapAlgo sim_world := swap_offset_algo.

(** Images are checked by a digest only. *)
Definition vcfg : ValidateConfig := {|
  MCUBOOT_SIGN := SIGN_NONE;
  MCUBOOT_SHA512 := false;
  MCUBOOT_USE_TLV_ALLOW_LIST := true;
  MCUBOOT_HW_ROLLBACK_PROT := false;
  MCUBOOT_HW_ROLLBACK_PROT_COUNTER_LIMITED := false;
  MCUBOOT_UUID_VID := false;
  MCUBOOT_UUID_CID := false;
  BOOT_TMPBUF_SZ := 64;
|}.
#[local] Existing Instance vcfg.

Definition lcfg : LoaderConfig := {|
  MCUBOOT_OVERWRITE_ONLY_FAST := false;
  MCUBOOT_OVERWRITE_ONLY_KEEP_BACKUP := false;
  MCUBOOT_DOWNGRADE_PREVENTION := false;
  MCUBOOT_DOWNGRADE_PREVENTION_SECURITY_COUNTER := false;
  MCUBOOT_VERSION_CMP_USE_BUILD_NUMBER := false;
  MCUBOOT_VERIFY_LOGICAL_SECTORS := false;
  MCUBOOT_CHECK_HEADER_LOAD_ADDRESS := false;
  MCUBOOT_VERIFY_IMG_ADDRESS := false;
|}.
#[local] Existing Instance lcfg.

(** A polynomial checksum in the place of the hash. *)
Definition digest (d : list Z) : list Z :=
  le_enc 32 (foldl (λ h b, (h * 257 + b + 1) mod 340282366920938463463374607431768211297) 7 d).

Definition checksum : Sha := {|
  bootutil_sha_context := list Z;
  bootutil_sha_init := [];
  bootutil_sha_update := app;
  bootutil_sha_finish := digest;
|}.
#[local] Existing Instance checksum.

Definition no_keys : Signing := {| bootutil_keys := []; bootutil_verify_sig _ _ _ := FIH_FAILURE |}.
#[local] Existing Instance no_keys.

Definition no_platform : Platform sim_world := {|
  boot_nv_security_counter_get _ := mret (FIH_FAILURE, 0);
  boot_nv_security_counter_update _ _ := mret 0;
  boot_nv_security_counter_is_update_possible _ _ := mret FIH_FAILURE;
  boot_uuid_vid_match _ _ := mret FIH_FAILURE;
  boot_uuid_cid_match _ _ := mret FIH_FAILURE;
|}.
#[local] Existing Instance no_platform.

#[local] Instance sector_list : FlashSectors sim_world := {| flash_area_get_sectors := sim_area_get_sectors slots |}.

(** An image of a version with a body: header, body, digest. *)
Definition image (v : Z) (body : list Z) : list Z :=
  let d := header_bytes (ImageHeader IMAGE_MAGIC 0 32 0 (zlen body) 0 (ImageVersion v 0 0 0) 0) ++ body in
  d ++ enc_pair IMAGE_TLV_INFO_MAGIC 40 ++ enc_tlv (IMAGE_TLV_SHA256, digest d).

Definition board (old new : list Z) : list Z :=
  splice (splice (splice blank 0 old) 640 new) 1136 BOOT_IMG_MAGIC.
Definition cells_used (old new : list Z) : list bool :=
  splice (splice (splice fresh 0 (replicate (length old) false)) 640 (replicate (length new) false))
    1136 (replicate 16 false).
Definition powered (n : Z) (old new : list Z) : sim_world :=
  SimWorld {[ 0 := SimFlash (board old new) (cells_used old new) dev_layout 4 true 255 ]} n 0.

(** The loader starts from a zeroed state. *)
Definition no_image : slot_img := SlotImg (header_of_bytes []) (FlashArea 0 0 0 0) [] 0 0.
Definition start_state : boot_loader_state := LoaderState 0 no_image no_image (FlashArea 0 0 0 0) [] 0 0 0 0.
Definition boot : M sim_world (fih_ret * option boot_rsp) := context_boot_go start_state.

Definition version_of (r : outcome (fih_ret * option boot_rsp)) : option Z :=
  match r with Ret (FIH_SUCCESS, Some rsp) => Some (iv_major (ih_ver (br_hdr rsp))) | _ => None end.

(** Three boots: the power fails at the [n]-th flash operation of the first; the
    new image does not confirm itself before the third. *)
Definition restart (w : sim_world) : sim_world := SimWorld (flash_map w) 0 0.
Definition boots (old new : list Z) (n : Z) : outcome (fih_ret * option boot_rsp) * option Z * option Z :=
  let '(r1, w1) := boot (powered n old new) in
  let '(r2, w2) := boot (restart w1) in
  let '(r3, w3) := boot (restart w2) in
  (r1, version_of r2, version_of r3).

Definition old3 : list Z := image 1 (replicate 300 0x11).
Definition new3 : list Z := image 2 (replicate 300 0xa1).
Definition old1 : list Z := image 1 (replicate 50 0x11).
Definition new1 : list Z := image 2 (replicate 50 0xa1).


(** The board after the power is cut in an upgrade between images of one sector, when
    the primary sector is erased. *)
Definition bricked : sim_world := restart (snd (boot (powered 11 old1 new1))).

(** An interrupted upgrade between images of a single sector can leave a board that
    never boots again: the header of the old image is looked for in the sector that was
    erased, so the swap is not resumed; the boot fails and changes nothing, hence so does
    every later boot. *)
Theorem single_sector_stuck :
  fst (boot (powered 11 old1 new1)) = Reset ∧ boot bricked = (Ret (FIH_FAILURE, None), bricked).
Proof. split; vm_compute; reflexivity. Qed.

End LoopDemo.

(** ** Headers in the middle of an upgrade *)

Module HeaderDemo.
Import BootDemo SwapDemo LoopDemo.
#[local] Existing Instance erase_ok.
#[local] Instance cfg : BootConfig := config SWAP_USING_OFFSET true.
#[local] Instance cfg_ok : BootConfigOk := config_ok _ _.

Definition hdr_of (v : Z) : image_header := ImageHeader IMAGE_MAGIC 0 32 0 300 0 (ImageVersion v 0 0 0) 0.
Definition first_of (v b : Z) : list Z := header_bytes (hdr_of v) ++ replicate 96 b.
Definition old0 : list Z := first_of 1 0x11.
Definition new0 : list Z := first_of 2 0xa1.

(** Sectors of both slots, and the trailer of the primary with [m] status entries,
    the swap size and the magic. *)
Definition middle (pri sec : list (list Z)) (m : nat) : sim_world :=
  let d := splice (splice blank 0 (concat pri)) 512 (concat sec) in
  let d := splice (splice (splice d 392 (entry_bytes m)) 456 (le_enc 4 372)) 496 BOOT_IMG_MAGIC in
  world true d (splice (splice (splice fresh 392 (replicate (4 * m) false)) 456 (replicate 4 false)) 496 (replicate 16 false)).

(** After the first sector, and in front of the last one. *)
Definition after1 : sim_world := middle [new0; fill 0x22; fill 0x33] [old0; fill 0xa1; fill 0xa2; fill 0xa3] 2.
Definition after2 : sim_world := middle [new0; fill 0xa2; fill 0x33] [old0; fill 0x22; fill 0xa2; fill 0xa3] 4.

Definition old_at (w : sim_world) (i : Z) : list Z :=
  if i =? 0 then old0 else if i =? 1 then fill 0x22 else sect 128 w primary i.
Definition new_at (w : sim_world) (x : Z) : list Z :=
  if x =? 1 then new0 else if x =? 2 then fill 0xa2 else sect 128 w secondary x.

Definition bs_at (k : Z) : boot_status := BootStatus (k + 1) 1 1 0 BOOT_SWAP_TYPE_TEST 0 BOOT_STATUS_SOURCE_PRIMARY_SLOT.

Lemma middle_ok w : w = after1 ∨ w = after2 → fm_ok w.
Proof. intros [-> | ->]; apply (board_world_ok true); by vm_compute. Qed.

Lemma resuming_at w k :
  w = after1 ∧ k = 1 ∨ w = after2 ∧ k = 2 → resuming loader 128 2 false 372 (bs_at k) w.
Proof. intros [[-> ->]|[-> ->]]; (split; [by vm_compute|reflexivity|vm_compute; reflexivity..]). Qed.

Ltac entries := repeat (constructor; [first
  [ exists 1; split; [by left|vm_compute; reflexivity] | exists 2; split; [by right|vm_compute; reflexivity]
  | split; [vm_compute; reflexivity|right; vm_compute; repeat constructor] ]|]); constructor.

Lemma progress_1 :
  progress loader 128 2 false (λ _, false) (λ _, false) (old_at after1) (new_at after1) after1 1 0 after1.
Proof.
  split_and!; [apply middle_ok; by left| | |by split].
  - split.
    + intros i Hi Hlt. assert (i = 0) as -> by lia. vm_compute. reflexivity.
    + intros i Hi Hor. assert (i = 1 ∨ i = 2) as [-> | ->] by lia; vm_compute; reflexivity.
    + intros i Hi [Hlt|[-> [?|?]]]; [|lia|done]. assert (i = 0) as -> by lia. vm_compute. reflexivity.
    + intros x Hx Hne. assert (x = 2 ∨ x = 3) as [-> | ->]; [|vm_compute; reflexivity..].
      pose proof (Hne 0 ltac:(lia) ltac:(lia)) as H0. pose proof (Hne 1 ltac:(lia) ltac:(lia)) as H1'.
      unfold step_dst in *. lia.
  - refine (entry_cases _ _). cbn [seq fmap list_fmap]. entries.
Qed.

Lemma progress_2 :
  progress loader 128 2 false (λ _, false) (λ _, false) (old_at after2) (new_at after2) after2 2 0 after2.
Proof.
  split_and!; [apply middle_ok; by right| | |by split].
  - split.
    + intros i Hi Hlt. assert (i = 0 ∨ i = 1) as [-> | ->] by lia; vm_compute; reflexivity.
    + intros i Hi Hor. assert (i = 2) as -> by lia. vm_compute. reflexivity.
    + intros i Hi [Hlt|[-> [?|?]]]; [|lia|done]. assert (i = 0 ∨ i = 1) as [-> | ->] by lia; vm_compute; reflexivity.
    + intros x Hx Hne. assert (x = 3) as ->; [|vm_compute; reflexivity].
      pose proof (Hne 0 ltac:(lia) ltac:(lia)) as H0. pose proof (Hne 1 ltac:(lia) ltac:(lia)) as H1'.
      pose proof (Hne 2 ltac:(lia) ltac:(lia)) as H2'. unfold step_dst in *. lia.
  - refine (entry_cases _ _). cbn [seq fmap list_fmap]. entries.
Qed.

Lemma header_found_witness :
  ∃ state', boot_read_image_header loader BOOT_SLOT_PRIMARY image_hdr (Some (bs_at 1)) after1 =
    (Ret (0, hdr_of 1, state'), after1).
Proof.
  destruct (header_found loader 128 2 false (λ _, false) (λ _, false) (old_at after1) (new_at after1) after1
    372 1 0 (bs_at 1) BOOT_SLOT_PRIMARY image_hdr after1) as (state' & Heq).
  - apply setup.
  - by left.
  - lia.
  - lia.
  - lia.
  - reflexivity.
  - reflexivity.
  - reflexivity.
  - reflexivity.
  - apply progress_1.
  - apply resuming_at. by left.
  - lia.
  - exists state'. exact Heq.
Defined.

(** The old header was asked for; the new one is delivered. *)
Lemma old_header_lost_witness :
  ∃ state', boot_read_image_header loader BOOT_SLOT_PRIMARY image_hdr (Some (bs_at 2)) after2 =
    (Ret (0, hdr_of 2, state'), after2).
Proof.
  destruct (old_header_lost loader 128 2 (λ _, false) (λ _, false) (old_at after2) (new_at after2) after2
    372 0 (bs_at 2) image_hdr after2) as (state' & Heq).
  - apply setup.
  - lia.
  - reflexivity.
  - reflexivity.
  - apply progress_2.
  - apply resuming_at. by right.
  - exists state'. exact Heq.
Defined.

End HeaderDemo.
