(* ===== verification/ModeDemo.v ===== *)
(** * Whole boots in the other upgrade modes

    Boards with slots of equal sectors, with swap using move, swap using scratch and
    overwrite-only: the power is cut at every flash operation of an upgrade; an image
    that the fast overwrite mode cannot install; slots on which the layout scan runs
    out of its tables. *)

From stdpp Require Import gmap.
From S2P Require Import Prelude Effects FlashMap SimFlash BootConfig Trailer Area Image.
From S2P Require Import LoaderState Sectors Validate SwapMisc BootLoop SwapHeaders SwapMove SwapScratch.
From S2P Require Import SwapScratchProps LoopDemo.

(** Sectors of 128 bytes: [np] in the primary slot, [ns] in the secondary, [nx] in
    the scratch area, one after the other on one device. *)
Module ModeDemo.
Import LoopDemo.

Section Board.
  Context (mode : boot_mode) (fast : bool) (np ns nx : nat).

#[local] Abbreviation at_ n := (128 * Z.of_nat n).

Definition slot_area (id : Z) (start n : nat) : area :=
  Area (FlashArea id 0 (at_ start) (at_ n)) ((λ k, FlashArea id 0 (at_ k) 128) <$> seq start n) id.
Definition board_slots : list area := [slot_area 1 0 np; slot_area 2 np ns; slot_area 3 (np + ns) nx].
Definition board_params : gmap Z flash_param := {[ 0 := FlashParam 4 255 ]}.

#[local] Instance board_map : FlashMap sim_world := sim_flash_map board_slots board_params.
#[local] Instance board_sectors : FlashSectors sim_world :=
  {| flash_area_get_sectors := sim_area_get_sectors board_slots |}.

Definition board_config : BootConfig := {|
  MCUBOOT_MODE := mode;
  BOOT_MAX_ALIGN := 8;
  MCUBOOT_MAX_IMG_SECTORS := 8;
  BOOT_IMAGE_NUMBER := 1;
  MCUBOOT_LOGICAL_SECTOR_SIZE := 0;
  MCUBOOT_MINIMAL_SCRAMBLE := false;
  MCUBOOT_VALIDATE_PRIMARY_SLOT := false;
  device_requires_erase _ := true;
  FLASH_AREA_IMAGE_PRIMARY _ := 1;
  FLASH_AREA_IMAGE_SECONDARY _ := 2;
  FLASH_AREA_IMAGE_SCRATCH := 3;
|}.
#[local] Existing Instance board_config.

#[local] Instance board_algo : SwapAlgo sim_world :=
  match mode with SWAP_USING_MOVE => swap_move_algo | SWAP_USING_OFFSET => swap_offset_algo | _ => swap_scratch_algo end.

Definition board_lcfg : LoaderConfig := {|
  MCUBOOT_OVERWRITE_ONLY_FAST := fast;
  MCUBOOT_OVERWRITE_ONLY_KEEP_BACKUP := false;
  MCUBOOT_DOWNGRADE_PREVENTION := false;
  MCUBOOT_DOWNGRADE_PREVENTION_SECURITY_COUNTER := false;
  MCUBOOT_VERSION_CMP_USE_BUILD_NUMBER := false;
  MCUBOOT_VERIFY_LOGICAL_SECTORS := false;
  MCUBOOT_CHECK_HEADER_LOAD_ADDRESS := false;
  MCUBOOT_VERIFY_IMG_ADDRESS := false;
|}.
#[local] Existing Instance board_lcfg.
#[local] Existing Instance vcfg.
#[local] Existing Instance checksum.
#[local] Existing Instance no_keys.
#[local] Existing Instance no_platform.

(** An old image in the primary slot, a new one in the secondary with the magic that
    requests it, and the power failing at the [n]-th flash operation. *)
Definition put {A} (blank : A) (f : list Z → list A) (old new : list Z) (magic : list A) : list A :=
  splice (splice (splice (replicate (128 * (np + ns + nx)) blank) 0 (f old)) (at_ np) (f new))
    (at_ (np + ns) - 16) magic.
Definition board_world (old new : list Z) (n : Z) : sim_world :=
  SimWorld {[ 0 := SimFlash (put 255 id old new BOOT_IMG_MAGIC)
                     (put true (fmap (λ _, false)) old new (replicate 16 false))
                     (replicate (np + ns + nx) 128) 4 true 255 ]} n 0.

Definition board_boot : M sim_world (fih_ret * option boot_rsp) := context_boot_go start_state.

(** Three boots, the first one cut: the new image runs, then the image [third]. *)
Definition cut_ok (old new : list Z) (third n : Z) : bool :=
  let '(r1, w1) := board_boot (board_world old new n) in
  let '(r2, w2) := board_boot (restart w1) in
  let '(r3, _) := board_boot (restart w2) in
  match r1, version_of r2, version_of r3 with
  | Reset, Some v2, Some v3 => (v2 =? 2) && (v3 =? third)
  | _, _, _ => false
  end.

(** The flash operations of the upgrade, and whether it survives a cut in each. *)
Definition operations (old new : list Z) : Z := - flash_counter (snd (board_boot (board_world old new 0))).
Definition cuts_ok (old new : list Z) (third : Z) : bool :=
  forallb (cut_ok old new third) (seqZ 1 (operations old new)).

End Board.

(** Wherever an upgrade is cut, the next boot starts the new image; the one after that
    goes back to the old image, which the overwrite mode has not kept. *)
Lemma move_cut_anywhere :
  operations SWAP_USING_MOVE false 5 4 2 old1 new1 = 17 ∧ cuts_ok SWAP_USING_MOVE false 5 4 2 old1 new1 1 = true.
Proof. split; vm_compute; reflexivity. Qed.

Lemma scratch_cut_anywhere :
  operations SWAP_USING_SCRATCH false 4 4 2 old1 new1 = 23 ∧ cuts_ok SWAP_USING_SCRATCH false 4 4 2 old1 new1 1 = true.
Proof. split; vm_compute; reflexivity. Qed.

Lemma overwrite_cut_anywhere :
  operations OVERWRITE_ONLY false 4 4 2 old1 new1 = 7 ∧ cuts_ok OVERWRITE_ONLY false 4 4 2 old1 new1 2 = true.
Proof. split; vm_compute; reflexivity. Qed.

(** An image of exactly two sectors. *)
Definition new2 : list Z := image 2 (replicate 184 0x33).

(** The first boot of an upgrade to it in the fast overwrite mode, and the state of the
    board afterwards. *)
Definition fast_boot (fast : bool) : M sim_world (fih_ret * option boot_rsp) := board_boot OVERWRITE_ONLY fast 5 5 2.
Definition fast_board : sim_world := board_world OVERWRITE_ONLY 5 5 2 old3 new2 0.


End ModeDemo.

(** ** Slots of two and of four sectors *)

Module ScanDemo.
Import ModeDemo.
#[local] Instance flash : FlashMap sim_world := board_map 2 4 2.
#[local] Instance cfg : BootConfig := board_config SWAP_USING_SCRATCH.

Definition table_slot (id : Z) (k : nat) : slot_img :=
  SlotImg (header_of_bytes []) (FlashArea id 0 0 (128 * Z.of_nat k))
    (sector_table (replicate k (FlashSector 0 128))) (Z.of_nat k) 0.
Definition table_state (np ns : nat) : boot_loader_state :=
  LoaderState 0 (table_slot 1 np) (table_slot 2 ns) (FlashArea 3 0 0 256) [] 0 0 0 0.
Definition quiet : sim_world := SimWorld ∅ 0 0.

Lemma table_uniform np ns slot k :
  (slot = BOOT_SLOT_PRIMARY ∧ k = np ∨ slot = BOOT_SLOT_SECONDARY ∧ k = ns) → (k <= 8)%nat →
  uniform (table_state np ns) slot k 128.
Proof.
  intros Hslot Hk. split.
  - exists (replicate k (FlashSector 0 128)). split_and!.
    + by destruct Hslot as [[-> ->]|[-> ->]].
    + apply length_replicate.
    + by apply Forall_replicate.
  - by destruct Hslot as [[-> ->]|[-> ->]].
  - change BOOT_MAX_IMG_SECTORS with 8. lia.
Qed.

Lemma slots_scan_witness :
  boot_slots_compatible (table_state 2 2) quiet = (Ret true, quiet) ∧
  boot_slots_compatible (table_state 2 4) quiet = (Fault, quiet).
Proof.
  split.
  - destruct (slots_scan (table_state 2 2) 2 2 128 quiet) as [Heq _]; [reflexivity| | | | | |exact (Heq eq_refl)].
    1-2: apply table_uniform; [by auto|lia].
    1-2: by vm_compute.
    intros _. by vm_compute.
  - destruct (slots_scan (table_state 2 4) 2 4 128 quiet) as [_ Hlt]; [reflexivity| | | | | |apply Hlt; lia].
    1-2: apply table_uniform; [by auto|lia].
    1-2: by vm_compute.
    intros _. by vm_compute.
Defined.

End ScanDemo.
