(* ===== verification/ValidateDemo.v ===== *)
(** * A signed image on the small board

    The theorems on validation applied to an image with a security counter, a key
    hash and a signature in the secondary slot of the board of BootDemo.v; and those on
    secure boot, for an upgrade to that image. *)

From stdpp Require Import gmap.
From S2P Require Import Prelude Effects Partial FlashMap SimFlash AnyFlash BootConfig Trailer TrailerProps Area AreaProps Image.
From S2P Require Import ImageProps Tlv TlvProps LoaderState Sectors Validate ValidateProps BootLoop SwapHeaders FlashKeeps SecureBoot BootDemo.
From S2P Require Import SwapDemo LoopDemo.

Module ValidateDemo.
Import BootDemo SwapDemo LoopDemo.
#[local] Existing Instance erase_ok.
#[local] Instance cfg : BootConfig := config SWAP_USING_OFFSET true.
#[local] Instance algo : SwapAlgo sim_world := swap_offset_algo.
#[local] Existing Instance checksum.

(** ECDSA signatures, an allow list and rollback protection. *)
Definition vcfg : ValidateConfig := {|
  MCUBOOT_SIGN := SIGN_EC256;
  MCUBOOT_SHA512 := false;
  MCUBOOT_USE_TLV_ALLOW_LIST := true;
  MCUBOOT_HW_ROLLBACK_PROT := true;
  MCUBOOT_HW_ROLLBACK_PROT_COUNTER_LIMITED := false;
  MCUBOOT_UUID_VID := false;
  MCUBOOT_UUID_CID := false;
  BOOT_TMPBUF_SZ := 48;
|}.
#[local] Existing Instance vcfg.

Lemma concat_updates (c : list Z) chunks : foldl app c chunks = c ++ concat chunks.
Proof.
  revert c. induction chunks as [|x l IH]; intros c; cbn; [by rewrite app_nil_r|]. by rewrite IH, app_assoc.
Qed.

Definition checksum_ok : ShaOk.
Proof.
  refine {| sha_digest := digest |}.
  - intros chunks. cbn. by rewrite concat_updates.
  - intros d. unfold digest. by rewrite zlen_le_enc.
Defined.
#[local] Existing Instance checksum_ok.

(** Two keys; a signature is the hash backwards, led by the number of the key. *)
Definition key0 : list Z := [1; 2; 3].
Definition key1 : list Z := [4; 5; 6].
Definition sign (k : Z) (h : list Z) : list Z := k :: reverse h.
Definition signing : Signing := {|
  bootutil_keys := [key0; key1];
  bootutil_verify_sig h s k := if bool_decide (s = sign k h) then FIH_SUCCESS else FIH_FAILURE;
|}.
#[local] Existing Instance signing.

(** The stored counter is 5. *)
Definition platform : Platform sim_world := {|
  boot_nv_security_counter_get _ := mret (FIH_SUCCESS, 5);
  boot_nv_security_counter_update _ _ := mret 0;
  boot_nv_security_counter_is_update_possible _ _ := mret FIH_SUCCESS;
  boot_uuid_vid_match _ _ := mret FIH_FAILURE;
  boot_uuid_cid_match _ _ := mret FIH_FAILURE;
|}.
#[local] Existing Instance platform.
Definition platform_ok : PlatformOk sim_world.
Proof.
  refine {| pf_counter _ _ := (FIH_SUCCESS, 5); pf_possible _ _ _ := FIH_SUCCESS;
            pf_vid _ _ _ := FIH_FAILURE; pf_cid _ _ _ := FIH_FAILURE |}; done.
Defined.
#[local] Existing Instance platform_ok.

(** The image: counter 7, signed with the second key. *)
Definition img_hdr : image_header := ImageHeader IMAGE_MAGIC 0 32 12 100 0 (ImageVersion 2 0 0 0) 0.
Definition prot : list tlv := [(IMAGE_TLV_SEC_CNT, le_enc 4 7)].
Definition signed_part : list Z :=
  header_bytes img_hdr ++ replicate 100 0xa1 ++ enc_pair IMAGE_TLV_PROT_INFO_MAGIC 12 ++ enc_tlvs prot.
Definition hash : list Z := digest signed_part.
Definition tlvs : list tlv := signed_by hash key1 (sign 1 hash) IMAGE_TLV_ECDSA_SIG.
Definition img : list Z :=
  header_bytes img_hdr ++ replicate 100 0xa1 ++ enc_area (Some prot) tlvs.

Definition flashed : sim_world :=
  world true (splice blank 640 img) (splice fresh 640 (replicate (length img) false)).

Lemma flashed_ok : fm_ok flashed.
Proof. apply (board_world_ok true); by vm_compute. Qed.

Lemma span_eq : slice (vals (fm_cells flashed secondary)) 128 (span_size img_hdr) = signed_part.
Proof. vm_compute. reflexivity. Qed.

Lemma tlv_area : tlv_image flashed secondary img_hdr 128 (Some prot) ([] ++ tlvs).
Proof.
  split.
  - by vm_compute.
  - by vm_compute.
  - by vm_compute.
  - repeat constructor; by vm_compute.
  - repeat (constructor; [split_and!; [by vm_compute|by vm_compute|vm_compute; repeat constructor; done]|]). constructor.
  - by vm_compute.
  - vm_compute. reflexivity.
Qed.

Lemma hdr_ok : header_ok img_hdr.
Proof. split; by vm_compute. Qed.

Lemma img_hash_digest_witness :
  bootutil_img_hash loader img_hdr secondary 48 [] flashed = (Ret (0, hash), flashed).
Proof.
  rewrite (img_hash_digest flashed loader img_hdr secondary 48 []).
  - vm_compute. reflexivity.
  - apply flashed_ok.
  - apply area_secondary.
  - apply hdr_ok.
  - lia.
  - by vm_compute.
Defined.

Lemma signed_image_accepted_witness :
  bootutil_img_validate loader img_hdr secondary 48 [] flashed = (Ret (FIH_SUCCESS, Some hash), flashed).
Proof.
  rewrite (signed_image_accepted flashed loader img_hdr secondary 48 384 (Some prot) [] [] [] (Some 7)
    key1 1 (sign 1 hash) IMAGE_TLV_ECDSA_SIG).
  - vm_compute. reflexivity.
  - apply flashed_ok.
  - apply area_secondary.
  - apply hdr_ok.
  - lia.
  - by vm_compute.
  - done.
  - by vm_compute.
  - apply (bool_decide_unpack _). vm_compute. done.
  - done.
  - change (image_start loader secondary) with 128. rewrite span_eq. apply tlv_area.
  - vm_compute. reflexivity.
  - vm_compute. done.
  - done.
  - constructor.
  - constructor.
  - intros c [= <-]. split; [by vm_compute|]. intros _. exists 5. split_and!; [done|by vm_compute|lia|done].
  - done.
  - done.
  - done.
  - by vm_compute.
  - change (image_start loader secondary) with 128. rewrite span_eq. vm_compute. reflexivity.
Defined.

(** The same image is trusted. *)
Lemma validate_sound_witness :
  trusted flashed 0 img_hdr secondary 128 512.
Proof.
  destruct (validate_sound flashed loader img_hdr secondary 48 384) as (r & h & Heq & Hr).
  - apply flashed_ok.
  - apply area_secondary.
  - apply DemoErase.sim_reads_answer; by vm_compute.
  - apply hdr_ok.
  - lia.
  - by vm_compute.
  - by vm_compute.
  - by vm_compute.
  - vm_compute. reflexivity.
  - apply Hr. assert (Hv : fst (bootutil_img_validate loader img_hdr secondary 48 [] flashed) = Ret (FIH_SUCCESS, Some hash))
      by (vm_compute; reflexivity).
    rewrite Heq in Hv. cbn [fst] in Hv. congruence.
Defined.

End ValidateDemo.

(** * Secure boot on the small board

    An upgrade to the signed image above on a board that validates the primary slot. *)

Module SecureDemo.
Import BootDemo LoopDemo ValidateDemo.
#[local] Existing Instance erase_ok.
#[local] Existing Instance checksum.
#[local] Existing Instance checksum_ok.
#[local] Existing Instance vcfg.
#[local] Existing Instance signing.
#[local] Existing Instance platform.
#[local] Existing Instance platform_ok.
#[local] Existing Instance lcfg.

#[local] Instance secure_cfg : BootConfig := {|
  MCUBOOT_MODE := SWAP_USING_OFFSET;
  BOOT_MAX_ALIGN := 8;
  MCUBOOT_MAX_IMG_SECTORS := 8;
  BOOT_IMAGE_NUMBER := 1;
  MCUBOOT_LOGICAL_SECTOR_SIZE := 0;
  MCUBOOT_MINIMAL_SCRAMBLE := false;
  MCUBOOT_VALIDATE_PRIMARY_SLOT := true;
  device_requires_erase _ := true;
  FLASH_AREA_IMAGE_PRIMARY _ := 1;
  FLASH_AREA_IMAGE_SECONDARY _ := 2;
  FLASH_AREA_IMAGE_SCRATCH := 3;
|}.

Lemma params_bytes id p : params !! id = Some p → is_u8 (p_erased_val p).
Proof. unfold params. intros H. apply lookup_singleton_Some in H as [_ <-]. by vm_compute. Qed.

#[local] Instance any_flash : AnyFlash sim_world := sim_any_flash slots params layout (λ _, true) board_wf params_bytes.
#[local] Instance sector_list : FlashSectors sim_world := {| flash_area_get_sectors := sim_area_get_sectors slots |}.
#[local] Instance boot_world : BootWorld sim_world.
Proof.
  split.
  - intros id n w. cbn. unfold sim_area_get_sectors. by destruct (list_find _ _) as [[? ?]|].
  - intros i c w Hw. by apply Partial.returns_ret.
Qed.

#[local] Instance algo_secure : SwapAlgo sim_world := swap_offset_algo.
Definition secure_boot_run : M sim_world (fih_ret * option boot_rsp) := context_boot_go start_state.

Lemma powered_any old new :
  zlen (board old new) = 1152 → zlen (cells_used old new) = 1152 → bytes_okb (board old new) = true →
  any_ok (powered 0 old new).
Proof.
  intros Hd Hs Hb. split; [by apply board_world_ok|]. unfold powered. cbn [flash_map].
  apply map_Forall_singleton. constructor; [|by vm_compute].
  destruct (board_world_ok true _ _ Hd Hs Hb 0 dev_layout (FlashParam 4 255)) as (d & [= <-] & Hdo); [done..|].
  apply (do_bytes _ _ _ _ Hdo).
Qed.

Lemma no_header_ok : header_ok (LoaderState.img_hdr no_image).
Proof. split; by vm_compute. Qed.

(** The boot starts version 2, and [secure_boot] says that it is trusted. *)
Lemma secure_boot_witness :
  ∃ rsp w' hdr w1 limit, secure_boot_run (powered 0 img img) = (Ret (FIH_SUCCESS, rsp), w') ∧
    rsp = Some (BootRsp 0 0 hdr) ∧ unchanged w1 w' ∧ trusted w1 0 hdr primary 0 limit.
Proof.
  assert (Ho : fst (secure_boot_run (powered 0 img img)) = Ret (FIH_SUCCESS, Some (BootRsp 0 0 img_hdr)))
    by (vm_compute; reflexivity).
  destruct (secure_boot_run (powered 0 img img)) as [o w'] eqn:Hrun. cbn [fst] in Ho. subst o.
  destruct (secure_boot 0 primary secondary) with (state := start_state) (w := powered 0 img img)
    (rsp := Some (BootRsp 0 0 img_hdr)) (w' := w') as (hdr & w1 & limit & Hrsp & Hun & Htr).
  - apply area_primary.
  - apply (bool_decide_unpack _). vm_compute. exact I.
  - vm_compute. discriminate.
  - vm_compute. discriminate.
  - split; vm_compute; reflexivity.
  - intros w. vm_compute. reflexivity.
  - intros w. vm_compute. reflexivity.
  - reflexivity.
  - apply powered_any; vm_compute; reflexivity.
  - reflexivity.
  - exact no_header_ok.
  - exact no_header_ok.
  - exact Hrun.
  - exists (Some (BootRsp 0 0 img_hdr)), w', hdr, w1, limit. split_and!; [reflexivity|exact Hrsp|exact Hun|exact Htr].
Defined.


End SecureDemo.
