(* ===== verification/XipDemo.v ===== *)
(** * Two images on a board that starts either slot

    A device with four slots of two sectors.  The second image has a newer version with
    a damaged body; the newer version of the first image depends on a version of the
    second.  The theorems on DirectXIP applied to it, and those on loading to RAM. *)

From stdpp Require Import gmap.
From S2P Require Import Prelude Effects Partial FlashMap SimFlash AnyFlash BootConfig Trailer TrailerProps SwapState SwapStateProps Area.
From S2P Require Import AreaProps Image ImageProps Tlv TlvProps LoaderState Sectors Validate ValidateProps BootLoop MultiImage.
From S2P Require Import DirectXip RamLoad SwapHeaders SwapScratch FlashKeeps AlgoKeeps SecureBoot XipProps DependencyProps XipSecure RamLoadProps LoopDemo.
From S2P Require Import ValidateDemo.

Module XipDemo.
Import LoopDemo.

(** Slot [k] takes the sectors [2 k] and [2 k + 1]; its area has the number [k + 1]. *)
Definition slot_at (k : Z) : flash_area := FlashArea (k + 1) 0 (256 * k) 256.
Definition slot_entry (k : Z) : area :=
  Area (slot_at k) [FlashArea (k + 1) 0 (256 * k) 128; FlashArea (k + 1) 0 (256 * k + 128) 128] (k + 1).
Definition slots : list area := slot_entry <$> [0; 1; 2; 3].
Definition dev_layout : list Z := replicate 8 128.
Definition layout : gmap Z (list Z) := {[ 0 := dev_layout ]}.
Definition params : gmap Z flash_param := {[ 0 := FlashParam 4 255 ]}.

Lemma xip_layout_dev d l : layout !! d = Some l → d = 0 ∧ l = dev_layout.
Proof. unfold layout. intros Hl. by apply lookup_singleton_Some in Hl as [<- <-]. Qed.

Lemma slot_cases (a : area) : a ∈ slots → ∃ k, 0 <= k < 4 ∧ a = slot_entry k.
Proof.
  unfold slots. rewrite list_elem_of_fmap. intros (k & -> & Hk). exists k. split; [|done].
  rewrite !elem_of_cons in Hk. destruct Hk as [->|[->|[->|[->|Hk]]]]; try lia. by apply elem_of_nil in Hk.
Qed.

Lemma slot_wf k : 0 <= k < 4 → area_wf params layout (slot_entry k).
Proof.
  intros Hk. split; cbn; try lia.
  - exists (replicate (2 * Z.to_nat k) 128), (replicate (6 - 2 * Z.to_nat k) 128).
    assert (Hc : k = 0 ∨ k = 1 ∨ k = 2 ∨ k = 3) by lia. destruct Hc as [->|[->|[->| ->]]]; done.
  - intros [|[|i]] s; cbn; try done; intros [= <-]; unfold sector_off, zsum; cbn; lia.
  - exists (FlashParam 4 255), 2. split_and!; try done; [repeat constructor|]. cbn.
    replace (256 * k) with ((64 * k) * 4) by lia. apply Z.mod_mul. done.
Qed.

Lemma xip_board_wf : sim_wf slots params layout.
Proof.
  split.
  - intros d l [-> ->]%xip_layout_dev. repeat constructor.
  - apply list.Forall_forall. intros a (k & Hk & ->)%slot_cases. by apply slot_wf.
  - intros a a' (k & Hk & ->)%slot_cases (k' & Hk' & ->)%slot_cases Hne. unfold disjoint_areas. cbn in *.
    assert (k ≠ k') by (intros ->; done). lia.
Qed.

#[local] Instance flash : FlashMap sim_world := sim_flash_map slots params.
#[local] Instance flash_ok : FlashMapOk sim_world := sim_flash_map_ok slots params layout (λ _, true) xip_board_wf.

Lemma xip_params_bytes id p : params !! id = Some p → is_u8 (p_erased_val p).
Proof. unfold params. intros Hp. apply lookup_singleton_Some in Hp as [_ <-]. by vm_compute. Qed.

#[local] Instance any_flash : AnyFlash sim_world := sim_any_flash slots params layout (λ _, true) xip_board_wf xip_params_bytes.
#[local] Instance sector_list : FlashSectors sim_world := {| flash_area_get_sectors := sim_area_get_sectors slots |}.

(** Image [i] has the areas [2 i + 1] and [2 i + 2]. *)
#[local] Instance cfg : BootConfig := {|
  MCUBOOT_MODE := DIRECT_XIP;
  BOOT_MAX_ALIGN := 8;
  MCUBOOT_MAX_IMG_SECTORS := 2;
  BOOT_IMAGE_NUMBER := 2;
  MCUBOOT_LOGICAL_SECTOR_SIZE := 0;
  MCUBOOT_MINIMAL_SCRAMBLE := false;
  MCUBOOT_VALIDATE_PRIMARY_SLOT := true;
  device_requires_erase _ := true;
  FLASH_AREA_IMAGE_PRIMARY i := 2 * i + 1;
  FLASH_AREA_IMAGE_SECONDARY i := 2 * i + 2;
  FLASH_AREA_IMAGE_SCRATCH := 9;
|}.
#[local] Instance cfg_ok : BootConfigOk.
Proof. split; cbn; [exists 3|..]; lia. Qed.
Definition pri (i : Z) : flash_area := slot_at (2 * i).
Definition sec (i : Z) : flash_area := slot_at (2 * i + 1).

#[local] Instance xcfg : XipConfig := {| MCUBOOT_DIRECT_XIP_REVERT := false |}.
#[local] Existing Instance vcfg.
#[local] Existing Instance lcfg.
#[local] Existing Instance checksum.
#[local] Instance digest_ok : ShaOk.
Proof.
  refine {| sha_digest := digest |}.
  - intros chunks. cbn. by rewrite ValidateDemo.concat_updates.
  - intros d. unfold digest. by rewrite zlen_le_enc.
Defined.
#[local] Existing Instance no_keys.
#[local] Existing Instance ValidateDemo.platform.
#[local] Existing Instance ValidateDemo.platform_ok.
#[local] Instance algo : SwapAlgo sim_world := swap_scratch_algo.

#[local] Instance boot_world : BootWorld sim_world.
Proof.
  split.
  - intros id n w. cbn. unfold sim_area_get_sectors. by destruct (list_find _ _) as [[? ?]|].
  - intros i c w Hw. by apply returns_ret.
Qed.

(** An image of a version with a body and dependencies. *)
Definition image_hdr (v : Z) (ps : list tlv) : image_header :=
  ImageHeader IMAGE_MAGIC 0 32 (prot_size (Some ps)) 40 0 (ImageVersion v 0 0 0) 0.
Definition part (v : Z) (ps : list tlv) : list Z :=
  header_bytes (image_hdr v ps) ++ replicate 40 (0x10 * v) ++ enc_pair IMAGE_TLV_PROT_INFO_MAGIC (prot_size (Some ps)) ++ enc_tlvs ps.
Definition unprot (v : Z) (ps : list tlv) : list tlv := [(IMAGE_TLV_SHA256, digest (part v ps))].
Definition image (v : Z) (ps : list tlv) : list Z :=
  header_bytes (image_hdr v ps) ++ replicate 40 (0x10 * v) ++ enc_area (Some ps) (unprot v ps).

(** On version 2 of the other image. *)
Definition dep2 : list Z := [1; 0; 0; 0; 2; 0; 0; 0; 0; 0; 0; 0].
Definition deps : list tlv := [(IMAGE_TLV_DEPENDENCY, dep2)].
Definition other : list tlv := [(0xa0, [1; 2])].

(** Versions 1 and 2 of the first image; version 2 of the second and a damaged
    version 3. *)
Definition contents : list Z :=
  splice (splice (splice (splice (replicate 1024 255) 0 (image 1 other)) 256 (image 2 deps)) 512 (image 2 other))
    768 (<[60%nat := 0]> (image 3 other)).
Definition used (l : list Z) : list bool := (λ b, b =? 255) <$> l.
Definition board : sim_world := SimWorld {[ 0 := SimFlash contents (used contents) dev_layout 4 true 255 ]} 0 0.

Definition no_area : flash_area := FlashArea 0 0 0 0.
Definition no_swap_state : boot_swap_state := SwapState 0 0 0 0 0.
Definition zero_image (i : Z) : image_state :=
  ImageState (LoaderState i no_image no_image no_area [] 0 0 0 0) (SlotUsage 0 false false 0 0 no_swap_state).
Definition start : boot_data := BootData [zero_image 0; zero_image 1] [false; false].

Definition chosen (r : outcome (fih_ret * option boot_rsp * boot_data) * sim_world) : option (list Z * Z) :=
  match fst r with
  | Ret (FIH_SUCCESS, Some rsp, d) => Some ((λ x, active_slot (im_usage x)) <$> images d, br_image_off rsp)
  | _ => None
  end.

(** The first image is started from its secondary slot, with the primary slot of the
    second one. *)
Lemma boot_board : chosen (xip_context_boot_go start board) = Some ([1; 0], 256).
Proof. vm_compute. reflexivity. Qed.

(** Booted alone, the first image falls back to its older version: its dependency is
    compared with a header of the second image that was not read. *)
Lemma boot_alone : chosen (xip_boot_go_for_image_id start 0 board) = Some ([0; 0], 0).
Proof. vm_compute. reflexivity. Qed.

(** ** The search *)

(** The state after the areas were opened. *)
Definition with_areas (i : Z) (h1 h2 : image_header) (u : slot_usage) : image_state :=
  ImageState (LoaderState i (SlotImg h1 (pri i) [] 0 0) (SlotImg h2 (sec i) [] 0 0) no_area [] 0 0 0 0) u.
Definition ready_image (i : Z) : image_state :=
  with_areas i (header_of_bytes []) (header_of_bytes []) (SlotUsage 0 false false 0 0 no_swap_state).
Definition ready : boot_data := BootData [ready_image 0; ready_image 1] [false; false].


(** ** Reverting *)

Definition test_contents : list Z := splice (splice (replicate 1024 255) 0 (image 1 other)) 240 BOOT_IMG_MAGIC.
Definition test_board : sim_world :=
  SimWorld {[ 0 := SimFlash test_contents (used test_contents) dev_layout 4 true 255 ]} 0 0.
Definition test_image : image_state :=
  with_areas 0 (image_hdr 1 other) (header_of_bytes []) (SlotUsage 0 true false 0 0 no_swap_state).

Definition bytes_okb (data : list Z) : bool := forallb (λ b, (0 <=? b) && (b <? 256)) data.

Lemma bytes_ok data : bytes_okb data = true → Forall is_u8 data.
Proof.
  intros Hb. apply list.Forall_forall. intros x Hx. unfold bytes_okb in Hb. rewrite forallb_forall in Hb.
  specialize (Hb x (proj1 (list_elem_of_In _ _) Hx)). zsimp. unfold is_u8. lia.
Qed.

Lemma board_any data safe :
  zlen data = 1024 → zlen safe = 1024 → bytes_okb data = true →
  any_ok (SimWorld {[ 0 := SimFlash data safe dev_layout 4 true 255 ]} 0 0).
Proof.
  intros Hd Hs Hb. split.
  - intros id l p [-> ->]%xip_layout_dev [= <-]. exists (SimFlash data safe dev_layout 4 true 255). split; [done|]. split; try done.
    by apply bytes_ok.
  - apply map_Forall_singleton. split; [by apply bytes_ok|by vm_compute].
Qed.

Lemma slot_area k : 0 <= k < 4 → sim_area slots (slot_at k).
Proof.
  intros Hk. exists (slot_entry k). split; [|done]. unfold slots. apply list_elem_of_fmap. exists k. split; [done|].
  rewrite !elem_of_cons. lia.
Qed.

Lemma slot_trailer k : 0 <= k < 4 → trailer_area (slot_at k).
Proof. intros Hk. split; [by apply slot_area|by vm_compute..|by right]. Qed.

Lemma slot_blank k : 0 <= k < 4 → can_blank (slot_at k).
Proof.
  intros Hk. assert (Hc : k = 0 ∨ k = 1 ∨ k = 2 ∨ k = 3) by lia.
  destruct Hc as [->|[->|[->| ->]]]; vm_compute; repeat constructor.
Qed.


(** ** Dependencies *)

(** The slots chosen on the board. *)
Definition pair_chosen : boot_data :=
  BootData [with_areas 0 (image_hdr 1 other) (image_hdr 2 deps) (SlotUsage 1 true true 0 0 no_swap_state);
            with_areas 1 (image_hdr 2 other) (image_hdr 3 other) (SlotUsage 0 true false 0 0 no_swap_state)] [false; false].

Lemma board_image k v ps :
  0 <= k < 4 → Forall tlv_ok ps → zlen (enc_tlvs ps) <= 64 → prot_size (Some ps) <= 100 →
  zlen (digest (part v ps)) = 32 → bytes_okb (digest (part v ps)) = true →
  slice (vals (fm_cells board (slot_at k))) 72 (zlen (enc_area (Some ps) (unprot v ps))) = enc_area (Some ps) (unprot v ps) →
  tlv_image board (slot_at k) (image_hdr v ps) 0 (Some ps) (unprot v ps).
Proof.
  intros Hk Hps Hl Hsz Hd Hb Hs. assert (Hu : zlen (enc_tlvs (unprot v ps)) = 36).
  { unfold unprot. rewrite enc_tlvs_cons, zlen_app, zlen_enc_tlv. cbn [snd]. rewrite Hd. done. }
  assert (Hok : tlv_ok (IMAGE_TLV_SHA256, digest (part v ps))).
  { split_and!; [done|cbn [snd]; by rewrite Hd|by apply bytes_ok]. }
  split; cbn [ih_hdr_size ih_img_size image_hdr ih_protect_tlv_size].
  - done.
  - split; [done|]. unfold UINT16_MAX. lia.
  - by rewrite Hu.
  - done.
  - by apply Forall_singleton.
  - rewrite zlen_enc_area, Hu. cbn [fa_size slot_at]. lia.
  - exact Hs.
Qed.

Lemma dependencies_exact_witness :
  ∃ rc d', xip_verify_dependencies pair_chosen board = (Ret (rc, d'), board) ∧
    (rc = 0 ↔ all_met pair_chosen [(Some deps, unprot 2 deps); (Some other, unprot 2 other)] [0; 1]).
Proof.
  destruct (dependencies_exact pair_chosen board [(Some deps, unprot 2 deps); (Some other, unprot 2 other)])
    as (rc & d' & Hr & Hiff & _).
  - reflexivity.
  - apply any_fm_ok, board_any; vm_compute; reflexivity.
  - split; [reflexivity| |].
    + intros x [->|[->|Hx]%elem_of_cons]%elem_of_cons; [by right|by left|]. by apply elem_of_nil in Hx.
    + intros x [->|[->|Hx]%elem_of_cons]%elem_of_cons; [by vm_compute|by vm_compute|]. by apply elem_of_nil in Hx.
  - reflexivity.
  - constructor; [split|constructor; [split|constructor]].
    + apply (slot_area 1). lia.
    + apply (board_image 1 2 deps); [lia|repeat constructor; by vm_compute|by vm_compute..].
    + apply (slot_area 2). lia.
    + apply (board_image 2 2 other); [lia|repeat constructor; by vm_compute|by vm_compute..].
  - exists 0. split; [split; vm_compute; congruence|reflexivity].
  - exists rc, d'. split; [exact Hr|exact Hiff].
Defined.

(** ** The whole boot *)

Lemma slots_are_apart : slots_apart pri sec.
Proof.
  unfold pri, sec. assert (Hslot : ∀ k, 0 <= k < 4 → slot_ok (slot_at k)).
  { intros k Hk. split; [by apply slot_area|by apply slot_blank|done]. }
  split; cbn; intros; try (apply Hslot; lia); unfold slot_at; intros Heq; injection Heq; lia.
Qed.

Lemma zero_fresh i : fresh_image i (zero_image i).
Proof. split_and!; [done|split; by vm_compute..]. Qed.

Lemma xip_secure_boot_witness :
  ∃ rsp d' w', xip_context_boot_go start board = (Ret (FIH_SUCCESS, rsp, d'), w') ∧
    ∃ x, images d' !! 0%nat = Some x ∧ rsp = Some (response_for x) ∧ vouched w' 0 x.
Proof.
  assert (Ho : match fst (xip_context_boot_go start board) with Ret (FIH_SUCCESS, _, _) => true | _ => false end = true)
    by (vm_compute; reflexivity).
  destruct (xip_context_boot_go start board) as [[[[[] rsp] d']| | | |] w'] eqn:Hrun; cbn [fst] in Ho; try discriminate Ho.
  exists rsp, d', w'. split; [reflexivity|].
  destruct (xip_secure_boot pri sec) with (d := start) (w := board) (rsp := rsp) (d' := d') (w' := w')
    as [Hv (i & x & (Hi & Hm & Hfirst) & Hx & Hrsp)].
  - reflexivity.
  - reflexivity.
  - vm_compute. discriminate.
  - vm_compute. discriminate.
  - split; vm_compute; reflexivity.
  - exact slots_are_apart.
  - intros i w Hi. assert (Hc : i = 0 ∨ i = 1) by (cbn in Hi; lia). destruct Hc as [->| ->]; reflexivity.
  - intros i w Hi. assert (Hc : i = 0 ∨ i = 1) by (cbn in Hi; lia). destruct Hc as [->| ->]; reflexivity.
  - apply board_any; vm_compute; reflexivity.
  - reflexivity.
  - intros i x Hi Hx _. assert (Hc : i = 0 ∨ i = 1).
    { apply lookup_lt_Some in Hx. cbn in Hx. lia. }
    destruct Hc as [->| ->]; injection Hx as <-; apply zero_fresh.
  - exists 0. split; [split; vm_compute; congruence|reflexivity].
  - exact Hrun.
  - assert (i = 0) as ->.
    { destruct (decide (i = 0)) as [Hz|Hz]; [exact Hz|]. assert (Hf := Hfirst 0 ltac:(lia)). discriminate Hf. }
    exists x. split; [exact Hx|]. split; [exact Hrsp|]. apply (Hv 0 x); [lia|exact Hx|reflexivity].
Defined.

End XipDemo.

(** * Loading to RAM on the board with four slots

    The second of two images is loaded behind the first one. *)

Module RamDemo.
Import LoopDemo XipDemo.
#[local] Existing Instance XipDemo.flash.
#[local] Existing Instance XipDemo.flash_ok.
#[local] Existing Instance XipDemo.any_flash.
#[local] Existing Instance XipDemo.cfg.
#[local] Existing Instance XipDemo.algo.

(** 4 KiB of RAM for images. *)
#[local] Instance ram_cfg : RamConfig := {|
  IMAGE_RAM_BASE := 0;
  IMAGE_EXECUTABLE_RAM_START := 0x2000;
  IMAGE_EXECUTABLE_RAM_SIZE := 0x1000;
  MULTIPLE_EXECUTABLE_RAM_REGIONS := false;
  boot_get_image_exec_ram_info _ := (1, 0, 0);
|}.

Definition ram_hdr : image_header := ImageHeader IMAGE_MAGIC 0x2100 32 0 40 IMAGE_F_RAM_LOAD (ImageVersion 1 0 0 0) 0.
Definition ram_image : list Z := header_bytes ram_hdr ++ replicate 40 0x77 ++ enc_area None [(0xa0, [1; 2])].
Definition ram_contents : list Z := splice (replicate 1024 255) 512 ram_image.
Definition ram_board : sim_world :=
  SimWorld {[ 0 := SimFlash ram_contents (used ram_contents) dev_layout 4 true 255 ]} 0 0.

(** The first image is in RAM already. *)
Definition first : image_state :=
  with_areas 0 (header_of_bytes []) (header_of_bytes []) (SlotUsage 0 true false 0x2000 0x80 no_swap_state).
Definition second : image_state :=
  with_areas 1 ram_hdr (header_of_bytes []) (SlotUsage 0 true false 0 0 no_swap_state).
Definition both : boot_data := BootData [first; second] [false; false].

Definition in_ram : sram := λ _, 0.

Lemma first_alone : regions_ok (λ j, j ≠ 1) both.
Proof.
  assert (Hone : ∀ j x, 0 <= j → j ≠ 1 → images both !! Z.to_nat j = Some x → j = 0 ∧ x = first).
  { intros j x Hj Hne Hx. assert (Hj0 : j = 0) by (apply lookup_lt_Some in Hx; cbn in Hx; lia). subst j. by injection Hx as <-. }
  split.
  - intros j x Hj Hne Hx _. destruct (Hone j x Hj Hne Hx) as [_ ->]. split; vm_compute; (done || split; done).
  - intros j k x y Hj Hk Hne Hne' Hjk Hx Hy. destruct (Hone j x Hj Hne Hx), (Hone k y Hk Hne' Hy). lia.
Qed.

Lemma ram_load_safe_witness :
  ∃ d' m', boot_load_image_to_sram both 1 in_ram ram_board = (Ret (0, d', m'), ram_board) ∧
    sram_read m' 0x2100 82 = ram_image ∧ regions_ok (λ _, True) d'.
Proof.
  destruct (ram_load_safe both 1 second ram_board in_ram 82 0x2000 0x1000) as (rc & d' & m' & Hload & Hres).
  - apply any_fm_ok, board_any; vm_compute; reflexivity.
  - lia.
  - reflexivity.
  - apply (slot_area 2). lia.
  - vm_compute. discriminate.
  - by vm_compute.
  - vm_compute. reflexivity.
  - by vm_compute.
  - reflexivity.
  - by vm_compute.
  - apply first_alone.
  - assert (Hrc : rc = 0).
    { assert (Ho : match fst (boot_load_image_to_sram both 1 in_ram ram_board) with Ret (rc, _, _) => rc =? 0 | _ => false end = true)
        by (vm_compute; reflexivity).
      rewrite Hload in Ho. cbn [fst] in Ho. apply Z.eqb_eq. exact Ho. }
    subst rc. destruct Hres as (_ & _ & Hread & _ & Hreg). exists d', m'. split; [exact Hload|]. split.
    + change (IMAGE_RAM_BASE + ih_load_addr _) with 0x2100 in Hread. rewrite Hread. vm_compute. reflexivity.
    + apply Hreg. cbn. lia.
Defined.

End RamDemo.
