(* ===== verification/SerialDemo.v ===== *)
(** * Serial recovery on the small board

    The theorems of SerialSession.v on the simulated device of BootDemo.v, with an image
    of 18 bytes, sectors erased as needed and chunks copied to an aligned buffer; and
    concrete messages for the theorems of ZcborEncode.v and SerialProps.v. *)

From stdpp Require Import gmap.
From Stdlib Require Import String.
From S2P Require Import Prelude Effects FlashMap SimFlash BootConfig Trailer TrailerProps SwapState Area AreaProps.
From S2P Require Import Image Tlv LoaderState Sectors Validate SwapMisc BootLoop MultiImage DirectXip SwapOffset SwapHeaders BootDemo LoopDemo.
From S2P Require Import Zcbor ZcborProps ZcborRound ZcborEncode SerialFrame SerialFrameProps SerialLibDemo.
From S2P Require Import Serial SerialImages SerialConsole SerialUpload SerialSession SerialProps.

Module SerialDemo.
Import BootDemo LoopDemo SerialLibDemo.
#[local] Existing Instance erase_ok.
#[local] Instance cfg : BootConfig := config SWAP_USING_OFFSET true.
#[local] Instance algo : SwapAlgo sim_world := swap_offset_algo.
#[local] Existing Instance vcfg.
#[local] Existing Instance lcfg.
#[local] Existing Instance checksum.
#[local] Existing Instance no_keys.
#[local] Existing Instance no_platform.
#[local] Instance sector_list : FlashSectors sim_world := {| flash_area_get_sectors := sim_area_get_sectors slots |}.
#[local] Instance xcfg : XipConfig := {| MCUBOOT_DIRECT_XIP_REVERT := false |}.
#[local] Instance zcfg : ZcborConfig := {| ZCBOR_CANONICAL := false |}.
#[local] Instance fcfg : FrameConfig := {| MCUBOOT_SERIAL_MAX_RECEIVE_SIZE := 512 |}.
#[local] Instance scfg : SerialConfig := {|
  MCUBOOT_SERIAL_IMG_GRP_IMAGE_STATE := true;
  MCUBOOT_SERIAL_IMG_GRP_HASH := true;
  MCUBOOT_SERIAL_IMG_GRP_SLOT_INFO := true;
  MCUBOOT_SERIAL_DIRECT_IMAGE_UPLOAD := false;
  MCUBOOT_ERASE_PROGRESSIVELY := true;
  MCUBOOT_SERIAL_UNALIGNED_BUFFER_SIZE := 4;
  MCUBOOT_VALIDATE_PRIMARY_SLOT_ONCE := false;
  MCUBOOT_SERIAL_RAW_PROTOCOL := false;
  payload_addr := 1;
  slot_partition n := if n =? 0 then Some 1 else None;
|}.
#[local] Instance ccfg : ConsoleConfig := {|
  MCUBOOT_BOOT_MGMT_ECHO := true;
  MCUBOOT_BOOT_MGMT_BOOTLOADER_INFO := true;
  MCUBOOT_BOOT_MGMT_MCUMGR_PARAMS := true;
  MCUBOOT_PERUSER_MGMT_GROUP_ENABLED := false;
  MCUBOOT_SERIAL_WAIT_FOR_DFU := true;
  MCUBOOT_SERIAL_INACTIVITY_TIMEOUT := true;
  RAW_PROTOCOL_INPUT_TIMEOUT_MS := None;
|}.

(** A line that is not part of the device: nothing is received, what is written is
    lost. *)
#[local] Instance line : Uart sim_world := {|
  uart_write _ := mret ();
  uart_read _ := mret (0, [], false);
  k_uptime_get_32 := mret 0;
|}.
#[local] Instance line_ok : UartOk sim_world.
Proof. split. intros w d Hok. by exists w. Qed.
#[local] Instance no_groups : Peruser sim_world := {| bs_peruser_system_specific _ _ z := mret (8, z) |}.

(** A device that is written all over. *)
Definition used : sim_world := world true (replicate 1152 17) (replicate 1152 false).

Lemma used_ok : fm_ok used.
Proof. apply (board_world_ok true); by vm_compute. Qed.

Definition new_image : list Z := seqZ 100 18.

Definition upload_hdr : nmgr_hdr := NmgrHdr 2 0 0 0 (htons 200) (htons 1) 9 1.

(** A request, with an entry the loader does not know. *)
Definition request_entries (off len : Z) : list entry :=
  [(lit "off", CUint off); (lit "sha", CBytes [1; 2]); (lit "data", CBytes (slice new_image off len)); (lit "len", CUint 18)].

Definition request (off len : Z) : list Z :=
  bytes_of_hdr upload_hdr ++ cbor_enc (CMap true (entries_items (request_entries off len))).

Definition start : serial :=
  Serial (replicate 513 0) (replicate 513 0) InBuf (zcbor_new_state (replicate 64 0) 2 0)
    (UploadState 0 0 0 0 (FlashSector 0 0) 0) [None] false 0 false false.

Lemma start_sane : sane start.
Proof. by vm_compute. Qed.

Lemma request_ok off len :
  0 <= off → 0 < len → off + len <= 18 → zlen (request off len) <= 200 → upload_msg new_image 0 off len (request off len).
Proof.
  intros Ho Hl Hol Hzr. assert (Hz : zlen (slice new_image off len) = len) by (apply zlen_slice; [done|lia|change (zlen new_image) with 18; lia]).
  split; [change (zlen new_image) with 18; lia|change max_input with 513; lia|].
  exists upload_hdr, true, (request_entries off len). split; [done|]. split; [by vm_compute|]. split; [by right|]. split; [done|]. split; [done|].
  split; [change (ntohs (nh_len upload_hdr)) with 200; unfold NMGR_HDR_SIZE; lia|].
  assert (Hcok : Forall (λ e : entry, is_u32 (zlen e.1) ∧ cbor_ok e.2) (request_entries off len)).
  { repeat apply List.Forall_cons; [..|apply List.Forall_nil]; (split; [by vm_compute|]); cbn [snd]; constructor; rewrite ?Hz; unfold is_u32; try (change (zlen [1; 2]) with 2); lia. }
  split.
  - split; [apply (bool_decide_unpack (NoDup _)); by vm_compute|]. split; [apply (bool_decide_unpack (_ ∈ _)); by vm_compute|].
    split; [apply (bool_decide_unpack (_ ∈ _)); by vm_compute|]. split.
    { intros _. split; [apply (bool_decide_unpack (_ ∈ _)); by vm_compute|by right]. }
    revert Hcok. unfold request_entries. intros Hcok. repeat apply Forall_cons_1 in Hcok as [[? ?] Hcok].
    repeat apply List.Forall_cons; [..|apply List.Forall_nil]; cbn [fst snd] in *; (split; [done|]); (split; [done|]); by repeat split.
  - constructor; [done|by vm_compute|by vm_compute|]. unfold request_entries, entries_items in *. cbn [flat_map app fst snd] in *.
    repeat apply Forall_cons_1 in Hcok as [[? ?] Hcok]. cbn [fst snd] in *.
    repeat (apply List.Forall_cons; [first [done | by constructor]|]). apply List.Forall_nil.
Qed.

(** ** The board meets the assumptions *)

Lemma primary_area : fm_area primary.
Proof. apply area_primary. Qed.

Lemma primary_erase : device_requires_erase primary = true.
Proof. done. Qed.

Lemma primary_sectors : Forall (λ n, 1 < n) (fm_sizes primary).
Proof. change (fm_sizes primary) with [128; 128; 128; 128]. repeat (apply List.Forall_cons; [lia|]). apply List.Forall_nil. Qed.

Lemma image_bytes : Forall is_u8 new_image.
Proof. unfold new_image. apply Forall_seqZ. intros x Hx. unfold is_u8. lia. Qed.

Lemma open_primary w : fm_ok w → flash_area_open (upload_area_id 0) w = (Ret (0, primary), w).
Proof. done. Qed.

Lemma primary_trailer : trailer_behind primary new_image.
Proof.
  intros _. exists 392, 3%nat. split; [done|]. split; [by exists 128|]. done.
Qed.



(** ** Messages *)

(** Three fields, read by a table that knows two of them and one more. *)
Definition some_fields : list (list Z * field) := [(lit "rc", FUint 300); (lit "hash", FBytes [1; 2; 3]); (lit "bootable", FBool true)].

Definition some_rows : list zcbor_map_decode_key_val :=
  [KeyVal (lit "bootable") (as_bool zcbor_bool_decode) None; KeyVal (lit "len") (as_uint zcbor_uint32_decode) None;
   KeyVal (lit "hash") (as_string zcbor_bstr_decode) None].

Lemma map_codec_witness :
  ∃ s', put_map 10 some_fields (zcbor_new_state (replicate 64 0) 3 0) = (Ret (Some ()), s') ∧
    let msg := slice (buffer s') 0 (payload (pos s')) in
    ∃ map' m s'', zcbor_map_decode_bulk some_rows 0 (zcbor_new_state msg 4 1) = (Ret (0, map', m), s'') ∧
      Forall2 (row_read msg some_fields) some_rows map'.
Proof.
  apply (map_codec some_fields some_rows 10 3 4).
  - apply (bool_decide_unpack (NoDup _)). by vm_compute.
  - repeat apply List.Forall_cons; [..|apply List.Forall_nil]; by vm_compute.
  - by vm_compute.
  - split; [apply (bool_decide_unpack (NoDup _)); by vm_compute|]. split; [cbn; lia|].
    repeat apply List.Forall_cons; [..|apply List.Forall_nil]; (split; [done|]); intros f Hf;
      apply list_elem_of_In in Hf; cbn in Hf; destruct Hf as [Hf|[Hf|[Hf|[]]]]; simplify_eq; done.
  - done.
  - done.
  - done.
  - by vm_compute.
Defined.

(** A map that announces more than it has. *)
Lemma bulk_any_bytes_witness :
  wp (zcbor_map_decode_bulk some_rows 0)
    (λ '(_, map', _) s', buffer s' = [187; 255; 0; 91] ∧ kv_key <$> map' = kv_key <$> some_rows ∧
       Forall (λ e, if kv_found e is Some v then value_ok [187; 255; 0; 91] v else True) map')
    (λ _, False) (zcbor_new_state [187; 255; 0; 91] 4 1).
Proof.
  apply (bulk_any_bytes [187; 255; 0; 91] some_rows 4 1).
  - repeat apply List.Forall_cons; [..|apply List.Forall_nil]; by vm_compute.
  - repeat apply List.Forall_cons; [..|apply List.Forall_nil]; (split; [done|]); [by exists (FBool true)|by exists (FUint 0)|by exists (FBytes [])].
Defined.

(** An echo request that breaks off. *)
Definition echo_start : serial :=
  Serial (splice (replicate 513 0) 0 ([2; 0; 0; 4] ++ [0; 0; 7; 0] ++ [161; 97; 100; 120])) (replicate 513 0) InBuf
    (zcbor_new_state (replicate 64 0) 2 0) (UploadState 0 0 0 0 (FlashSector 0 0) 0) [None] false 0 false false.

Lemma echo_bytes : Forall is_u8 (in_buf echo_start).
Proof. apply (bool_decide_unpack (Forall (λ x, 0 <= x < 256) _)). by vm_compute. Qed.

Lemma other_groups_safe_witness :
  wp (boot_serial_input InBuf 12) (λ _, calm 64 used echo_start) (calm 64 used echo_start) (used, echo_start).
Proof.
  apply (other_groups_safe 64).
  - by vm_compute.
  - apply used_ok.
  - by vm_compute.
  - apply echo_bytes.
  - by vm_compute.
  - done.
  - by vm_compute.
Defined.

Lemma version_printed_witness :
  decimal <$> dotted (bs_list_img_ver (ImageVersion 255 0 65535 4294967295)) = [255; 0; 65535; 4294967295] ∧
  zlen (bs_list_img_ver (ImageVersion 255 0 65535 4294967295)) <= 24.
Proof. apply (version_printed (ImageVersion 255 0 65535 4294967295)); by vm_compute. Defined.

End SerialDemo.
